(** * Mesh simplifier (simplifier.cpp): a shallow embedding and its properties

    The embedding follows [src/simplifier.cpp] function by function.

    - [unsigned int] values are integers in [Z] with the wrap-around modulo
      [2^32] written out ([u32]); [size_t] counters are plain [Z].
    - C arrays are lists indexed by [Z].  A read outside the list yields the
      default element and a write outside the list is dropped; the lemmas
      below show that under the entry points' preconditions every access the
      properties depend on is in range.
    - [float] is IEEE-754 binary32 with round-to-nearest-even, given by the
      standard library's [SpecFloat] at precision 24 and maximal exponent
      128.  NaN payloads are not represented: every NaN is the quiet NaN
      [0x7FC00000] when its bits are observed.
    - [assert] is compiled out (NDEBUG); top-level assertions appear as
      hypotheses of the theorems. *)

From Stdlib Require Import ZArith List Lia Bool Permutation Sorted ListDec.
From Stdlib Require Import Floats.SpecFloat.
Import ListNotations.

Local Open Scope Z_scope.

(* ================================================================= *)
(** ** Machine integers and arrays *)

Definition u32 (x : Z) : Z := x mod 2 ^ 32.

(** [~0u] *)
Definition NONE32 : Z := 4294967295.

Definition len {A : Type} (l : list A) : Z := Z.of_nat (length l).

Fixpoint upd {A : Type} (l : list A) (n : nat) (v : A) : list A :=
  match l, n with
  | [], _ => []
  | _ :: t, O => v :: t
  | x :: t, S k => x :: upd t k v
  end.

(** [a[i]] *)
Definition aget {A : Type} (d : A) (a : list A) (i : Z) : A :=
  if i <? 0 then d else nth (Z.to_nat i) a d.

(** [a[i] = v] *)
Definition aset {A : Type} (a : list A) (i : Z) (v : A) : list A :=
  if i <? 0 then a else upd a (Z.to_nat i) v.

Definition geti (a : list Z) (i : Z) : Z := aget 0 a i.

(** [for (size_t i = 0; i < n; ++i) s = body i s], counting upwards from
    [i]. *)
Fixpoint for_from {St : Type} (n : nat) (i : Z) (body : Z -> St -> St) (s : St) : St :=
  match n with
  | O => s
  | S k => for_from k (i + 1) body (body i s)
  end.

Definition for_loop {St : Type} (n : Z) (body : Z -> St -> St) (s : St) : St :=
  for_from (Z.to_nat n) 0 body s.

(** The same loop with a body that can fail; a failure aborts the run. *)
Fixpoint for_from_opt {St : Type} (n : nat) (i : Z) (body : Z -> St -> option St) (s : St)
  : option St :=
  match n with
  | O => Some s
  | S k => match body i s with
           | Some s' => for_from_opt k (i + 1) body s'
           | None => None
           end
  end.

Definition for_loop_opt {St : Type} (n : Z) (body : Z -> St -> option St) (s : St) : option St :=
  for_from_opt (Z.to_nat n) 0 body s.

(** A loop whose body can [break]: the body returns the new state and
    whether it left the loop. *)
Fixpoint for_from_break {St : Type} (n : nat) (i : Z) (body : Z -> St -> St * bool) (s : St)
  : St :=
  match n with
  | O => s
  | S k => let '(s', brk) := body i s in
           if brk then s' else for_from_break k (i + 1) body s'
  end.

Definition for_break {St : Type} (n : Z) (body : Z -> St -> St * bool) (s : St) : St :=
  for_from_break (Z.to_nat n) 0 body s.

Definition bind {A B : Type} (m : option A) (f : A -> option B) : option B :=
  match m with
  | Some x => f x
  | None => None
  end.

Notation "'let?' x ':=' m 'in' k" := (bind m (fun x => k))
  (at level 10, x pattern, m at level 100, k at level 200).

(* ================================================================= *)
(** ** binary32 floating point *)

Module F32.

Definition prec : Z := 24.
Definition emax : Z := 128.

Definition float := spec_float.

Definition add : float -> float -> float := SFadd prec emax.
Definition sub : float -> float -> float := SFsub prec emax.
Definition mul : float -> float -> float := SFmul prec emax.
Definition div : float -> float -> float := SFdiv prec emax.
Definition sqrt : float -> float := SFsqrt prec emax.
Definition abs : float -> float := SFabs.
Definition opp : float -> float := SFopp.

(** [x < y], [x <= y], [x == y]; all false when an operand is NaN. *)
Definition ltb : float -> float -> bool := SFltb.
Definition leb : float -> float -> bool := SFleb.
Definition eqb : float -> float -> bool := SFeqb.
(** [x > y] *)
Definition gtb (x y : float) : bool := SFltb y x.

Definition is_nan (x : float) : bool :=
match x with S754_nan => true | _ => false end.

Definition zero : float := S754_zero false.
Definition one : float := S754_finite false 8388608 (-23).
Definition two : float := S754_finite false 8388608 (-22).
Definition half : float := S754_finite false 8388608 (-24).
Definition ten : float := S754_finite false 10485760 (-20).
(** [1.5f] *)
Definition one_and_half : float := S754_finite false 12582912 (-23).
(** [1023.5f] *)
Definition c1023_5 : float := S754_finite false 16769024 (-14).
Definition FLT_MAX : float := S754_finite false 16777215 104.

(** Reinterpretation of a 32-bit word as a float. *)
Definition of_bits (w : Z) : float :=
let s := Z.testbit w 31 in
let e := Z.land (Z.shiftr w 23) 255 in
let m := Z.land w 8388607 in
if e =? 0 then
  match m with
  | Zpos p => S754_finite s p (-149)
  | _ => S754_zero s
  end
else if e =? 255 then
  (if m =? 0 then S754_infinity s else S754_nan)
else
  match m + 8388608 with
  | Zpos p => S754_finite s p (e - 150)
  | _ => S754_nan
  end.

(** Reinterpretation of a float as a 32-bit word. *)
Definition to_bits (x : float) : Z :=
let sign (s : bool) := if s then 2147483648 else 0 in
match x with
| S754_zero s => sign s
| S754_infinity s => sign s + 2139095040
| S754_nan => 2143289344
| S754_finite s m e =>
    if Zpos m <? 8388608 then sign s + Zpos m
    else sign s + Z.shiftl (e + 150) 23 + (Zpos m - 8388608)
end.

(** [int(x)]: truncation towards zero.  The conversion is undefined in C
  when the value does not fit in [int]; the model returns [INT_MIN] there,
  as the x86 conversion instructions do. *)
Definition INT_MIN : Z := -2147483648.

Definition to_int (x : float) : Z :=
match x with
| S754_zero _ => 0
| S754_finite s m e =>
    let a := if e <? 0 then Z.shiftr (Zpos m) (- e) else Z.shiftl (Zpos m) e in
    let v := if s then - a else a in
    if (INT_MIN <=? v) && (v <=? 2147483647) then v else INT_MIN
| _ => INT_MIN
end.

End F32.

Definition float : Type := F32.float.

(* ================================================================= *)
(** ** Edge adjacency *)

Record EdgeAdjacency := {
  counts : list Z;
  offsets : list Z;
  data : list Z
}.

Definition buildEdgeAdjacency (indices : list Z) (index_count vertex_count : Z)
  : EdgeAdjacency :=
  let face_count := index_count / 3 in
  (* fill edge counts *)
  let counts0 := repeat 0 (Z.to_nat vertex_count) in
  let counts1 :=
    for_loop index_count
      (fun i c => aset c (geti indices i) (u32 (geti c (geti indices i) + 1)))
      counts0 in
  (* fill offset table *)
  let '(offsets1, _) :=
    for_loop vertex_count
      (fun i '(o, offset) => (aset o i offset, u32 (offset + geti counts1 i)))
      (repeat 0 (Z.to_nat vertex_count), 0) in
  (* fill edge data *)
  let '(offsets2, data1) :=
    for_loop face_count
      (fun i '(o, d) =>
         let a := geti indices (i * 3 + 0) in
         let b := geti indices (i * 3 + 1) in
         let c := geti indices (i * 3 + 2) in
         let d := aset d (geti o a) b in
         let o := aset o a (u32 (geti o a + 1)) in
         let d := aset d (geti o b) c in
         let o := aset o b (u32 (geti o b + 1)) in
         let d := aset d (geti o c) a in
         let o := aset o c (u32 (geti o c + 1)) in
         (o, d))
      (offsets1, repeat 0 (Z.to_nat index_count)) in
  (* fix offsets that have been disturbed by the previous pass *)
  let offsets3 :=
    for_loop vertex_count
      (fun i o => aset o i (u32 (geti o i - geti counts1 i)))
      offsets2 in
  {| counts := counts1; offsets := offsets3; data := data1 |}.

(* ================================================================= *)
(** ** Hashing *)

(** The [Hash] template parameter of [hashLookup2]. *)
Record Hasher (T : Type) := {
  hash : T -> Z;
  equal : T -> T -> bool
}.
Arguments hash {T}.
Arguments equal {T}.

(** The position stream is an array of 32-bit words (the bit patterns of the
    floats), [vertex_stride_float] words apart. *)
Definition position_word (vertex_positions : list Z) (vertex_stride_float : Z)
  (index j : Z) : Z :=
  geti vertex_positions (index * vertex_stride_float + j).

Definition murmur_m : Z := 1540483477. (* 0x5bd1e995 *)

Definition PositionHasher_hash (vertex_positions : list Z) (vertex_stride_float : Z)
  (index : Z) : Z :=
  for_loop 3
    (fun i h =>
       let k := position_word vertex_positions vertex_stride_float index i in
       let k := u32 (k * murmur_m) in
       let k := Z.lxor k (Z.shiftr k 24) in
       let k := u32 (k * murmur_m) in
       let h := u32 (h * murmur_m) in
       Z.lxor h k)
    0.

(** [memcmp] over the three position words. *)
Definition PositionHasher_equal (vertex_positions : list Z) (vertex_stride_float : Z)
  (lhs rhs : Z) : bool :=
  (position_word vertex_positions vertex_stride_float lhs 0
     =? position_word vertex_positions vertex_stride_float rhs 0)
  && (position_word vertex_positions vertex_stride_float lhs 1
     =? position_word vertex_positions vertex_stride_float rhs 1)
  && (position_word vertex_positions vertex_stride_float lhs 2
     =? position_word vertex_positions vertex_stride_float rhs 2).

Definition PositionHasher (vertex_positions : list Z) (vertex_stride_float : Z)
  : Hasher Z :=
  {| hash := PositionHasher_hash vertex_positions vertex_stride_float;
     equal := PositionHasher_equal vertex_positions vertex_stride_float |}.

(** [while (buckets < count) buckets *= 2] on a 64-bit [size_t]: after 64
    doublings [buckets] has wrapped to zero and the loop cannot end. *)
Fixpoint hashBuckets2_loop (fuel : nat) (buckets count : Z) : option Z :=
  if buckets <? count then
    match fuel with
    | O => None
    | S f => hashBuckets2_loop f ((buckets * 2) mod 2 ^ 64) count
    end
  else Some buckets.

Definition hashBuckets2 (count : Z) : option Z := hashBuckets2_loop 64 1 count.

Section HashLookup.
Context {T : Type}.
(** [operator==] of [T], the hasher, and the default element of the table. *)
Variable eqT : T -> T -> bool.
Variable hasher : Hasher T.
Variable dflt : T.

(** The probe loop, from iteration [probe] with [fuel] iterations left.
    The result is the index of the slot whose address the source returns;
    [None] is the fall-through to [assert(false && "Hash table is full")]
    and the null return. *)
Fixpoint hashLookup2_probe (fuel : nat) (table : list T) (hashmod bucket probe : Z)
  (key empty : T) : option Z :=
  match fuel with
  | O => None
  | S f =>
      let item := aget dflt table bucket in
      if eqT item empty then Some bucket
      else if equal hasher item key then Some bucket
      else hashLookup2_probe f table hashmod
             (Z.land (bucket + probe + 1) hashmod) (probe + 1) key empty
  end.

Definition hashLookup2 (table : list T) (buckets : Z) (key empty : T) : option Z :=
  let hashmod := buckets - 1 in
  let bucket := Z.land (hash hasher key) hashmod in
  hashLookup2_probe (Z.to_nat (hashmod + 1)) table hashmod bucket 0 key empty.
End HashLookup.

(* ================================================================= *)
(** ** Position remap and wedge ring *)

(** One iteration of the loop that builds the forward remap. *)
Definition buildPositionRemap_insert (hasher : Hasher Z) (table_size : Z) (i : Z)
  (st : list Z * list Z) : option (list Z * list Z) :=
  let '(table, remap) := st in
  let index := u32 i in
  let? entry := hashLookup2 Z.eqb hasher 0 table table_size index NONE32 in
  let table :=
    if geti table entry =? NONE32 then aset table entry index else table in
  Some (table, aset remap index (geti table entry)).

(** One iteration of the loop that builds the wedge table. *)
Definition buildPositionRemap_splice (remap : list Z) (i : Z) (wedge : list Z) : list Z :=
  if negb (geti remap i =? i) then
    let r := geti remap i in
    let wedge := aset wedge i (geti wedge r) in
    aset wedge r (u32 i)
  else wedge.

Definition buildPositionRemap (vertex_positions_data : list Z)
  (vertex_count vertex_positions_stride : Z) : option (list Z * list Z) :=
  let hasher := PositionHasher vertex_positions_data (vertex_positions_stride / 4) in
  let? table_size := hashBuckets2 vertex_count in
  let table := repeat NONE32 (Z.to_nat table_size) in
  (* build forward remap: for each vertex, which other (canonical) vertex does it map to? *)
  let? (_, remap) :=
    for_loop_opt vertex_count (buildPositionRemap_insert hasher table_size)
      (table, repeat 0 (Z.to_nat vertex_count)) in
  (* build wedge table: for each vertex, which other vertex is the next wedge that
     also maps to the same vertex? *)
  let wedge :=
    for_loop vertex_count (fun i w => aset w i (u32 i)) (repeat 0 (Z.to_nat vertex_count)) in
  let wedge := for_loop vertex_count (buildPositionRemap_splice remap) wedge in
  Some (remap, wedge).

(* ================================================================= *)
(** ** Vertex classification *)

Inductive VertexKind :=
| Kind_Manifold (* not on an attribute seam, not on any boundary *)
| Kind_Border   (* not on an attribute seam, has exactly two open edges *)
| Kind_Seam     (* on an attribute seam with exactly two attribute seam edges *)
| Kind_Locked   (* none of the above; these vertices can't move *).

Definition VertexKind_eqb (a b : VertexKind) : bool :=
  match a, b with
  | Kind_Manifold, Kind_Manifold | Kind_Border, Kind_Border
  | Kind_Seam, Kind_Seam | Kind_Locked, Kind_Locked => true
  | _, _ => false
  end.

Definition kCanCollapse (k0 k1 : VertexKind) : bool :=
  match k0, k1 with
  | Kind_Manifold, _ => true
  | Kind_Border, Kind_Border => true
  | Kind_Seam, Kind_Seam => true
  | _, _ => false
  end.

Definition kHasOpposite (k0 k1 : VertexKind) : bool :=
  match k0, k1 with
  | Kind_Manifold, _ => true
  | Kind_Border, (Kind_Manifold | Kind_Seam) => true
  | Kind_Border, _ => false
  | Kind_Seam, _ => true
  | Kind_Locked, (Kind_Manifold | Kind_Seam) => true
  | Kind_Locked, _ => false
  end.

(** The early [return true] is the disjunction becoming true. *)
Definition hasEdge (adjacency : EdgeAdjacency) (a b : Z) : bool :=
  let count := geti (counts adjacency) a in
  let base := geti (offsets adjacency) a in
  for_loop count
    (fun i found => found || (geti (data adjacency) (base + i) =? b))
    false.

(** The [do ... while (v != a)] walk along the wedge ring, entered at [v];
    [None] when [fuel] iterations did not end it. *)
Fixpoint findWedgeEdge_walk (fuel : nat) (adjacency : EdgeAdjacency) (wedge : list Z)
  (a b v : Z) : option Z :=
  match fuel with
  | O => None
  | S f =>
      if hasEdge adjacency v b then Some v
      else
        let v := geti wedge v in
        if negb (v =? a) then findWedgeEdge_walk f adjacency wedge a b v
        else Some NONE32
  end.

Definition findWedgeEdge (fuel : nat) (adjacency : EdgeAdjacency) (wedge : list Z)
  (a b : Z) : option Z :=
  findWedgeEdge_walk fuel adjacency wedge a b a.

(** Returns the count and the value left in [*last], which starts as
    [last]. *)
Definition countOpenEdges (adjacency : EdgeAdjacency) (vertex : Z) (last : Z) : Z * Z :=
  let count := geti (counts adjacency) vertex in
  let base := geti (offsets adjacency) vertex in
  for_loop count
    (fun i '(result, last) =>
       if negb (hasEdge adjacency (geti (data adjacency) (base + i)) vertex)
       then (result + 1, geti (data adjacency) (base + i))
       else (result, last))
    (0, last).

Definition kind_at (vertex_kind : list VertexKind) (i : Z) : VertexKind :=
  aget Kind_Manifold vertex_kind i.

(** One iteration of the main loop of [classifyVertices]. *)
Definition classifyVertices_step (fuel : nat) (adjacency : EdgeAdjacency)
  (remap wedge : list Z) (i : Z) (st : list VertexKind * list Z)
  : option (list VertexKind * list Z) :=
  let '(result, loop) := st in
  if geti remap i =? i then
    if geti wedge i =? i then
      (* no attribute seam, need to check if it's manifold *)
      let '(edges, v) := countOpenEdges adjacency (u32 i) 0 in
      if edges =? 0 then Some (aset result i Kind_Manifold, loop)
      else if edges =? 1 then Some (aset result i Kind_Border, aset loop i v)
      else Some (aset result i Kind_Locked, loop)
    else if geti wedge (geti wedge i) =? i then
      (* attribute seam; need to distinguish between Seam and Locked *)
      let '(a_count, a) := countOpenEdges adjacency (u32 i) 0 in
      let '(b_count, b) := countOpenEdges adjacency (geti wedge i) 0 in
      if (a_count =? 1) && (b_count =? 1) then
        let? ao := findWedgeEdge fuel adjacency wedge a (geti wedge i) in
        let? bo := findWedgeEdge fuel adjacency wedge b (u32 i) in
        if negb (ao =? NONE32) && negb (bo =? NONE32) then
          Some (aset result i Kind_Seam, aset (aset loop i a) (geti wedge i) b)
        else Some (aset result i Kind_Locked, loop)
      else Some (aset result i Kind_Locked, loop)
    else
      (* more than one vertex maps to this one *)
      Some (aset result i Kind_Locked, loop)
  else
    Some (aset result i (kind_at result (geti remap i)), loop).

(** [fuel] bounds each wedge-ring walk; a ring has at most [vertex_count]
    members. *)
Definition classifyVertices (fuel : nat) (vertex_count : Z) (adjacency : EdgeAdjacency)
  (remap wedge : list Z) : option (list VertexKind * list Z) :=
  let loop := for_loop vertex_count (fun i l => aset l i NONE32)
                (repeat 0 (Z.to_nat vertex_count)) in
  for_loop_opt vertex_count (classifyVertices_step fuel adjacency remap wedge)
    (repeat Kind_Manifold (Z.to_nat vertex_count), loop).

(* ================================================================= *)
(** ** Position rescaling *)

Module Vector3.
Record t := mk { x : float; y : float; z : float }.
End Vector3.

Definition Vector3_zero : Vector3.t := Vector3.mk F32.zero F32.zero F32.zero.

Definition position_float (vertex_positions_data : list Z) (vertex_stride_float : Z)
  (i j : Z) : float :=
  F32.of_bits (position_word vertex_positions_data vertex_stride_float i j).

(** The first loop: copies the positions and tracks the bounds. *)
Definition rescalePositions_bounds (vertex_positions_data : list Z)
  (vertex_count vertex_stride_float : Z)
  : list Vector3.t * (float * float * float) * (float * float * float) :=
  for_loop vertex_count
    (fun i '(result, (min0, min1, min2), (max0, max1, max2)) =>
       let v := position_float vertex_positions_data vertex_stride_float i in
       let result := aset result i (Vector3.mk (v 0) (v 1) (v 2)) in
       let lo (m vj : float) := if F32.gtb m vj then vj else m in
       let hi (m vj : float) := if F32.ltb m vj then vj else m in
       (result,
        (lo min0 (v 0), lo min1 (v 1), lo min2 (v 2)),
        (hi max0 (v 0), hi max1 (v 1), hi max2 (v 2))))
    (repeat Vector3_zero (Z.to_nat vertex_count),
     (F32.FLT_MAX, F32.FLT_MAX, F32.FLT_MAX),
     (F32.opp F32.FLT_MAX, F32.opp F32.FLT_MAX, F32.opp F32.FLT_MAX)).

Definition rescalePositions_extent (minv maxv : float * float * float) : float :=
  let '(min0, min1, min2) := minv in
  let '(max0, max1, max2) := maxv in
  let extent := F32.zero in
  let extent := if F32.ltb (F32.sub max0 min0) extent then extent else F32.sub max0 min0 in
  let extent := if F32.ltb (F32.sub max1 min1) extent then extent else F32.sub max1 min1 in
  let extent := if F32.ltb (F32.sub max2 min2) extent then extent else F32.sub max2 min2 in
  extent.

Definition rescalePositions_scale (extent : float) : float :=
  if F32.eqb extent F32.zero then F32.zero else F32.div F32.one extent.

Definition rescalePositions (vertex_positions_data : list Z)
  (vertex_count vertex_positions_stride : Z) : list Vector3.t :=
  let vertex_stride_float := vertex_positions_stride / 4 in
  let '(result, minv, maxv) :=
    rescalePositions_bounds vertex_positions_data vertex_count vertex_stride_float in
  let extent := rescalePositions_extent minv maxv in
  let scale := rescalePositions_scale extent in
  let '(min0, min1, min2) := minv in
  for_loop vertex_count
    (fun i result =>
       let r := aget Vector3_zero result i in
       aset result i
         (Vector3.mk (F32.mul (F32.sub (Vector3.x r) min0) scale)
                     (F32.mul (F32.sub (Vector3.y r) min1) scale)
                     (F32.mul (F32.sub (Vector3.z r) min2) scale)))
    result.

(* ================================================================= *)
(** ** Quadrics *)

Record Quadric := {
  a00 : float;
  a10 : float; a11 : float;
  a20 : float; a21 : float; a22 : float;
  b0 : float; b1 : float; b2 : float; c : float
}.

(** [memset(..., 0, ...)] *)
Definition Quadric_zero : Quadric :=
  {| a00 := F32.zero; a10 := F32.zero; a11 := F32.zero;
     a20 := F32.zero; a21 := F32.zero; a22 := F32.zero;
     b0 := F32.zero; b1 := F32.zero; b2 := F32.zero; c := F32.zero |}.

Declare Scope f32_scope.
Delimit Scope f32_scope with f32.
Infix "+" := F32.add : f32_scope.
Infix "-" := F32.sub : f32_scope.
Infix "*" := F32.mul : f32_scope.
Infix "/" := F32.div : f32_scope.

(** Returns the length and the vector left in [v]. *)
Definition normalize (v : Vector3.t) : float * Vector3.t :=
  let '(Vector3.mk x y z) := v in
  let length := F32.sqrt (x * x + y * y + z * z)%f32 in
  if F32.gtb length F32.zero
  then (length, Vector3.mk (x / length)%f32 (y / length)%f32 (z / length)%f32)
  else (length, v).

Definition quadricAdd (Q R : Quadric) : Quadric :=
  {| a00 := (a00 Q + a00 R)%f32;
     a10 := (a10 Q + a10 R)%f32;
     a11 := (a11 Q + a11 R)%f32;
     a20 := (a20 Q + a20 R)%f32;
     a21 := (a21 Q + a21 R)%f32;
     a22 := (a22 Q + a22 R)%f32;
     b0 := (b0 Q + b0 R)%f32;
     b1 := (b1 Q + b1 R)%f32;
     b2 := (b2 Q + b2 R)%f32;
     c := (c Q + c R)%f32 |}.

Definition quadricMul (Q : Quadric) (s : float) : Quadric :=
  {| a00 := (a00 Q * s)%f32;
     a10 := (a10 Q * s)%f32;
     a11 := (a11 Q * s)%f32;
     a20 := (a20 Q * s)%f32;
     a21 := (a21 Q * s)%f32;
     a22 := (a22 Q * s)%f32;
     b0 := (b0 Q * s)%f32;
     b1 := (b1 Q * s)%f32;
     b2 := (b2 Q * s)%f32;
     c := (c Q * s)%f32 |}.

Definition quadricError (Q : Quadric) (v : Vector3.t) : float :=
  let rx := b0 Q in
  let ry := b1 Q in
  let rz := b2 Q in
  let rx := (rx + a10 Q * Vector3.y v)%f32 in
  let ry := (ry + a21 Q * Vector3.z v)%f32 in
  let rz := (rz + a20 Q * Vector3.x v)%f32 in
  let rx := (rx * F32.two)%f32 in
  let ry := (ry * F32.two)%f32 in
  let rz := (rz * F32.two)%f32 in
  let rx := (rx + a00 Q * Vector3.x v)%f32 in
  let ry := (ry + a11 Q * Vector3.y v)%f32 in
  let rz := (rz + a22 Q * Vector3.z v)%f32 in
  let r := c Q in
  let r := (r + rx * Vector3.x v)%f32 in
  let r := (r + ry * Vector3.y v)%f32 in
  let r := (r + rz * Vector3.z v)%f32 in
  F32.abs r.

Definition quadricFromPlane (a b c d : float) : Quadric :=
  {| a00 := (a * a)%f32;
     a10 := (b * a)%f32;
     a11 := (b * b)%f32;
     a20 := (c * a)%f32;
     a21 := (c * b)%f32;
     a22 := (c * c)%f32;
     b0 := (d * a)%f32;
     b1 := (d * b)%f32;
     b2 := (d * c)%f32;
     c := (d * d)%f32 |}.

Definition v3sub (p q : Vector3.t) : Vector3.t :=
  Vector3.mk (Vector3.x p - Vector3.x q)%f32 (Vector3.y p - Vector3.y q)%f32
             (Vector3.z p - Vector3.z q)%f32.

Definition v3dot (p q : Vector3.t) : float :=
  (Vector3.x p * Vector3.x q + Vector3.y p * Vector3.y q + Vector3.z p * Vector3.z q)%f32.

Definition quadricFromTriangle (p0 p1 p2 : Vector3.t) : Quadric :=
  let p10 := v3sub p1 p0 in
  let p20 := v3sub p2 p0 in
  let normal :=
    Vector3.mk
      (Vector3.y p10 * Vector3.z p20 - Vector3.z p10 * Vector3.y p20)%f32
      (Vector3.z p10 * Vector3.x p20 - Vector3.x p10 * Vector3.z p20)%f32
      (Vector3.x p10 * Vector3.y p20 - Vector3.y p10 * Vector3.x p20)%f32 in
  let '(area, normal) := normalize normal in
  let distance := v3dot normal p0 in
  let Q := quadricFromPlane (Vector3.x normal) (Vector3.y normal) (Vector3.z normal)
             (F32.opp distance) in
  quadricMul Q area.

Definition quadricFromTriangleEdge (p0 p1 p2 : Vector3.t) (weight : float) : Quadric :=
  let p10 := v3sub p1 p0 in
  let '(length, p10) := normalize p10 in
  let p20 := v3sub p2 p0 in
  let p20p := v3dot p20 p10 in
  let normal :=
    Vector3.mk (Vector3.x p20 - Vector3.x p10 * p20p)%f32
               (Vector3.y p20 - Vector3.y p10 * p20p)%f32
               (Vector3.z p20 - Vector3.z p10 * p20p)%f32 in
  let '(_, normal) := normalize normal in
  let distance := v3dot normal p0 in
  let Q := quadricFromPlane (Vector3.x normal) (Vector3.y normal) (Vector3.z normal)
             (F32.opp distance) in
  quadricMul Q (length * length * weight)%f32.

Definition pos_at (vertex_positions : list Vector3.t) (i : Z) : Vector3.t :=
  aget Vector3_zero vertex_positions i.

Definition quadric_at (vertex_quadrics : list Quadric) (i : Z) : Quadric :=
  aget Quadric_zero vertex_quadrics i.

(** [quadricAdd(vertex_quadrics[i], Q)] *)
Definition quadric_accumulate (vertex_quadrics : list Quadric) (i : Z) (Q : Quadric)
  : list Quadric :=
  aset vertex_quadrics i (quadricAdd (quadric_at vertex_quadrics i) Q).

(** Loops of the form [for (size_t i = 0; i < index_count; i += 3)] run
    once per triangle, with [i = 3 * t]. *)
Definition triangle_loops (index_count : Z) : Z := (index_count + 2) / 3.

Definition fillFaceQuadrics (vertex_quadrics : list Quadric) (indices : list Z)
  (index_count : Z) (vertex_positions : list Vector3.t) (remap : list Z) : list Quadric :=
  for_loop (triangle_loops index_count)
    (fun t vertex_quadrics =>
       let i := 3 * t in
       let i0 := geti indices (i + 0) in
       let i1 := geti indices (i + 1) in
       let i2 := geti indices (i + 2) in
       let Q := quadricFromTriangle (pos_at vertex_positions i0)
                  (pos_at vertex_positions i1) (pos_at vertex_positions i2) in
       let vertex_quadrics := quadric_accumulate vertex_quadrics (geti remap i0) Q in
       let vertex_quadrics := quadric_accumulate vertex_quadrics (geti remap i1) Q in
       quadric_accumulate vertex_quadrics (geti remap i2) Q)
    vertex_quadrics.

(** [static const int next[3] = {1, 2, 0}] *)
Definition next3 (e : Z) : Z :=
  if e =? 0 then 1 else if e =? 1 then 2 else 0.

Definition fillEdgeQuadrics (vertex_quadrics : list Quadric) (indices : list Z)
  (index_count : Z) (vertex_positions : list Vector3.t) (remap : list Z)
  (vertex_kind : list VertexKind) (loop : list Z) : list Quadric :=
  for_loop (triangle_loops index_count)
    (fun t vertex_quadrics =>
       let i := 3 * t in
       for_loop 3
         (fun e vertex_quadrics =>
            let i0 := geti indices (i + e) in
            let i1 := geti indices (i + next3 e) in
            let k0 := kind_at vertex_kind i0 in
            let k1 := kind_at vertex_kind i1 in
            if negb (VertexKind_eqb k0 k1)
               || (negb (VertexKind_eqb k0 Kind_Border) && negb (VertexKind_eqb k0 Kind_Seam))
               || negb (geti loop i0 =? i1)
            then vertex_quadrics
            else
              let i2 := geti indices (i + next3 (next3 e)) in
              let kEdgeWeightSeam := F32.one in
              let kEdgeWeightBorder := F32.ten in
              let edgeWeight :=
                if VertexKind_eqb k0 Kind_Seam then kEdgeWeightSeam else kEdgeWeightBorder in
              let Q := quadricFromTriangleEdge (pos_at vertex_positions i0)
                         (pos_at vertex_positions i1) (pos_at vertex_positions i2)
                         edgeWeight in
              let vertex_quadrics := quadric_accumulate vertex_quadrics (geti remap i0) Q in
              quadric_accumulate vertex_quadrics (geti remap i1) Q)
         vertex_quadrics)
    vertex_quadrics.

(* ================================================================= *)
(** ** Collapse candidates *)

(** The anonymous union of [struct Collapse]: the member written last.
    Reading another member reinterprets the bits. *)
Inductive CollapseData :=
| as_bidi (bidi : Z)
| as_error (error : float).

Module Collapse.
Record t := mk { v0 : Z; v1 : Z; u : CollapseData }.

Definition bidi (c : t) : Z :=
  match u c with
  | as_bidi b => b
  | as_error e => F32.to_bits e
  end.

Definition error (c : t) : float :=
  match u c with
  | as_bidi b => F32.of_bits b
  | as_error e => e
  end.

Definition errorui (c : t) : Z := bidi c.
End Collapse.

Definition Collapse_zero : Collapse.t := Collapse.mk 0 0 (as_bidi 0).

Definition collapse_at (collapses : list Collapse.t) (i : Z) : Collapse.t :=
  aget Collapse_zero collapses i.

(** The candidates for one half-edge [i0 -> i1]: the record appended to
    [collapses], if any. *)
Definition pickEdgeCollapses_edge (remap : list Z) (vertex_kind : list VertexKind)
  (loop : list Z) (i0 i1 : Z) : option Collapse.t :=
  if geti remap i0 =? geti remap i1 then None
  else
    let k0 := kind_at vertex_kind i0 in
    let k1 := kind_at vertex_kind i1 in
    (* the edge has to be collapsible in at least one direction *)
    if negb (kCanCollapse k0 k1 || kCanCollapse k1 k0) then None
    (* manifold and seam edges should occur twice - skip redundant edges *)
    else if kHasOpposite k0 k1 && (geti remap i1 >? geti remap i0) then None
    (* two vertices on a border or a seam without a direct edge between them *)
    else if VertexKind_eqb k0 k1
            && (VertexKind_eqb k0 Kind_Border || VertexKind_eqb k0 Kind_Seam)
            && negb (geti loop i0 =? i1) then None
    else if kCanCollapse k0 k1 && kCanCollapse k1 k0 then
      Some (Collapse.mk i0 i1 (as_bidi 1))
    else
      (* edge can only be collapsed in one direction *)
      let e0 := if kCanCollapse k0 k1 then i0 else i1 in
      let e1 := if kCanCollapse k0 k1 then i1 else i0 in
      Some (Collapse.mk e0 e1 (as_bidi 0)).

(** The array [collapses] is filled from the front; the list returned is its
    first [collapse_count] elements. *)
Definition pickEdgeCollapses (indices : list Z) (index_count : Z) (remap : list Z)
  (vertex_kind : list VertexKind) (loop : list Z) : list Collapse.t :=
  for_loop (triangle_loops index_count)
    (fun t collapses =>
       let i := 3 * t in
       for_loop 3
         (fun e collapses =>
            let i0 := geti indices (i + e) in
            let i1 := geti indices (i + next3 e) in
            match pickEdgeCollapses_edge remap vertex_kind loop i0 i1 with
            | Some c => collapses ++ [c]
            | None => collapses
            end)
         collapses)
    [].

Definition rankEdgeCollapses_one (vertex_positions : list Vector3.t)
  (vertex_quadrics : list Quadric) (remap : list Z) (c : Collapse.t) : Collapse.t :=
  let i0 := Collapse.v0 c in
  let i1 := Collapse.v1 c in
  let j0 := if negb (Collapse.bidi c =? 0) then i1 else i0 in
  let j1 := if negb (Collapse.bidi c =? 0) then i0 else i1 in
  let ei := quadricError (quadric_at vertex_quadrics (geti remap i0))
              (pos_at vertex_positions i1) in
  let ej := quadricError (quadric_at vertex_quadrics (geti remap j0))
              (pos_at vertex_positions j1) in
  (* pick edge direction with minimal error *)
  Collapse.mk (if F32.leb ei ej then i0 else j0)
              (if F32.leb ei ej then i1 else j1)
              (as_error (if F32.leb ei ej then ei else ej)).

Definition rankEdgeCollapses (collapses : list Collapse.t) (collapse_count : Z)
  (vertex_positions : list Vector3.t) (vertex_quadrics : list Quadric) (remap : list Z)
  : list Collapse.t :=
  for_loop collapse_count
    (fun i collapses =>
       aset collapses i
         (rankEdgeCollapses_one vertex_positions vertex_quadrics remap
            (collapse_at collapses i)))
    collapses.

(* ================================================================= *)
(** ** Sorting *)

Definition sort_bits : Z := 11.

(** [(errorui << 1) >> (32 - sort_bits)] on [unsigned int]. *)
Definition sort_key (errorui : Z) : Z :=
  Z.shiftr (u32 (Z.shiftl errorui 1)) (32 - sort_bits).

(** fill histogram for counting sort *)
Definition sortEdgeCollapses_histogram (collapses : list Collapse.t) (collapse_count : Z)
  : list Z :=
  for_loop collapse_count
    (fun i histogram =>
       (* skip sign bit since error is non-negative *)
       let key := sort_key (Collapse.errorui (collapse_at collapses i)) in
       aset histogram key (u32 (geti histogram key + 1)))
    (repeat 0 (Z.to_nat (Z.shiftl 1 sort_bits))).

(** compute offsets based on histogram data *)
Definition sortEdgeCollapses_offsets (histogram : list Z) : list Z * Z :=
  for_loop (Z.shiftl 1 sort_bits)
    (fun i '(histogram, histogram_sum) =>
       let count := geti histogram i in
       (aset histogram i (u32 histogram_sum), histogram_sum + count))
    (histogram, 0).

(** compute sort order based on offsets *)
Definition sortEdgeCollapses_order (sort_order : list Z) (collapses : list Collapse.t)
  (collapse_count : Z) (histogram : list Z) : list Z * list Z :=
  for_loop collapse_count
    (fun i '(sort_order, histogram) =>
       (* skip sign bit since error is non-negative *)
       let key := sort_key (Collapse.errorui (collapse_at collapses i)) in
       (aset sort_order (geti histogram key) (u32 i),
        aset histogram key (u32 (geti histogram key + 1))))
    (sort_order, histogram).

(** [sort_order] is the array as the caller hands it over. *)
Definition sortEdgeCollapses (sort_order : list Z) (collapses : list Collapse.t)
  (collapse_count : Z) : list Z :=
  let histogram := sortEdgeCollapses_histogram collapses collapse_count in
  let '(histogram, _) := sortEdgeCollapses_offsets histogram in
  let '(sort_order, _) :=
    sortEdgeCollapses_order sort_order collapses collapse_count histogram in
  sort_order.

(* ================================================================= *)
(** ** Collapse application *)

(** The arrays [performEdgeCollapses] writes and its two counters.
    [applied] is not in the source: it logs, oldest first, the records whose
    collapse was carried out, the way the TRACE build reports them. *)
Module CS.
Record t := mk {
  collapse_remap : list Z;
  collapse_locked : list Z;
  vertex_quadrics : list Quadric;
  edge_collapses : Z;
  triangle_collapses : Z;
  applied : list Collapse.t
}.
End CS.

(** One iteration; the flag is [break], an unchanged state without it is
    [continue]. *)
Definition performEdgeCollapses_step (collapses : list Collapse.t)
  (collapse_order remap wedge : list Z) (vertex_kind : list VertexKind)
  (triangle_collapse_goal : Z) (error_limit : float) (i : Z) (st : CS.t)
  : CS.t * bool :=
  let c := collapse_at collapses (geti collapse_order i) in
  if F32.gtb (Collapse.error c) error_limit then (st, true)
  else if CS.triangle_collapses st >=? triangle_collapse_goal then (st, true)
  else
    let i0 := Collapse.v0 c in
    let i1 := Collapse.v1 c in
    let r0 := geti remap i0 in
    let r1 := geti remap i1 in
    (* we don't collapse vertices that had source or target vertex involved in a collapse *)
    if negb (Z.lor (geti (CS.collapse_locked st) r0) (geti (CS.collapse_locked st) r1) =? 0)
    then (st, false)
    else
      let quadrics :=
        quadric_accumulate (CS.vertex_quadrics st) r1 (quadric_at (CS.vertex_quadrics st) r0) in
      let cr :=
        if VertexKind_eqb (kind_at vertex_kind i0) Kind_Seam then
          (* remap v0 to v1 and seam pair of v0 to seam pair of v1 *)
          let s0 := geti wedge i0 in
          let s1 := geti wedge i1 in
          aset (aset (CS.collapse_remap st) i0 i1) s0 s1
        else
          aset (CS.collapse_remap st) i0 i1 in
      let locked := aset (aset (CS.collapse_locked st) r0 1) r1 1 in
      ({| CS.collapse_remap := cr;
          CS.collapse_locked := locked;
          CS.vertex_quadrics := quadrics;
          CS.edge_collapses := CS.edge_collapses st + 1;
          (* border edges collapse 1 triangle, other edges collapse 2 or more *)
          CS.triangle_collapses :=
            CS.triangle_collapses st
            + (if VertexKind_eqb (kind_at vertex_kind i0) Kind_Border then 1 else 2);
          CS.applied := CS.applied st ++ [c] |}, false).

Definition performEdgeCollapses (collapse_remap collapse_locked : list Z)
  (vertex_quadrics : list Quadric) (collapses : list Collapse.t) (collapse_count : Z)
  (collapse_order remap wedge : list Z) (vertex_kind : list VertexKind)
  (triangle_collapse_goal : Z) (error_limit : float) : CS.t :=
  for_break collapse_count
    (performEdgeCollapses_step collapses collapse_order remap wedge vertex_kind
       triangle_collapse_goal error_limit)
    {| CS.collapse_remap := collapse_remap;
       CS.collapse_locked := collapse_locked;
       CS.vertex_quadrics := vertex_quadrics;
       CS.edge_collapses := 0;
       CS.triangle_collapses := 0;
       CS.applied := [] |}.

(** Compacts [indices] in place; returns the array and [write]. *)
Definition remapIndexBuffer (indices : list Z) (index_count : Z) (collapse_remap : list Z)
  : list Z * Z :=
  for_loop (triangle_loops index_count)
    (fun t '(indices, write) =>
       let i := 3 * t in
       let v0 := geti collapse_remap (geti indices (i + 0)) in
       let v1 := geti collapse_remap (geti indices (i + 1)) in
       let v2 := geti collapse_remap (geti indices (i + 2)) in
       if negb (v0 =? v1) && negb (v0 =? v2) && negb (v1 =? v2) then
         let indices := aset indices (write + 0) v0 in
         let indices := aset indices (write + 1) v1 in
         let indices := aset indices (write + 2) v2 in
         (indices, write + 3)
       else (indices, write))
    (indices, 0).

Definition remapEdgeLoops (loop : list Z) (vertex_count : Z) (collapse_remap : list Z)
  : list Z :=
  for_loop vertex_count
    (fun i loop =>
       if negb (geti loop i =? NONE32) then
         let l := geti loop i in
         let r := geti collapse_remap l in
         (* i == r is a special case when the seam edge is collapsed in a direction
            opposite to where loop goes *)
         aset loop i (if i =? r then geti loop l else r)
       else loop)
    loop.

(* ================================================================= *)
(** ** The exact simplifier *)

(** What the TRACE build prints per pass: the error limit and the collapses
    carried out. *)
Record PassLog := {
  pass_error_limit : float;
  pass_applied : list Collapse.t
}.

(** The variables that live across iterations of the outer loop.
    [passes] is the log of the completed passes, oldest first. *)
Module SS.
Record t := mk {
  result : list Z;
  result_count : Z;
  loop : list Z;
  vertex_quadrics : list Quadric;
  collapse_order : list Z;
  passes : list PassLog
}.
End SS.

Section SimplifyPass.
Variable vertex_count target_index_count : Z.
Variable target_error : float.
Variable remap wedge : list Z.
Variable vertex_kind : list VertexKind.
Variable vertex_positions : list Vector3.t.

Definition pass_error_goal (edge_collapses : list Collapse.t) (collapse_order : list Z)
  (edge_collapse_goal edge_collapse_count : Z) : float :=
  let kPassErrorBound := F32.one_and_half in
  if edge_collapse_goal <? edge_collapse_count
  then (Collapse.error (collapse_at edge_collapses (geti collapse_order edge_collapse_goal))
        * kPassErrorBound)%f32
  else F32.FLT_MAX.

Definition pass_error_limit_of (error_goal : float) : float :=
  if F32.gtb error_goal target_error then target_error else error_goal.

(** The body of [while (result_count > target_index_count)]: [inl] is a
    [break], [inr] the state for the next iteration. *)
Definition simplify_pass (st : SS.t) : SS.t + SS.t :=
  let edge_collapses :=
    pickEdgeCollapses (SS.result st) (SS.result_count st) remap vertex_kind (SS.loop st) in
  let edge_collapse_count := len edge_collapses in
  (* no edges can be collapsed any more due to topology restrictions *)
  if edge_collapse_count =? 0 then inl st
  else
    let edge_collapses :=
      rankEdgeCollapses edge_collapses edge_collapse_count vertex_positions
        (SS.vertex_quadrics st) remap in
    let collapse_order :=
      sortEdgeCollapses (SS.collapse_order st) edge_collapses edge_collapse_count in
    let triangle_collapse_goal := (SS.result_count st - target_index_count) / 3 in
    let edge_collapse_goal := triangle_collapse_goal / 2 in
    let error_goal :=
      pass_error_goal edge_collapses collapse_order edge_collapse_goal
        edge_collapse_count in
    let error_limit := pass_error_limit_of error_goal in
    let collapse_remap0 :=
      for_loop vertex_count (fun i a => aset a i (u32 i))
        (repeat 0 (Z.to_nat vertex_count)) in
    let collapse_locked0 := repeat 0 (Z.to_nat vertex_count) in
    let cs :=
      performEdgeCollapses collapse_remap0 collapse_locked0 (SS.vertex_quadrics st)
        edge_collapses edge_collapse_count collapse_order remap wedge vertex_kind
        triangle_collapse_goal error_limit in
    let st1 := {| SS.result := SS.result st; SS.result_count := SS.result_count st;
                  SS.loop := SS.loop st; SS.vertex_quadrics := CS.vertex_quadrics cs;
                  SS.collapse_order := collapse_order; SS.passes := SS.passes st |} in
    (* no edges can be collapsed any more due to hitting the error limit or
       triangle collapse limit *)
    if CS.edge_collapses cs =? 0 then inl st1
    else
      let loop := remapEdgeLoops (SS.loop st) vertex_count (CS.collapse_remap cs) in
      let '(result, new_count) :=
        remapIndexBuffer (SS.result st) (SS.result_count st) (CS.collapse_remap cs) in
      inr {| SS.result := result; SS.result_count := new_count;
             SS.loop := loop; SS.vertex_quadrics := CS.vertex_quadrics cs;
             SS.collapse_order := collapse_order;
             SS.passes := SS.passes st
                          ++ [{| pass_error_limit := error_limit;
                                 pass_applied := CS.applied cs |}] |}.

(** The outer loop; [None] when [fuel] iterations did not end it. *)
Fixpoint simplify_loop (fuel : nat) (st : SS.t) : option SS.t :=
  if SS.result_count st >? target_index_count then
    match fuel with
    | O => None
    | S f =>
        match simplify_pass st with
        | inl st' => Some st'
        | inr st' => simplify_loop f st'
        end
    end
  else Some st.
End SimplifyPass.

(** What [meshopt_simplify] computes before its outer loop and does not
    change afterwards. *)
Record SimplifyTables := {
  remap : list Z;
  wedge : list Z;
  vertex_kind : list VertexKind;
  vertex_positions : list Vector3.t
}.

(** [meshopt_simplify] up to the outer loop: the tables and the loop's
    first state. *)
Definition simplify_prepare (indices : list Z) (index_count : Z)
  (vertex_positions_data : list Z) (vertex_count vertex_positions_stride : Z)
  : option (SimplifyTables * SS.t) :=
  (* build adjacency information *)
  let adjacency := buildEdgeAdjacency indices index_count vertex_count in
  (* build position remap that maps each vertex to the one with identical position *)
  let? (remap, wedge) :=
    buildPositionRemap vertex_positions_data vertex_count vertex_positions_stride in
  (* classify vertices; vertex kind determines collapse rules, see kCanCollapse *)
  let? (vertex_kind, loop) :=
    classifyVertices (Z.to_nat vertex_count) vertex_count adjacency remap wedge in
  let vertex_positions :=
    rescalePositions vertex_positions_data vertex_count vertex_positions_stride in
  let vertex_quadrics := repeat Quadric_zero (Z.to_nat vertex_count) in
  let vertex_quadrics :=
    fillFaceQuadrics vertex_quadrics indices index_count vertex_positions remap in
  let vertex_quadrics :=
    fillEdgeQuadrics vertex_quadrics indices index_count vertex_positions remap
      vertex_kind loop in
  (* [destination] holds the first [index_count] input indices, whether it
     is the input array itself or was filled by [memcpy] *)
  let result := firstn (Z.to_nat index_count) indices in
  Some ({| remap := remap; wedge := wedge; vertex_kind := vertex_kind;
           vertex_positions := vertex_positions |},
        {| SS.result := result; SS.result_count := index_count; SS.loop := loop;
           SS.vertex_quadrics := vertex_quadrics;
           SS.collapse_order := repeat 0 (Z.to_nat index_count);
           SS.passes := [] |}).

(** The body of the outer loop with the tables of this run. *)
Definition simplify_pass_of (tables : SimplifyTables)
  (vertex_count target_index_count : Z) (target_error : float)
  : SS.t -> SS.t + SS.t :=
  simplify_pass vertex_count target_index_count target_error (remap tables) (wedge tables)
    (vertex_kind tables) (vertex_positions tables).

(** [fuel] bounds the number of passes; [None] when it is used up. *)
Definition meshopt_simplify (fuel : nat) (indices : list Z) (index_count : Z)
  (vertex_positions_data : list Z) (vertex_count vertex_positions_stride : Z)
  (target_index_count : Z) (target_error : float) : option SS.t :=
  let? (tables, st) :=
    simplify_prepare indices index_count vertex_positions_data vertex_count
      vertex_positions_stride in
  simplify_loop vertex_count target_index_count target_error (remap tables) (wedge tables)
    (vertex_kind tables) (vertex_positions tables) fuel st.

(* ================================================================= *)
(** ** The sloppy simplifier

    The source selects one variant at compile time: SLOP_TARGET_BINARY and
    SLOP_TARGET_CELLS_APPROX are 1, SLOP_FILTER_DUPLICATES is 0 and
    SLOP_CACHE_ERRORS is 1.  That variant is the one embedded. *)

Module HashCell.
Record t := mk { id : Z; cell : Z }.
End HashCell.

(** [HashCell::operator==] *)
Definition HashCell_eqb (a b : HashCell.t) : bool :=
  HashCell.id a =? HashCell.id b.

(** MurmurHash2 finalizer *)
Definition HashCellHasher_hash (cell : HashCell.t) : Z :=
  let h := HashCell.id cell in
  let h := Z.lxor h (Z.shiftr h 13) in
  let h := u32 (h * murmur_m) in
  let h := Z.lxor h (Z.shiftr h 15) in
  h.

Definition HashCellHasher : Hasher HashCell.t :=
  {| hash := HashCellHasher_hash;
     equal := fun lhs rhs => HashCell.id lhs =? HashCell.id rhs |}.

(** [memset(table, -1, ...)] *)
Definition HashCell_ones : HashCell.t := HashCell.mk NONE32 NONE32.

Definition cell_at (table : list HashCell.t) (i : Z) : HashCell.t :=
  aget HashCell_ones table i.

(** [(xi << 20) | (yi << 10) | zi], stored in an [unsigned int]. *)
Definition pack_cell_id (xi yi zi : Z) : Z :=
  u32 (Z.lor (Z.lor (Z.shiftl xi 20) (Z.shiftl yi 10)) zi).

(** [int(v * 1023.5f + 0.5f)] *)
Definition grid_coordinate (v : float) : Z :=
  F32.to_int (v * F32.c1023_5 + F32.half)%f32.

Definition sloppy_vertex_ids (vertex_positions : list Vector3.t) (vertex_count : Z)
  : list Z :=
  for_loop vertex_count
    (fun i vertex_ids =>
       let v := pos_at vertex_positions i in
       let xi := grid_coordinate (Vector3.x v) in
       let yi := grid_coordinate (Vector3.y v) in
       let zi := grid_coordinate (Vector3.z v) in
       aset vertex_ids i (pack_cell_id xi yi zi))
    (repeat 0 (Z.to_nat vertex_count)).

Definition sloppy_mask (pass : Z) : Z :=
  let maskc := Z.land 1023 (Z.lnot (Z.shiftl 1 (9 - pass) - 1)) in
  Z.lor (Z.lor (Z.shiftl maskc 20) (Z.shiftl maskc 10)) maskc.

(** The approximate count of occupied cells under [mask]. *)
Definition sloppy_count_cells (vertex_ids : list Z) (vertex_count count_table_size mask : Z)
  : Z :=
  let '(cell_count, _) :=
    for_loop vertex_count
      (fun i '(cell_count, count_table) =>
         let id := Z.land (geti vertex_ids i) mask in
         let cell := HashCell.mk id 0 in
         let hash := Z.land (hash HashCellHasher cell) (count_table_size - 1) in
         (cell_count + (1 - geti count_table hash), aset count_table hash 1))
      (0, repeat 0 (Z.to_nat count_table_size)) in
  cell_count.

(** find approx mask *)
Definition sloppy_find_mask (vertex_ids : list Z)
  (vertex_count count_table_size target_cell_count : Z) : Z :=
  for_break 10
    (fun pass (_ : Z) =>
       let mask := sloppy_mask pass in
       let cell_count := sloppy_count_cells vertex_ids vertex_count count_table_size mask in
       (mask, cell_count >=? target_cell_count))
    0.

(** One iteration of the loop that fills [table] and [vertex_cells]. *)
Definition sloppy_fill_step (vertex_ids : list Z) (table_size mask : Z) (i : Z)
  (st : list HashCell.t * list Z * Z) : option (list HashCell.t * list Z * Z) :=
  let '(table, vertex_cells, cell_count) := st in
  let id := Z.land (geti vertex_ids i) mask in
  let cell := HashCell.mk id 0 in
  let? entry :=
    hashLookup2 HashCell_eqb HashCellHasher HashCell_ones table table_size cell
      HashCell_ones in
  let '(table, cell_count) :=
    if HashCell.id (cell_at table entry) =? NONE32
    then (aset table entry (HashCell.mk id (u32 cell_count)), cell_count + 1)
    else (table, cell_count) in
  Some (table, aset vertex_cells i (HashCell.cell (cell_at table entry)), cell_count).

(** fill with approx mask: returns [vertex_cells] and [cell_count]. *)
Definition sloppy_fill_cells (vertex_ids : list Z) (vertex_count table_size mask : Z)
  : option (list Z * Z) :=
  let? (_, vertex_cells, cell_count) :=
    for_loop_opt vertex_count (sloppy_fill_step vertex_ids table_size mask)
      (repeat HashCell_ones (Z.to_nat table_size), repeat 0 (Z.to_nat vertex_count), 0) in
  Some (vertex_cells, cell_count).

(** One iteration of the third pass; [cell_errors] caches the error of the
    vertex in [cell_remap]. *)
Definition sloppy_cell_remap_step (vertex_positions : list Vector3.t)
  (cell_quadrics : list Quadric) (vertex_cells : list Z) (i : Z)
  (st : list Z * list float) : list Z * list float :=
  let '(cell_remap, cell_errors) := st in
  let cell := geti vertex_cells i in
  if geti cell_remap cell =? NONE32 then
    (aset cell_remap cell (u32 i),
     aset cell_errors cell
       (quadricError (quadric_at cell_quadrics cell) (pos_at vertex_positions i)))
  else
    let j := geti cell_remap cell in
    let ei := quadricError (quadric_at cell_quadrics cell) (pos_at vertex_positions i) in
    let ej := aget F32.zero cell_errors cell in
    (aset cell_remap cell (if F32.ltb ei ej then u32 i else j),
     aset cell_errors cell (if F32.ltb ei ej then ei else ej)).

(** third pass: for each target cell, find the vertex with the minimal error *)
Definition sloppy_cell_remap (vertex_positions : list Vector3.t)
  (cell_quadrics : list Quadric) (vertex_cells : list Z) (vertex_count cell_count : Z)
  : list Z :=
  fst (for_loop vertex_count
         (sloppy_cell_remap_step vertex_positions cell_quadrics vertex_cells)
         (repeat NONE32 (Z.to_nat cell_count), repeat F32.zero (Z.to_nat cell_count))).

(** fourth pass: collapse triangles; returns [destination] and [write]. *)
Definition sloppy_emit (destination indices : list Z) (index_count : Z)
  (cell_remap vertex_cells : list Z) : list Z * Z :=
  for_loop (triangle_loops index_count)
    (fun t '(destination, write) =>
       let i := 3 * t in
       let v0 := geti cell_remap (geti vertex_cells (geti indices (i + 0))) in
       let v1 := geti cell_remap (geti vertex_cells (geti indices (i + 1))) in
       let v2 := geti cell_remap (geti vertex_cells (geti indices (i + 2))) in
       if negb (v0 =? v1) && negb (v0 =? v2) && negb (v1 =? v2) then
         let destination := aset destination (write + 0) v0 in
         let destination := aset destination (write + 1) v1 in
         let destination := aset destination (write + 2) v2 in
         (destination, write + 3)
       else (destination, write))
    (destination, 0).

(** [destination] is the caller's buffer as it is on entry.  The triangles
    are read from [indices]: when the two arrays are the same one, a
    triangle is read before anything is written at or after its place
    ([write <= i]), so reading the array as it was on entry is what the
    source does. *)
Definition meshopt_simplifySloppy (destination indices : list Z) (index_count : Z)
  (vertex_positions_data : list Z) (vertex_count vertex_positions_stride : Z)
  (target_index_count : Z) (target_error : float) : option (list Z * Z) :=
  (* we expect to get ~2 triangles/vertex in the output *)
  let target_cell_count := target_index_count / 6 in
  if target_cell_count =? 0 then Some (destination, 0)
  else
    let vertex_positions :=
      rescalePositions vertex_positions_data vertex_count vertex_positions_stride in
    let? table_size := hashBuckets2 vertex_count in
    (* first pass: fill cell ids and vertex ids *)
    let vertex_ids := sloppy_vertex_ids vertex_positions vertex_count in
    let? count_table_size := hashBuckets2 (target_cell_count * 4) in
    let mask := sloppy_find_mask vertex_ids vertex_count count_table_size target_cell_count in
    let? (vertex_cells, cell_count) :=
      sloppy_fill_cells vertex_ids vertex_count table_size mask in
    (* second pass: build a quadric for each target cell *)
    let cell_quadrics := repeat Quadric_zero (Z.to_nat cell_count) in
    let cell_quadrics :=
      fillFaceQuadrics cell_quadrics indices index_count vertex_positions vertex_cells in
    let cell_remap :=
      sloppy_cell_remap vertex_positions cell_quadrics vertex_cells vertex_count cell_count in
    Some (sloppy_emit destination indices index_count cell_remap vertex_cells).

(* ================================================================= *)
(** ** Definitions used in the statements *)

(** A slot at which the probe loop of [hashLookup2] stops: empty, or holding
    the key. *)
Definition slot_accepts {T : Type} (eqT : T -> T -> bool) (hasher : Hasher T) (dflt : T)
  (table : list T) (key empty : T) (e : Z) : Prop :=
  eqT (aget dflt table e) empty = true \/ equal hasher (aget dflt table e) key = true.

(** The bucket examined at iteration [k] of the probe loop that starts at
    [b0]: [bucket = (bucket + probe + 1) & hashmod] applied [k] times. *)
Fixpoint probe_bucket (hashmod b0 : Z) (k : nat) : Z :=
  match k with
  | O => b0
  | S k' => Z.land (probe_bucket hashmod b0 k' + Z.of_nat k' + 1) hashmod
  end.

(** Triangular numbers. *)
Fixpoint triangular (k : nat) : Z :=
  match k with
  | O => 0
  | S k' => triangular k' + Z.of_nat k' + 1
  end.

(** Number of slots of an [unsigned int] hash table that are in use. *)
Definition occupied (table : list Z) : nat :=
  length (filter (fun x => negb (x =? NONE32)) table).

(** What the rest of the simplifier relies on from [buildPositionRemap]. *)
Record remap_ok (vertex_count : Z) (remap wedge : list Z) : Prop := {
  rk_len_remap : len remap = vertex_count;
  rk_len_wedge : len wedge = vertex_count;
  rk_remap_le : forall i, 0 <= i < vertex_count -> 0 <= geti remap i <= i;
  rk_remap_idem : forall i, 0 <= i < vertex_count ->
    geti remap (geti remap i) = geti remap i;
  rk_wedge_range : forall i, 0 <= i < vertex_count -> 0 <= geti wedge i < vertex_count;
  rk_wedge_remap : forall i, 0 <= i < vertex_count ->
    geti remap (geti wedge i) = geti remap i;
  rk_wedge_inj : forall i j, 0 <= i < vertex_count -> 0 <= j < vertex_count ->
    geti wedge i = geti wedge j -> i = j;
  rk_wedge_noncanon : forall i, 0 <= i < vertex_count ->
    geti remap i <> i -> geti wedge i <> i
}.

(** The invariant of the loop that interns the positions, before iteration
    [i]; the table has [2^n] slots. *)
Definition insert_inv (vertex_count n : Z) (i : Z) (st : list Z * list Z) : Prop :=
  let '(table, remap) := st in
  len table = 2 ^ n /\ len remap = vertex_count
  /\ (Z.of_nat (occupied table) <= i)
  /\ (forall e, 0 <= e < 2 ^ n -> geti table e = NONE32
                \/ (0 <= geti table e < i /\ geti remap (geti table e) = geti table e))
  /\ (forall j, 0 <= j < i -> 0 <= geti remap j <= j
                /\ geti remap (geti remap j) = geti remap j).

(** The invariant of the loop that splices the wedge rings, before
    iteration [i]. *)
Definition splice_inv (vertex_count : Z) (remap : list Z) (i : Z) (wedge : list Z) : Prop :=
  len wedge = vertex_count
  /\ (forall x, 0 <= x < vertex_count ->
        0 <= geti wedge x < vertex_count /\ geti remap (geti wedge x) = geti remap x)
  /\ (forall x, i <= x < vertex_count -> geti wedge x = x)
  /\ (forall x, 0 <= x < vertex_count -> geti wedge x = x \/ geti wedge x < i)
  /\ (forall x, 0 <= x < i -> geti remap x <> x -> geti wedge x <> x)
  /\ (forall x y, 0 <= x < vertex_count -> 0 <= y < vertex_count ->
        geti wedge x = geti wedge y -> x = y).

(** [k] steps along the wedge ring from [a]. *)
Fixpoint wedge_iter (wedge : list Z) (k : nat) (a : Z) : Z :=
  match k with
  | O => a
  | S k' => geti wedge (wedge_iter wedge k' a)
  end.

Definition in_range (vertex_count : Z) (x : Z) : Prop := 0 <= x < vertex_count.

(** The invariant of the main loop of [classifyVertices], before
    iteration [i]. *)
Definition classify_inv (vertex_count : Z) (wedge : list Z) (i : Z)
  (st : list VertexKind * list Z) : Prop :=
  let '(result, loop) := st in
  len result = vertex_count /\ len loop = vertex_count
  /\ forall x, 0 <= x < i -> kind_at result x = Kind_Seam -> geti wedge x <> x.

(** [0; 1; ...; n-1] *)
Definition zrange (n : Z) : list Z := map Z.of_nat (seq 0 (Z.to_nat n)).

(** Among the first [i] records, how many have key [key]. *)
Fixpoint count_eq (k : Z -> Z) (key : Z) (i : nat) : Z :=
  match i with
  | O => 0
  | S i' => count_eq k key i' + (if k (Z.of_nat i') =? key then 1 else 0)
  end.

(** Among the first [i] records, how many have a key below [key]. *)
Fixpoint count_lt (k : Z -> Z) (key : Z) (i : nat) : Z :=
  match i with
  | O => 0
  | S i' => count_lt k key i' + (if k (Z.of_nat i') <? key then 1 else 0)
  end.

(** The place of record [i] in the order: after the records with a smaller
    key and after the earlier records with the same key. *)
Definition sorted_position (k : Z -> Z) (n : Z) (i : Z) : Z :=
  count_lt k (k i) (Z.to_nat n) + count_eq k (k i) (Z.to_nat i).

(** The radix key of record [i]. *)
Definition collapse_key (collapses : list Collapse.t) (i : Z) : Z :=
  sort_key (Collapse.errorui (collapse_at collapses i)).

(** The working index buffer: [result_count] indices, three per triangle,
    each naming a vertex. *)
Definition buffer_ok (vertex_count : Z) (result : list Z) (result_count : Z) : Prop :=
  0 <= result_count <= len result
  /\ result_count mod 3 = 0
  /\ forall p, 0 <= p < result_count -> 0 <= geti result p < vertex_count.

(** [a] and [b] are two successive corners of a triangle of the buffer, in
    either order. *)
Definition buffer_edge (result : list Z) (result_count : Z) (a b : Z) : Prop :=
  exists t e, 0 <= t /\ 3 * t + 2 < result_count /\ 0 <= e < 3
    /\ ((a = geti result (3 * t + e) /\ b = geti result (3 * t + next3 e))
        \/ (b = geti result (3 * t + e) /\ a = geti result (3 * t + next3 e))).

(** A candidate as [pickEdgeCollapses] emits it. *)
Definition candidate_ok (vertex_count : Z) (remap result : list Z) (result_count : Z)
  (c : Collapse.t) : Prop :=
  buffer_edge result result_count (Collapse.v0 c) (Collapse.v1 c)
  /\ 0 <= Collapse.v0 c < vertex_count /\ 0 <= Collapse.v1 c < vertex_count
  /\ geti remap (Collapse.v0 c) <> geti remap (Collapse.v1 c).

(** A candidate after [rankEdgeCollapses]: its union holds the error, the
    absolute value [quadricError] returns. *)
Definition ranked_ok (vertex_count : Z) (remap result : list Z) (result_count : Z)
  (c : Collapse.t) : Prop :=
  candidate_ok vertex_count remap result result_count c
  /\ exists r, Collapse.u c = as_error (F32.abs r).

(** A collapse that was carried out, seen from a later state of the pass:
    its error did not exceed the limit, its source is mapped to its target,
    its target is mapped to itself, and both positions are locked. *)
Definition applied_ok (vertex_count : Z) (remap result : list Z) (result_count : Z)
  (error_limit : float) (st : CS.t) (c : Collapse.t) : Prop :=
  ranked_ok vertex_count remap result result_count c
  /\ F32.gtb (Collapse.error c) error_limit = false
  /\ geti (CS.collapse_remap st) (Collapse.v0 c) = Collapse.v1 c
  /\ geti (CS.collapse_remap st) (Collapse.v1 c) = Collapse.v1 c
  /\ geti (CS.collapse_locked st) (geti remap (Collapse.v0 c)) <> 0
  /\ geti (CS.collapse_locked st) (geti remap (Collapse.v1 c)) <> 0.

(** The invariant of the loop of [performEdgeCollapses]. *)
Definition perform_inv (vertex_count : Z) (remap result : list Z) (result_count : Z)
  (error_limit : float) (st : CS.t) : Prop :=
  len (CS.collapse_remap st) = vertex_count
  /\ len (CS.collapse_locked st) = vertex_count
  /\ (forall x, 0 <= x < vertex_count -> 0 <= geti (CS.collapse_remap st) x < vertex_count)
  /\ (forall x, 0 <= x < vertex_count ->
        geti (CS.collapse_locked st) (geti remap x) = 0 -> geti (CS.collapse_remap st) x = x)
  /\ Forall (applied_ok vertex_count remap result result_count error_limit st) (CS.applied st)
  /\ CS.edge_collapses st = len (CS.applied st).

(** The three corners of triangle [t] of a buffer differ. *)
Definition triangle_distinct (buffer : list Z) (t : Z) : Prop :=
  geti buffer (3 * t) <> geti buffer (3 * t + 1)
  /\ geti buffer (3 * t) <> geti buffer (3 * t + 2)
  /\ geti buffer (3 * t + 1) <> geti buffer (3 * t + 2).

(** Two successive corners of triangle [t] are mapped to one vertex. *)
Definition triangle_collapsed (collapse_remap buffer : list Z) (t : Z) : Prop :=
  exists e, 0 <= e < 3
    /\ geti collapse_remap (geti buffer (3 * t + e))
       = geti collapse_remap (geti buffer (3 * t + next3 e)).

(** The invariant of a compaction loop before triangle [t]: [st] is the
    array written with the write cursor, [keep u] says that triangle [u] of
    the input stays. *)
Definition compact_inv (vertex_count : Z) (keep : Z -> Prop)
  (t : Z) (st : list Z * Z) : Prop :=
  let '(buffer, write) := st in
  (exists w, write = 3 * w /\ 0 <= w <= t)
  /\ (forall p, 0 <= p < write -> 0 <= geti buffer p < vertex_count)
  /\ (forall u, 0 <= u -> 3 * u + 2 < write -> triangle_distinct buffer u)
  /\ (forall u, 0 <= u < t -> ~ keep u -> write < 3 * t).

(** What the log of a completed pass records: the limit does not exceed
    [target_error], at least one collapse was carried out, and none of them
    had an error above the limit; the errors are absolute values. *)
Definition pass_ok (target_error : float) (p : PassLog) : Prop :=
  F32.gtb (pass_error_limit p) target_error = false
  /\ pass_applied p <> []
  /\ Forall (fun c => F32.gtb (Collapse.error c) (pass_error_limit p) = false
                      /\ exists r, Collapse.u c = as_error (F32.abs r))
       (pass_applied p).

(** The invariant of the outer loop of [meshopt_simplify]; [indices] and
    [index_count] are the input. *)
Definition simplify_inv (vertex_count : Z) (indices : list Z) (index_count : Z)
  (target_error : float) (st : SS.t) : Prop :=
  buffer_ok vertex_count (SS.result st) (SS.result_count st)
  /\ SS.result_count st <= index_count
  /\ SS.result_count st <= len (SS.collapse_order st)
  /\ Forall (pass_ok target_error) (SS.passes st)
  /\ (SS.passes st = []
      -> SS.result st = indices /\ SS.result_count st = index_count)
  /\ (SS.passes st <> []
      -> forall t, 0 <= t -> 3 * t + 2 < SS.result_count st ->
         triangle_distinct (SS.result st) t).

(** The input of [meshopt_simplify] is well formed: the index buffer holds
    [index_count] indices, three per triangle, each below [vertex_count];
    the counts fit the 32-bit counters and indices the code uses. *)
Definition valid_input (indices : list Z) (index_count vertex_count : Z) : Prop :=
  len indices = index_count
  /\ index_count mod 3 = 0
  /\ index_count < 2 ^ 32
  /\ 0 <= vertex_count < 2 ^ 32
  /\ Forall (in_range vertex_count) indices.

(** The states the outer loop goes through, from its first state [st0]:
    one more pass is run while [result_count > target_index_count] and
    the pass did not [break]. *)
Inductive simplify_reaches (pass : SS.t -> SS.t + SS.t) (target_index_count : Z)
  (st0 : SS.t) : SS.t -> Prop :=
| reaches_start : simplify_reaches pass target_index_count st0 st0
| reaches_pass st st' :
    simplify_reaches pass target_index_count st0 st ->
    SS.result_count st > target_index_count ->
    pass st = inr st' ->
    simplify_reaches pass target_index_count st0 st'.

(** A key whose lexicographic order is the order of the floats that are
    not NaN: the class with its sign, then exponent and mantissa (negated
    for the negative floats). *)
Definition float_key (x : float) : Z * Z * Z :=
  match x with
  | S754_zero _ => (0, 0, 0)
  | S754_infinity s => (if s then -2 else 2, 0, 0)
  | S754_nan => (0, 0, 0)
  | S754_finite s m e => if s then (-1, - e, Zneg m) else (1, e, Zpos m)
  end.

Definition lex_compare (a b : Z * Z * Z) : comparison :=
  let '(a1, a2, a3) := a in
  let '(b1, b2, b3) := b in
  match a1 ?= b1 with
  | Eq => match a2 ?= b2 with
          | Eq => a3 ?= b3
          | c => c
          end
  | c => c
  end.

Definition lex_lt (a b : Z * Z * Z) : Prop :=
  let '(a1, a2, a3) := a in
  let '(b1, b2, b3) := b in
  a1 < b1 \/ (a1 = b1 /\ (a2 < b2 \/ (a2 = b2 /\ a3 < b3))).

(** Number of slots of the cell table that are in use. *)
Definition cells_occupied (table : list HashCell.t) : nat :=
  length (filter (fun x => negb (HashCell.id x =? NONE32)) table).

(** The invariant of the loop that assigns the cells, before iteration
    [i]; the table has [2^n] slots. *)
Definition fill_inv (vertex_count n : Z) (i : Z) (st : list HashCell.t * list Z * Z)
  : Prop :=
  let '(table, vertex_cells, cell_count) := st in
  len table = 2 ^ n /\ len vertex_cells = vertex_count
  /\ Z.of_nat (cells_occupied table) <= i
  /\ 0 <= cell_count <= i
  /\ (forall e, 0 <= e < 2 ^ n -> HashCell.id (cell_at table e) <> NONE32 ->
        0 <= HashCell.cell (cell_at table e) < cell_count)
  /\ (forall j, 0 <= j < i -> 0 <= geti vertex_cells j < cell_count).

(** The invariant of the loop that picks the representatives, before
    iteration [i]. *)
Definition cell_remap_inv (vertex_cells : list Z) (cell_count : Z) (i : Z)
  (st : list Z * list float) : Prop :=
  let '(cell_remap, cell_errors) := st in
  len cell_remap = cell_count
  /\ (forall c, 0 <= c < cell_count ->
        geti cell_remap c = NONE32 \/ 0 <= geti cell_remap c < i)
  /\ (forall j, 0 <= j < i -> geti cell_remap (geti vertex_cells j) <> NONE32).

(** A triangle of the input is dropped by the sloppy simplifier when two of
    its corners get the same representative. *)
Definition sloppy_dropped (cell_remap vertex_cells indices : list Z) (t : Z) : Prop :=
  let v e := geti cell_remap (geti vertex_cells (geti indices (3 * t + e))) in
  v 0 = v 1 \/ v 0 = v 2 \/ v 1 = v 2.

(** The bounds, the extent and the scale [rescalePositions] computes. *)
Definition rescale_minv (vertex_positions_data : list Z)
  (vertex_count vertex_positions_stride : Z) : float * float * float :=
  snd (fst (rescalePositions_bounds vertex_positions_data vertex_count
              (vertex_positions_stride / 4))).

Definition rescale_maxv (vertex_positions_data : list Z)
  (vertex_count vertex_positions_stride : Z) : float * float * float :=
  snd (rescalePositions_bounds vertex_positions_data vertex_count
         (vertex_positions_stride / 4)).

Definition rescale_scale (vertex_positions_data : list Z)
  (vertex_count vertex_positions_stride : Z) : float :=
  rescalePositions_scale
    (rescalePositions_extent
       (rescale_minv vertex_positions_data vertex_count vertex_positions_stride)
       (rescale_maxv vertex_positions_data vertex_count vertex_positions_stride)).

(** All vertices have the position of vertex 0, bit for bit. *)
Definition positions_coincide (vertex_positions_data : list Z)
  (vertex_count vertex_positions_stride : Z) : Prop :=
  forall i j, 0 <= i < vertex_count -> 0 <= j < 3 ->
    position_word vertex_positions_data (vertex_positions_stride / 4) i j
    = position_word vertex_positions_data (vertex_positions_stride / 4) 0 j.

(** Neither infinite nor NaN. *)
Definition is_finite (x : float) : bool :=
  match x with
  | S754_zero _ | S754_finite _ _ _ => true
  | _ => false
  end.

Definition positions_finite (vertex_positions_data : list Z)
  (vertex_count vertex_positions_stride : Z) : Prop :=
  forall i j, 0 <= i < vertex_count -> 0 <= j < 3 ->
    is_finite (position_float vertex_positions_data (vertex_positions_stride / 4) i j)
    = true.

(** [minv[j] > vj ? vj : minv[j]] and [maxv[j] < vj ? vj : maxv[j]] *)
Definition track_min (m vj : float) : float := if F32.gtb m vj then vj else m.
Definition track_max (m vj : float) : float := if F32.ltb m vj then vj else m.

(** Example inputs.  Position words are the bit patterns of the floats:
    [0x3F800000] is 1.0, [0x7F7FFFFF] is [FLT_MAX], [0xFF7FFFFF] is
    [-FLT_MAX]. *)
Definition word_one : Z := 1065353216.
Definition word_flt_max : Z := 2139095039.
Definition word_neg_flt_max : Z := 4286578687.

(** A flat unit square of two triangles. *)
Definition quad_indices : list Z := [0; 1; 2; 0; 2; 3].
Definition quad_positions : list Z :=
  [0; 0; 0;  word_one; 0; 0;  word_one; word_one; 0;  0; word_one; 0].

(** A two-sided triangle (vertices 0..2) and a tetrahedron (vertices 3..6)
    whose x coordinates are [FLT_MAX] apart from [-FLT_MAX]: the extent
    overflows. *)
Definition overflow_indices : list Z :=
  [0; 1; 2;  0; 2; 1;  3; 5; 4;  3; 4; 6;  3; 6; 5;  4; 5; 6].
Definition overflow_positions : list Z :=
  [word_neg_flt_max; 0; 0;  0; word_one; 0;  0; 0; word_one;
   word_flt_max; 0; 0;  word_flt_max; word_one; 0;  word_flt_max; 0; word_one;
   word_flt_max; word_one; word_one].

(** [-1.0f], [1.1f] and [+infinity] *)
Definition minus_one : float := S754_finite true 8388608 (-23).
Definition one_point_one : float := S754_finite false 9227469 (-23).
Definition infinity : float := S754_infinity false.

(** C1 as the specification words it: the error of a collapse carried out
    is at most the limit of its pass, the limit at most [target_error], and
    the error does not exceed [target_error]. *)
Definition collapse_within_bound (target_error : float) (p : PassLog) (c : Collapse.t)
  : Prop :=
  F32.leb (Collapse.error c) (pass_error_limit p) = true
  /\ F32.leb (pass_error_limit p) target_error = true
  /\ F32.gtb (Collapse.error c) target_error = false.

(** C1 as the code has it: the comparisons the code makes came out false;
    they are the order stated whenever no NaN is involved. *)
Definition collapse_within_limit (target_error : float) (p : PassLog) (c : Collapse.t)
  : Prop :=
  F32.gtb (Collapse.error c) (pass_error_limit p) = false
  /\ F32.gtb (pass_error_limit p) target_error = false
  /\ (F32.is_nan (pass_error_limit p) = false ->
      F32.gtb (Collapse.error c) target_error = false)
  /\ (F32.is_nan (pass_error_limit p) = false ->
      F32.is_nan (Collapse.error c) = false -> F32.is_nan target_error = false ->
      F32.leb (Collapse.error c) (pass_error_limit p) = true
      /\ F32.leb (pass_error_limit p) target_error = true)
  /\ (target_error = F32.zero -> F32.is_nan (pass_error_limit p) = false ->
      Collapse.error c = F32.zero \/ F32.is_nan (Collapse.error c) = true).

(** The first [count] indices of a buffer name vertices, three per
    triangle. *)
Definition returned_ok (vertex_count index_count : Z) (buffer : list Z) (count : Z) : Prop :=
  count mod 3 = 0 /\ 0 <= count <= index_count
  /\ forall p, 0 <= p < count -> 0 <= geti buffer p < vertex_count.

(** Every triangle among the first [count] indices has three different
    corners. *)
Definition corners_distinct (buffer : list Z) (count : Z) : Prop :=
  forall t, 0 <= t -> 3 * t + 2 < count -> triangle_distinct buffer t.

(** C5 as the specification words it: the order is ascending in the
    error. *)
Definition ascending_error (collapses : list Collapse.t) (collapse_count : Z)
  (order : list Z) : Prop :=
  forall p q, 0 <= p < q -> q < collapse_count ->
    F32.leb (Collapse.error (collapse_at collapses (geti order p)))
            (Collapse.error (collapse_at collapses (geti order q))) = true.

(** C5 as the code has it: ascending in the radix key, records with one key
    in input order. *)
Definition ascending_key (collapses : list Collapse.t) (collapse_count : Z)
  (order : list Z) : Prop :=
  forall p q, 0 <= p < q -> q < collapse_count ->
    collapse_key collapses (geti order p) < collapse_key collapses (geti order q)
    \/ (collapse_key collapses (geti order p) = collapse_key collapses (geti order q)
        /\ geti order p < geti order q).

(** Two candidates with errors [1.1] and [1.0], in this order. *)
Definition close_errors : list Collapse.t :=
  [Collapse.mk 0 1 (as_error one_point_one); Collapse.mk 1 2 (as_error F32.one)].

(** One triangle whose three corners are the same vertex. *)
Definition point_indices : list Z := [0; 0; 0].
Definition point_positions : list Z := [0; 0; 0].

(** One triangle whose three vertices are at the origin. *)
Definition origin_indices : list Z := [0; 1; 2].
Definition origin_positions : list Z := [0; 0; 0;  0; 0; 0;  0; 0; 0].

(** The corners of the unit tetrahedron: origin and the three unit
    vectors. *)
Definition tetra_positions : list Z :=
  [0; 0; 0;  word_one; 0; 0;  0; word_one; 0;  0; 0; word_one].

(** The unit tetrahedron after [rescalePositions]. *)
Definition tetra_rescaled : list Vector3.t := rescalePositions tetra_positions 4 12.

(** A table of four buckets with one empty slot. *)
Definition quad_hasher : Hasher Z := PositionHasher quad_positions 3.
Definition small_table : list Z := [1; NONE32; 2; 3].

(** C8 as the specification words it: a grid coordinate fits its 10-bit
    field. *)
Definition fits_field (c : Z) : Prop := 0 <= c <= 1023.

(** The bucket examined at iteration [k] of the lookup of [key]. *)
Definition probe_path {T : Type} (hasher : Hasher T) (n : Z) (key : T) (k : nat) : Z :=
  probe_bucket (2 ^ n - 1) (Z.land (hash hasher key) (2 ^ n - 1)) k.

(** Every item of the table sits on its own probe path, and the buckets of
    the path before it are in use: the state of a table that was filled
    through [hashLookup2] and never had an item removed. *)
Definition table_wf {T : Type} (eqT : T -> T -> bool) (hasher : Hasher T) (dflt empty : T)
  (n : Z) (table : list T) : Prop :=
  forall e, 0 <= e < 2 ^ n -> eqT (aget dflt table e) empty = false ->
    exists k, (k < Z.to_nat (2 ^ n))%nat
      /\ e = probe_path hasher n (aget dflt table e) k
      /\ forall k', (k' < k)%nat ->
           eqT (aget dflt table (probe_path hasher n (aget dflt table e) k')) empty = false.

(** The table of four buckets after the vertices 0, 1 and 2 of the quad were
    interned: vertex 2 has the bucket of vertex 0 and went to bucket 3, the
    third of its probe sequence 0, 1, 3. *)
Definition interned_table : list Z := [0; 1; NONE32; 2].

(** The invariant of the loop that interns the positions, with what the
    table holds: one vertex for each position seen so far. *)
Definition intern_inv (hasher : Hasher Z) (vertex_count n : Z) (i : Z)
  (st : list Z * list Z) : Prop :=
  insert_inv vertex_count n i st
  /\ table_wf Z.eqb hasher 0 NONE32 n (fst st)
  /\ (forall e e', 0 <= e < 2 ^ n -> 0 <= e' < 2 ^ n ->
        geti (fst st) e <> NONE32 -> geti (fst st) e' <> NONE32 ->
        equal hasher (geti (fst st) e) (geti (fst st) e') = true -> e = e')
  /\ (forall j, 0 <= j < i ->
        equal hasher (geti (snd st) j) j = true
        /\ exists e, 0 <= e < 2 ^ n /\ geti (fst st) e = geti (snd st) j).

(** [remap] sends every vertex to the first vertex with its position. *)
Definition remap_classes (hasher : Hasher Z) (vertex_count : Z) (remap : list Z) : Prop :=
  (forall i, 0 <= i < vertex_count ->
     0 <= geti remap i <= i /\ equal hasher (geti remap i) i = true)
  /\ (forall i j, 0 <= i < vertex_count -> 0 <= j < vertex_count ->
        (geti remap i = geti remap j <-> equal hasher i j = true))
  /\ (forall i j, 0 <= i < vertex_count -> 0 <= j < vertex_count ->
        equal hasher j i = true -> geti remap i <= j).

(** The wedge table while the rings are spliced, before iteration [i]: the
    first vertex [r] of a class points to the last member spliced so far,
    every other member spliced so far to the member before it. *)
Definition wedge_chain (vertex_count : Z) (remap : list Z) (i : Z) (wedge : list Z) : Prop :=
  len wedge = vertex_count
  /\ (forall r, 0 <= r < vertex_count -> geti remap r = r ->
        r <= geti wedge r < vertex_count
        /\ (geti wedge r < i \/ geti wedge r = r)
        /\ geti remap (geti wedge r) = r
        /\ forall j, geti wedge r < j < i -> geti remap j <> r)
  /\ (forall x, 0 <= x < i -> geti remap x <> x ->
        0 <= geti wedge x < x
        /\ geti remap (geti wedge x) = geti remap x
        /\ forall j, geti wedge x < j < x -> geti remap j <> geti remap x)
  /\ (forall x, i <= x < vertex_count -> geti remap x <> x -> geti wedge x = x).

(** The wedge table [buildPositionRemap] returns: the first vertex of a
    class points to its last vertex, every other vertex to the nearest
    vertex of its class before it. *)
Definition wedge_rings (vertex_count : Z) (remap wedge : list Z) : Prop :=
  (forall r, 0 <= r < vertex_count -> geti remap r = r ->
     r <= geti wedge r < vertex_count
     /\ geti remap (geti wedge r) = r
     /\ forall j, geti wedge r < j < vertex_count -> geti remap j <> r)
  /\ (forall x, 0 <= x < vertex_count -> geti remap x <> x ->
        0 <= geti wedge x < x
        /\ geti remap (geti wedge x) = geti remap x
        /\ forall j, geti wedge x < j < x -> geti remap j <> geti remap x).

(** The corner that follows corner [p] in its triangle. *)
Definition corner_next (indices : list Z) (p : Z) : Z :=
  geti indices (3 * (p / 3) + next3 (p mod 3)).

(** [a -> b] is a half-edge of a triangle of the index buffer. *)
Definition half_edge (indices : list Z) (index_count : Z) (a b : Z) : Prop :=
  exists p, 0 <= p < index_count /\ geti indices p = a /\ corner_next indices p = b.

(** What [buildEdgeAdjacency] computes: [counts[v]] is the number of
    corners at [v], [offsets[v]] the number of corners at vertices below
    [v], and the targets of the half-edges that leave [v] are stored from
    [offsets[v]] on in the order of the index buffer. *)
Definition adjacency_ok (indices : list Z) (index_count vertex_count : Z)
  (adjacency : EdgeAdjacency) : Prop :=
  len (counts adjacency) = vertex_count
  /\ len (offsets adjacency) = vertex_count
  /\ len (data adjacency) = index_count
  /\ (forall v, 0 <= v < vertex_count ->
        geti (counts adjacency) v = count_eq (geti indices) v (Z.to_nat index_count))
  /\ (forall v, 0 <= v < vertex_count ->
        geti (offsets adjacency) v = count_lt (geti indices) v (Z.to_nat index_count))
  /\ (forall p, 0 <= p < index_count ->
        geti (data adjacency)
          (geti (offsets adjacency) (geti indices p)
           + count_eq (geti indices) (geti indices p) (Z.to_nat p))
        = corner_next indices p).

(** What [classifyVertices] has decided for vertex [x]: a vertex that is
    not the first of its position class has the kind of the first; for the
    first of a class the kind records the size of the class (through
    [wedge]) and the counts of open edges. *)
Definition classified (adjacency : EdgeAdjacency) (remap wedge : list Z)
  (result : list VertexKind) (loop : list Z) (x : Z) : Prop :=
  (geti remap x <> x -> kind_at result x = kind_at result (geti remap x))
  /\ (geti remap x = x ->
      match kind_at result x with
      | Kind_Manifold =>
          geti wedge x = x /\ fst (countOpenEdges adjacency x 0) = 0
      | Kind_Border =>
          geti wedge x = x /\ fst (countOpenEdges adjacency x 0) = 1
          /\ geti loop x = snd (countOpenEdges adjacency x 0)
      | Kind_Seam =>
          geti wedge x <> x /\ geti wedge (geti wedge x) = x
          /\ fst (countOpenEdges adjacency x 0) = 1
          /\ fst (countOpenEdges adjacency (geti wedge x) 0) = 1
          /\ geti loop x = snd (countOpenEdges adjacency x 0)
          /\ geti loop (geti wedge x) = snd (countOpenEdges adjacency (geti wedge x) 0)
      | Kind_Locked =>
          geti wedge x = x -> 2 <= fst (countOpenEdges adjacency x 0)
      end).

(** The invariant of the main loop of [classifyVertices] with the kinds
    decided so far. *)
Definition classify_kinds_inv (vertex_count : Z) (adjacency : EdgeAdjacency)
  (remap wedge : list Z) (i : Z) (st : list VertexKind * list Z) : Prop :=
  classify_inv vertex_count wedge i st
  /\ forall x, 0 <= x < i -> classified adjacency remap wedge (fst st) (snd st) x.

(** [v -> w] is a half-edge without opposite. *)
Definition open_edge (indices : list Z) (index_count : Z) (v w : Z) : Prop :=
  half_edge indices index_count v w /\ ~ half_edge indices index_count w v.

(** The kinds in terms of the mesh. *)
Definition kind_meaning (indices : list Z) (index_count : Z) (remap wedge : list Z)
  (vertex_kind : list VertexKind) (loop : list Z) (x : Z) : Prop :=
  (geti remap x <> x ->
     geti remap x < x /\ kind_at vertex_kind x = kind_at vertex_kind (geti remap x))
  /\ (geti remap x = x ->
      match kind_at vertex_kind x with
      | Kind_Manifold =>
          geti wedge x = x
          /\ forall w, half_edge indices index_count x w -> half_edge indices index_count w x
      | Kind_Border =>
          geti wedge x = x /\ open_edge indices index_count x (geti loop x)
      | Kind_Seam =>
          geti wedge x <> x /\ geti wedge (geti wedge x) = x
          /\ open_edge indices index_count x (geti loop x)
          /\ open_edge indices index_count (geti wedge x) (geti loop (geti wedge x))
      | Kind_Locked => True
      end)
  /\ (geti remap x = x -> geti wedge x = x ->
      (forall w, half_edge indices index_count x w -> half_edge indices index_count w x) ->
      kind_at vertex_kind x = Kind_Manifold).

(** The candidate [c] that [pickEdgeCollapses] emits for the half-edge
    [i0 -> i1]. *)
Definition picked_from (remap : list Z) (vertex_kind : list VertexKind) (loop : list Z)
  (i0 i1 : Z) (c : Collapse.t) : Prop :=
  let k0 := kind_at vertex_kind i0 in
  let k1 := kind_at vertex_kind i1 in
  geti remap i0 <> geti remap i1
  /\ (kHasOpposite k0 k1 = true -> geti remap i1 < geti remap i0)
  /\ (k0 = k1 -> k0 = Kind_Border \/ k0 = Kind_Seam -> geti loop i0 = i1)
  /\ ((c = Collapse.mk i0 i1 (as_bidi 1)
       /\ kCanCollapse k0 k1 = true /\ kCanCollapse k1 k0 = true)
      \/ (c = Collapse.mk i0 i1 (as_bidi 0)
          /\ kCanCollapse k0 k1 = true /\ kCanCollapse k1 k0 = false)
      \/ (c = Collapse.mk i1 i0 (as_bidi 0)
          /\ kCanCollapse k0 k1 = false /\ kCanCollapse k1 k0 = true)).

(** The collapse [v0 -> v1] of the record is allowed by [kCanCollapse];
    a record tagged bidirectional is allowed both ways. *)
Definition collapsible (vertex_kind : list VertexKind) (c : Collapse.t) : Prop :=
  kCanCollapse (kind_at vertex_kind (Collapse.v0 c)) (kind_at vertex_kind (Collapse.v1 c))
  = true
  /\ (Collapse.u c = as_bidi 1 ->
      kCanCollapse (kind_at vertex_kind (Collapse.v1 c))
        (kind_at vertex_kind (Collapse.v0 c)) = true).

(** What [rankEdgeCollapses] makes of a candidate [c]: the same edge, turned
    round only if [c] is bidirectional, with the error of the direction
    chosen. *)
Definition ranked_from (vertex_positions : list Vector3.t) (vertex_quadrics : list Quadric)
  (remap : list Z) (c r : Collapse.t) : Prop :=
  ((Collapse.v0 r = Collapse.v0 c /\ Collapse.v1 r = Collapse.v1 c)
   \/ (Collapse.bidi c <> 0
       /\ Collapse.v0 r = Collapse.v1 c /\ Collapse.v1 r = Collapse.v0 c))
  /\ Collapse.u r
     = as_error (quadricError (quadric_at vertex_quadrics (geti remap (Collapse.v0 r)))
                   (pos_at vertex_positions (Collapse.v1 r)))
  /\ F32.ltb (Collapse.error r) F32.zero = false.

(** A collapse [v0 -> v1] that [kCanCollapse] allows: it does not move a
    locked vertex, and moves a border or seam vertex only onto a vertex of
    its own kind. *)
Definition collapse_allowed (vertex_kind : list VertexKind) (c : Collapse.t) : Prop :=
  let k0 := kind_at vertex_kind (Collapse.v0 c) in
  let k1 := kind_at vertex_kind (Collapse.v1 c) in
  kCanCollapse k0 k1 = true
  /\ k0 <> Kind_Locked
  /\ (k0 = Kind_Border -> k1 = Kind_Border)
  /\ (k0 = Kind_Seam -> k1 = Kind_Seam).

(** Every collapse in the log of the passes is allowed. *)
Definition passes_allowed (vertex_kind : list VertexKind) (st : SS.t) : Prop :=
  Forall (fun p => Forall (collapse_allowed vertex_kind) (pass_applied p)) (SS.passes st).

(** The positions involved in the collapses carried out: source and target
    of each, as canonical vertices. *)
Definition applied_classes (remap : list Z) (applied : list Collapse.t) : list Z :=
  flat_map (fun c => [geti remap (Collapse.v0 c); geti remap (Collapse.v1 c)]) applied.

(** More of the invariant of the loop of [performEdgeCollapses]: a vertex
    that was moved went to a vertex that stays in place, the target of a
    move is locked, no position takes part in two collapses, and the
    counters are in step. *)
Definition perform_once (vertex_count : Z) (remap : list Z) (triangle_collapse_goal : Z)
  (st : CS.t) : Prop :=
  (forall x, 0 <= x < vertex_count ->
     geti (CS.collapse_remap st) (geti (CS.collapse_remap st) x)
     = geti (CS.collapse_remap st) x)
  /\ (forall x, 0 <= x < vertex_count -> geti (CS.collapse_remap st) x <> x ->
        geti (CS.collapse_locked st) (geti remap (geti (CS.collapse_remap st) x)) <> 0)
  /\ NoDup (applied_classes remap (CS.applied st))
  /\ (forall r, In r (applied_classes remap (CS.applied st)) ->
        geti (CS.collapse_locked st) r <> 0)
  /\ CS.edge_collapses st <= CS.triangle_collapses st <= 2 * CS.edge_collapses st
  /\ CS.triangle_collapses st <= Z.max 0 (triangle_collapse_goal + 1).

(** The call of [performEdgeCollapses] in a pass of [meshopt_simplify] on
    the working buffer [result]. *)
Definition pass_collapses (vertex_count : Z) (remap wedge : list Z)
  (vertex_kind : list VertexKind) (loop : list Z) (vertex_positions : list Vector3.t)
  (vertex_quadrics : list Quadric) (result : list Z) (result_count : Z)
  (sort_order : list Z) (triangle_collapse_goal : Z) (error_limit : float) : CS.t :=
  let picked := pickEdgeCollapses result result_count remap vertex_kind loop in
  let ranked := rankEdgeCollapses picked (len picked) vertex_positions vertex_quadrics remap in
  let order := sortEdgeCollapses sort_order ranked (len picked) in
  performEdgeCollapses
    (for_loop vertex_count (fun i a => aset a i (u32 i)) (repeat 0 (Z.to_nat vertex_count)))
    (repeat 0 (Z.to_nat vertex_count)) vertex_quadrics ranked (len picked) order remap wedge
    vertex_kind triangle_collapse_goal error_limit.

(** The four tetrahedron faces over the vertices 0..3. *)
Definition tetra_indices : list Z := [0; 2; 1;  0; 1; 3;  0; 3; 2;  1; 2; 3].

(** Corner [e] of triangle [t] after the collapses. *)
Definition mapped_corner (collapse_remap indices : list Z) (t e : Z) : Z :=
  geti collapse_remap (geti indices (3 * t + e)).

(** The test of [remapIndexBuffer]: the three corners stay different. *)
Definition triangle_kept (collapse_remap indices : list Z) (t : Z) : bool :=
  negb (mapped_corner collapse_remap indices t 0 =? mapped_corner collapse_remap indices t 1)
  && negb (mapped_corner collapse_remap indices t 0 =? mapped_corner collapse_remap indices t 2)
  && negb (mapped_corner collapse_remap indices t 1 =? mapped_corner collapse_remap indices t 2).

(** The triangles of the first [index_count] indices that are kept, in
    order. *)
Definition kept_triangles (collapse_remap indices : list Z) (index_count : Z) : list Z :=
  filter (triangle_kept collapse_remap indices) (zrange (triangle_loops index_count)).

(** [vertex_ids[i] & mask] *)
Definition masked_id (vertex_ids : list Z) (mask i : Z) : Z :=
  Z.land (geti vertex_ids i) mask.

(** The invariant of the loop that assigns the cells, with what the table
    holds: one item for each masked id seen so far, numbered in the order
    of their first appearance. *)
Definition cells_inv (vertex_ids : list Z) (vertex_count n mask : Z) (i : Z)
  (st : list HashCell.t * list Z * Z) : Prop :=
  let '(table, vertex_cells, cell_count) := st in
  fill_inv vertex_count n i st
  /\ table_wf HashCell_eqb HashCellHasher HashCell_ones HashCell_ones n table
  /\ (forall e e', 0 <= e < 2 ^ n -> 0 <= e' < 2 ^ n ->
        HashCell.id (cell_at table e) <> NONE32 ->
        HashCell.id (cell_at table e') <> NONE32 ->
        HashCell.id (cell_at table e) = HashCell.id (cell_at table e')
        \/ HashCell.cell (cell_at table e) = HashCell.cell (cell_at table e') ->
        e = e')
  /\ (forall c, 0 <= c < cell_count -> exists j, 0 <= j < i /\ geti vertex_cells j = c)
  /\ (forall j, 0 <= j < i ->
        exists e, 0 <= e < 2 ^ n
          /\ HashCell.id (cell_at table e) <> NONE32
          /\ HashCell.id (cell_at table e) = masked_id vertex_ids mask j
          /\ HashCell.cell (cell_at table e) = geti vertex_cells j).

(** [vertex_cells] numbers the masked ids: two vertices share a cell
    exactly when their masked ids are equal, and every cell below
    [cell_count] is in use. *)
Definition cells_of_ids (vertex_ids : list Z) (vertex_count mask : Z)
  (vertex_cells : list Z) (cell_count : Z) : Prop :=
  len vertex_cells = vertex_count
  /\ 0 <= cell_count <= vertex_count
  /\ (forall j, 0 <= j < vertex_count -> 0 <= geti vertex_cells j < cell_count)
  /\ (forall i j, 0 <= i < vertex_count -> 0 <= j < vertex_count ->
        (geti vertex_cells i = geti vertex_cells j
         <-> masked_id vertex_ids mask i = masked_id vertex_ids mask j))
  /\ (forall c, 0 <= c < cell_count ->
        exists j, 0 <= j < vertex_count /\ geti vertex_cells j = c).

(** The error of vertex [j] against the quadric of its cell. *)
Definition cell_error (vertex_positions : list Vector3.t) (cell_quadrics : list Quadric)
  (vertex_cells : list Z) (j : Z) : float :=
  quadricError (quadric_at cell_quadrics (geti vertex_cells j)) (pos_at vertex_positions j).

(** The invariant of the third pass: a representative is a vertex of its
    own cell, [cell_errors] caches its error, and no vertex seen so far has
    a smaller error than the representative of its cell. *)
Definition cell_best_inv (vertex_positions : list Vector3.t) (cell_quadrics : list Quadric)
  (vertex_cells : list Z) (cell_count : Z) (i : Z) (st : list Z * list float) : Prop :=
  let '(cell_remap, cell_errors) := st in
  len cell_remap = cell_count
  /\ len cell_errors = cell_count
  /\ (forall c, 0 <= c < cell_count ->
        geti cell_remap c = NONE32
        \/ (0 <= geti cell_remap c < i
            /\ geti vertex_cells (geti cell_remap c) = c
            /\ aget F32.zero cell_errors c
               = cell_error vertex_positions cell_quadrics vertex_cells (geti cell_remap c)))
  /\ (forall j, 0 <= j < i ->
        geti cell_remap (geti vertex_cells j) <> NONE32
        /\ F32.ltb (cell_error vertex_positions cell_quadrics vertex_cells j)
             (cell_error vertex_positions cell_quadrics vertex_cells
                (geti cell_remap (geti vertex_cells j))) = false).

(** The unit tetrahedron in two cells: vertex 1 alone, the others together. *)
Definition tetra_cells : list Z := [0; 1; 0; 0].

Definition tetra_cell_quadrics : list Quadric :=
  fillFaceQuadrics (repeat Quadric_zero 2) tetra_indices 12 tetra_rescaled tetra_cells.

(** The approximate cell count of a pass of the mask search. *)
Definition sloppy_pass_count (vertex_ids : list Z) (vertex_count count_table_size pass : Z)
  : Z :=
  sloppy_count_cells vertex_ids vertex_count count_table_size (sloppy_mask pass).

(** The upper [bits] bits of a 10-bit field. *)
Definition upper_bits (bits : Z) : Z := 1024 - 2 ^ (10 - bits).

(** Corner [e] of triangle [t] moved to the representative of its cell. *)
Definition cell_corner (cell_remap vertex_cells indices : list Z) (t e : Z) : Z :=
  geti cell_remap (geti vertex_cells (geti indices (3 * t + e))).

(** The test of the fourth pass: the three representatives differ. *)
Definition cell_triangle_kept (cell_remap vertex_cells indices : list Z) (t : Z) : bool :=
  negb (cell_corner cell_remap vertex_cells indices t 0
        =? cell_corner cell_remap vertex_cells indices t 1)
  && negb (cell_corner cell_remap vertex_cells indices t 0
           =? cell_corner cell_remap vertex_cells indices t 2)
  && negb (cell_corner cell_remap vertex_cells indices t 1
           =? cell_corner cell_remap vertex_cells indices t 2).

Definition cell_kept_triangles (cell_remap vertex_cells indices : list Z) (index_count : Z)
  : list Z :=
  filter (cell_triangle_kept cell_remap vertex_cells indices)
    (zrange (triangle_loops index_count)).

Definition emit_destination : list Z := [9; 9; 9; 9; 9; 9; 9; 9; 9; 9; 9; 9].
Definition emit_cells : list Z := [0; 1; 2; 0].
Definition emit_remap : list Z := [0; 1; 2].

(** The grid ids as meshopt_simplifySloppy computes them from the input. *)
Definition sloppy_ids (vertex_positions_data : list Z)
  (vertex_count vertex_positions_stride : Z) : list Z :=
  sloppy_vertex_ids
    (rescalePositions vertex_positions_data vertex_count vertex_positions_stride)
    vertex_count.

(** Triangle [j] of [result] is triangle [t] of [indices] with each corner
    replaced by a vertex of the same cell, the three cells being different. *)
Definition clustered_triangle (vertex_ids : list Z) (mask vertex_count : Z)
  (indices result : list Z) (t j : Z) : Prop :=
  (forall e, 0 <= e < 3 ->
     0 <= geti result (3 * j + e) < vertex_count
     /\ masked_id vertex_ids mask (geti result (3 * j + e))
        = masked_id vertex_ids mask (geti indices (3 * t + e)))
  /\ (forall e e', 0 <= e < 3 -> 0 <= e' < 3 -> e <> e' ->
        masked_id vertex_ids mask (geti indices (3 * t + e))
        <> masked_id vertex_ids mask (geti indices (3 * t + e'))).

(** The byte of [count_table] that vertex [j] marks. *)
Definition count_bucket (vertex_ids : list Z) (mask count_table_size j : Z) : Z :=
  Z.land (hash HashCellHasher (HashCell.mk (masked_id vertex_ids mask j) 0))
    (count_table_size - 1).

(** The invariant of the counting loop: [cell_count] is the number of
    bytes set, and the bytes set are those marked by the vertices seen. *)
Definition count_inv (vertex_ids : list Z) (mask count_table_size i : Z)
  (st : Z * list Z) : Prop :=
  let '(cell_count, count_table) := st in
  len count_table = count_table_size
  /\ exists marked,
       NoDup marked
       /\ cell_count = len marked
       /\ (forall h, In h marked ->
             exists j, 0 <= j < i /\ count_bucket vertex_ids mask count_table_size j = h)
       /\ (forall j, 0 <= j < i ->
             In (count_bucket vertex_ids mask count_table_size j) marked)
       /\ (forall h, 0 <= h < count_table_size ->
             geti count_table h = if in_dec Z.eq_dec h marked then 1 else 0).

(** The first vertex of cell [c]. *)
Definition first_of_cell (vertex_cells : list Z) (vertex_count c : Z) : Z :=
  match find (fun j => geti vertex_cells j =? c) (zrange vertex_count) with
  | Some j => j
  | None => 0
  end.

(** The bit pattern of +infinity, the largest pattern of a float that is
    neither negative nor NaN. *)
Definition word_infinity : Z := 2139095040.

(** The error of the record is the float of its word [errorui], and that
    float is neither negative nor NaN. *)
Definition word_error (c : Collapse.t) : Prop :=
  0 <= Collapse.errorui c <= word_infinity
  /\ Collapse.error c = F32.of_bits (Collapse.errorui c).

(** Exponent and mantissa fields of a word, as [float_key] orders them. *)
Definition word_key (w : Z) : Z * Z * Z :=
  if w / 2 ^ 23 =? 0 then
    (if w mod 2 ^ 23 =? 0 then (0, 0, 0) else (1, -149, w mod 2 ^ 23))
  else if w / 2 ^ 23 =? 255 then (2, 0, 0)
  else (1, w / 2 ^ 23 - 150, w mod 2 ^ 23 + 2 ^ 23).

(** Two candidates with errors [2.0] and [1.0], in this order. *)
Definition far_errors : list Collapse.t :=
  [Collapse.mk 0 1 (as_error F32.two); Collapse.mk 1 2 (as_error F32.one)].

(** What [remapEdgeLoops] leaves in entry [j], [loop] being the array on
    entry and [new] the array on return: the entry read through [loop[l]]
    is the new one when [l] comes before [j]. *)
Definition loop_remapped (loop collapse_remap new : list Z) (j : Z) : Prop :=
  if geti loop j =? NONE32 then geti new j = NONE32
  else if j =? geti collapse_remap (geti loop j) then
    geti new j = (if geti loop j <? j then geti new (geti loop j)
                  else geti loop (geti loop j))
  else geti new j = geti collapse_remap (geti loop j).

(** The border loop of a quad, and the collapse of vertex 1 onto vertex 0. *)
Definition quad_loop : list Z := [1; 2; 3; 0].
Definition quad_collapse : list Z := [0; 0; 2; 3].

(** [m] is below the first [i] values of [f]: it is not NaN, none of the
    values is smaller, and it is one of them unless it still is [start]. *)
Definition lower_bound_of (f : Z -> float) (start : float) (i : Z) (m : float) : Prop :=
  F32.is_nan m = false
  /\ (forall j, 0 <= j < i -> F32.gtb m (f j) = false)
  /\ (m = start \/ exists j, 0 <= j < i /\ m = f j).

Definition upper_bound_of (f : Z -> float) (start : float) (i : Z) (m : float) : Prop :=
  F32.is_nan m = false
  /\ (forall j, 0 <= j < i -> F32.ltb m (f j) = false)
  /\ (m = start \/ exists j, 0 <= j < i /\ m = f j).

(** Coordinate [k] of vertex [j]. *)
Definition coordinate (vertex_positions_data : list Z) (vertex_stride_float k j : Z)
  : float :=
  position_float vertex_positions_data vertex_stride_float j k.

(** The two corners [minv] and [maxv] bound the first [i] positions. *)
Definition bounding_box (vertex_positions_data : list Z) (vertex_stride_float i : Z)
  (minv maxv : float * float * float) : Prop :=
  let '(min0, min1, min2) := minv in
  let '(max0, max1, max2) := maxv in
  let v := coordinate vertex_positions_data vertex_stride_float in
  lower_bound_of (v 0) F32.FLT_MAX i min0
  /\ lower_bound_of (v 1) F32.FLT_MAX i min1
  /\ lower_bound_of (v 2) F32.FLT_MAX i min2
  /\ upper_bound_of (v 0) (F32.opp F32.FLT_MAX) i max0
  /\ upper_bound_of (v 1) (F32.opp F32.FLT_MAX) i max1
  /\ upper_bound_of (v 2) (F32.opp F32.FLT_MAX) i max2.

(** The quadric of triangle [t]. *)
Definition triangle_quadric (indices : list Z) (vertex_positions : list Vector3.t) (t : Z)
  : Quadric :=
  quadricFromTriangle (pos_at vertex_positions (geti indices (3 * t + 0)))
    (pos_at vertex_positions (geti indices (3 * t + 1)))
    (pos_at vertex_positions (geti indices (3 * t + 2))).

(** What corner [p] of the index buffer adds to the quadric [q] of [v]. *)
Definition face_contribution (indices : list Z) (vertex_positions : list Vector3.t)
  (remap : list Z) (v : Z) (q : Quadric) (p : Z) : Quadric :=
  if geti remap (geti indices p) =? v
  then quadricAdd q (triangle_quadric indices vertex_positions (p / 3))
  else q.

(** The test of fillEdgeQuadrics for the half-edge [i0 -> i1]: the loop
    goes on with the next edge when it holds. *)
Definition edge_skipped (vertex_kind : list VertexKind) (loop : list Z) (i0 i1 : Z) : bool :=
  negb (VertexKind_eqb (kind_at vertex_kind i0) (kind_at vertex_kind i1))
  || (negb (VertexKind_eqb (kind_at vertex_kind i0) Kind_Border)
      && negb (VertexKind_eqb (kind_at vertex_kind i0) Kind_Seam))
  || negb (geti loop i0 =? i1).

(** The quadric of the edge that leaves corner [e] of triangle [t]. *)
Definition edge_quadric (indices : list Z) (vertex_positions : list Vector3.t)
  (vertex_kind : list VertexKind) (t e : Z) : Quadric :=
  quadricFromTriangleEdge
    (pos_at vertex_positions (geti indices (3 * t + e)))
    (pos_at vertex_positions (geti indices (3 * t + next3 e)))
    (pos_at vertex_positions (geti indices (3 * t + next3 (next3 e))))
    (if VertexKind_eqb (kind_at vertex_kind (geti indices (3 * t + e))) Kind_Seam
     then F32.one else F32.ten).

(** What the half-edge that leaves corner [e] of triangle [t] adds to the
    quadric [q] of [v]: once for each of its two ends that [remap] sends
    to [v]. *)
Definition edge_contribution_at (indices : list Z) (vertex_positions : list Vector3.t)
  (remap : list Z) (vertex_kind : list VertexKind) (loop : list Z) (v : Z) (q : Quadric)
  (t e : Z) : Quadric :=
  let i0 := geti indices (3 * t + e) in
  let i1 := geti indices (3 * t + next3 e) in
  if edge_skipped vertex_kind loop i0 i1 then q
  else
    let Q := edge_quadric indices vertex_positions vertex_kind t e in
    let q := if geti remap i0 =? v then quadricAdd q Q else q in
    if geti remap i1 =? v then quadricAdd q Q else q.

Definition edge_contribution (indices : list Z) (vertex_positions : list Vector3.t)
  (remap : list Z) (vertex_kind : list VertexKind) (loop : list Z) (v : Z) (q : Quadric)
  (p : Z) : Quadric :=
  edge_contribution_at indices vertex_positions remap vertex_kind loop v q (p / 3) (p mod 3).

(** One iteration of the inner loop of fillEdgeQuadrics. *)
Definition fillEdgeQuadrics_edge (indices : list Z) (vertex_positions : list Vector3.t)
  (remap : list Z) (vertex_kind : list VertexKind) (loop : list Z) (t e : Z)
  (vertex_quadrics : list Quadric) : list Quadric :=
  let i0 := geti indices (3 * t + e) in
  let i1 := geti indices (3 * t + next3 e) in
  if edge_skipped vertex_kind loop i0 i1 then vertex_quadrics
  else
    let Q := edge_quadric indices vertex_positions vertex_kind t e in
    quadric_accumulate (quadric_accumulate vertex_quadrics (geti remap i0) Q)
      (geti remap i1) Q.

(** The quad after rescalePositions; its four vertices are on the border,
    [quad_loop] being the border loop. *)
Definition quad_rescaled : list Vector3.t := rescalePositions quad_positions 4 12.
Definition quad_kinds : list VertexKind := repeat Kind_Border 4.
Definition quad_identity : list Z := [0; 1; 2; 3].

(** Two vertex buffers hold the same three position words for each of the
    first [vertex_count] vertices; they may differ anywhere else. *)
Definition positions_agree (data data' : list Z) (vertex_stride_float vertex_count : Z)
  : Prop :=
  forall i k, 0 <= i < vertex_count -> 0 <= k < 3 ->
    position_word data vertex_stride_float i k
    = position_word data' vertex_stride_float i k.

(** Every item of the table of [buildPositionRemap] is ~0u or a vertex. *)
Definition table_items (vertex_count : Z) (table : list Z) : Prop :=
  Forall (fun x => x = NONE32 \/ 0 <= x < vertex_count) table.

(** The unit tetrahedron in a vertex buffer of 16 bytes per vertex, the
    fourth word of each vertex being an attribute; twice, with different
    attributes. *)
Definition tetra_vertices : list Z :=
  [0; 0; 0; 5;  word_one; 0; 0; 5;  0; word_one; 0; 5;  0; 0; word_one; 5].
Definition tetra_vertices' : list Z :=
  [0; 0; 0; 1;  word_one; 0; 0; 2;  0; word_one; 0; 3;  0; 0; word_one; 4].

(** Two destinations with different contents. *)
Definition zeros_destination : list Z := repeat 0 12.

(* ================================================================= *)
(** * Properties *)

(** ** Arrays and loops *)

Lemma len_nonneg {A : Type} (l : list A) : 0 <= len l.
Proof. unfold len. lia. Qed.

Lemma length_upd {A : Type} (l : list A) n v : length (upd l n v) = length l.
Proof.
  revert n. induction l as [|h t IH]; intros [|n]; simpl; auto.
Qed.

Lemma nth_upd_eq {A : Type} (l : list A) n v d :
  (n < length l)%nat -> nth n (upd l n v) d = v.
Proof.
  revert n. induction l as [|h t IH]; intros [|n] H; simpl in *; try lia; auto.
  apply IH. lia.
Qed.

Lemma nth_upd_neq {A : Type} (l : list A) n m v d :
  n <> m -> nth m (upd l n v) d = nth m l d.
Proof.
  revert n m. induction l as [|h t IH]; intros [|n] [|m] H; simpl; auto.
  congruence.
Qed.

Lemma len_aset {A : Type} (a : list A) i v : len (aset a i v) = len a.
Proof.
  unfold aset, len. destruct (i <? 0); auto. now rewrite length_upd.
Qed.

Lemma aget_aset_eq {A : Type} (d : A) a i v :
  0 <= i < len a -> aget d (aset a i v) i = v.
Proof.
  unfold aget, aset, len. intros H.
  destruct (Z.ltb_spec i 0); [lia|]. apply nth_upd_eq. lia.
Qed.

Lemma aget_aset_neq {A : Type} (d : A) a i j v :
  i <> j -> aget d (aset a i v) j = aget d a j.
Proof.
  unfold aget, aset. intros H.
  destruct (Z.ltb_spec j 0); auto.
  destruct (Z.ltb_spec i 0); auto.
  apply nth_upd_neq. lia.
Qed.

Lemma aget_aset {A : Type} (d : A) a i j v :
  aget d (aset a i v) j = if (i =? j) && (0 <=? i) && (i <? len a) then v else aget d a j.
Proof.
  destruct (Z.eqb_spec i j) as [->|Hne]; simpl.
  - destruct (Z.leb_spec 0 j); simpl.
    + destruct (Z.ltb_spec j (len a)).
      * apply aget_aset_eq. lia.
      * unfold aget, aset, len in *. destruct (j <? 0); auto.
        rewrite !nth_overflow; auto; rewrite ?length_upd; lia.
    + unfold aget, aset. destruct (Z.ltb_spec j 0); auto. lia.
  - now apply aget_aset_neq.
Qed.

Lemma aget_out {A : Type} (d : A) a i : ~ (0 <= i < len a) -> aget d a i = d.
Proof.
  unfold aget, len. intros H. destruct (Z.ltb_spec i 0); auto.
  apply nth_overflow. lia.
Qed.

Lemma aget_In {A : Type} (d : A) a i : 0 <= i < len a -> In (aget d a i) a.
Proof.
  unfold aget, len. intros H. destruct (Z.ltb_spec i 0); [lia|].
  apply nth_In. lia.
Qed.

Lemma In_aget {A : Type} (d : A) a x : In x a -> exists i, 0 <= i < len a /\ aget d a i = x.
Proof.
  intros H. destruct (In_nth _ _ d H) as (n & Hn & Hx).
  exists (Z.of_nat n). unfold aget, len. split; [lia|].
  destruct (Z.ltb_spec (Z.of_nat n) 0); [lia|]. now rewrite Nat2Z.id.
Qed.

Lemma In_aset {A : Type} (a : list A) i v x : In x (aset a i v) -> x = v \/ In x a.
Proof.
  intros H. destruct (In_aget x _ _ H) as (j & Hj & Hx).
  rewrite len_aset in Hj. rewrite aget_aset in Hx.
  destruct ((i =? j) && (0 <=? i) && (i <? len a)); auto.
  right. rewrite <- Hx. now apply aget_In.
Qed.

Lemma len_repeat {A : Type} (x : A) n : 0 <= n -> len (repeat x (Z.to_nat n)) = n.
Proof. intros H. unfold len. rewrite repeat_length. lia. Qed.

Lemma aget_repeat {A : Type} (d x : A) n i :
  0 <= i < n -> aget d (repeat x (Z.to_nat n)) i = x.
Proof.
  intros H. unfold aget. destruct (Z.ltb_spec i 0); [lia|].
  apply nth_repeat_lt. lia.
Qed.

Lemma Forall_aset {A : Type} (P : A -> Prop) a i v :
  Forall P a -> P v -> Forall P (aset a i v).
Proof.
  intros Ha Hv. apply Forall_forall. intros x Hx.
  rewrite Forall_forall in Ha.
  destruct (In_aset _ _ _ _ Hx) as [->|Hin]; auto.
Qed.

Lemma Forall_aget {A : Type} (P : A -> Prop) d a i :
  Forall P a -> P d -> P (aget d a i).
Proof.
  intros Ha Hd.
  destruct (Z.ltb_spec i 0); [now rewrite aget_out by lia|].
  destruct (Z.ltb_spec i (len a)); [|now rewrite aget_out by lia].
  eapply Forall_forall; [exact Ha|]. apply aget_In. lia.
Qed.

(** Invariant rules for the loop combinators. *)
Lemma for_from_inv {St : Type} (P : Z -> St -> Prop) (body : Z -> St -> St) n i0 s :
  P i0 s ->
  (forall i s, i0 <= i < i0 + Z.of_nat n -> P i s -> P (i + 1) (body i s)) ->
  P (i0 + Z.of_nat n) (for_from n i0 body s).
Proof.
  revert i0 s. induction n as [|n IH]; intros i0 s H0 Hstep.
  - simpl. now rewrite Z.add_0_r.
  - cbn [for_from]. replace (i0 + Z.of_nat (S n)) with ((i0 + 1) + Z.of_nat n) by lia.
    apply IH.
    + apply Hstep; auto. lia.
    + intros i s' Hi. apply Hstep. lia.
Qed.

Lemma for_loop_inv {St : Type} (P : Z -> St -> Prop) (body : Z -> St -> St) n s :
  0 <= n ->
  P 0 s ->
  (forall i s, 0 <= i < n -> P i s -> P (i + 1) (body i s)) ->
  P n (for_loop n body s).
Proof.
  intros Hn H0 Hstep. unfold for_loop.
  pose proof (for_from_inv P body (Z.to_nat n) 0 s H0) as H.
  replace (0 + Z.of_nat (Z.to_nat n)) with n in H by lia.
  apply H. intros i s' Hi. apply Hstep. lia.
Qed.

Lemma for_from_opt_inv {St : Type} (P : Z -> St -> Prop) (body : Z -> St -> option St) n i0 s :
  P i0 s ->
  (forall i s, i0 <= i < i0 + Z.of_nat n -> P i s ->
               exists s', body i s = Some s' /\ P (i + 1) s') ->
  exists s', for_from_opt n i0 body s = Some s' /\ P (i0 + Z.of_nat n) s'.
Proof.
  revert i0 s. induction n as [|n IH]; intros i0 s H0 Hstep.
  - simpl. exists s. now rewrite Z.add_0_r.
  - cbn [for_from_opt].
    destruct (Hstep i0 s) as (s1 & -> & H1); auto; [lia|].
    replace (i0 + Z.of_nat (S n)) with ((i0 + 1) + Z.of_nat n) by lia.
    apply IH; auto. intros i s' Hi. apply Hstep. lia.
Qed.

Lemma for_loop_opt_inv {St : Type} (P : Z -> St -> Prop) (body : Z -> St -> option St) n s :
  0 <= n ->
  P 0 s ->
  (forall i s, 0 <= i < n -> P i s -> exists s', body i s = Some s' /\ P (i + 1) s') ->
  exists s', for_loop_opt n body s = Some s' /\ P n s'.
Proof.
  intros Hn H0 Hstep. unfold for_loop_opt.
  destruct (for_from_opt_inv P body (Z.to_nat n) 0 s H0) as (s' & Hs & HP).
  - intros i s' Hi. apply Hstep. lia.
  - exists s'. split; auto. now replace n with (0 + Z.of_nat (Z.to_nat n)) by lia.
Qed.

(** For a loop with [break] the invariant is on the state alone. *)
Lemma for_from_break_inv {St : Type} (P : St -> Prop) (body : Z -> St -> St * bool) n i0 s :
  P s ->
  (forall i s, i0 <= i < i0 + Z.of_nat n -> P s -> P (fst (body i s))) ->
  P (for_from_break n i0 body s).
Proof.
  revert i0 s. induction n as [|n IH]; intros i0 s H0 Hstep; simpl; auto.
  specialize (Hstep i0 s) as H1.
  destruct (body i0 s) as [s1 brk]. simpl in H1.
  assert (P s1) by (apply H1; auto; lia).
  destruct brk; auto.
  apply IH; auto. intros i s' Hi. apply Hstep. lia.
Qed.

Lemma for_break_inv {St : Type} (P : St -> Prop) (body : Z -> St -> St * bool) n s :
  P s ->
  (forall i s, 0 <= i < n -> P s -> P (fst (body i s))) ->
  P (for_break n body s).
Proof.
  intros H0 Hstep. unfold for_break. apply for_from_break_inv; auto.
  intros i s' Hi. apply Hstep. lia.
Qed.

(** ** Quadratic probing *)

Lemma triangular_double k : 2 * triangular k = Z.of_nat k * (Z.of_nat k + 1).
Proof. induction k as [|k IH]; [reflexivity|]. cbn [triangular]. nia. Qed.

Lemma land_pow2_pred x n : 0 <= n -> Z.land x (2 ^ n - 1) = x mod 2 ^ n.
Proof.
  intros Hn. rewrite <- Z.land_ones by assumption.
  now rewrite Z.ones_equiv, <- Z.sub_1_r.
Qed.

Lemma probe_bucket_closed n b0 k :
  0 <= n -> 0 <= b0 < 2 ^ n ->
  probe_bucket (2 ^ n - 1) b0 k = (b0 + triangular k) mod 2 ^ n.
Proof.
  intros Hn Hb. induction k as [|k IH].
  - simpl. rewrite Z.add_0_r. symmetry. now apply Z.mod_small.
  - cbn [probe_bucket triangular]. rewrite IH, land_pow2_pred by assumption.
    rewrite <- Z.add_assoc, Z.add_mod_idemp_l by lia.
    f_equal. lia.
Qed.

Lemma probe_bucket_range n b0 k :
  0 <= n -> 0 <= b0 < 2 ^ n -> 0 <= probe_bucket (2 ^ n - 1) b0 k < 2 ^ n.
Proof.
  intros Hn Hb. rewrite probe_bucket_closed by assumption.
  apply Z.mod_pos_bound. lia.
Qed.

Lemma pow2_divide_odd_factor m a q :
  0 <= m -> Z.odd q = true -> (2 ^ m | a * q) -> (2 ^ m | a).
Proof.
  intros Hm Hq. revert a. pattern m. apply natlike_ind; [| |assumption].
  - intros a _. rewrite Z.pow_0_r. apply Z.divide_1_l.
  - clear m Hm. intros m Hm IH a Hd. rewrite Z.pow_succ_r in * by assumption.
    assert (Ha : Z.even a = true).
    { destruct Hd as [k Hk].
      assert (He : Z.even (a * q) = true) by (rewrite Hk, Z.even_mul, Z.even_mul; simpl; apply orb_true_r).
      rewrite Z.even_mul in He. rewrite <- (Z.negb_odd q), Hq in He.
      simpl in He. now rewrite orb_false_r in He. }
    apply Z.even_spec in Ha. destruct Ha as [a' ->].
    apply Z.mul_divide_mono_l. apply IH.
    destruct Hd as [k Hk]. exists k. nia.
Qed.

Lemma pow2_not_divide_small m q : 0 <= m -> 0 < q < 2 ^ m -> ~ (2 ^ m | q).
Proof.
  intros Hm Hq Hd. apply Z.divide_pos_le in Hd; lia.
Qed.

(** Two probes of one lookup never examine the same bucket. *)
Lemma probe_bucket_inj n b0 i j :
  0 <= n -> 0 <= b0 < 2 ^ n ->
  (i < j)%nat -> Z.of_nat j < 2 ^ n ->
  probe_bucket (2 ^ n - 1) b0 i <> probe_bucket (2 ^ n - 1) b0 j.
Proof.
  intros Hn Hb Hij Hj. rewrite !probe_bucket_closed by assumption. intros E.
  assert (Hpos : 0 < 2 ^ n) by lia.
  assert (Hd : (2 ^ n | triangular j - triangular i)).
  { apply Z.mod_divide; [lia|].
    replace (triangular j - triangular i)
      with ((b0 + triangular j) - (b0 + triangular i)) by lia.
    rewrite Zminus_mod, E, Z.sub_diag. now apply Z.mod_0_l; lia. }
  assert (Hd2 : (2 ^ (n + 1) | (Z.of_nat j - Z.of_nat i) * (Z.of_nat j + Z.of_nat i + 1))).
  { replace ((Z.of_nat j - Z.of_nat i) * (Z.of_nat j + Z.of_nat i + 1))
      with (2 * (triangular j - triangular i))
      by (pose proof (triangular_double i); pose proof (triangular_double j); nia).
    rewrite Z.pow_add_r, Z.mul_comm by lia. now apply Z.mul_divide_mono_l. }
  assert (Hp : 2 ^ (n + 1) = 2 * 2 ^ n) by (rewrite Z.pow_add_r by lia; lia).
  destruct (Z.odd (Z.of_nat j - Z.of_nat i)) eqn:Hodd.
  - rewrite Z.mul_comm in Hd2. apply pow2_divide_odd_factor in Hd2; [|lia|assumption].
    revert Hd2. apply pow2_not_divide_small; lia.
  - assert (Ho : Z.odd (Z.of_nat j + Z.of_nat i + 1) = true).
    { replace (Z.of_nat j + Z.of_nat i + 1)
        with ((Z.of_nat j - Z.of_nat i + 1) + 2 * Z.of_nat i) by lia.
      rewrite Z.odd_add_mul_2, Z.odd_add, Hodd. reflexivity. }
    apply pow2_divide_odd_factor in Hd2; [|lia|assumption].
    revert Hd2. apply pow2_not_divide_small; lia.
Qed.

Lemma nth_map_seq {A : Type} (f : nat -> A) n i d :
  (i < n)%nat -> nth i (map f (seq 0 n)) d = f i.
Proof.
  intros Hi. rewrite nth_indep with (d' := f 0%nat) by (now rewrite length_map, length_seq).
  rewrite map_nth. now rewrite seq_nth.
Qed.

(** The first [2^n] probes examine every bucket. *)
Lemma probe_bucket_surj n b0 t :
  0 <= n -> 0 <= b0 < 2 ^ n -> 0 <= t < 2 ^ n ->
  exists k, (k < Z.to_nat (2 ^ n))%nat /\ probe_bucket (2 ^ n - 1) b0 k = t.
Proof.
  intros Hn Hb Ht.
  set (B := Z.to_nat (2 ^ n)).
  set (l := map (probe_bucket (2 ^ n - 1) b0) (seq 0 B)).
  set (l' := map Z.of_nat (seq 0 B)).
  assert (Hnd : NoDup l).
  { apply (NoDup_nth l 0). unfold l. rewrite length_map, length_seq.
    intros i j Hi Hj E. rewrite !nth_map_seq in E by assumption.
    destruct (Nat.lt_trichotomy i j) as [Hlt|[Heq|Hgt]]; auto; exfalso.
    - revert E. apply probe_bucket_inj; auto. unfold B in *. lia.
    - symmetry in E. revert E. apply probe_bucket_inj; auto. unfold B in *. lia. }
  assert (Hincl : incl l l').
  { intros x Hx. unfold l in Hx. apply in_map_iff in Hx. destruct Hx as (k & <- & Hk).
    pose proof (probe_bucket_range n b0 k Hn Hb) as Hr.
    unfold l'. apply in_map_iff. exists (Z.to_nat (probe_bucket (2 ^ n - 1) b0 k)).
    split; [lia|]. apply in_seq. unfold B. lia. }
  assert (Hin : In t l).
  { apply (@NoDup_length_incl _ l l' Hnd); auto.
    - unfold l, l'. now rewrite !length_map.
    - unfold l'. apply in_map_iff. exists (Z.to_nat t). split; [lia|].
      apply in_seq. unfold B. lia. }
  unfold l in Hin. apply in_map_iff in Hin. destruct Hin as (k & <- & Hk).
  exists k. split; auto. apply in_seq in Hk. lia.
Qed.

Section HashLookupFacts.
Context {T : Type}.
Variable eqT : T -> T -> bool.
Variable hasher : Hasher T.
Variable dflt : T.

Lemma hashLookup2_probe_finds table hashmod b0 key empty fuel p :
  (exists k, (p <= k < p + fuel)%nat
             /\ slot_accepts eqT hasher dflt table key empty (probe_bucket hashmod b0 k)) ->
  exists k, (p <= k < p + fuel)%nat
    /\ hashLookup2_probe eqT hasher dflt fuel table hashmod
         (probe_bucket hashmod b0 p) (Z.of_nat p) key empty
       = Some (probe_bucket hashmod b0 k)
    /\ slot_accepts eqT hasher dflt table key empty (probe_bucket hashmod b0 k).
Proof.
  revert p. induction fuel as [|fuel IH]; intros p (k & Hk & Hacc); [lia|].
  cbn [hashLookup2_probe].
  destruct (eqT (aget dflt table (probe_bucket hashmod b0 p)) empty) eqn:E1.
  { exists p. split; [lia|]. split; auto. now left. }
  destruct (equal hasher (aget dflt table (probe_bucket hashmod b0 p)) key) eqn:E2.
  { exists p. split; [lia|]. split; auto. now right. }
  assert (Hne : k <> p).
  { intros ->. destruct Hacc as [H|H]; congruence. }
  destruct (IH (S p)) as (k' & Hk' & Hrun & Hacc').
  { exists k. split; [lia|assumption]. }
  exists k'. split; [lia|]. split; auto.
  rewrite <- Hrun. cbn [probe_bucket]. f_equal. lia.
Qed.

(** Whatever the table holds, a lookup stops only at an accepting slot
    inside the table. *)
Lemma hashLookup2_probe_sound table hashmod key empty fuel bucket probe e :
  hashLookup2_probe eqT hasher dflt fuel table hashmod bucket probe key empty = Some e ->
  slot_accepts eqT hasher dflt table key empty e.
Proof.
  revert bucket probe. induction fuel as [|fuel IH]; intros bucket probe H; [discriminate|].
  cbn [hashLookup2_probe] in H.
  destruct (eqT (aget dflt table bucket) empty) eqn:E1.
  { injection H as <-. now left. }
  destruct (equal hasher (aget dflt table bucket) key) eqn:E2.
  { injection H as <-. now right. }
  eapply IH, H.
Qed.

Lemma hashLookup2_total table n key empty :
  0 <= n ->
  (exists j, 0 <= j < 2 ^ n /\ slot_accepts eqT hasher dflt table key empty j) ->
  exists e k, hashLookup2 eqT hasher dflt table (2 ^ n) key empty = Some e
    /\ (k < Z.to_nat (2 ^ n))%nat
    /\ e = probe_bucket (2 ^ n - 1) (Z.land (hash hasher key) (2 ^ n - 1)) k
    /\ 0 <= e < 2 ^ n
    /\ slot_accepts eqT hasher dflt table key empty e.
Proof.
  intros Hn (j & Hj & Hacc). unfold hashLookup2.
  set (b0 := Z.land (hash hasher key) (2 ^ n - 1)).
  assert (Hb0 : 0 <= b0 < 2 ^ n).
  { unfold b0. rewrite land_pow2_pred by assumption. apply Z.mod_pos_bound. lia. }
  destruct (probe_bucket_surj n b0 j Hn Hb0 Hj) as (k & Hk & Hkj).
  destruct (hashLookup2_probe_finds table (2 ^ n - 1) b0 key empty
              (Z.to_nat (2 ^ n - 1 + 1)) 0) as (k' & Hk' & Hrun & Hacc').
  { exists k. split; [|now rewrite Hkj].
    replace (2 ^ n - 1 + 1) with (2 ^ n) by lia. lia. }
  exists (probe_bucket (2 ^ n - 1) b0 k'), k'. split; [exact Hrun|].
  replace (2 ^ n - 1 + 1) with (2 ^ n) in Hk' by lia.
  split; [lia|]. split; [reflexivity|]. split; [|assumption].
  now apply probe_bucket_range.
Qed.
End HashLookupFacts.

(** ** Position remap and wedge ring *)

Lemma u32_small x : 0 <= x < 2 ^ 32 -> u32 x = x.
Proof. intros H. unfold u32. now apply Z.mod_small. Qed.

Lemma hashBuckets2_loop_pow2 fuel j count :
  0 <= j <= 63 -> j + Z.of_nat fuel = 64 -> count <= 2 ^ 63 ->
  exists n, j <= n <= 63 /\ hashBuckets2_loop fuel (2 ^ j) count = Some (2 ^ n)
            /\ count <= 2 ^ n.
Proof.
  revert j. induction fuel as [|fuel IH]; intros j Hj Hsum Hc; [lia|].
  cbn [hashBuckets2_loop]. destruct (Z.ltb_spec (2 ^ j) count) as [Hlt|Hge].
  - assert (Hj63 : j < 63).
    { destruct (Z.lt_ge_cases j 63); auto.
      assert (2 ^ 63 <= 2 ^ j) by (apply Z.pow_le_mono_r; lia). lia. }
    replace ((2 ^ j * 2) mod 2 ^ 64) with (2 ^ (j + 1)).
    + destruct (IH (j + 1)) as (n & Hn & Hr & Hcn); try lia.
      exists n. repeat split; auto; lia.
    + rewrite Z.pow_add_r by lia. change (2 ^ 1) with 2.
      symmetry. apply Z.mod_small. split; [lia|].
      replace (2 ^ j * 2) with (2 ^ (j + 1)) by (rewrite Z.pow_add_r by lia; lia).
      apply Z.pow_lt_mono_r; lia.
  - exists j. repeat split; auto; lia.
Qed.

Lemma hashBuckets2_pow2 count :
  count <= 2 ^ 63 ->
  exists n, 0 <= n <= 63 /\ hashBuckets2 count = Some (2 ^ n) /\ count <= 2 ^ n.
Proof.
  intros Hc. unfold hashBuckets2.
  destruct (hashBuckets2_loop_pow2 64 0 count) as (n & Hn & Hr & Hcn); try lia.
  exists n. repeat split; auto; lia.
Qed.

Lemma occupied_aset table e v :
  (occupied (aset table e v) <= occupied table + 1)%nat.
Proof.
  unfold aset. destruct (e <? 0); [lia|]. generalize (Z.to_nat e) as k. clear e.
  unfold occupied. induction table as [|h t IH]; intros [|k]; simpl; try lia.
  - destruct (negb (v =? NONE32)), (negb (h =? NONE32)); simpl; lia.
  - specialize (IH k). destruct (negb (h =? NONE32)); simpl; lia.
Qed.

Lemma occupied_has_empty table :
  (occupied table < length table)%nat ->
  exists e, 0 <= e < len table /\ geti table e = NONE32.
Proof.
  unfold occupied, len. induction table as [|h t IH]; simpl; [lia|].
  intros H. destruct (Z.eqb_spec h NONE32) as [->|Hne].
  - exists 0. split; [lia|reflexivity].
  - simpl in H. destruct IH as (e & He & Hv); [lia|].
    exists (e + 1). split; [lia|].
    unfold geti, aget in *. destruct (Z.ltb_spec e 0); [lia|].
    destruct (Z.ltb_spec (e + 1) 0); [lia|].
    replace (Z.to_nat (e + 1)) with (S (Z.to_nat e)) by lia. exact Hv.
Qed.

Lemma occupied_repeat_NONE32 n : occupied (repeat NONE32 n) = 0%nat.
Proof. unfold occupied. induction n; simpl; auto. Qed.

Lemma geti_aset a i j v :
  geti (aset a i v) j = if (i =? j) && (0 <=? i) && (i <? len a) then v else geti a j.
Proof. apply aget_aset. Qed.

Lemma geti_aset_eq a i v : 0 <= i < len a -> geti (aset a i v) i = v.
Proof. apply aget_aset_eq. Qed.

Lemma geti_aset_neq a i j v : i <> j -> geti (aset a i v) j = geti a j.
Proof. apply aget_aset_neq. Qed.

(** The identity table written by [for (i...) a[i] = unsigned(i)]. *)
Lemma identity_table_spec vertex_count :
  0 <= vertex_count < 2 ^ 32 ->
  let a := for_loop vertex_count (fun i a => aset a i (u32 i))
             (repeat 0 (Z.to_nat vertex_count)) in
  len a = vertex_count /\ forall i, 0 <= i < vertex_count -> geti a i = i.
Proof.
  intros Hvc.
  apply (for_loop_inv
           (fun i a => len a = vertex_count /\ forall j, 0 <= j < i -> geti a j = j)).
  - lia.
  - split; [apply len_repeat; lia|]. intros; lia.
  - intros i a Hi [Hlen Hin]. split; [now rewrite len_aset|].
    intros j Hj. rewrite geti_aset. destruct (Z.eqb_spec i j) as [->|Hne]; simpl.
    + replace (0 <=? j) with true by lia. replace (j <? len a) with true by lia.
      simpl. apply u32_small. lia.
    + apply Hin. lia.
Qed.

Lemma geti_aset_in a i v j :
  0 <= i < len a -> geti (aset a i v) j = if j =? i then v else geti a j.
Proof.
  intros Hi. rewrite geti_aset.
  destruct (Z.eqb_spec i j), (Z.eqb_spec j i); try lia; simpl; auto.
  replace (0 <=? i) with true by lia. replace (i <? len a) with true by lia.
  reflexivity.
Qed.

Section ForwardRemap.
Variable hasher : Hasher Z.
Variables vertex_count n : Z.
Hypothesis Hvc : 0 <= vertex_count < 2 ^ 32.
Hypothesis Hn : 0 <= n.
Hypothesis Hsize : vertex_count <= 2 ^ n.

Lemma insert_step i st :
  0 <= i < vertex_count -> insert_inv vertex_count n i st ->
  exists st', buildPositionRemap_insert hasher (2 ^ n) i st = Some st'
              /\ insert_inv vertex_count n (i + 1) st'.
Proof.
  intros Hi. destruct st as [table remap]. intros (Hlt & Hlr & Hocc & Htab & Hrem).
  unfold buildPositionRemap_insert. rewrite u32_small by lia.
  destruct (occupied_has_empty table) as (e0 & He0 & Hv0).
  { unfold len in Hlt. lia. }
  destruct (hashLookup2_total Z.eqb hasher 0 table n i NONE32 Hn)
    as (e & k & Hrun & _ & _ & He & Hacc).
  { exists e0. split; [lia|]. left. fold (geti table e0). rewrite Hv0. reflexivity. }
  rewrite Hrun. cbn [bind]. eexists. split; [reflexivity|].
  destruct (Z.eqb_spec (geti table e) NONE32) as [Hempty|Hfull].
  - (* a new position: the vertex is canonical *)
    rewrite geti_aset_eq by lia. unfold insert_inv.
    rewrite !len_aset.
    split; [assumption|]. split; [assumption|].
    split; [pose proof (occupied_aset table e i); lia|].
    split.
    + intros e' He'. rewrite (geti_aset_in table) by lia.
      destruct (Z.eqb_spec e' e) as [->|Hne].
      * right. split; [lia|]. apply geti_aset_eq. lia.
      * destruct (Htab e' He') as [Hx|[Hx Hy]]; auto.
        right. split; [lia|]. rewrite geti_aset_neq by lia. exact Hy.
    + intros j Hj. rewrite (geti_aset_in remap) by lia.
      destruct (Z.eqb_spec j i) as [->|Hne].
      * split; [lia|]. apply geti_aset_eq. lia.
      * destruct (Hrem j) as [Hle Hid]; [lia|]. split; [lia|].
        rewrite geti_aset_neq by lia. exact Hid.
  - (* a position seen before *)
    destruct (Htab e He) as [Hx|[Hx Hy]]; [contradiction|].
    set (t := geti table e) in *.
    unfold insert_inv. rewrite !len_aset.
    split; [assumption|]. split; [assumption|]. split; [lia|].
    split.
    + intros e' He'. destruct (Htab e' He') as [Hx'|[Hx' Hy']]; auto.
      right. split; [lia|]. rewrite geti_aset_neq by lia. exact Hy'.
    + intros j Hj. rewrite (geti_aset_in remap) by lia.
      destruct (Z.eqb_spec j i) as [->|Hne].
      * split; [lia|]. rewrite geti_aset_neq by lia. exact Hy.
      * destruct (Hrem j) as [Hle Hid]; [lia|]. split; [lia|].
        rewrite geti_aset_neq by lia. exact Hid.
Qed.
End ForwardRemap.

Section WedgeRing.
Variable vertex_count : Z.
Variable remap : list Z.
Hypothesis Hvc : 0 <= vertex_count < 2 ^ 32.
Hypothesis Hlen : len remap = vertex_count.
Hypothesis Hle : forall j, 0 <= j < vertex_count -> 0 <= geti remap j <= j.
Hypothesis Hidem : forall j, 0 <= j < vertex_count ->
  geti remap (geti remap j) = geti remap j.

Lemma splice_step i wedge :
  0 <= i < vertex_count -> splice_inv vertex_count remap i wedge ->
  splice_inv vertex_count remap (i + 1) (buildPositionRemap_splice remap i wedge).
Proof.
  intros Hi (Hlw & Hrng & Hid & Hold & Hnc & Hinj).
  unfold buildPositionRemap_splice.
  destruct (Z.eqb_spec (geti remap i) i) as [Hcanon|Hnon]; cbn [negb].
  - (* a canonical vertex: nothing to splice *)
    unfold splice_inv. repeat (split; [first [assumption | intros]|]); intros.
    + apply Hid. lia.
    + destruct (Hold x); auto; lia.
    + destruct (Z.eq_dec x i) as [->|Hne]; [contradiction|]. apply Hnc; auto. lia.
    + auto.
  - set (r := geti remap i).
    assert (Hr : 0 <= r < i) by (pose proof (Hle i Hi); unfold r in *; lia).
    assert (Hrr : geti remap r = r) by (apply Hidem; lia).
    assert (Hwi : geti wedge i = i) by (apply Hid; lia).
    assert (Hwr : geti wedge r <> i) by (destruct (Hold r); lia).
    rewrite u32_small by lia.
    assert (Hget : forall x, geti (aset (aset wedge i (geti wedge r)) r i) x
                             = if x =? r then i else if x =? i then geti wedge r
                               else geti wedge x).
    { intros x. rewrite geti_aset_in by (rewrite len_aset; lia).
      destruct (Z.eqb_spec x r); auto. apply geti_aset_in. lia. }
    unfold splice_inv. rewrite !len_aset.
    split; [assumption|]. split; [|split; [|split; [|split]]].
    + intros x Hx. rewrite Hget.
      destruct (Z.eqb_spec x r) as [->|Hxr]; [split; [lia|]; rewrite Hrr; reflexivity|].
      destruct (Z.eqb_spec x i) as [->|Hxi]; [|now apply Hrng].
      destruct (Hrng r) as [Hr1 Hr2]; [lia|]. split; [lia|]. rewrite Hr2, Hrr. reflexivity.
    + intros x Hx. rewrite Hget.
      destruct (Z.eqb_spec x r); [lia|]. destruct (Z.eqb_spec x i); [lia|].
      apply Hid. lia.
    + intros x Hx. rewrite Hget.
      destruct (Z.eqb_spec x r); [lia|].
      destruct (Z.eqb_spec x i); [destruct (Hold r); lia|].
      destruct (Hold x); auto; lia.
    + intros x Hx Hxn. rewrite Hget.
      destruct (Z.eqb_spec x r) as [->|Hxr]; [lia|].
      destruct (Z.eqb_spec x i) as [->|Hxi]; [assumption|].
      apply Hnc; auto. lia.
    + intros x y Hx Hy. rewrite !Hget.
      destruct (Z.eqb_spec x r) as [Exr|Hxr], (Z.eqb_spec y r) as [Eyr|Hyr],
               (Z.eqb_spec x i) as [Exi|Hxi], (Z.eqb_spec y i) as [Eyi|Hyi];
        intros E; try lia; try (apply Hinj; auto; lia); exfalso.
      * apply Hyi. apply Hinj; auto; lia.
      * apply Hxi. apply Hinj; auto; lia.
      * apply Hyr. apply Hinj; auto; lia.
      * apply Hxr. apply Hinj; auto; lia.
Qed.
End WedgeRing.

Lemma buildPositionRemap_ok vertex_positions_data vertex_count vertex_positions_stride :
  0 <= vertex_count < 2 ^ 32 ->
  exists remap wedge,
    buildPositionRemap vertex_positions_data vertex_count vertex_positions_stride
    = Some (remap, wedge)
    /\ remap_ok vertex_count remap wedge.
Proof.
  intros Hvc. unfold buildPositionRemap.
  destruct (hashBuckets2_pow2 vertex_count) as (n & Hn & -> & Hsize).
  { assert (2 ^ 32 <= 2 ^ 63) by (apply Z.pow_le_mono_r; lia). lia. }
  cbn [bind].
  set (hasher := PositionHasher vertex_positions_data (vertex_positions_stride / 4)).
  destruct (for_loop_opt_inv (insert_inv vertex_count n)
              (buildPositionRemap_insert hasher (2 ^ n)) vertex_count
              (repeat NONE32 (Z.to_nat (2 ^ n)), repeat 0 (Z.to_nat vertex_count)))
    as ([table remap] & -> & Hinv).
  - lia.
  - unfold insert_inv. rewrite !len_repeat by lia. rewrite occupied_repeat_NONE32.
    repeat split; try lia.
    intros e He. left. unfold geti. apply aget_repeat. lia.
  - intros i st Hi. apply insert_step; auto; lia.
  - cbn [bind]. destruct Hinv as (_ & Hlr & _ & _ & Hrem).
    destruct (identity_table_spec vertex_count Hvc) as [Hlw Hid].
    set (w0 := for_loop vertex_count (fun i w => aset w i (u32 i))
                 (repeat 0 (Z.to_nat vertex_count))) in *.
    assert (Hs : splice_inv vertex_count remap vertex_count
                   (for_loop vertex_count (buildPositionRemap_splice remap) w0)).
    { apply (for_loop_inv (splice_inv vertex_count remap)); [lia| |].
      - unfold splice_inv. split; [assumption|].
        split; [|split; [|split; [|split]]].
        + intros x Hx. rewrite Hid by assumption. split; [lia|reflexivity].
        + intros x Hx. apply Hid. lia.
        + intros x Hx. left. now apply Hid.
        + intros; lia.
        + intros x y Hx Hy. rewrite !Hid by assumption. auto.
      - intros i w Hi. apply splice_step; auto.
        + intros j Hj. now apply Hrem.
        + intros j Hj. now apply Hrem. }
    destruct Hs as (Hlw' & Hrng & _ & _ & Hnc & Hinj).
    eexists _, _. split; [reflexivity|].
    constructor; auto.
    + intros i Hi. now apply Hrem.
    + intros i Hi. now apply Hrem.
    + intros i Hi. now apply Hrng.
    + intros i Hi. now apply Hrng.
Qed.

(** ** Wedge rings are cycles *)

Section WedgeOrbit.
Variable vertex_count : Z.
Variable wedge : list Z.
Hypothesis Hrange : forall i, 0 <= i < vertex_count -> 0 <= geti wedge i < vertex_count.
Hypothesis Hinj : forall i j, 0 <= i < vertex_count -> 0 <= j < vertex_count ->
  geti wedge i = geti wedge j -> i = j.

Lemma wedge_iter_range k a :
  0 <= a < vertex_count -> 0 <= wedge_iter wedge k a < vertex_count.
Proof. intros Ha. induction k; simpl; auto. Qed.

Lemma wedge_iter_cancel i d a :
  0 <= a < vertex_count ->
  wedge_iter wedge i a = wedge_iter wedge (i + d) a -> wedge_iter wedge d a = a.
Proof.
  intros Ha. induction i as [|i IH]; simpl; intros E; [now symmetry|].
  apply IH. apply Hinj; auto using wedge_iter_range.
Qed.

(** Walking the ring from [a] comes back to [a] within [vertex_count]
    steps. *)
Lemma wedge_orbit_returns a :
  0 <= a < vertex_count ->
  exists k, (1 <= k <= Z.to_nat vertex_count)%nat /\ wedge_iter wedge k a = a.
Proof.
  intros Ha.
  set (N := Z.to_nat vertex_count).
  set (l := map (fun k => wedge_iter wedge k a) (seq 0 (S N))).
  assert (Hdup : ~ NoDup l).
  { intros Hnd.
    assert (Hincl : incl l (map Z.of_nat (seq 0 N))).
    { intros x Hx. unfold l in Hx. apply in_map_iff in Hx. destruct Hx as (k & <- & _).
      pose proof (wedge_iter_range k a Ha).
      apply in_map_iff. exists (Z.to_nat (wedge_iter wedge k a)). split; [lia|].
      apply in_seq. unfold N. lia. }
    apply NoDup_incl_length in Hincl; auto.
    unfold l in Hincl. rewrite !length_map, !length_seq in Hincl. lia. }
  apply not_NoDup in Hdup.
  2:{ intros x y. destruct (Z.eq_dec x y); [left|right]; assumption. }
  destruct Hdup as (v & l1 & l2 & l3 & Hl).
  assert (Hlen : length l = S N) by (unfold l; now rewrite length_map, length_seq).
  assert (Hlens : (length l1 + S (length l2 + S (length l3)) = S N)%nat).
  { rewrite <- Hlen, Hl. rewrite !length_app. simpl. rewrite !length_app. simpl. lia. }
  set (i := length l1). set (d := S (length l2)).
  assert (Hi : nth i l 0 = v).
  { rewrite Hl. unfold i. now rewrite nth_middle. }
  assert (Hj : nth (i + d) l 0 = v).
  { rewrite Hl. unfold i, d. rewrite app_nth2 by lia.
    replace (length l1 + S (length l2) - length l1)%nat with (S (length l2)) by lia.
    simpl. now rewrite nth_middle. }
  unfold l in Hi, Hj.
  rewrite nth_map_seq in Hi by (unfold i; lia).
  rewrite nth_map_seq in Hj by (unfold i, d; lia).
  exists d. split; [unfold d; lia|].
  apply (wedge_iter_cancel i d a Ha). congruence.
Qed.

(** So the [do ... while] walk of [findWedgeEdge] ends. *)
Lemma findWedgeEdge_walk_ends adjacency a b k d fuel :
  0 <= a < vertex_count ->
  wedge_iter wedge k a = a ->
  (1 <= d <= k)%nat -> (d <= fuel)%nat ->
  exists r, findWedgeEdge_walk fuel adjacency wedge a b (wedge_iter wedge (k - d) a)
            = Some r.
Proof.
  intros Ha Hk. revert fuel. induction d as [|d IH]; intros fuel Hd Hf; [lia|].
  destruct fuel as [|fuel]; [lia|]. cbn [findWedgeEdge_walk].
  destruct (hasEdge adjacency (wedge_iter wedge (k - S d) a) b); [eauto|].
  replace (geti wedge (wedge_iter wedge (k - S d) a))
    with (wedge_iter wedge (k - d) a)
    by (replace (k - d)%nat with (S (k - S d)) by lia; reflexivity).
  destruct (Z.eqb_spec (wedge_iter wedge (k - d) a) a) as [E|E]; cbn [negb]; [eauto|].
  apply IH; try lia.
  destruct (Nat.eq_dec d 0) as [->|]; [|lia].
  rewrite Nat.sub_0_r in E. contradiction.
Qed.

Lemma findWedgeEdge_total adjacency a b :
  0 <= a < vertex_count ->
  exists r, findWedgeEdge (Z.to_nat vertex_count) adjacency wedge a b = Some r.
Proof.
  intros Ha. destruct (wedge_orbit_returns a Ha) as (k & Hk & Hret).
  unfold findWedgeEdge.
  destruct (findWedgeEdge_walk_ends adjacency a b k k (Z.to_nat vertex_count))
    as (r & Hr); auto; try lia.
  rewrite Nat.sub_diag in Hr. simpl in Hr. eauto.
Qed.
End WedgeOrbit.

(** ** Classification *)

Lemma geti_in_range vertex_count a i :
  0 < vertex_count -> Forall (in_range vertex_count) a -> in_range vertex_count (geti a i).
Proof.
  intros Hvc Ha. unfold geti. apply Forall_aget; auto. unfold in_range. lia.
Qed.

Lemma buildEdgeAdjacency_data_valid indices index_count vertex_count :
  0 < vertex_count -> Forall (in_range vertex_count) indices ->
  Forall (in_range vertex_count) (data (buildEdgeAdjacency indices index_count vertex_count)).
Proof.
  intros Hvc Hind. unfold buildEdgeAdjacency.
  destruct (for_loop vertex_count _ (repeat 0 (Z.to_nat vertex_count), 0)) as [offsets1 x].
  match goal with
  | |- context [for_loop (index_count / 3) ?body ?init] =>
      assert (H : Forall (in_range vertex_count) (snd (for_loop (index_count / 3) body init)))
  end.
  { unfold for_loop.
    apply (for_from_inv (fun _ (st : list Z * list Z) => Forall (in_range vertex_count) (snd st))).
    - simpl. apply Forall_forall. intros y Hy. apply repeat_spec in Hy. subst y.
      unfold in_range. lia.
    - intros i [o d] _ Hd. cbn [fst snd] in *.
      repeat apply Forall_aset; auto; now apply geti_in_range. }
  destruct (for_loop (index_count / 3) _ _) as [offsets2 data1]. exact H.
Qed.

Lemma countOpenEdges_last_valid adjacency vertex_count vertex last :
  0 < vertex_count -> Forall (in_range vertex_count) (data adjacency) ->
  in_range vertex_count last ->
  in_range vertex_count (snd (countOpenEdges adjacency vertex last)).
Proof.
  intros Hvc Hd Hl. unfold countOpenEdges, for_loop.
  apply (for_from_inv (fun _ (st : Z * Z) => in_range vertex_count (snd st))); auto.
  intros i [result l] _ Hs. cbn [fst snd] in *.
  destruct (negb _); simpl; auto. now apply geti_in_range.
Qed.

Lemma kind_at_aset result i k x :
  0 <= i < len result ->
  kind_at (aset result i k) x = if x =? i then k else kind_at result x.
Proof.
  intros Hi. unfold kind_at. rewrite aget_aset.
  destruct (Z.eqb_spec i x), (Z.eqb_spec x i); try lia; simpl; auto.
  replace (0 <=? i) with true by lia. replace (i <? len result) with true by lia.
  reflexivity.
Qed.

Section Classify.
Variable vertex_count : Z.
Variables remap wedge : list Z.
Variable adjacency : EdgeAdjacency.
Hypothesis Hvc : 0 <= vertex_count < 2 ^ 32.
Hypothesis Hok : remap_ok vertex_count remap wedge.
Hypothesis Hdata : Forall (in_range vertex_count) (data adjacency).

Lemma classifyVertices_step_ok i st :
  0 <= i < vertex_count -> classify_inv vertex_count wedge i st ->
  exists st',
    classifyVertices_step (Z.to_nat vertex_count) adjacency remap wedge i st = Some st'
    /\ classify_inv vertex_count wedge (i + 1) st'.
Proof.
  intros Hi. destruct st as [result loop]. intros (Hlr & Hll & Hseam).
  assert (Hkeep : forall k, k <> Kind_Seam \/ geti wedge i <> i ->
            forall l, len l = vertex_count ->
            classify_inv vertex_count wedge (i + 1) (aset result i k, l)).
  { intros k Hk l Hl. unfold classify_inv. rewrite len_aset.
    split; [assumption|]. split; [assumption|].
    intros x Hx. rewrite kind_at_aset by lia.
    destruct (Z.eqb_spec x i) as [->|Hne].
    - intros ->. destruct Hk; [congruence|assumption].
    - apply Hseam. lia. }
  unfold classifyVertices_step.
  destruct (Z.eqb_spec (geti remap i) i) as [Hcanon|Hnon].
  - destruct (Z.eqb_spec (geti wedge i) i) as [Hwi|Hwi].
    + destruct (countOpenEdges adjacency (u32 i) 0) as [edges v].
      destruct (edges =? 0); [|destruct (edges =? 1)];
        (eexists; split; [reflexivity|]; apply Hkeep;
         [left; discriminate | now rewrite ?len_aset]).
    + destruct (geti wedge (geti wedge i) =? i).
      * pose proof (countOpenEdges_last_valid adjacency vertex_count (u32 i) 0) as Ha.
        pose proof (countOpenEdges_last_valid adjacency vertex_count (geti wedge i) 0) as Hb.
        destruct (countOpenEdges adjacency (u32 i) 0) as [a_count a].
        destruct (countOpenEdges adjacency (geti wedge i) 0) as [b_count b].
        cbn [fst snd] in Ha, Hb.
        destruct ((a_count =? 1) && (b_count =? 1)).
        2:{ eexists; split; [reflexivity|]. apply Hkeep; auto. }
        destruct (findWedgeEdge_total vertex_count wedge (rk_wedge_range _ _ _ Hok)
                    (rk_wedge_inj _ _ _ Hok) adjacency a (geti wedge i)) as (ao & ->).
        { apply Ha; auto; unfold in_range; lia. }
        destruct (findWedgeEdge_total vertex_count wedge (rk_wedge_range _ _ _ Hok)
                    (rk_wedge_inj _ _ _ Hok) adjacency b (u32 i)) as (bo & ->).
        { apply Hb; auto; unfold in_range; lia. }
        cbn [bind].
        destruct (negb (ao =? NONE32) && negb (bo =? NONE32));
          (eexists; split; [reflexivity|]; apply Hkeep; auto; now rewrite ?len_aset).
      * eexists; split; [reflexivity|]. apply Hkeep; auto.
  - (* a vertex that is not canonical inherits the kind of its canonical one *)
    eexists; split; [reflexivity|]. apply Hkeep; auto.
    right. apply (rk_wedge_noncanon _ _ _ Hok); auto.
Qed.

Lemma classifyVertices_ok :
  exists vertex_kind loop,
    classifyVertices (Z.to_nat vertex_count) vertex_count adjacency remap wedge
    = Some (vertex_kind, loop)
    /\ len vertex_kind = vertex_count /\ len loop = vertex_count
    /\ forall x, 0 <= x < vertex_count ->
         kind_at vertex_kind x = Kind_Seam -> geti wedge x <> x.
Proof.
  unfold classifyVertices.
  match goal with
  | |- context [for_loop_opt vertex_count ?body ?init] =>
      destruct (for_loop_opt_inv (classify_inv vertex_count wedge) body vertex_count init)
        as ([vertex_kind loop] & Hrun & Hinv)
  end.
  - lia.
  - unfold classify_inv. rewrite len_repeat by lia. split; [reflexivity|].
    split; [|intros; lia].
    apply (for_loop_inv (fun _ l => len l = vertex_count)); [lia| |].
    + apply len_repeat. lia.
    + intros i l _ Hl. now rewrite len_aset.
  - intros i st Hi. now apply classifyVertices_step_ok.
  - exists vertex_kind, loop. split; [exact Hrun|]. exact Hinv.
Qed.
End Classify.

(** ** Sorting *)

Lemma sort_key_range w : 0 <= sort_key w < 2048.
Proof.
  unfold sort_key, u32, sort_bits. rewrite Z.shiftr_div_pow2 by lia.
  pose proof (Z.mod_pos_bound (Z.shiftl w 1) (2 ^ 32) ltac:(lia)) as H.
  change (32 - 11) with 21. split.
  - apply Z.div_pos; lia.
  - apply Z.div_lt_upper_bound; [lia|]. change (2 ^ 21 * 2048) with (2 ^ 32). lia.
Qed.

Section Counting.
Variable k : Z -> Z.

Lemma count_eq_bounds key i : 0 <= count_eq k key i <= Z.of_nat i.
Proof.
  induction i as [|i IH]; cbn [count_eq]; [lia|].
  destruct (k (Z.of_nat i) =? key); lia.
Qed.

Lemma count_lt_bounds key i : 0 <= count_lt k key i <= Z.of_nat i.
Proof.
  induction i as [|i IH]; cbn [count_lt]; [lia|].
  destruct (k (Z.of_nat i) <? key); lia.
Qed.

Lemma count_eq_mono key i j : (i <= j)%nat -> count_eq k key i <= count_eq k key j.
Proof.
  induction 1 as [|j Hle IH]; [lia|]. cbn [count_eq].
  destruct (k (Z.of_nat j) =? key); lia.
Qed.

Lemma count_eq_hit i j :
  (i < j)%nat -> count_eq k (k (Z.of_nat i)) i < count_eq k (k (Z.of_nat i)) j.
Proof.
  intros H. apply Z.lt_le_trans with (count_eq k (k (Z.of_nat i)) (S i)).
  - cbn [count_eq]. rewrite Z.eqb_refl. lia.
  - apply count_eq_mono. lia.
Qed.

Lemma count_lt_succ key i :
  count_lt k (key + 1) i = count_lt k key i + count_eq k key i.
Proof.
  induction i as [|i IH]; cbn [count_lt count_eq]; [lia|]. rewrite IH.
  destruct (Z.ltb_spec (k (Z.of_nat i)) (key + 1)), (Z.ltb_spec (k (Z.of_nat i)) key),
    (Z.eqb_spec (k (Z.of_nat i)) key); lia.
Qed.

Lemma count_lt_mono key key' i : key <= key' -> count_lt k key i <= count_lt k key' i.
Proof.
  intros H. induction i as [|i IH]; cbn [count_lt]; [lia|].
  destruct (Z.ltb_spec (k (Z.of_nat i)) key), (Z.ltb_spec (k (Z.of_nat i)) key'); lia.
Qed.

Lemma count_lt_all key i :
  (forall j, 0 <= j < Z.of_nat i -> k j < key) -> count_lt k key i = Z.of_nat i.
Proof.
  induction i as [|i IH]; intros H; cbn [count_lt]; [lia|].
  rewrite IH by (intros; apply H; lia).
  destruct (Z.ltb_spec (k (Z.of_nat i)) key); [lia|].
  specialize (H (Z.of_nat i)). lia.
Qed.

(** Where the keys order two records, their positions follow. *)
Lemma sorted_position_lt n i j :
  0 <= i < n -> 0 <= j < n ->
  k i < k j \/ (k i = k j /\ i < j) ->
  sorted_position k n i < sorted_position k n j.
Proof.
  intros Hi Hj Hord. unfold sorted_position.
  pose proof (count_eq_hit (Z.to_nat i) (Z.to_nat n) ltac:(lia)) as Hhit.
  rewrite Z2Nat.id in Hhit by lia.
  pose proof (count_eq_bounds (k j) (Z.to_nat j)).
  destruct Hord as [Hlt|[Heq Hlt]].
  - pose proof (count_lt_succ (k i) (Z.to_nat n)).
    pose proof (count_lt_mono (k i + 1) (k j) (Z.to_nat n) ltac:(lia)). lia.
  - rewrite <- Heq.
    pose proof (count_eq_hit (Z.to_nat i) (Z.to_nat j) ltac:(lia)) as Hhit'.
    rewrite Z2Nat.id in Hhit' by lia. lia.
Qed.

Lemma sorted_position_inj n i j :
  0 <= i < n -> 0 <= j < n ->
  sorted_position k n i = sorted_position k n j -> i = j.
Proof.
  intros Hi Hj E.
  destruct (Z.lt_trichotomy (k i) (k j)) as [H|[H|H]].
  - pose proof (sorted_position_lt n i j Hi Hj (or_introl H)). lia.
  - destruct (Z.lt_trichotomy i j) as [H'|[H'|H']]; auto.
    + pose proof (sorted_position_lt n i j Hi Hj (or_intror (conj H H'))). lia.
    + pose proof (sorted_position_lt n j i Hj Hi (or_intror (conj (eq_sym H) H'))). lia.
  - pose proof (sorted_position_lt n j i Hj Hi (or_introl H)). lia.
Qed.

Lemma sorted_position_range n i :
  (forall j, 0 <= j < n -> 0 <= k j < 2048) ->
  0 <= i < n -> 0 <= sorted_position k n i < n.
Proof.
  intros Hk Hi. unfold sorted_position.
  pose proof (count_lt_bounds (k i) (Z.to_nat n)).
  pose proof (count_eq_bounds (k i) (Z.to_nat i)).
  pose proof (count_eq_hit (Z.to_nat i) (Z.to_nat n) ltac:(lia)) as Hhit.
  rewrite Z2Nat.id in Hhit by lia.
  pose proof (count_lt_succ (k i) (Z.to_nat n)).
  pose proof (count_lt_mono (k i + 1) 2048 (Z.to_nat n) ltac:(specialize (Hk i Hi); lia)).
  rewrite (count_lt_all 2048 (Z.to_nat n)) in *
    by (intros j Hj; apply Hk; lia).
  lia.
Qed.
End Counting.

Section SortEdgeCollapses.
Variable collapses : list Collapse.t.
Variable n : Z.
Hypothesis Hn : 0 <= n < 2 ^ 32.

Let k := collapse_key collapses.

Lemma collapse_key_range i : 0 <= k i < 2048.
Proof. apply sort_key_range. Qed.

Lemma sortEdgeCollapses_histogram_spec :
  let h := sortEdgeCollapses_histogram collapses n in
  len h = 2048
  /\ forall key, 0 <= key < 2048 -> geti h key = count_eq k key (Z.to_nat n).
Proof.
  unfold sortEdgeCollapses_histogram.
  apply (for_loop_inv
           (fun i h => len h = 2048
              /\ forall key, 0 <= key < 2048 -> geti h key = count_eq k key (Z.to_nat i))).
  - lia.
  - split; [reflexivity|]. intros key Hk. unfold geti. now rewrite aget_repeat.
  - intros i h Hi [Hlen Hh].
    pose proof (collapse_key_range i) as Hki. fold (collapse_key collapses i). fold k.
    split; [now rewrite len_aset|].
    intros key Hk. replace (Z.to_nat (i + 1)) with (S (Z.to_nat i)) by lia.
    cbn [count_eq]. rewrite Z2Nat.id by lia.
    rewrite geti_aset_in by lia. rewrite (Hh (k i)) by assumption.
    pose proof (count_eq_bounds k (k i) (Z.to_nat i)).
    destruct (Z.eqb_spec key (k i)) as [->|Hne].
    + rewrite Z.eqb_refl. apply u32_small. lia.
    + destruct (Z.eqb_spec (k i) key); [lia|]. rewrite Hh by assumption. lia.
Qed.

Lemma sortEdgeCollapses_offsets_spec h :
  len h = 2048 ->
  (forall key, 0 <= key < 2048 -> geti h key = count_eq k key (Z.to_nat n)) ->
  let h' := fst (sortEdgeCollapses_offsets h) in
  len h' = 2048
  /\ forall key, 0 <= key < 2048 -> geti h' key = count_lt k key (Z.to_nat n).
Proof.
  intros Hlen Hh. unfold sortEdgeCollapses_offsets.
  assert (H : let st := for_loop (Z.shiftl 1 sort_bits)
                (fun i '(histogram, histogram_sum) =>
                   let count := geti histogram i in
                   (aset histogram i (u32 histogram_sum), histogram_sum + count))
                (h, 0) in
              len (fst st) = 2048 /\ snd st = count_lt k 2048 (Z.to_nat n)
              /\ (forall key, 0 <= key < 2048 ->
                    geti (fst st) key = count_lt k key (Z.to_nat n))
              /\ (forall key, 2048 <= key < 2048 ->
                    geti (fst st) key = count_eq k key (Z.to_nat n))).
  { apply (for_loop_inv
             (fun i (st : list Z * Z) =>
                len (fst st) = 2048 /\ snd st = count_lt k i (Z.to_nat n)
                /\ (forall key, 0 <= key < i ->
                      geti (fst st) key = count_lt k key (Z.to_nat n))
                /\ (forall key, i <= key < 2048 ->
                      geti (fst st) key = count_eq k key (Z.to_nat n)))).
    - change (Z.shiftl 1 sort_bits) with 2048. lia.
    - simpl. split; [assumption|]. split.
      + symmetry. clear. induction (Z.to_nat n) as [|m IH]; cbn [count_lt]; auto.
        pose proof (collapse_key_range (Z.of_nat m)).
        destruct (Z.ltb_spec (k (Z.of_nat m)) 0); lia.
      + split; [intros; lia|]. intros key Hk. apply Hh. lia.
    - change (Z.shiftl 1 sort_bits) with 2048.
      intros i [hist s] Hi (Hl & Hs & Hlo & Hhi). cbn [fst snd] in *.
      split; [now rewrite len_aset|]. split.
      + rewrite count_lt_succ, Hs, Hhi by lia. reflexivity.
      + pose proof (count_lt_bounds k i (Z.to_nat n)).
        split; intros key Hk; rewrite geti_aset_in by lia.
        * destruct (Z.eqb_spec key i) as [->|Hne].
          -- rewrite Hs. apply u32_small. lia.
          -- apply Hlo. lia.
        * destruct (Z.eqb_spec key i); [lia|]. apply Hhi. lia. }
  cbv zeta in H. destruct H as (H1 & _ & H2 & _). split; assumption.
Qed.

Lemma sortEdgeCollapses_order_spec sort_order h :
  n <= len sort_order ->
  len h = 2048 ->
  (forall key, 0 <= key < 2048 -> geti h key = count_lt k key (Z.to_nat n)) ->
  let so := fst (sortEdgeCollapses_order sort_order collapses n h) in
  len so = len sort_order
  /\ forall i, 0 <= i < n -> geti so (sorted_position k n i) = i.
Proof.
  intros Hso Hlen Hh. unfold sortEdgeCollapses_order.
  assert (H : let st := for_loop n
                (fun i '(sort_order, histogram) =>
                   let key := sort_key (Collapse.errorui (collapse_at collapses i)) in
                   (aset sort_order (geti histogram key) (u32 i),
                    aset histogram key (u32 (geti histogram key + 1))))
                (sort_order, h) in
              len (fst st) = len sort_order /\ len (snd st) = 2048
              /\ (forall key, 0 <= key < 2048 ->
                    geti (snd st) key
                    = count_lt k key (Z.to_nat n) + count_eq k key (Z.to_nat n))
              /\ (forall j, 0 <= j < n -> geti (fst st) (sorted_position k n j) = j)).
  { apply (for_loop_inv
             (fun i (st : list Z * list Z) =>
                len (fst st) = len sort_order /\ len (snd st) = 2048
                /\ (forall key, 0 <= key < 2048 ->
                      geti (snd st) key
                      = count_lt k key (Z.to_nat n) + count_eq k key (Z.to_nat i))
                /\ (forall j, 0 <= j < i -> geti (fst st) (sorted_position k n j) = j))).
    - lia.
    - simpl. split; [reflexivity|]. split; [assumption|]. split; [|intros; lia].
      intros key Hk. rewrite Hh by assumption. lia.
    - intros i [so hist] Hi (Hl1 & Hl2 & Hhist & Hpos). cbn [fst snd] in *.
      fold (collapse_key collapses i). fold k.
      pose proof (collapse_key_range i) as Hki.
      assert (Hp : geti hist (k i) = sorted_position k n i) by (now rewrite Hhist).
      pose proof (sorted_position_range k n i
                    (fun j _ => collapse_key_range j) ltac:(lia)) as Hpr.
      rewrite Hp. rewrite !len_aset.
      split; [assumption|]. split; [assumption|]. split.
      + intros key Hk. replace (Z.to_nat (i + 1)) with (S (Z.to_nat i)) by lia.
        cbn [count_eq]. rewrite Z2Nat.id by lia. rewrite geti_aset_in by lia.
        destruct (Z.eqb_spec key (k i)) as [->|Hne].
        * rewrite Z.eqb_refl. rewrite u32_small; [unfold sorted_position; lia|lia].
        * destruct (Z.eqb_spec (k i) key); [lia|]. rewrite Hhist by assumption. lia.
      + intros j Hj. rewrite geti_aset_in by lia.
        destruct (Z.eqb_spec (sorted_position k n j) (sorted_position k n i)) as [E|E].
        * apply sorted_position_inj in E; try lia. subst j. apply u32_small. lia.
        * apply Hpos. assert (j <> i) by (intros ->; now apply E). lia. }
  cbv zeta in H. destruct H as (H1 & _ & _ & H2). split; assumption.
Qed.

(** What [sortEdgeCollapses] leaves in [sort_order]. *)
Lemma sortEdgeCollapses_spec sort_order :
  n <= len sort_order ->
  let so := sortEdgeCollapses sort_order collapses n in
  len so = len sort_order
  /\ forall i, 0 <= i < n -> geti so (sorted_position k n i) = i.
Proof.
  intros Hso. unfold sortEdgeCollapses.
  destruct sortEdgeCollapses_histogram_spec as [Hl1 Hh1].
  destruct (sortEdgeCollapses_offsets_spec _ Hl1 Hh1) as [Hl2 Hh2].
  destruct (sortEdgeCollapses_offsets _) as [h2 s2]. cbn [fst snd] in Hl2, Hh2.
  pose proof (sortEdgeCollapses_order_spec sort_order h2 Hso Hl2 Hh2) as H.
  destruct (sortEdgeCollapses_order _ _ _ _) as [so h3]. exact H.
Qed.
End SortEdgeCollapses.

Lemma zrange_In n x : In x (zrange n) <-> 0 <= x < n.
Proof.
  unfold zrange. rewrite in_map_iff. split.
  - intros (m & <- & Hm). apply in_seq in Hm. lia.
  - intros Hx. exists (Z.to_nat x). split; [lia|]. apply in_seq. lia.
Qed.

Lemma NoDup_map_on {A B : Type} (f : A -> B) (l : list A) :
  (forall x y, In x l -> In y l -> f x = f y -> x = y) ->
  NoDup l -> NoDup (map f l).
Proof.
  induction l as [|h t IH]; intros Hinj Hnd; simpl; constructor.
  - inversion Hnd; subst. intros Hc. apply in_map_iff in Hc.
    destruct Hc as (y & Hy & Hyin).
    apply Hinj in Hy; [subst; contradiction|now right|now left].
  - inversion Hnd; subst. apply IH; auto.
    intros x y Hx Hy. apply Hinj; now right.
Qed.

Lemma zrange_NoDup n : NoDup (zrange n).
Proof.
  unfold zrange. apply NoDup_map_on; [|apply seq_NoDup].
  intros a b _ _. lia.
Qed.

Lemma zrange_length n : length (zrange n) = Z.to_nat n.
Proof. unfold zrange. now rewrite length_map, length_seq. Qed.

(** An injection of [0, n) into itself reaches every element. *)
Lemma range_injection_onto (f : Z -> Z) n :
  (forall i, 0 <= i < n -> 0 <= f i < n) ->
  (forall i j, 0 <= i < n -> 0 <= j < n -> f i = f j -> i = j) ->
  forall t, 0 <= t < n -> exists i, 0 <= i < n /\ f i = t.
Proof.
  intros Hr Hinj t Ht.
  set (l := map f (zrange n)).
  assert (Hnd : NoDup l).
  { unfold l. apply NoDup_map_on; [|apply zrange_NoDup].
    intros x y Hx Hy. apply Hinj; now apply zrange_In. }
  assert (Hin : In t l).
  { apply (@NoDup_length_incl _ l (zrange n) Hnd).
    - unfold l. now rewrite length_map.
    - intros x Hx. unfold l in Hx. apply in_map_iff in Hx. destruct Hx as (y & <- & Hy).
      apply zrange_In. apply Hr. now apply zrange_In.
    - now apply zrange_In. }
  unfold l in Hin. apply in_map_iff in Hin. destruct Hin as (i & Hi & Hiin).
  exists i. split; auto. now apply zrange_In.
Qed.

Lemma geti_In_firstn a n p :
  0 <= p < n -> n <= len a -> In (geti a p) (firstn (Z.to_nat n) a).
Proof.
  intros Hp Hn. unfold geti, aget, len in *. destruct (Z.ltb_spec p 0); [lia|].
  rewrite <- (firstn_skipn (Z.to_nat n) a) at 1.
  rewrite app_nth1 by (rewrite length_firstn; lia).
  apply nth_In. rewrite length_firstn. lia.
Qed.

Section SortedOrder.
Variable collapses : list Collapse.t.
Variable n : Z.
Variable sort_order : list Z.
Hypothesis Hn : 0 <= n < 2 ^ 32.
Hypothesis Hso : n <= len sort_order.

Let k := collapse_key collapses.
Let so := sortEdgeCollapses sort_order collapses n.

Lemma sorted_order_at p :
  0 <= p < n ->
  exists i, 0 <= i < n /\ sorted_position k n i = p /\ geti so p = i.
Proof.
  intros Hp.
  destruct (range_injection_onto (sorted_position k n) n) with (t := p)
    as (i & Hi & Hpi); auto.
  - intros i Hi. apply sorted_position_range; auto.
    intros j _. apply sort_key_range.
  - intros i j. apply sorted_position_inj.
  - exists i. split; [assumption|]. split; [assumption|].
    rewrite <- Hpi. now apply (sortEdgeCollapses_spec collapses n Hn sort_order Hso).
Qed.

(** Every entry of the order names a record. *)
Lemma sortEdgeCollapses_range p : 0 <= p < n -> 0 <= geti so p < n.
Proof.
  intros Hp. destruct (sorted_order_at p Hp) as (i & Hi & _ & ->). exact Hi.
Qed.

Lemma sortEdgeCollapses_perm : Permutation (firstn (Z.to_nat n) so) (zrange n).
Proof.
  symmetry. apply NoDup_Permutation_bis.
  - apply zrange_NoDup.
  - rewrite length_firstn, zrange_length. lia.
  - intros i Hi. apply zrange_In in Hi.
    pose proof (sortEdgeCollapses_spec collapses n Hn sort_order Hso) as [Hlen Hpos].
    fold so in Hlen, Hpos. rewrite <- (Hpos i Hi).
    apply geti_In_firstn.
    + apply sorted_position_range; auto. intros j _. apply sort_key_range.
    + lia.
Qed.

(** Ascending radix keys; equal keys in input order. *)
Lemma sortEdgeCollapses_ordered p q :
  0 <= p < q -> q < n ->
  k (geti so p) < k (geti so q)
  \/ (k (geti so p) = k (geti so q) /\ geti so p < geti so q).
Proof.
  intros Hp Hq.
  destruct (sorted_order_at p ltac:(lia)) as (i & Hi & Hpi & ->).
  destruct (sorted_order_at q ltac:(lia)) as (j & Hj & Hpj & ->).
  destruct (Z.lt_trichotomy (k i) (k j)) as [H|[H|H]]; auto.
  - destruct (Z.lt_trichotomy i j) as [H'|[H'|H']]; auto.
    + subst j. lia.
    + pose proof (sorted_position_lt k n j i Hj Hi (or_intror (conj (eq_sym H) H'))). lia.
  - pose proof (sorted_position_lt k n j i Hj Hi (or_introl H)). lia.
Qed.
End SortedOrder.

(** ** Candidates and their ranking *)

Lemma triangle_loops_exact n : 0 <= n -> n mod 3 = 0 -> triangle_loops n = n / 3.
Proof.
  intros Hn Hm. unfold triangle_loops.
  pose proof (Z.div_mod n 3 ltac:(lia)) as H.
  rewrite Hm, Z.add_0_r in H. rewrite H at 1.
  replace (3 * (n / 3) + 2) with (2 + (n / 3) * 3) by lia.
  rewrite Z.div_add by lia. reflexivity.
Qed.

Lemma triangle_in_buffer n t :
  0 <= n -> n mod 3 = 0 -> 0 <= t < triangle_loops n -> 3 * t + 2 < n.
Proof.
  intros Hn Hm Ht. rewrite triangle_loops_exact in Ht by assumption.
  pose proof (Z.div_mod n 3 ltac:(lia)) as H. rewrite Hm in H. lia.
Qed.

Lemma next3_range e : 0 <= e < 3 -> 0 <= next3 e < 3 /\ next3 e <> e.
Proof.
  intros He. unfold next3.
  destruct (Z.eqb_spec e 0); [lia|]. destruct (Z.eqb_spec e 1); lia.
Qed.

Section Pick.
Variable vertex_count : Z.
Variables remap result : list Z.
Variable result_count : Z.
Variable vertex_kind : list VertexKind.
Variable loop : list Z.
Hypothesis Hbuf : buffer_ok vertex_count result result_count.

Lemma pickEdgeCollapses_edge_ok t e c :
  0 <= t < triangle_loops result_count -> 0 <= e < 3 ->
  pickEdgeCollapses_edge remap vertex_kind loop
    (geti result (3 * t + e)) (geti result (3 * t + next3 e)) = Some c ->
  candidate_ok vertex_count remap result result_count c.
Proof.
  intros Ht He. destruct Hbuf as (Hrc & Hmod & Hval).
  pose proof (triangle_in_buffer result_count t ltac:(lia) Hmod Ht) as Hin.
  pose proof (next3_range e He) as [Hne _].
  set (i0 := geti result (3 * t + e)). set (i1 := geti result (3 * t + next3 e)).
  assert (H0 : 0 <= i0 < vertex_count) by (apply Hval; lia).
  assert (H1 : 0 <= i1 < vertex_count) by (apply Hval; lia).
  unfold pickEdgeCollapses_edge.
  destruct (Z.eqb_spec (geti remap i0) (geti remap i1)) as [|Hr]; [discriminate|].
  destruct (negb _); [discriminate|].
  destruct (_ && (geti remap i1 >? geti remap i0)); [discriminate|].
  destruct (_ && negb (geti loop i0 =? i1)); [discriminate|].
  assert (Hfwd : buffer_edge result result_count i0 i1).
  { exists t, e. split; [lia|]. split; [lia|]. split; [lia|]. left. split; reflexivity. }
  assert (Hbwd : buffer_edge result result_count i1 i0).
  { exists t, e. split; [lia|]. split; [lia|]. split; [lia|]. right. split; reflexivity. }
  destruct (kCanCollapse (kind_at vertex_kind i0) (kind_at vertex_kind i1)) eqn:E01;
    [destruct (kCanCollapse (kind_at vertex_kind i1) (kind_at vertex_kind i0))|];
    cbn [andb]; intros [= <-]; unfold candidate_ok; cbn [Collapse.v0 Collapse.v1];
    repeat split; auto; try lia.
Qed.

Lemma pickEdgeCollapses_ok :
  let collapses := pickEdgeCollapses result result_count remap vertex_kind loop in
  Forall (candidate_ok vertex_count remap result result_count) collapses
  /\ len collapses <= result_count.
Proof.
  destruct Hbuf as (Hrc & Hmod & Hval).
  unfold pickEdgeCollapses.
  assert (H : let cs := for_loop (triangle_loops result_count)
                (fun t collapses =>
                   let i := 3 * t in
                   for_loop 3
                     (fun e collapses =>
                        let i0 := geti result (i + e) in
                        let i1 := geti result (i + next3 e) in
                        match pickEdgeCollapses_edge remap vertex_kind loop i0 i1 with
                        | Some c => collapses ++ [c]
                        | None => collapses
                        end)
                     collapses)
                [] in
              Forall (candidate_ok vertex_count remap result result_count) cs
              /\ len cs <= 3 * triangle_loops result_count).
  { apply (for_loop_inv
             (fun t cs => Forall (candidate_ok vertex_count remap result result_count) cs
                          /\ len cs <= 3 * t)).
    - unfold triangle_loops. apply Z.div_pos; lia.
    - split; [constructor|]. unfold len. cbn [length]. lia.
    - intros t cs Ht [Hall Hlen]. cbv zeta.
      assert (H3 : let cs' := for_loop 3
                     (fun e collapses =>
                        match pickEdgeCollapses_edge remap vertex_kind loop
                                (geti result (3 * t + e))
                                (geti result (3 * t + next3 e)) with
                        | Some c => collapses ++ [c]
                        | None => collapses
                        end) cs in
                   Forall (candidate_ok vertex_count remap result result_count) cs'
                   /\ len cs' <= 3 * t + 3).
      { apply (for_loop_inv
                 (fun e cs' =>
                    Forall (candidate_ok vertex_count remap result result_count) cs'
                    /\ len cs' <= 3 * t + e)); [lia| |].
        - split; [assumption|lia].
        - intros e cs' He [Hall' Hlen'].
          destruct (pickEdgeCollapses_edge _ _ _ _ _) as [c|] eqn:Epick.
          + split.
            * apply Forall_app. split; [assumption|]. constructor; [|constructor].
              eapply pickEdgeCollapses_edge_ok; eauto.
            * unfold len in *. rewrite length_app. cbn [length]. lia.
          + split; [assumption|lia]. }
      cbv zeta in H3. destruct H3 as [Ha Hb]. split; [exact Ha|lia]. }
  cbv zeta in H. destruct H as [Ha Hb]. split; [exact Ha|].
  eapply Z.le_trans; [exact Hb|].
  rewrite triangle_loops_exact by lia.
  pose proof (Z.div_mod result_count 3 ltac:(lia)). lia.
Qed.
End Pick.

Section Rank.
Variable vertex_positions : list Vector3.t.
Variable vertex_quadrics : list Quadric.
Variable remap : list Z.

Lemma rankEdgeCollapses_spec collapses :
  let ranked := rankEdgeCollapses collapses (len collapses) vertex_positions
                  vertex_quadrics remap in
  len ranked = len collapses
  /\ forall i, 0 <= i < len collapses ->
       collapse_at ranked i
       = rankEdgeCollapses_one vertex_positions vertex_quadrics remap
           (collapse_at collapses i).
Proof.
  unfold rankEdgeCollapses.
  set (f := rankEdgeCollapses_one vertex_positions vertex_quadrics remap).
  assert (H : let r := for_loop (len collapses)
                (fun i cs => aset cs i (f (collapse_at cs i))) collapses in
              len r = len collapses
              /\ (forall i, 0 <= i < len collapses -> collapse_at r i = f (collapse_at collapses i))
              /\ (forall i, len collapses <= i -> collapse_at r i = collapse_at collapses i)).
  { apply (for_loop_inv
             (fun n r => len r = len collapses
                /\ (forall i, 0 <= i < n -> collapse_at r i = f (collapse_at collapses i))
                /\ (forall i, n <= i -> collapse_at r i = collapse_at collapses i))).
    - apply len_nonneg.
    - split; [reflexivity|]. split; [intros; lia|reflexivity].
    - intros n r Hn (Hlen & Hlo & Hhi). rewrite len_aset.
      split; [assumption|]. unfold collapse_at in *. split; intros i Hi; rewrite aget_aset.
      + destruct (Z.eqb_spec n i) as [->|Hne]; cbn [andb].
        * replace (0 <=? i) with true by lia. replace (i <? len r) with true by lia.
          cbn [andb]. f_equal. apply Hhi. lia.
        * apply Hlo. lia.
      + destruct (Z.eqb_spec n i) as [->|Hne]; cbn [andb]; [lia|]. apply Hhi. lia. }
  cbv zeta in H. destruct H as (H1 & H2 & _). split; assumption.
Qed.

Lemma rankEdgeCollapses_one_ok vertex_count result result_count c :
  candidate_ok vertex_count remap result result_count c ->
  ranked_ok vertex_count remap result result_count
    (rankEdgeCollapses_one vertex_positions vertex_quadrics remap c).
Proof.
  intros (Hedge & H0 & H1 & Hr). unfold rankEdgeCollapses_one.
  set (ei := quadricError _ _). set (ej := quadricError _ _).
  assert (Hswap : buffer_edge result result_count (Collapse.v1 c) (Collapse.v0 c)).
  { destruct Hedge as (t & e & Ht & Hin & He & Hor). exists t, e.
    split; [lia|]. split; [lia|]. split; [lia|].
    destruct Hor as [[-> ->]|[-> ->]]; [right|left]; auto. }
  split.
  - unfold candidate_ok. cbn [Collapse.v0 Collapse.v1].
    destruct (F32.leb ei ej); [repeat split; auto; lia|].
    destruct (negb (Collapse.bidi c =? 0)); repeat split; auto; try lia.
  - cbn [Collapse.u]. unfold ei, ej, quadricError.
    destruct (F32.leb _ _); eexists; reflexivity.
Qed.
End Rank.

(** ** Collapse application *)

Lemma VertexKind_eqb_eq a b : VertexKind_eqb a b = true -> a = b.
Proof. destruct a, b; simpl; congruence. Qed.

Section Perform.
Variable vertex_count : Z.
Variables remap wedge : list Z.
Variable vertex_kind : list VertexKind.
Variable collapses : list Collapse.t.
Variable collapse_order : list Z.
Variables result : list Z.
Variable result_count : Z.
Variable triangle_collapse_goal : Z.
Variable error_limit : float.

Hypothesis Hok : remap_ok vertex_count remap wedge.
Hypothesis Hseam : forall x, 0 <= x < vertex_count ->
  kind_at vertex_kind x = Kind_Seam -> geti wedge x <> x.
Hypothesis Horder : forall p, 0 <= p < len collapses ->
  0 <= geti collapse_order p < len collapses.
Hypothesis Hcoll : forall i, 0 <= i < len collapses ->
  ranked_ok vertex_count remap result result_count (collapse_at collapses i).

Let inv := perform_inv vertex_count remap result result_count error_limit.
Let step := performEdgeCollapses_step collapses collapse_order remap wedge vertex_kind
              triangle_collapse_goal error_limit.

Lemma performEdgeCollapses_step_inv i st :
  0 <= i < len collapses -> inv st -> inv (fst (step i st)).
Proof.
  intros Hi Hinv. unfold step, performEdgeCollapses_step.
  set (c := collapse_at collapses (geti collapse_order i)).
  destruct (F32.gtb (Collapse.error c) error_limit) eqn:Egt; [exact Hinv|].
  destruct (CS.triangle_collapses st >=? triangle_collapse_goal); [exact Hinv|].
  set (i0 := Collapse.v0 c). set (i1 := Collapse.v1 c).
  set (r0 := geti remap i0). set (r1 := geti remap i1).
  destruct (Z.eqb_spec (Z.lor (geti (CS.collapse_locked st) r0)
                          (geti (CS.collapse_locked st) r1)) 0) as [Hfree|Hbusy];
    cbn [negb]; [|exact Hinv].
  apply Z.lor_eq_0_iff in Hfree. destruct Hfree as [Hf0 Hf1].
  destruct (Hcoll (geti collapse_order i) (Horder i Hi)) as [Hcand Herr].
  fold c in Hcand, Herr.
  destruct Hcand as (Hedge & H0 & H1 & Hr). fold i0 i1 in H0, H1, Hr. fold r0 r1 in Hr.
  destruct Hinv as (Hlcr & Hll & Hrng & Hfix & Happ & Hcnt).
  pose proof (rk_remap_le _ _ _ Hok i0 H0) as Hr0. fold r0 in Hr0.
  pose proof (rk_remap_le _ _ _ Hok i1 H1) as Hr1. fold r1 in Hr1.
  (* the entries of [collapse_remap] that change belong to the position of [i0] *)
  set (cr' := if VertexKind_eqb (kind_at vertex_kind i0) Kind_Seam
              then aset (aset (CS.collapse_remap st) i0 i1) (geti wedge i0) (geti wedge i1)
              else aset (CS.collapse_remap st) i0 i1).
  set (locked' := aset (aset (CS.collapse_locked st) r0 1) r1 1).
  assert (Hlocked : forall x, geti locked' x
                      = if x =? r1 then 1 else if x =? r0 then 1
                        else geti (CS.collapse_locked st) x).
  { intros x. unfold locked'. rewrite geti_aset_in by (rewrite len_aset; lia).
    destruct (x =? r1); auto. apply geti_aset_in. lia. }
  assert (Hcr : len cr' = vertex_count
                /\ (forall x, 0 <= x < vertex_count -> 0 <= geti cr' x < vertex_count)
                /\ (forall x, 0 <= x < vertex_count -> geti remap x <> r0 ->
                      geti cr' x = geti (CS.collapse_remap st) x)
                /\ geti cr' i0 = i1).
  { unfold cr'. destruct (VertexKind_eqb (kind_at vertex_kind i0) Kind_Seam) eqn:K.
    - apply VertexKind_eqb_eq in K.
      pose proof (Hseam i0 H0 K) as Hs0.
      pose proof (rk_wedge_range _ _ _ Hok i0 H0) as Hw0.
      pose proof (rk_wedge_range _ _ _ Hok i1 H1) as Hw1.
      pose proof (rk_wedge_remap _ _ _ Hok i0 H0) as Hwr. fold r0 in Hwr.
      assert (Hget : forall x, geti (aset (aset (CS.collapse_remap st) i0 i1)
                                       (geti wedge i0) (geti wedge i1)) x
                               = if x =? geti wedge i0 then geti wedge i1
                                 else if x =? i0 then i1
                                 else geti (CS.collapse_remap st) x).
      { intros x. rewrite geti_aset_in by (rewrite len_aset; lia).
        destruct (x =? geti wedge i0); auto. apply geti_aset_in. lia. }
      rewrite !len_aset. split; [assumption|]. split; [|split].
      + intros x Hx. rewrite Hget.
        destruct (x =? geti wedge i0); [lia|]. destruct (x =? i0); [lia|]. now apply Hrng.
      + intros x Hx Hxr. rewrite Hget.
        destruct (Z.eqb_spec x (geti wedge i0)); [subst x; contradiction|].
        destruct (Z.eqb_spec x i0); [subst x; now contradiction Hxr|]. reflexivity.
      + rewrite Hget. destruct (Z.eqb_spec i0 (geti wedge i0)); [congruence|].
        now rewrite Z.eqb_refl.
    - rewrite len_aset. split; [assumption|]. split; [|split].
      + intros x Hx. rewrite geti_aset_in by lia.
        destruct (x =? i0); [lia|]. now apply Hrng.
      + intros x Hx Hxr. rewrite geti_aset_in by lia.
        destruct (Z.eqb_spec x i0); [subst x; now contradiction Hxr|]. reflexivity.
      + apply geti_aset_eq. lia. }
  destruct Hcr as (Hlcr' & Hrng' & Hsame & Hi0).
  assert (Hi1 : geti cr' i1 = i1).
  { rewrite Hsame; [apply Hfix; auto|assumption|fold r1; congruence]. }
  cbn [fst]. fold cr' locked'.
  unfold inv, perform_inv.
  cbn [CS.collapse_remap CS.collapse_locked CS.applied CS.edge_collapses].
  split; [assumption|]. split; [unfold locked'; now rewrite !len_aset|].
  split; [assumption|]. split; [|split].
  - intros x Hx. rewrite Hlocked.
    destruct (Z.eqb_spec (geti remap x) r1); [discriminate|].
    destruct (Z.eqb_spec (geti remap x) r0); [discriminate|].
    intros Hz. rewrite Hsame by assumption. now apply Hfix.
  - apply Forall_app. split.
    + eapply Forall_impl; [|exact Happ].
      intros c0 (Hc0 & Hgt0 & Hv0 & Hv1 & Hl0 & Hl1).
      destruct Hc0 as [(Hedge0 & Hc00 & Hc01 & Hcr0) Herr0].
      unfold applied_ok. cbn [CS.collapse_remap CS.collapse_locked].
      split; [split; [unfold candidate_ok; tauto|assumption]|].
      split; [assumption|].
      assert (Hn0 : geti remap (Collapse.v0 c0) <> r0) by congruence.
      assert (Hn1 : geti remap (Collapse.v1 c0) <> r0) by congruence.
      rewrite !Hsame by assumption. rewrite !Hlocked.
      split; [assumption|]. split; [assumption|].
      split.
      * destruct (_ =? r1); [lia|]. destruct (_ =? r0); [lia|assumption].
      * destruct (_ =? r1); [lia|]. destruct (_ =? r0); [lia|assumption].
    + constructor; [|constructor].
      unfold applied_ok. cbn [CS.collapse_remap CS.collapse_locked].
      fold i0 i1 r0 r1. rewrite !Hlocked, !Z.eqb_refl.
      split; [split; [unfold candidate_ok; fold i0 i1 r0 r1; tauto|assumption]|].
      split; [assumption|]. split; [assumption|]. split; [assumption|].
      split; [destruct (r0 =? r1); lia|lia].
  - unfold len in *. rewrite length_app. cbn [length]. lia.
Qed.

Lemma performEdgeCollapses_inv vertex_quadrics :
  0 <= vertex_count < 2 ^ 32 ->
  let cr0 := for_loop vertex_count (fun i a => aset a i (u32 i))
               (repeat 0 (Z.to_nat vertex_count)) in
  inv (performEdgeCollapses cr0 (repeat 0 (Z.to_nat vertex_count)) vertex_quadrics
         collapses (len collapses) collapse_order remap wedge vertex_kind
         triangle_collapse_goal error_limit).
Proof.
  intros Hvc cr0. unfold performEdgeCollapses.
  destruct (identity_table_spec vertex_count Hvc) as [Hl0 Hid]. fold cr0 in Hl0, Hid.
  apply for_break_inv.
  - unfold inv, perform_inv.
    cbn [CS.collapse_remap CS.collapse_locked CS.applied CS.edge_collapses].
    split; [assumption|]. split; [apply len_repeat; lia|].
    split; [intros x Hx; rewrite Hid by assumption; lia|].
    split; [intros x Hx _; now apply Hid|]. split; [constructor|reflexivity].
  - intros i st Hi. now apply performEdgeCollapses_step_inv.
Qed.
End Perform.

(** ** Index compaction *)

Lemma geti_aset3 a w v0 v1 v2 p :
  0 <= w -> w + 2 < len a ->
  geti (aset (aset (aset a (w + 0) v0) (w + 1) v1) (w + 2) v2) p
  = if p =? w + 2 then v2 else if p =? w + 1 then v1 else if p =? w then v0
    else geti a p.
Proof.
  intros Hw Hl. rewrite Z.add_0_r.
  rewrite geti_aset_in by (rewrite !len_aset; lia). destruct (p =? w + 2); auto.
  rewrite geti_aset_in by (rewrite !len_aset; lia). destruct (p =? w + 1); auto.
  apply geti_aset_in. lia.
Qed.

Section Compact.
Variable vertex_count : Z.
Variable collapse_remap : list Z.
Variable indices : list Z.
Variable index_count : Z.
Hypothesis Hbuf : buffer_ok vertex_count indices index_count.
Hypothesis Hcr : forall x, 0 <= x < vertex_count ->
  0 <= geti collapse_remap x < vertex_count.

(** The loop state of [remapIndexBuffer] before triangle [t]. *)
Let inv (t : Z) (st : list Z * Z) : Prop :=
  len (fst st) = len indices
  /\ (forall p, 3 * t <= p -> geti (fst st) p = geti indices p)
  /\ compact_inv vertex_count
       (fun u => ~ triangle_collapsed collapse_remap indices u) t st.

Lemma remapIndexBuffer_inv :
  inv (triangle_loops index_count) (remapIndexBuffer indices index_count collapse_remap).
Proof.
  destruct Hbuf as (Hrc & Hmod & Hval).
  unfold remapIndexBuffer. apply (for_loop_inv inv).
  - unfold triangle_loops. apply Z.div_pos; lia.
  - unfold inv, compact_inv. cbn [fst]. split; [reflexivity|]. split; [reflexivity|].
    split; [exists 0; lia|]. split; [intros; lia|]. split; intros; lia.
  - intros t [buffer write] Ht (Hlen & Hrest & (w & -> & Hw) & Hvalid & Hdist & Hdeg).
    cbn [fst] in *.
    pose proof (triangle_in_buffer index_count t ltac:(lia) Hmod Ht) as Hin.
    rewrite !Hrest by lia.
    set (v0 := geti collapse_remap (geti indices (3 * t + 0))).
    set (v1 := geti collapse_remap (geti indices (3 * t + 1))).
    set (v2 := geti collapse_remap (geti indices (3 * t + 2))).
    assert (Hv0 : 0 <= v0 < vertex_count) by (apply Hcr, Hval; lia).
    assert (Hv1 : 0 <= v1 < vertex_count) by (apply Hcr, Hval; lia).
    assert (Hv2 : 0 <= v2 < vertex_count) by (apply Hcr, Hval; lia).
    destruct (Z.eqb_spec v0 v1) as [E01|N01]; cbn [negb andb].
    2: destruct (Z.eqb_spec v0 v2) as [E02|N02]; cbn [negb andb].
    3: destruct (Z.eqb_spec v1 v2) as [E12|N12]; cbn [negb andb].
    4:{ (* the triangle is kept *)
      unfold inv, compact_inv. cbn [fst]. rewrite !len_aset.
      split; [assumption|]. split.
      { intros p Hp. rewrite geti_aset3 by lia.
        destruct (Z.eqb_spec p (3 * w + 2)); [lia|].
        destruct (Z.eqb_spec p (3 * w + 1)); [lia|].
        destruct (Z.eqb_spec p (3 * w)); [lia|]. apply Hrest. lia. }
      split; [exists (w + 1); lia|]. split; [|split].
      - intros p Hp. rewrite geti_aset3 by lia.
        destruct (Z.eqb_spec p (3 * w + 2)); [lia|].
        destruct (Z.eqb_spec p (3 * w + 1)); [lia|].
        destruct (Z.eqb_spec p (3 * w)); [lia|]. apply Hvalid. lia.
      - intros u Hu Hlt. unfold triangle_distinct. rewrite !geti_aset3 by lia.
        destruct (Z.eq_dec u w) as [->|Hne].
        + replace (3 * w + 2 =? 3 * w + 2) with true by lia.
          replace (3 * w + 1 =? 3 * w + 2) with false by lia.
          replace (3 * w =? 3 * w + 2) with false by lia.
          replace (3 * w + 1 =? 3 * w + 1) with true by lia.
          replace (3 * w =? 3 * w + 1) with false by lia.
          replace (3 * w =? 3 * w) with true by lia.
          auto.
        + assert (3 * u + 2 < 3 * w) by lia.
          replace (3 * u + 2 =? 3 * w + 2) with false by lia.
          replace (3 * u + 2 =? 3 * w + 1) with false by lia.
          replace (3 * u + 2 =? 3 * w) with false by lia.
          replace (3 * u + 1 =? 3 * w + 2) with false by lia.
          replace (3 * u + 1 =? 3 * w + 1) with false by lia.
          replace (3 * u + 1 =? 3 * w) with false by lia.
          replace (3 * u =? 3 * w + 2) with false by lia.
          replace (3 * u =? 3 * w + 1) with false by lia.
          replace (3 * u =? 3 * w) with false by lia.
          apply Hdist; lia.
      - intros u Hu Hnk. destruct (Z.eq_dec u t) as [->|Hne].
        + exfalso. apply Hnk. intros (e & He & Ee).
          assert (Hcases : e = 0 \/ e = 1 \/ e = 2) by lia.
          destruct Hcases as [ -> | [ -> | -> ] ];
            [change (next3 0) with 1 in Ee | change (next3 1) with 2 in Ee
             | change (next3 2) with 0 in Ee];
            fold v0 v1 v2 in Ee; congruence.
        + specialize (Hdeg u ltac:(lia) Hnk). lia. }
    all: (* the triangle is dropped *)
      unfold inv, compact_inv; cbn [fst];
      (split; [assumption|]); (split; [intros p Hp; apply Hrest; lia|]);
      (split; [exists w; lia|]); (split; [assumption|]); (split; [assumption|]);
      intros u Hu Hnk; destruct (Z.eq_dec u t) as [->|Hne];
      [lia | specialize (Hdeg u ltac:(lia) Hnk); lia].
Qed.

(** What [remapIndexBuffer] returns. *)
Lemma remapIndexBuffer_spec :
  let '(result, new_count) := remapIndexBuffer indices index_count collapse_remap in
  len result = len indices
  /\ buffer_ok vertex_count result new_count
  /\ new_count <= index_count
  /\ (forall t, 0 <= t -> 3 * t + 2 < new_count -> triangle_distinct result t)
  /\ ((exists t, 0 <= t /\ 3 * t + 2 < index_count
                 /\ triangle_collapsed collapse_remap indices t) ->
      new_count < index_count).
Proof.
  pose proof remapIndexBuffer_inv as H.
  destruct Hbuf as (Hrc & Hmod & Hval).
  destruct (remapIndexBuffer indices index_count collapse_remap) as [result new_count].
  destruct H as (Hlen & _ & (w & -> & Hw) & Hvalid & Hdist & Hdeg). cbn [fst] in *.
  rewrite triangle_loops_exact in * by lia.
  pose proof (Z.div_mod index_count 3 ltac:(lia)) as Hdm. rewrite Hmod in Hdm.
  split; [assumption|]. split; [|split; [lia|split; [assumption|]]].
  - unfold buffer_ok. split; [lia|]. split; [|assumption].
    rewrite Z.mul_comm. apply Z.mod_mul. lia.
  - intros (t & Ht & Hin & Hcol).
    assert (3 * w < 3 * (index_count / 3)); [|lia].
    apply (Hdeg t); [lia|]. intros Hn. now apply Hn.
Qed.
End Compact.

(** ** One pass of the exact simplifier *)

Lemma F32_ltb_irrefl x : F32.ltb x x = false.
Proof.
  unfold F32.ltb, SFltb, SFcompare.
  destruct x as [s|s| |s m e]; try destruct s; auto;
    rewrite Z.compare_refl, Pos.compare_cont_refl; reflexivity.
Qed.

Lemma pass_error_limit_of_le target_error error_goal :
  F32.gtb (pass_error_limit_of target_error error_goal) target_error = false.
Proof.
  unfold pass_error_limit_of. destruct (F32.gtb error_goal target_error) eqn:E; auto.
  apply F32_ltb_irrefl.
Qed.

Lemma collapse_at_In collapses i :
  0 <= i < len collapses -> In (collapse_at collapses i) collapses.
Proof. apply aget_In. Qed.

Section SimplifyPassFacts.
Variable vertex_count target_index_count : Z.
Variable target_error : float.
Variable remap wedge : list Z.
Variable vertex_kind : list VertexKind.
Variable vertex_positions : list Vector3.t.
Variable indices : list Z.
Variable index_count : Z.

Hypothesis Hvc : 0 <= vertex_count < 2 ^ 32.
Hypothesis Hic : index_count < 2 ^ 32.
Hypothesis Hok : remap_ok vertex_count remap wedge.
Hypothesis Hseam : forall x, 0 <= x < vertex_count ->
  kind_at vertex_kind x = Kind_Seam -> geti wedge x <> x.

Let inv := simplify_inv vertex_count indices index_count target_error.
Let pass := simplify_pass vertex_count target_index_count target_error remap wedge
              vertex_kind vertex_positions.

Lemma simplify_pass_spec st :
  inv st ->
  match pass st with
  | inl st' =>
      inv st' /\ SS.result st' = SS.result st
      /\ SS.result_count st' = SS.result_count st /\ SS.passes st' = SS.passes st
  | inr st' =>
      inv st' /\ SS.result_count st' < SS.result_count st
      /\ exists p, SS.passes st' = SS.passes st ++ [p]
  end.
Proof.
  intros (Hbuf & Hle & Hord & Hpasses & Hfirst & Hlater).
  unfold pass, simplify_pass.
  set (picked := pickEdgeCollapses (SS.result st) (SS.result_count st) remap vertex_kind
                   (SS.loop st)).
  destruct (Z.eqb_spec (len picked) 0) as [Hnone|Hsome].
  { split; [|repeat split; reflexivity]. unfold inv, simplify_inv. tauto. }
  destruct (pickEdgeCollapses_ok vertex_count remap (SS.result st) (SS.result_count st)
              vertex_kind (SS.loop st) Hbuf) as [Hcand Hcount].
  fold picked in Hcand, Hcount.
  destruct (rankEdgeCollapses_spec vertex_positions (SS.vertex_quadrics st) remap picked)
    as [Hlr Hranked].
  set (ranked := rankEdgeCollapses picked (len picked) vertex_positions
                   (SS.vertex_quadrics st) remap) in *.
  assert (Hn : 0 <= len picked < 2 ^ 32) by (pose proof (len_nonneg picked); lia).
  assert (Hso : len picked <= len (SS.collapse_order st)) by lia.
  set (order := sortEdgeCollapses (SS.collapse_order st) ranked (len picked)).
  pose proof (sortEdgeCollapses_spec ranked (len picked) Hn (SS.collapse_order st) Hso)
    as [Hlo _]. fold order in Hlo.
  set (goal := (SS.result_count st - target_index_count) / 3).
  set (limit := pass_error_limit_of target_error
                  (pass_error_goal ranked order (goal / 2) (len picked))).
  assert (Hinvp : perform_inv vertex_count remap (SS.result st) (SS.result_count st) limit
            (performEdgeCollapses
               (for_loop vertex_count (fun i a => aset a i (u32 i))
                  (repeat 0 (Z.to_nat vertex_count)))
               (repeat 0 (Z.to_nat vertex_count)) (SS.vertex_quadrics st)
               ranked (len picked) order remap wedge vertex_kind goal limit)).
  { rewrite <- Hlr.
    apply (performEdgeCollapses_inv vertex_count remap wedge vertex_kind ranked order
             (SS.result st) (SS.result_count st) goal limit Hok Hseam); auto.
    - intros p Hp. rewrite Hlr in *.
      apply (sortEdgeCollapses_range ranked (len picked) (SS.collapse_order st) Hn Hso p Hp).
    - intros i Hi. rewrite Hlr in Hi. rewrite Hranked by assumption.
      apply rankEdgeCollapses_one_ok.
      rewrite Forall_forall in Hcand. apply Hcand. now apply collapse_at_In. }
  set (cs := performEdgeCollapses _ _ _ _ _ _ _ _ _ _ _) in *.
  destruct Hinvp as (Hlcr & Hll & Hrng & Hfix & Happ & Hcnt).
  destruct (Z.eqb_spec (CS.edge_collapses cs) 0) as [Hzero|Hnz].
  { cbn [SS.result SS.result_count SS.passes].
    split; [|repeat split; reflexivity]. unfold inv, simplify_inv.
    cbn [SS.result SS.result_count SS.passes SS.collapse_order].
    split; [assumption|]. split; [assumption|]. split; [lia|]. tauto. }
  (* at least one collapse was carried out *)
  destruct (CS.applied cs) as [|c0 rest] eqn:Eapp.
  { exfalso. apply Hnz. rewrite Hcnt. reflexivity. }
  pose proof (remapIndexBuffer_spec vertex_count (CS.collapse_remap cs) (SS.result st)
                (SS.result_count st) Hbuf Hrng) as Hremap.
  destruct (remapIndexBuffer (SS.result st) (SS.result_count st) (CS.collapse_remap cs))
    as [result' new_count].
  destruct Hremap as (Hlen' & Hbuf' & Hle' & Hdist' & Hdec).
  assert (Hlt : new_count < SS.result_count st).
  { apply Hdec. pose proof (Forall_inv Happ) as Hc0.
    destruct Hc0 as (((Hedge & _) & _) & _ & Hv0 & Hv1 & _).
    destruct Hedge as (t & e & Ht & Hin & He & Hor).
    exists t. split; [lia|]. split; [lia|]. exists e. split; [lia|].
    destruct Hor as [[Ea Eb]|[Ea Eb]]; rewrite <- Ea, <- Eb; congruence. }
  cbn [SS.result SS.result_count SS.passes].
  split; [|split; [assumption|eexists; reflexivity]].
  unfold inv, simplify_inv.
  cbn [SS.result SS.result_count SS.passes SS.collapse_order].
  split; [assumption|]. split; [lia|]. split; [lia|]. split; [|split].
  - apply Forall_app. split; [assumption|]. constructor; [|constructor].
    unfold pass_ok. cbn [pass_error_limit pass_applied].
    split; [apply pass_error_limit_of_le|]. split; [discriminate|].
    eapply Forall_impl; [|exact Happ].
    intros c ((_ & Herr) & Hgt & _). split; assumption.
  - intros E. destruct (SS.passes st); discriminate.
  - intros _. exact Hdist'.
Qed.
End SimplifyPassFacts.

(** ** The outer loop and the entry point *)

Lemma firstn_all_len {A : Type} (l : list A) n : len l = n -> firstn (Z.to_nat n) l = l.
Proof.
  intros H. unfold len in H. replace (Z.to_nat n) with (length l) by lia.
  apply firstn_all.
Qed.

Lemma valid_input_buffer indices index_count vertex_count :
  valid_input indices index_count vertex_count ->
  buffer_ok vertex_count indices index_count.
Proof.
  intros (Hlen & Hmod & _ & _ & Hall). unfold buffer_ok.
  pose proof (len_nonneg indices).
  split; [lia|]. split; [assumption|].
  intros p Hp. rewrite Forall_forall in Hall. apply Hall. apply aget_In. lia.
Qed.

(** The part of [meshopt_simplify] before the outer loop always succeeds. *)
Lemma simplify_prepare_ok indices index_count vertex_positions_data vertex_count
  vertex_positions_stride target_error :
  valid_input indices index_count vertex_count ->
  exists tables st0,
    simplify_prepare indices index_count vertex_positions_data vertex_count
      vertex_positions_stride = Some (tables, st0)
    /\ remap_ok vertex_count (remap tables) (wedge tables)
    /\ (forall x, 0 <= x < vertex_count ->
          kind_at (vertex_kind tables) x = Kind_Seam -> geti (wedge tables) x <> x)
    /\ SS.result st0 = indices /\ SS.result_count st0 = index_count
    /\ SS.passes st0 = []
    /\ simplify_inv vertex_count indices index_count target_error st0.
Proof.
  intros Hvalid. pose proof (valid_input_buffer _ _ _ Hvalid) as Hbuf.
  destruct Hvalid as (Hlen & Hmod & Hic & Hvc & Hall).
  unfold simplify_prepare.
  destruct (buildPositionRemap_ok vertex_positions_data vertex_count
              vertex_positions_stride Hvc) as (rm & wd & -> & Hok).
  cbn [bind].
  destruct (Z.eq_dec vertex_count 0) as [Hz|Hnz].
  - (* without vertices nothing is classified *)
    subst vertex_count. cbn [classifyVertices Z.to_nat for_loop_opt for_from_opt bind].
    unfold classifyVertices, for_loop_opt. cbn [Z.to_nat for_from_opt bind].
    eexists _, _. split; [reflexivity|].
    cbn [remap wedge vertex_kind SS.result SS.result_count SS.passes].
    rewrite firstn_all_len by assumption.
    split; [assumption|]. split; [intros; lia|].
    split; [reflexivity|]. split; [reflexivity|]. split; [reflexivity|].
    unfold simplify_inv. cbn [SS.result SS.result_count SS.passes SS.collapse_order].
    pose proof (len_nonneg indices).
    split; [exact Hbuf|]. split; [lia|].
    split; [rewrite len_repeat; lia|]. split; [constructor|].
    split; [auto|]. intros E. now contradiction E.
  - destruct (classifyVertices_ok vertex_count rm wd
                (buildEdgeAdjacency indices index_count vertex_count) Hvc Hok)
      as (vk & lp & -> & Hlk & Hll & Hseam).
    { apply buildEdgeAdjacency_data_valid; [lia|assumption]. }
    cbn [bind]. eexists _, _. split; [reflexivity|].
    cbn [remap wedge vertex_kind SS.result SS.result_count SS.passes].
    rewrite firstn_all_len by assumption.
    split; [assumption|]. split; [assumption|].
    split; [reflexivity|]. split; [reflexivity|]. split; [reflexivity|].
    unfold simplify_inv. cbn [SS.result SS.result_count SS.passes SS.collapse_order].
    pose proof (len_nonneg indices).
    split; [exact Hbuf|]. split; [lia|].
    split; [rewrite len_repeat; lia|]. split; [constructor|].
    split; [auto|]. intros E. now contradiction E.
Qed.

Section SimplifyLoopFacts.
Variable vertex_count target_index_count : Z.
Variable target_error : float.
Variable tables : SimplifyTables.
Variable indices : list Z.
Variable index_count : Z.

Hypothesis Hvc : 0 <= vertex_count < 2 ^ 32.
Hypothesis Hic : index_count < 2 ^ 32.
Hypothesis Hok : remap_ok vertex_count (remap tables) (wedge tables).
Hypothesis Hseam : forall x, 0 <= x < vertex_count ->
  kind_at (vertex_kind tables) x = Kind_Seam -> geti (wedge tables) x <> x.

Let inv := simplify_inv vertex_count indices index_count target_error.
Let pass := simplify_pass_of tables vertex_count target_index_count target_error.
Let run := simplify_loop vertex_count target_index_count target_error (remap tables)
             (wedge tables) (vertex_kind tables) (vertex_positions tables).

Lemma simplify_pass_of_spec st :
  inv st ->
  match pass st with
  | inl st' =>
      inv st' /\ SS.result st' = SS.result st
      /\ SS.result_count st' = SS.result_count st /\ SS.passes st' = SS.passes st
  | inr st' =>
      inv st' /\ SS.result_count st' < SS.result_count st
      /\ exists p, SS.passes st' = SS.passes st ++ [p]
  end.
Proof.
  intros Hinv. unfold pass, simplify_pass_of.
  apply (simplify_pass_spec vertex_count target_index_count target_error
           (remap tables) (wedge tables) (vertex_kind tables) (vertex_positions tables)
           indices index_count Hvc Hic Hok Hseam st Hinv).
Qed.

Lemma simplify_reaches_inv st0 st :
  inv st0 -> simplify_reaches pass target_index_count st0 st -> inv st.
Proof.
  intros H0 Hreach. induction Hreach as [|st st' _ IH Hgt Hpass]; auto.
  pose proof (simplify_pass_of_spec st IH) as Hspec. rewrite Hpass in Hspec. tauto.
Qed.

(** With enough fuel the loop ends, in a state that satisfies the
    invariant; without a completed pass the buffer is untouched. *)
Lemma simplify_loop_ends fuel st :
  inv st -> SS.result_count st < 3 * Z.of_nat fuel ->
  exists st', run fuel st = Some st' /\ inv st'
    /\ SS.result_count st' <= SS.result_count st
    /\ (SS.passes st' = SS.passes st ->
        SS.result st' = SS.result st /\ SS.result_count st' = SS.result_count st)
    /\ (SS.passes st <> [] -> SS.passes st' <> []).
Proof.
  unfold run. revert st. induction fuel as [|fuel IH]; intros st Hinv Hfuel.
  - destruct Hinv as ((Hrc & _) & _). lia.
  - cbn [simplify_loop].
    destruct (Z.gtb_spec (SS.result_count st) target_index_count) as [Hgt|Hle].
    2:{ exists st. split; [reflexivity|]. split; [assumption|]. split; [lia|].
        split; auto. }
    pose proof (simplify_pass_of_spec st Hinv) as Hspec.
    unfold pass, simplify_pass_of in Hspec.
    destruct (simplify_pass _ _ _ _ _ _ _ st) as [st'|st'].
    + destruct Hspec as (Hinv' & Hres & Hcnt & Hpas).
      exists st'. split; [reflexivity|]. split; [assumption|]. split; [lia|].
      split; [auto|]. rewrite Hpas. auto.
    + destruct Hspec as (Hinv' & Hlt & p & Hpas).
      destruct (IH st' Hinv') as (st'' & Hrun & Hinv'' & Hle'' & Hsame & Hne).
      { destruct Hinv as ((_ & Hm & _) & _). destruct Hinv' as ((_ & Hm' & _) & _).
        pose proof (Z.div_mod (SS.result_count st) 3 ltac:(lia)).
        pose proof (Z.div_mod (SS.result_count st') 3 ltac:(lia)). lia. }
      exists st''. split; [exact Hrun|]. split; [assumption|]. split; [lia|].
      assert (Hne' : SS.passes st' <> []).
      { rewrite Hpas. destruct (SS.passes st); discriminate. }
      split.
      * intros E. exfalso.
        (* the log only grows *)
        assert (Hgrow : (length (SS.passes st') <= length (SS.passes st''))%nat).
        { clear - Hrun. revert st' Hrun. induction fuel as [|f IHf]; intros s Hrun.
          - cbn [simplify_loop] in Hrun.
            destruct (SS.result_count s >? target_index_count); [discriminate|].
            injection Hrun as <-. lia.
          - cbn [simplify_loop] in Hrun.
            destruct (SS.result_count s >? target_index_count);
              [|injection Hrun as <-; lia].
            unfold simplify_pass in Hrun.
            destruct (len _ =? 0); [injection Hrun as <-; lia|].
            destruct (CS.edge_collapses _ =? 0);
              [injection Hrun as <-; cbn [SS.passes]; lia|].
            destruct (remapIndexBuffer _ _ _) as [r c].
            apply IHf in Hrun. cbn [SS.passes] in Hrun.
            rewrite length_app in Hrun. cbn [length] in Hrun. lia. }
        rewrite E, Hpas, length_app in Hgrow. cbn [length] in Hgrow. lia.
      * intros _. now apply Hne.
Qed.

(** More fuel does not change the result. *)
Lemma simplify_loop_fuel fuel fuel' st st' :
  run fuel st = Some st' -> (fuel <= fuel')%nat -> run fuel' st = Some st'.
Proof.
  unfold run. revert fuel' st. induction fuel as [|fuel IH]; intros fuel' st Hrun Hle.
  - cbn [simplify_loop] in Hrun.
    destruct (SS.result_count st >? target_index_count) eqn:E; [discriminate|].
    destruct fuel'; cbn [simplify_loop]; rewrite E; exact Hrun.
  - destruct fuel' as [|fuel']; [lia|]. cbn [simplify_loop] in *.
    destruct (SS.result_count st >? target_index_count); [|exact Hrun].
    destruct (simplify_pass _ _ _ _ _ _ _ st); [exact Hrun|].
    apply IH; [exact Hrun|lia].
Qed.
End SimplifyLoopFacts.

(** ** The order of binary32 values *)

Lemma SFcompare_key x y :
  F32.is_nan x = false -> F32.is_nan y = false ->
  SFcompare x y = Some (lex_compare (float_key x) (float_key y)).
Proof.
  destruct x as [sx|sx| |sx mx ex], y as [sy|sy| |sy my ey]; try discriminate; intros _ _;
    try (destruct sx); try (destruct sy); try reflexivity.
  cbn [SFcompare float_key lex_compare]. rewrite Z.compare_opp.
  change (-1 ?= -1) with Eq. cbv iota.
  rewrite (Z.compare_antisym ey ex).
  destruct (ey ?= ex); cbn [CompOpp]; try reflexivity.
Qed.

Lemma lex_compare_lt a b : lex_compare a b = Lt <-> lex_lt a b.
Proof.
  destruct a as [[a1 a2] a3], b as [[b1 b2] b3]. unfold lex_compare, lex_lt.
  destruct (Z.compare_spec a1 b1); [|split; [lia|discriminate || auto]|split; [discriminate|lia]].
  destruct (Z.compare_spec a2 b2); [|split; [lia|discriminate || auto]|split; [discriminate|lia]].
  rewrite Z.compare_lt_iff. lia.
Qed.

Lemma F32_ltb_key x y :
  F32.is_nan x = false -> F32.is_nan y = false ->
  F32.ltb x y = true <-> lex_lt (float_key x) (float_key y).
Proof.
  intros Hx Hy. unfold F32.ltb, SFltb. rewrite SFcompare_key by assumption.
  rewrite <- lex_compare_lt. destruct (lex_compare _ _); split; congruence.
Qed.

Lemma F32_leb_key x y :
  F32.is_nan x = false -> F32.is_nan y = false ->
  F32.leb x y = true <-> ~ lex_lt (float_key y) (float_key x).
Proof.
  intros Hx Hy. unfold F32.leb, SFleb. rewrite SFcompare_key by assumption.
  rewrite <- lex_compare_lt.
  destruct (float_key x) as [[a1 a2] a3], (float_key y) as [[b1 b2] b3].
  unfold lex_compare.
  rewrite (Z.compare_antisym a1 b1), (Z.compare_antisym a2 b2), (Z.compare_antisym a3 b3).
  destruct (a1 ?= b1), (a2 ?= b2), (a3 ?= b3); cbn [CompOpp]; split; congruence.
Qed.

Lemma F32_ltb_nan_l x y : F32.is_nan x = true -> F32.ltb x y = false.
Proof. destruct x; try discriminate. reflexivity. Qed.

Lemma F32_ltb_nan_r x y : F32.is_nan y = true -> F32.ltb x y = false.
Proof. destruct y; try discriminate. destruct x; reflexivity. Qed.

(** [x > y] false means [x <= y] when neither is NaN. *)
Lemma F32_not_gtb_leb x y :
  F32.is_nan x = false -> F32.is_nan y = false ->
  F32.gtb x y = false -> F32.leb x y = true.
Proof.
  intros Hx Hy H. apply F32_leb_key; auto. intros Hlt.
  apply (F32_ltb_key y x Hy Hx) in Hlt. unfold F32.gtb, F32.ltb in *. congruence.
Qed.

(** Through a limit that is not NaN, "does not exceed" composes. *)
Lemma F32_not_gtb_trans e l t :
  F32.is_nan l = false ->
  F32.gtb e l = false -> F32.gtb l t = false -> F32.gtb e t = false.
Proof.
  intros Hl Hel Hlt. unfold F32.gtb in *. fold (F32.ltb t e). fold (F32.ltb l e) in Hel.
  fold (F32.ltb t l) in Hlt.
  destruct (F32.is_nan e) eqn:He; [now apply F32_ltb_nan_r|].
  destruct (F32.is_nan t) eqn:Ht; [now apply F32_ltb_nan_l|].
  destruct (F32.ltb t e) eqn:E; [|reflexivity]. exfalso.
  apply (F32_ltb_key t e Ht He) in E.
  assert (H1 : ~ lex_lt (float_key l) (float_key e)).
  { intros H. apply (F32_ltb_key l e Hl He) in H. congruence. }
  assert (H2 : ~ lex_lt (float_key t) (float_key l)).
  { intros H. apply (F32_ltb_key t l Ht Hl) in H. congruence. }
  destruct (float_key e) as [[e1 e2] e3], (float_key l) as [[l1 l2] l3],
    (float_key t) as [[t1 t2] t3].
  unfold lex_lt in *. lia.
Qed.

(** An absolute value that does not exceed zero is zero, or NaN. *)
Lemma F32_abs_not_gtb_zero r :
  F32.gtb (F32.abs r) F32.zero = false ->
  F32.abs r = F32.zero \/ F32.is_nan (F32.abs r) = true.
Proof.
  destruct r as [s|s| |s m e]; cbn; intros H; auto; discriminate.
Qed.

(** ** The sloppy simplifier: cells *)

Lemma cells_occupied_aset table e v :
  (cells_occupied (aset table e v) <= cells_occupied table + 1)%nat.
Proof.
  unfold aset. destruct (e <? 0); [lia|]. generalize (Z.to_nat e) as k. clear e.
  unfold cells_occupied. induction table as [|h t IH]; intros [|k]; cbn [upd filter length];
    try lia.
  - destruct (negb (HashCell.id v =? NONE32)), (negb (HashCell.id h =? NONE32));
      cbn [length]; lia.
  - specialize (IH k). destruct (negb (HashCell.id h =? NONE32)); cbn [length]; lia.
Qed.

Lemma cells_occupied_has_empty table :
  (cells_occupied table < length table)%nat ->
  exists e, 0 <= e < len table /\ HashCell.id (cell_at table e) = NONE32.
Proof.
  unfold cells_occupied, len. induction table as [|h t IH]; cbn [filter length]; [lia|].
  intros H. destruct (Z.eqb_spec (HashCell.id h) NONE32) as [Hh|Hne].
  - exists 0. split; [cbn [length]; lia|exact Hh].
  - cbn [negb length] in H. destruct IH as (e & He & Hv); [lia|].
    exists (e + 1). split; [cbn [length]; lia|].
    unfold cell_at, aget in *. destruct (Z.ltb_spec e 0); [lia|].
    destruct (Z.ltb_spec (e + 1) 0); [lia|].
    replace (Z.to_nat (e + 1)) with (S (Z.to_nat e)) by lia. exact Hv.
Qed.

Lemma cells_occupied_repeat n : cells_occupied (repeat HashCell_ones n) = 0%nat.
Proof. unfold cells_occupied. induction n; cbn; auto. Qed.

Lemma cell_at_aset_in table e v x :
  0 <= e < len table ->
  cell_at (aset table e v) x = if x =? e then v else cell_at table x.
Proof.
  intros He. unfold cell_at. rewrite aget_aset.
  destruct (Z.eqb_spec e x), (Z.eqb_spec x e); try lia; cbn [andb]; auto.
  replace (0 <=? e) with true by lia. replace (e <? len table) with true by lia.
  reflexivity.
Qed.

Section FillCells.
Variable vertex_ids : list Z.
Variables vertex_count n mask : Z.
Hypothesis Hvc : 0 <= vertex_count < 2 ^ 32.
Hypothesis Hn : 0 <= n.
Hypothesis Hsize : vertex_count <= 2 ^ n.

Lemma sloppy_fill_step_ok i st :
  0 <= i < vertex_count -> fill_inv vertex_count n i st ->
  exists st', sloppy_fill_step vertex_ids (2 ^ n) mask i st = Some st'
              /\ fill_inv vertex_count n (i + 1) st'.
Proof.
  intros Hi. destruct st as [[table vertex_cells] cell_count].
  intros (Hlt & Hlv & Hocc & Hcc & Htab & Hcells).
  unfold sloppy_fill_step.
  set (key := HashCell.mk (Z.land (geti vertex_ids i) mask) 0).
  destruct (cells_occupied_has_empty table) as (e0 & He0 & Hv0).
  { unfold len in Hlt. lia. }
  destruct (hashLookup2_total HashCell_eqb HashCellHasher HashCell_ones table n key
              HashCell_ones Hn) as (e & k & Hrun & _ & _ & He & _).
  { exists e0. split; [lia|]. left. unfold HashCell_eqb. fold (cell_at table e0).
    rewrite Hv0. reflexivity. }
  rewrite Hrun. cbn [bind].
  destruct (Z.eqb_spec (HashCell.id (cell_at table e)) NONE32) as [Hempty|Hfull].
  - (* a new cell *)
    eexists. split; [reflexivity|].
    rewrite cell_at_aset_in by lia. rewrite Z.eqb_refl. cbn [HashCell.cell].
    rewrite u32_small by lia.
    unfold fill_inv. rewrite !len_aset.
    split; [assumption|]. split; [assumption|].
    split; [pose proof (cells_occupied_aset table e
                          (HashCell.mk (Z.land (geti vertex_ids i) mask) cell_count)); lia|].
    split; [lia|]. split.
    + intros e' He'. rewrite cell_at_aset_in by lia.
      destruct (Z.eqb_spec e' e); cbn [HashCell.cell]; [lia|].
      intros Hid. specialize (Htab e' He' Hid). lia.
    + intros j Hj. rewrite geti_aset_in by lia.
      destruct (Z.eqb_spec j i); [lia|]. specialize (Hcells j ltac:(lia)). lia.
  - (* a cell seen before *)
    eexists. split; [reflexivity|].
    unfold fill_inv. rewrite !len_aset.
    split; [assumption|]. split; [assumption|]. split; [lia|]. split; [lia|].
    split; [assumption|].
    intros j Hj. rewrite geti_aset_in by lia.
    destruct (Z.eqb_spec j i); [now apply Htab|]. apply Hcells. lia.
Qed.

Lemma sloppy_fill_cells_ok :
  exists vertex_cells cell_count,
    sloppy_fill_cells vertex_ids vertex_count (2 ^ n) mask
    = Some (vertex_cells, cell_count)
    /\ len vertex_cells = vertex_count
    /\ 0 <= cell_count <= vertex_count
    /\ forall j, 0 <= j < vertex_count -> 0 <= geti vertex_cells j < cell_count.
Proof.
  unfold sloppy_fill_cells.
  destruct (for_loop_opt_inv (fill_inv vertex_count n)
              (sloppy_fill_step vertex_ids (2 ^ n) mask) vertex_count
              (repeat HashCell_ones (Z.to_nat (2 ^ n)),
               repeat 0 (Z.to_nat vertex_count), 0))
    as ([[table vertex_cells] cell_count] & -> & Hinv).
  - lia.
  - unfold fill_inv. rewrite !len_repeat by lia. rewrite cells_occupied_repeat.
    split; [reflexivity|]. split; [reflexivity|]. split; [lia|]. split; [lia|].
    split; [|intros; lia].
    intros e He Hid. exfalso. apply Hid. unfold cell_at. now rewrite aget_repeat.
  - intros i st Hi. now apply sloppy_fill_step_ok.
  - cbn [bind]. destruct Hinv as (_ & Hlv & _ & Hcc & _ & Hcells).
    exists vertex_cells, cell_count. auto.
Qed.
End FillCells.

Section CellRemap.
Variable vertex_positions : list Vector3.t.
Variable cell_quadrics : list Quadric.
Variable vertex_cells : list Z.
Variables vertex_count cell_count : Z.
Hypothesis Hvc : 0 <= vertex_count < 2 ^ 32.
Hypothesis Hcc : 0 <= cell_count.
Hypothesis Hcells : forall j, 0 <= j < vertex_count ->
  0 <= geti vertex_cells j < cell_count.

Lemma sloppy_cell_remap_step_ok i st :
  0 <= i < vertex_count -> cell_remap_inv vertex_cells cell_count i st ->
  cell_remap_inv vertex_cells cell_count (i + 1)
    (sloppy_cell_remap_step vertex_positions cell_quadrics vertex_cells i st).
Proof.
  intros Hi. destruct st as [cell_remap cell_errors]. intros (Hlen & Hval & Hset).
  unfold sloppy_cell_remap_step.
  pose proof (Hcells i Hi) as Hc. set (cell := geti vertex_cells i) in *.
  assert (Hnew : forall v, 0 <= v < i + 1 ->
            forall errs, cell_remap_inv vertex_cells cell_count (i + 1)
                           (aset cell_remap cell v, errs)).
  { intros v Hv errs. unfold cell_remap_inv. rewrite len_aset.
    split; [assumption|]. split.
    - intros c Hcr. rewrite geti_aset_in by lia.
      destruct (Z.eqb_spec c cell); [right; lia|].
      destruct (Hval c Hcr); [now left|right; lia].
    - intros j Hj. rewrite geti_aset_in by (pose proof (Hcells j ltac:(lia)); lia).
      destruct (Z.eqb_spec (geti vertex_cells j) cell) as [E|E]; [unfold NONE32; lia|].
      apply Hset. destruct (Z.eq_dec j i) as [->|]; [now contradiction E|lia]. }
  destruct (Z.eqb_spec (geti cell_remap cell) NONE32) as [Hnone|Hsome].
  - apply Hnew. rewrite u32_small by lia. lia.
  - apply Hnew. destruct (F32.ltb _ _).
    + rewrite u32_small by lia. lia.
    + destruct (Hval cell Hc); [contradiction|lia].
Qed.

(** Every vertex is given a representative, which is a vertex. *)
Lemma sloppy_cell_remap_ok j :
  0 <= j < vertex_count ->
  0 <= geti (sloppy_cell_remap vertex_positions cell_quadrics vertex_cells
               vertex_count cell_count) (geti vertex_cells j) < vertex_count.
Proof.
  intros Hj. unfold sloppy_cell_remap.
  assert (H : cell_remap_inv vertex_cells cell_count vertex_count
                (for_loop vertex_count
                   (sloppy_cell_remap_step vertex_positions cell_quadrics vertex_cells)
                   (repeat NONE32 (Z.to_nat cell_count),
                    repeat F32.zero (Z.to_nat cell_count)))).
  { apply (for_loop_inv (cell_remap_inv vertex_cells cell_count)); [lia| |].
    - unfold cell_remap_inv. rewrite len_repeat by lia. split; [reflexivity|].
      split; [|intros; lia]. intros c Hc. left. unfold geti. now rewrite aget_repeat.
    - intros i st Hi. now apply sloppy_cell_remap_step_ok. }
  destruct (for_loop _ _ _) as [cell_remap cell_errors]. cbn [fst].
  destruct H as (_ & Hval & Hset).
  destruct (Hval (geti vertex_cells j) (Hcells j Hj)) as [E|E]; [|lia].
  exfalso. now apply (Hset j Hj).
Qed.
End CellRemap.

(** ** The sloppy simplifier: emitted triangles *)

Section Emit.
Variable vertex_count : Z.
Variables cell_remap vertex_cells : list Z.
Variables destination indices : list Z.
Variable index_count : Z.
Hypothesis Hbuf : buffer_ok vertex_count indices index_count.
Hypothesis Hroom : index_count <= len destination.
Hypothesis Hrep : forall x, 0 <= x < vertex_count ->
  0 <= geti cell_remap (geti vertex_cells x) < vertex_count.

Let inv (t : Z) (st : list Z * Z) : Prop :=
  len (fst st) = len destination
  /\ compact_inv vertex_count
       (fun u => ~ sloppy_dropped cell_remap vertex_cells indices u) t st
  /\ ((forall u, 0 <= u < t -> sloppy_dropped cell_remap vertex_cells indices u) ->
      snd st = 0).

Lemma sloppy_emit_inv :
  inv (triangle_loops index_count)
    (sloppy_emit destination indices index_count cell_remap vertex_cells).
Proof.
  destruct Hbuf as (Hrc & Hmod & Hval).
  unfold sloppy_emit. apply (for_loop_inv inv).
  - unfold triangle_loops. apply Z.div_pos; lia.
  - unfold inv, compact_inv. cbn [fst snd]. split; [reflexivity|].
    split; [|reflexivity].
    split; [exists 0; lia|]. split; [intros; lia|]. split; intros; lia.
  - intros t [buffer write] Ht (Hlen & ((w & -> & Hw) & Hvalid & Hdist & Hdeg) & Hall).
    cbn [fst snd] in *.
    pose proof (triangle_in_buffer index_count t ltac:(lia) Hmod Ht) as Hin.
    set (v0 := geti cell_remap (geti vertex_cells (geti indices (3 * t + 0)))).
    set (v1 := geti cell_remap (geti vertex_cells (geti indices (3 * t + 1)))).
    set (v2 := geti cell_remap (geti vertex_cells (geti indices (3 * t + 2)))).
    assert (Hv0 : 0 <= v0 < vertex_count) by (apply Hrep, Hval; lia).
    assert (Hv1 : 0 <= v1 < vertex_count) by (apply Hrep, Hval; lia).
    assert (Hv2 : 0 <= v2 < vertex_count) by (apply Hrep, Hval; lia).
    assert (Hdrop : v0 = v1 \/ v0 = v2 \/ v1 = v2 ->
              inv (t + 1) (buffer, 3 * w)).
    { intros Hd. unfold inv, compact_inv; cbn [fst snd].
      split; [assumption|]. split.
      - split; [exists w; lia|]. split; [assumption|]. split; [assumption|].
        intros u Hu Hnk. destruct (Z.eq_dec u t) as [->|Hne]; [lia|].
        specialize (Hdeg u ltac:(lia) Hnk). lia.
      - intros Hall'. apply Hall. intros u Hu. apply Hall'. lia. }
    destruct (Z.eqb_spec v0 v1) as [E01|N01]; cbn [negb andb]; [apply Hdrop; auto|].
    destruct (Z.eqb_spec v0 v2) as [E02|N02]; cbn [negb andb]; [apply Hdrop; auto|].
    destruct (Z.eqb_spec v1 v2) as [E12|N12]; cbn [negb andb]; [apply Hdrop; auto|].
    (* the triangle is emitted *)
    unfold inv, compact_inv. cbn [fst snd]. rewrite !len_aset.
    split; [assumption|]. split.
    + split; [exists (w + 1); lia|]. split; [|split].
      * intros p Hp. rewrite geti_aset3 by lia.
        destruct (Z.eqb_spec p (3 * w + 2)); [lia|].
        destruct (Z.eqb_spec p (3 * w + 1)); [lia|].
        destruct (Z.eqb_spec p (3 * w)); [lia|]. apply Hvalid. lia.
      * intros u Hu Hlt. unfold triangle_distinct. rewrite !geti_aset3 by lia.
        destruct (Z.eq_dec u w) as [->|Hne].
        -- replace (3 * w + 2 =? 3 * w + 2) with true by lia.
           replace (3 * w + 1 =? 3 * w + 2) with false by lia.
           replace (3 * w =? 3 * w + 2) with false by lia.
           replace (3 * w + 1 =? 3 * w + 1) with true by lia.
           replace (3 * w =? 3 * w + 1) with false by lia.
           replace (3 * w =? 3 * w) with true by lia.
           auto.
        -- assert (3 * u + 2 < 3 * w) by lia.
           replace (3 * u + 2 =? 3 * w + 2) with false by lia.
           replace (3 * u + 2 =? 3 * w + 1) with false by lia.
           replace (3 * u + 2 =? 3 * w) with false by lia.
           replace (3 * u + 1 =? 3 * w + 2) with false by lia.
           replace (3 * u + 1 =? 3 * w + 1) with false by lia.
           replace (3 * u + 1 =? 3 * w) with false by lia.
           replace (3 * u =? 3 * w + 2) with false by lia.
           replace (3 * u =? 3 * w + 1) with false by lia.
           replace (3 * u =? 3 * w) with false by lia.
           apply Hdist; lia.
      * intros u Hu Hnk. destruct (Z.eq_dec u t) as [->|Hne].
        -- exfalso. apply Hnk. unfold sloppy_dropped. fold v0 v1 v2. lia.
        -- specialize (Hdeg u ltac:(lia) Hnk). lia.
    + intros Hall'. exfalso.
      specialize (Hall' t ltac:(lia)). unfold sloppy_dropped in Hall'.
      fold v0 v1 v2 in Hall'. lia.
Qed.

(** What the emit loop returns. *)
Lemma sloppy_emit_spec :
  let '(result, write) :=
    sloppy_emit destination indices index_count cell_remap vertex_cells in
  len result = len destination
  /\ buffer_ok vertex_count result write
  /\ write <= index_count
  /\ (forall t, 0 <= t -> 3 * t + 2 < write -> triangle_distinct result t)
  /\ ((forall t, 0 <= t -> 3 * t + 2 < index_count ->
         sloppy_dropped cell_remap vertex_cells indices t) -> write = 0).
Proof.
  pose proof sloppy_emit_inv as H.
  destruct Hbuf as (Hrc & Hmod & Hval).
  destruct (sloppy_emit destination indices index_count cell_remap vertex_cells)
    as [result write].
  destruct H as (Hlen & ((w & -> & Hw) & Hvalid & Hdist & Hdeg) & Hall).
  cbn [fst snd] in *.
  rewrite triangle_loops_exact in * by lia.
  pose proof (Z.div_mod index_count 3 ltac:(lia)) as Hdm. rewrite Hmod in Hdm.
  split; [assumption|]. split; [|split; [lia|split; [assumption|]]].
  - unfold buffer_ok. split; [lia|]. split; [|assumption].
    rewrite Z.mul_comm. apply Z.mod_mul. lia.
  - intros Hd. apply Hall. intros u Hu. apply Hd; lia.
Qed.
End Emit.

Lemma sloppy_mask_range pass : 0 <= pass < 10 -> 0 <= sloppy_mask pass < 2 ^ 30.
Proof.
  intros H.
  assert (Hc : pass = 0 \/ pass = 1 \/ pass = 2 \/ pass = 3 \/ pass = 4 \/ pass = 5
               \/ pass = 6 \/ pass = 7 \/ pass = 8 \/ pass = 9) by lia.
  repeat (destruct Hc as [->|Hc]; [vm_compute; split; [discriminate|reflexivity]|]).
  subst pass. vm_compute. split; [discriminate|reflexivity].
Qed.

Lemma sloppy_find_mask_range vertex_ids vertex_count count_table_size target_cell_count :
  0 <= sloppy_find_mask vertex_ids vertex_count count_table_size target_cell_count < 2 ^ 30.
Proof.
  unfold sloppy_find_mask. apply for_break_inv.
  - lia.
  - intros pass m Hp _. cbn [fst]. now apply sloppy_mask_range.
Qed.

(** What [meshopt_simplifySloppy] returns for a well-formed input and a
    destination with room for [index_count] indices. *)
Lemma meshopt_simplifySloppy_ok destination indices index_count vertex_positions_data
  vertex_count vertex_positions_stride target_index_count target_error :
  valid_input indices index_count vertex_count ->
  index_count <= len destination ->
  0 <= target_index_count <= index_count ->
  exists result write,
    meshopt_simplifySloppy destination indices index_count vertex_positions_data
      vertex_count vertex_positions_stride target_index_count target_error
    = Some (result, write)
    /\ len result = len destination
    /\ buffer_ok vertex_count result write
    /\ write <= index_count
    /\ forall t, 0 <= t -> 3 * t + 2 < write -> triangle_distinct result t.
Proof.
  intros Hvalid Hroom Htarget. pose proof (valid_input_buffer _ _ _ Hvalid) as Hbuf.
  destruct Hvalid as (Hlen & Hmod & Hic & Hvc & Hall).
  unfold meshopt_simplifySloppy.
  destruct (Z.eqb_spec (target_index_count / 6) 0) as [Hz|Hnz].
  { exists destination, 0. split; [reflexivity|]. split; [reflexivity|].
    destruct Hbuf as (Hb & _). pose proof (len_nonneg destination).
    split; [unfold buffer_ok; split; [lia|]; split; [reflexivity|intros; lia]|].
    split; [lia|intros; lia]. }
  assert (H263 : 2 ^ 32 <= 2 ^ 63) by (apply Z.pow_le_mono_r; lia).
  destruct (hashBuckets2_pow2 vertex_count) as (n & Hn & -> & Hsize); [lia|].
  cbn [bind].
  destruct (hashBuckets2_pow2 (target_index_count / 6 * 4)) as (n' & Hn' & -> & Hsize').
  { assert (target_index_count / 6 <= target_index_count)
      by (apply Z.div_le_upper_bound; lia).
    change (2 ^ 63) with (2 ^ 32 * 2147483648). lia. }
  cbn [bind].
  set (vertex_positions := rescalePositions _ _ _).
  set (vertex_ids := sloppy_vertex_ids _ _).
  set (mask := sloppy_find_mask _ _ _ _).
  destruct (sloppy_fill_cells_ok vertex_ids vertex_count n mask Hvc ltac:(lia) Hsize)
    as (vertex_cells & cell_count & -> & Hlv & Hcc & Hcells).
  cbn [bind].
  set (cell_quadrics := fillFaceQuadrics _ _ _ _ _).
  set (cell_remap := sloppy_cell_remap _ _ _ _ _).
  pose proof (sloppy_emit_spec vertex_count cell_remap vertex_cells destination indices
                index_count Hbuf Hroom) as Hemit.
  destruct (sloppy_emit destination indices index_count cell_remap vertex_cells)
    as [result write].
  destruct Hemit as (H1 & H2 & H3 & H4 & _).
  { intros x Hx. apply sloppy_cell_remap_ok; auto; lia. }
  exists result, write. auto.
Qed.

(** ** Position rescaling *)

Lemma pos_at_aset a i v x :
  0 <= i < len a -> pos_at (aset a i v) x = if x =? i then v else pos_at a x.
Proof.
  intros Hi. unfold pos_at. rewrite aget_aset.
  destruct (Z.eqb_spec i x), (Z.eqb_spec x i); try lia; cbn [andb]; auto.
  replace (0 <=? i) with true by lia. replace (i <? len a) with true by lia.
  reflexivity.
Qed.

Section Rescale.
Variable vertex_positions_data : list Z.
Variables vertex_count vertex_positions_stride : Z.
Hypothesis Hvc : 0 <= vertex_count.

Let sf := vertex_positions_stride / 4.
Let v := position_float vertex_positions_data sf.

Lemma rescalePositions_bounds_spec :
  let '(result, minv, maxv) :=
    rescalePositions_bounds vertex_positions_data vertex_count sf in
  len result = vertex_count
  /\ forall i, 0 <= i < vertex_count ->
       pos_at result i = Vector3.mk (v i 0) (v i 1) (v i 2).
Proof.
  unfold rescalePositions_bounds.
  match goal with
  | |- context [for_loop vertex_count ?body ?init] =>
      assert (H : let st := for_loop vertex_count body init in
                  len (fst (fst st)) = vertex_count
                  /\ forall i, 0 <= i < vertex_count ->
                       pos_at (fst (fst st)) i = Vector3.mk (v i 0) (v i 1) (v i 2));
      [apply (for_loop_inv
                (fun n (st : list Vector3.t * (float * float * float)
                             * (float * float * float)) =>
                   len (fst (fst st)) = vertex_count
                   /\ forall i, 0 <= i < n ->
                        pos_at (fst (fst st)) i = Vector3.mk (v i 0) (v i 1) (v i 2)))
      | cbv zeta in H; destruct (for_loop vertex_count body init) as [[r mn] mx];
        exact H]
  end.
  - lia.
  - cbn [fst]. split; [apply len_repeat; lia|intros; lia].
  - intros i [[r [[m0 m1] m2]] [[x0 x1] x2]] Hi [Hlen Hpos]. cbn [fst] in *.
    rewrite len_aset. split; [assumption|].
    intros j Hj. rewrite pos_at_aset by lia.
    destruct (Z.eqb_spec j i) as [->|]; [reflexivity|]. apply Hpos. lia.
Qed.

(** Every output position is the input position, translated and scaled
    with the same bounds and scale. *)
Lemma rescalePositions_at i :
  0 <= i < vertex_count ->
  let '(min0, min1, min2) :=
    rescale_minv vertex_positions_data vertex_count vertex_positions_stride in
  let scale := rescale_scale vertex_positions_data vertex_count vertex_positions_stride in
  pos_at (rescalePositions vertex_positions_data vertex_count vertex_positions_stride) i
  = Vector3.mk (F32.mul (F32.sub (v i 0) min0) scale)
               (F32.mul (F32.sub (v i 1) min1) scale)
               (F32.mul (F32.sub (v i 2) min2) scale).
Proof.
  intros Hi. unfold rescalePositions, rescale_scale, rescale_minv, rescale_maxv.
  fold sf. pose proof rescalePositions_bounds_spec as Hb.
  destruct (rescalePositions_bounds vertex_positions_data vertex_count sf)
    as [[r [[min0 min1] min2]] maxv].
  cbn [fst snd]. destruct Hb as [Hlen Hpos].
  set (scale := rescalePositions_scale _).
  set (g := fun p : Vector3.t =>
              Vector3.mk (F32.mul (F32.sub (Vector3.x p) min0) scale)
                         (F32.mul (F32.sub (Vector3.y p) min1) scale)
                         (F32.mul (F32.sub (Vector3.z p) min2) scale)).
  assert (H : let out := for_loop vertex_count
                (fun i result => aset result i (g (aget Vector3_zero result i))) r in
              len out = vertex_count
              /\ (forall j, 0 <= j < vertex_count -> pos_at out j = g (pos_at r j))).
  { assert (H' : let out := for_loop vertex_count
                   (fun i result => aset result i (g (aget Vector3_zero result i))) r in
                 len out = vertex_count
                 /\ (forall j, 0 <= j < vertex_count -> pos_at out j = g (pos_at r j))
                 /\ (forall j, vertex_count <= j -> pos_at out j = pos_at r j)).
    { apply (for_loop_inv
               (fun n out => len out = vertex_count
                  /\ (forall j, 0 <= j < n -> pos_at out j = g (pos_at r j))
                  /\ (forall j, n <= j -> pos_at out j = pos_at r j))).
      - lia.
      - split; [assumption|]. split; [intros; lia|reflexivity].
      - intros n out Hn (Hl & Hlo & Hhi). rewrite len_aset. split; [assumption|].
        split; intros j Hj; rewrite pos_at_aset by lia.
        + destruct (Z.eqb_spec j n) as [->|].
          * f_equal. apply Hhi. lia.
          * apply Hlo. lia.
        + destruct (Z.eqb_spec j n); [lia|]. apply Hhi. lia. }
    cbv zeta in H' |- *. destruct H' as (A & B & _). split; assumption. }
  cbv zeta in H. destruct H as [_ Hout].
  unfold g in Hout. rewrite Hout by assumption. rewrite Hpos by assumption.
  reflexivity.
Qed.

(** Vertices with the same position words get the same output. *)
Lemma rescalePositions_same i j :
  0 <= i < vertex_count -> 0 <= j < vertex_count ->
  (forall k, 0 <= k < 3 ->
     position_word vertex_positions_data sf i k
     = position_word vertex_positions_data sf j k) ->
  pos_at (rescalePositions vertex_positions_data vertex_count vertex_positions_stride) i
  = pos_at (rescalePositions vertex_positions_data vertex_count vertex_positions_stride) j.
Proof.
  intros Hi Hj Hw.
  pose proof (rescalePositions_at i Hi) as Ei.
  pose proof (rescalePositions_at j Hj) as Ej.
  destruct (rescale_minv _ _ _) as [[min0 min1] min2]. cbv zeta in Ei, Ej.
  rewrite Ei, Ej. unfold v, position_float.
  rewrite (Hw 0), (Hw 1), (Hw 2) by lia. reflexivity.
Qed.
End Rescale.

Lemma of_bits_shape w :
  match F32.of_bits w with
  | S754_finite s p e => e <= 104 /\ Zpos p < 2 ^ 24
  | _ => True
  end.
Proof.
  unfold F32.of_bits.
  assert (Hm : 0 <= Z.land w 8388607 < 2 ^ 23).
  { change 8388607 with (Z.ones 23). rewrite Z.land_ones by lia.
    apply Z.mod_pos_bound. lia. }
  assert (He : 0 <= Z.land (Z.shiftr w 23) 255 < 2 ^ 8).
  { change 255 with (Z.ones 8). rewrite Z.land_ones by lia.
    apply Z.mod_pos_bound. lia. }
  destruct (Z.eqb_spec (Z.land (Z.shiftr w 23) 255) 0).
  - destruct (Z.land w 8388607) eqn:E; auto. split; lia.
  - destruct (Z.eqb_spec (Z.land (Z.shiftr w 23) 255) 255).
    + destruct (Z.land w 8388607 =? 0); exact I.
    + destruct (Z.land w 8388607 + 8388608) eqn:E; auto. split; lia.
Qed.

Lemma track_min_FLT_MAX w :
  is_finite (F32.of_bits w) = true -> track_min F32.FLT_MAX (F32.of_bits w) = F32.of_bits w.
Proof.
  pose proof (of_bits_shape w) as Hs. destruct (F32.of_bits w) as [s|s| |s p e];
    try discriminate; intros _.
  - reflexivity.
  - unfold track_min, F32.gtb, SFltb, SFcompare, F32.FLT_MAX. destruct s; [reflexivity|].
    destruct Hs as [He Hp].
    destruct (Z.compare_spec e 104); [|reflexivity|lia]. subst e.
    rewrite Pos.compare_cont_spec. cbn [Pos.switch_Eq].
    destruct (Pos.compare_spec p 16777215); [subst; reflexivity|reflexivity|lia].
Qed.

Lemma track_max_FLT_MAX w :
  is_finite (F32.of_bits w) = true ->
  track_max (F32.opp F32.FLT_MAX) (F32.of_bits w) = F32.of_bits w.
Proof.
  pose proof (of_bits_shape w) as Hs. destruct (F32.of_bits w) as [s|s| |s p e];
    try discriminate; intros _.
  - reflexivity.
  - unfold track_max, F32.ltb, SFltb, SFcompare, F32.opp, SFopp, F32.FLT_MAX. cbn [negb].
    destruct s; [|reflexivity]. destruct Hs as [He Hp].
    rewrite (Z.compare_antisym e 104).
    destruct (Z.compare_spec e 104); cbn [CompOpp]; [|reflexivity|lia]. subst e.
    rewrite Pos.compare_cont_spec. cbn [Pos.switch_Eq].
    rewrite (Pos.compare_antisym p 16777215).
    destruct (Pos.compare_spec p 16777215); cbn [CompOpp]; [subst; reflexivity|reflexivity|lia].
Qed.

Lemma track_min_same x : track_min x x = x.
Proof. unfold track_min. destruct (F32.gtb x x); reflexivity. Qed.

Lemma track_max_same x : track_max x x = x.
Proof. unfold track_max. destruct (F32.ltb x x); reflexivity. Qed.

Lemma F32_sub_diag x : is_finite x = true -> F32.sub x x = F32.zero.
Proof.
  destruct x as [s|s| |s m e]; try discriminate; intros _.
  - destruct s; reflexivity.
  - unfold F32.sub, SFsub. rewrite Z.sub_diag. reflexivity.
Qed.

Section ZeroExtent.
Variable vertex_positions_data : list Z.
Variables vertex_count vertex_positions_stride : Z.
Hypothesis Hvc : 0 < vertex_count.
Hypothesis Hsame :
  positions_coincide vertex_positions_data vertex_count vertex_positions_stride.
Hypothesis Hfin :
  positions_finite vertex_positions_data vertex_count vertex_positions_stride.

Let sf := vertex_positions_stride / 4.
Let v := position_float vertex_positions_data sf.

Let w0 := position_word vertex_positions_data sf 0.

Lemma coincide_finite j : 0 <= j < 3 -> is_finite (F32.of_bits (w0 j)) = true.
Proof. intros Hj. exact (Hfin 0 j ltac:(lia) Hj). Qed.

Lemma coincide_float i j : 0 <= i < vertex_count -> 0 <= j < 3 -> v i j = v 0 j.
Proof.
  intros Hi Hj. unfold v, position_float, sf. now rewrite (Hsame i j Hi Hj).
Qed.

Lemma rescale_bounds_coincide :
  rescale_minv vertex_positions_data vertex_count vertex_positions_stride
  = (v 0 0, v 0 1, v 0 2)
  /\ rescale_maxv vertex_positions_data vertex_count vertex_positions_stride
     = (v 0 0, v 0 1, v 0 2).
Proof.
  unfold rescale_minv, rescale_maxv, rescalePositions_bounds. fold sf.
  set (P := fun n (st : list Vector3.t * (float * float * float)
                        * (float * float * float)) =>
              (n = 0 /\ snd (fst st) = (F32.FLT_MAX, F32.FLT_MAX, F32.FLT_MAX)
               /\ snd st = (F32.opp F32.FLT_MAX, F32.opp F32.FLT_MAX,
                            F32.opp F32.FLT_MAX))
              \/ (0 < n /\ snd (fst st) = (v 0 0, v 0 1, v 0 2)
                  /\ snd st = (v 0 0, v 0 1, v 0 2))).
  match goal with
  | |- context [for_loop vertex_count ?body ?init] =>
      assert (H : P vertex_count (for_loop vertex_count body init))
  end.
  { apply (for_loop_inv P).
    - lia.
    - left. cbn [fst snd]. auto.
    - intros i [[r [[m0 m1] m2]] [[x0 x1] x2]] Hi Hinv. unfold P in *.
      cbn [fst snd] in *.
      right. split; [lia|].
      fold (v i 0) (v i 1) (v i 2).
      fold (track_min m0 (v i 0)) (track_min m1 (v i 1)) (track_min m2 (v i 2)).
      fold (track_max x0 (v i 0)) (track_max x1 (v i 1)) (track_max x2 (v i 2)).
      rewrite (coincide_float i 0), (coincide_float i 1), (coincide_float i 2) by lia.
      destruct Hinv as [(_ & Hmin & Hmax)|(_ & Hmin & Hmax)];
        (assert (Em0 := f_equal (fun t => fst (fst t)) Hmin);
         assert (Em1 := f_equal (fun t => snd (fst t)) Hmin);
         assert (Em2 := f_equal (fun t => snd t) Hmin);
         assert (Ex0 := f_equal (fun t => fst (fst t)) Hmax);
         assert (Ex1 := f_equal (fun t => snd (fst t)) Hmax);
         assert (Ex2 := f_equal (fun t => snd t) Hmax);
         cbn [fst snd] in Em0, Em1, Em2, Ex0, Ex1, Ex2;
         rewrite Em0, Em1, Em2, Ex0, Ex1, Ex2).
      + pose proof (coincide_finite 0 ltac:(lia)) as F0. pose proof (coincide_finite 1 ltac:(lia)) as F1.
        pose proof (coincide_finite 2 ltac:(lia)) as F2.
        change (v 0 0) with (F32.of_bits (w0 0)). change (v 0 1) with (F32.of_bits (w0 1)).
        change (v 0 2) with (F32.of_bits (w0 2)).
        rewrite (track_min_FLT_MAX (w0 0) F0), (track_min_FLT_MAX (w0 1) F1),
          (track_min_FLT_MAX (w0 2) F2), (track_max_FLT_MAX (w0 0) F0),
          (track_max_FLT_MAX (w0 1) F1), (track_max_FLT_MAX (w0 2) F2).
        auto.
      + rewrite (track_min_same (v 0 0)), (track_min_same (v 0 1)), (track_min_same (v 0 2)),
          (track_max_same (v 0 0)), (track_max_same (v 0 1)), (track_max_same (v 0 2)).
        auto. }
  destruct H as [(Hz & _)|(_ & Hmin & Hmax)]; [lia|]. split; assumption.
Qed.

(** A mesh without extent is scaled by zero, onto the origin. *)
Lemma rescale_zero_extent :
  rescale_scale vertex_positions_data vertex_count vertex_positions_stride = F32.zero
  /\ forall i, 0 <= i < vertex_count ->
       pos_at (rescalePositions vertex_positions_data vertex_count
                 vertex_positions_stride) i = Vector3_zero.
Proof.
  destruct rescale_bounds_coincide as [Hmin Hmax].
  assert (Hf : forall j, 0 <= j < 3 -> is_finite (v 0 j) = true)
    by (intros j Hj; exact (Hfin 0 j ltac:(lia) Hj)).
  assert (Hscale : rescale_scale vertex_positions_data vertex_count
                     vertex_positions_stride = F32.zero).
  { unfold rescale_scale. rewrite Hmin, Hmax. unfold rescalePositions_extent.
    rewrite (F32_sub_diag (v 0 0)), (F32_sub_diag (v 0 1)), (F32_sub_diag (v 0 2))
      by (apply Hf; lia).
    reflexivity. }
  split; [assumption|].
  intros i Hi.
  pose proof (rescalePositions_at vertex_positions_data vertex_count
                vertex_positions_stride ltac:(lia) i Hi) as E.
  rewrite Hmin, Hscale in E. cbv zeta in E. rewrite E.
  fold sf. fold v.
  rewrite (coincide_float i 0), (coincide_float i 1), (coincide_float i 2) by lia.
  rewrite (F32_sub_diag (v 0 0)), (F32_sub_diag (v 0 1)), (F32_sub_diag (v 0 2))
    by (apply Hf; lia).
  reflexivity.
Qed.
End ZeroExtent.

Lemma rescale_empty vertex_positions_data vertex_positions_stride :
  rescale_scale vertex_positions_data 0 vertex_positions_stride = F32.zero.
Proof. reflexivity. Qed.

(** ** A mesh whose vertices share one position *)

Lemma land_below a b k : 0 <= k -> 0 <= b < 2 ^ k -> 0 <= Z.land a b < 2 ^ k.
Proof.
  intros Hk Hb.
  assert (E : Z.land a b = Z.land a b mod 2 ^ k).
  { rewrite <- Z.land_ones by assumption. rewrite <- Z.land_assoc.
    rewrite (Z.land_ones b) by assumption. now rewrite Z.mod_small. }
  rewrite E. apply Z.mod_pos_bound. lia.
Qed.

Lemma for_from_ext {St : Type} (f g : Z -> St -> St) n i0 s :
  (forall i s, i0 <= i < i0 + Z.of_nat n -> f i s = g i s) ->
  for_from n i0 f s = for_from n i0 g s.
Proof.
  revert i0 s. induction n as [|n IH]; intros i0 s H; [reflexivity|].
  cbn [for_from]. rewrite H by lia. apply IH. intros i s' Hi. apply H. lia.
Qed.

Section HashLookupFirst.
Context {T : Type}.
Variable eqT : T -> T -> bool.
Variable hasher : Hasher T.
Variable dflt : T.

(** A lookup whose first bucket accepts stops there. *)
Lemma hashLookup2_first table n key empty :
  0 <= n ->
  slot_accepts eqT hasher dflt table key empty (Z.land (hash hasher key) (2 ^ n - 1)) ->
  hashLookup2 eqT hasher dflt table (2 ^ n) key empty
  = Some (Z.land (hash hasher key) (2 ^ n - 1)).
Proof.
  intros Hn Hacc. unfold hashLookup2.
  assert (Hpos : 0 < 2 ^ n) by lia.
  destruct (Z.to_nat (2 ^ n - 1 + 1)) as [|fuel] eqn:E; [lia|].
  cbn [hashLookup2_probe].
  destruct Hacc as [H|H].
  - now rewrite H.
  - rewrite H. destruct (eqT _ empty); reflexivity.
Qed.
End HashLookupFirst.

Section CoincidentRemap.
Variable vertex_positions_data : list Z.
Variables vertex_count vertex_positions_stride : Z.
Hypothesis Hvc : 0 <= vertex_count < 2 ^ 32.
Hypothesis Hsame :
  positions_coincide vertex_positions_data vertex_count vertex_positions_stride.

Let sf := vertex_positions_stride / 4.
Let hasher := PositionHasher vertex_positions_data sf.

Lemma coincide_hash i : 0 <= i < vertex_count -> hash hasher i = hash hasher 0.
Proof.
  intros Hi. cbn [hasher hash PositionHasher]. unfold PositionHasher_hash, for_loop.
  apply for_from_ext. intros j h Hj.
  unfold sf. rewrite (Hsame i j) by (cbn in Hj; lia). reflexivity.
Qed.

Lemma coincide_equal i : 0 <= i < vertex_count -> equal hasher 0 i = true.
Proof.
  intros Hi. cbn [hasher equal PositionHasher]. unfold PositionHasher_equal, sf.
  rewrite (Hsame i 0), (Hsame i 1), (Hsame i 2) by lia.
  now rewrite !Z.eqb_refl.
Qed.

(** Every vertex is mapped to vertex 0. *)
Lemma coincide_insert n :
  0 <= n -> vertex_count <= 2 ^ n ->
  exists table remap,
    for_loop_opt vertex_count (buildPositionRemap_insert hasher (2 ^ n))
      (repeat NONE32 (Z.to_nat (2 ^ n)), repeat 0 (Z.to_nat vertex_count))
    = Some (table, remap)
    /\ forall j, 0 <= j < vertex_count -> geti remap j = 0.
Proof.
  intros Hn Hsize.
  set (b0 := Z.land (hash hasher 0) (2 ^ n - 1)).
  assert (Hb0 : 0 <= b0 < 2 ^ n).
  { unfold b0. rewrite land_pow2_pred by assumption. apply Z.mod_pos_bound. lia. }
  set (P := fun (i : Z) (st : list Z * list Z) =>
              len (fst st) = 2 ^ n /\ len (snd st) = vertex_count
              /\ (i = 0 -> geti (fst st) b0 = NONE32)
              /\ (0 < i -> geti (fst st) b0 = 0)
              /\ (forall j, 0 <= j < i -> geti (snd st) j = 0)).
  destruct (for_loop_opt_inv P (buildPositionRemap_insert hasher (2 ^ n)) vertex_count
              (repeat NONE32 (Z.to_nat (2 ^ n)), repeat 0 (Z.to_nat vertex_count)))
    as ([table remap] & Hrun & HP).
  - lia.
  - unfold P. cbn [fst snd]. rewrite !len_repeat by lia.
    split; [reflexivity|]. split; [reflexivity|].
    split; [intros _; unfold geti; now rewrite aget_repeat|].
    split; intros; lia.
  - intros i [table remap] Hi (Hlt & Hlr & Hz & Hp & Hrem). cbn [fst snd] in *.
    unfold buildPositionRemap_insert. rewrite u32_small by lia.
    assert (Hlook : hashLookup2 Z.eqb hasher 0 table (2 ^ n) i NONE32 = Some b0).
    { unfold b0. rewrite <- (coincide_hash i Hi).
      apply hashLookup2_first; [assumption|].
      rewrite (coincide_hash i Hi). fold b0. unfold slot_accepts. fold (geti table b0).
      destruct (Z.eq_dec i 0) as [->|Hne].
      - left. rewrite Hz by reflexivity. reflexivity.
      - right. rewrite Hp by lia. now apply coincide_equal. }
    rewrite Hlook. cbn [bind]. eexists. split; [reflexivity|].
    unfold P. cbn [fst snd].
    destruct (Z.eq_dec i 0) as [->|Hne].
    + rewrite Hz by reflexivity. rewrite Z.eqb_refl.
      rewrite geti_aset_eq by lia. rewrite !len_aset.
      split; [assumption|]. split; [assumption|]. split; [intros; lia|].
      split; [intros _; first [reflexivity | apply geti_aset_eq; lia]|].
      intros j Hj. assert (j = 0) by lia. subst j. apply geti_aset_eq. lia.
    + rewrite Hp by lia. change (0 =? NONE32) with false. cbv iota.
      rewrite Hp by lia. rewrite !len_aset.
      split; [assumption|]. split; [assumption|]. split; [intros; lia|].
      split; [intros _; first [reflexivity | apply Hp; lia]|].
      intros j Hj. rewrite geti_aset_in by lia.
      destruct (Z.eqb_spec j i); [reflexivity|]. apply Hrem. lia.
  - exists table, remap. split; [exact Hrun|]. apply HP.
Qed.

Lemma buildPositionRemap_coincide remap wedge :
  buildPositionRemap vertex_positions_data vertex_count vertex_positions_stride
  = Some (remap, wedge) ->
  forall j, 0 <= j < vertex_count -> geti remap j = 0.
Proof.
  unfold buildPositionRemap. fold sf. fold hasher.
  destruct (hashBuckets2_pow2 vertex_count) as (n & Hn & -> & Hsize).
  { assert (2 ^ 32 <= 2 ^ 63) by (apply Z.pow_le_mono_r; lia). lia. }
  cbn [bind].
  destruct (coincide_insert n ltac:(lia) Hsize) as (table & remap' & -> & Hzero).
  cbn [bind]. intros [= <- _]. exact Hzero.
Qed.
End CoincidentRemap.

(** Without two positions there is no candidate. *)
Lemma pickEdgeCollapses_coincide vertex_count remap result result_count vertex_kind loop :
  buffer_ok vertex_count result result_count ->
  (forall j, 0 <= j < vertex_count -> geti remap j = 0) ->
  pickEdgeCollapses result result_count remap vertex_kind loop = [].
Proof.
  intros (Hrc & Hmod & Hval) Hzero. unfold pickEdgeCollapses.
  apply (for_loop_inv (fun _ cs => cs = [])).
  - unfold triangle_loops. apply Z.div_pos; lia.
  - reflexivity.
  - intros t cs Ht ->. cbv zeta.
    pose proof (triangle_in_buffer result_count t ltac:(lia) Hmod Ht) as Hin.
    apply (for_loop_inv (fun _ cs => cs = [])); [lia|reflexivity|].
    intros e cs He ->. pose proof (next3_range e He) as [Hne _].
    unfold pickEdgeCollapses_edge.
    rewrite !Hzero by (apply Hval; lia). rewrite Z.eqb_refl. reflexivity.
Qed.

(** The exact simplifier leaves such a mesh as it is. *)
Lemma meshopt_simplify_coincide fuel indices index_count vertex_positions_data
  vertex_count vertex_positions_stride target_index_count target_error :
  valid_input indices index_count vertex_count ->
  positions_coincide vertex_positions_data vertex_count vertex_positions_stride ->
  (0 < fuel)%nat ->
  exists st,
    meshopt_simplify fuel indices index_count vertex_positions_data vertex_count
      vertex_positions_stride target_index_count target_error = Some st
    /\ SS.result_count st = index_count /\ SS.result st = indices /\ SS.passes st = [].
Proof.
  intros Hvalid Hsame Hfuel.
  destruct (simplify_prepare_ok indices index_count vertex_positions_data vertex_count
              vertex_positions_stride target_error Hvalid)
    as (tables & st0 & Hprep & Hok & _ & Hres & Hcnt & Hpas & Hinv).
  pose proof Hvalid as (_ & _ & _ & Hvc & _).
  assert (Hzero : forall j, 0 <= j < vertex_count -> geti (remap tables) j = 0).
  { unfold simplify_prepare in Hprep.
    destruct (buildPositionRemap _ _ _) as [[rm wd]|] eqn:Erm; [|discriminate].
    cbn [bind] in Hprep.
    destruct (classifyVertices _ _ _ _ _) as [[vk lp]|]; [|discriminate].
    cbn [bind] in Hprep. injection Hprep as <- _. cbn [remap].
    eapply buildPositionRemap_coincide; eauto. }
  unfold meshopt_simplify. rewrite Hprep. cbn [bind].
  destruct fuel as [|fuel]; [lia|]. cbn [simplify_loop].
  destruct (SS.result_count st0 >? target_index_count); [|eauto].
  unfold simplify_pass.
  rewrite (pickEdgeCollapses_coincide vertex_count); auto.
  - cbn. eauto.
  - apply Hinv.
Qed.

(** ** The sloppy simplifier on a mesh whose vertices share one position *)

Lemma sloppy_vertex_ids_at vertex_positions vertex_count i :
  0 <= vertex_count -> 0 <= i < vertex_count ->
  geti (sloppy_vertex_ids vertex_positions vertex_count) i
  = pack_cell_id (grid_coordinate (Vector3.x (pos_at vertex_positions i)))
                 (grid_coordinate (Vector3.y (pos_at vertex_positions i)))
                 (grid_coordinate (Vector3.z (pos_at vertex_positions i))).
Proof.
  intros Hvc Hi. unfold sloppy_vertex_ids.
  set (f := fun i => pack_cell_id (grid_coordinate (Vector3.x (pos_at vertex_positions i)))
                       (grid_coordinate (Vector3.y (pos_at vertex_positions i)))
                       (grid_coordinate (Vector3.z (pos_at vertex_positions i)))).
  assert (H : let ids := for_loop vertex_count (fun i ids => aset ids i (f i))
                           (repeat 0 (Z.to_nat vertex_count)) in
              len ids = vertex_count /\ forall j, 0 <= j < vertex_count -> geti ids j = f j).
  { apply (for_loop_inv (fun n ids => len ids = vertex_count
                                      /\ forall j, 0 <= j < n -> geti ids j = f j)).
    - lia.
    - split; [apply len_repeat; lia|intros; lia].
    - intros n ids Hn [Hl Hids]. rewrite len_aset. split; [assumption|].
      intros j Hj. rewrite geti_aset_in by lia.
      destruct (Z.eqb_spec j n) as [->|]; [reflexivity|]. apply Hids. lia. }
  cbv zeta in H. destruct H as [_ H]. now apply H.
Qed.

Section CoincidentCells.
Variable vertex_ids : list Z.
Variables vertex_count n mask : Z.
Hypothesis Hvc : 0 <= vertex_count < 2 ^ 32.
Hypothesis Hn : 0 <= n.
Hypothesis Hmask : 0 <= mask < 2 ^ 30.
Hypothesis Hids : forall i, 0 <= i < vertex_count -> geti vertex_ids i = geti vertex_ids 0.

(** All vertices fall into cell 0. *)
Lemma sloppy_fill_cells_coincide vertex_cells cell_count :
  sloppy_fill_cells vertex_ids vertex_count (2 ^ n) mask = Some (vertex_cells, cell_count) ->
  forall j, 0 <= j < vertex_count -> geti vertex_cells j = 0.
Proof.
  unfold sloppy_fill_cells.
  set (id0 := Z.land (geti vertex_ids 0) mask).
  assert (Hid0 : 0 <= id0 < 2 ^ 30) by (apply land_below; lia).
  set (key := HashCell.mk id0 0).
  set (b0 := Z.land (hash HashCellHasher key) (2 ^ n - 1)).
  assert (Hb0 : 0 <= b0 < 2 ^ n).
  { unfold b0. rewrite land_pow2_pred by assumption. apply Z.mod_pos_bound. lia. }
  set (P := fun (i : Z) (st : list HashCell.t * list Z * Z) =>
              len (fst (fst st)) = 2 ^ n /\ len (snd (fst st)) = vertex_count
              /\ (i = 0 -> cell_at (fst (fst st)) b0 = HashCell_ones /\ snd st = 0)
              /\ (0 < i -> cell_at (fst (fst st)) b0 = key)
              /\ (forall j, 0 <= j < i -> geti (snd (fst st)) j = 0)).
  destruct (for_loop_opt_inv P (sloppy_fill_step vertex_ids (2 ^ n) mask) vertex_count
              (repeat HashCell_ones (Z.to_nat (2 ^ n)),
               repeat 0 (Z.to_nat vertex_count), 0))
    as ([[table cells] count] & Hrun & HP).
  - lia.
  - unfold P. cbn [fst snd]. rewrite !len_repeat by lia.
    split; [reflexivity|]. split; [reflexivity|].
    split; [intros _; split; [unfold cell_at; now rewrite aget_repeat|reflexivity]|].
    split; intros; lia.
  - intros i [[table cells] count] Hi (Hlt & Hlc & Hz & Hp & Hcells). cbn [fst snd] in *.
    unfold sloppy_fill_step. rewrite (Hids i Hi). fold id0. fold key.
    assert (Hlook : hashLookup2 HashCell_eqb HashCellHasher HashCell_ones table (2 ^ n)
                      key HashCell_ones = Some b0).
    { apply hashLookup2_first; [assumption|]. fold b0. unfold slot_accepts.
      fold (cell_at table b0).
      destruct (Z.eq_dec i 0) as [->|Hne].
      - left. destruct Hz as [-> _]; reflexivity.
      - right. rewrite Hp by lia. cbn. apply Z.eqb_refl. }
    rewrite Hlook. cbn [bind].
    destruct (Z.eq_dec i 0) as [->|Hne].
    + destruct Hz as [Hz ->]; [reflexivity|]. rewrite Hz.
      change (HashCell.id HashCell_ones =? NONE32) with true. cbv iota.
      eexists. split; [reflexivity|]. unfold P. cbn [fst snd].
      rewrite cell_at_aset_in by lia. rewrite Z.eqb_refl. rewrite !len_aset.
      split; [assumption|]. split; [assumption|]. split; [intros; lia|].
      split; [intros _; reflexivity|].
      intros j Hj. assert (j = 0) by lia. subst j. rewrite geti_aset_eq by lia.
      reflexivity.
    + rewrite Hp by lia.
      replace (HashCell.id key =? NONE32) with false
        by (cbn [HashCell.id key]; unfold NONE32; symmetry; apply Z.eqb_neq; lia).
      eexists. split; [reflexivity|]. unfold P. cbn [fst snd]. rewrite !len_aset.
      split; [assumption|]. split; [assumption|]. split; [intros; lia|].
      split; [intros _; apply Hp; lia|].
      intros j Hj. rewrite geti_aset_in by lia.
      destruct (Z.eqb_spec j i); [rewrite Hp by lia; reflexivity|]. apply Hcells. lia.
  - rewrite Hrun. cbn [bind]. intros [= <- _]. apply HP.
Qed.
End CoincidentCells.

(** The sloppy simplifier returns no triangle for such a mesh. *)
Lemma meshopt_simplifySloppy_coincide destination indices index_count
  vertex_positions_data vertex_count vertex_positions_stride target_index_count
  target_error :
  valid_input indices index_count vertex_count ->
  index_count <= len destination ->
  0 <= target_index_count <= index_count ->
  positions_coincide vertex_positions_data vertex_count vertex_positions_stride ->
  exists result,
    meshopt_simplifySloppy destination indices index_count vertex_positions_data
      vertex_count vertex_positions_stride target_index_count target_error
    = Some (result, 0).
Proof.
  intros Hvalid Hroom Htarget Hsame.
  pose proof (valid_input_buffer _ _ _ Hvalid) as Hbuf.
  destruct Hvalid as (Hlen & Hmod & Hic & Hvc & Hall).
  unfold meshopt_simplifySloppy.
  destruct (Z.eqb_spec (target_index_count / 6) 0) as [Hz|Hnz]; [eauto|].
  assert (H263 : 2 ^ 32 <= 2 ^ 63) by (apply Z.pow_le_mono_r; lia).
  destruct (hashBuckets2_pow2 vertex_count) as (n & Hn & -> & Hsize); [lia|].
  cbn [bind].
  destruct (hashBuckets2_pow2 (target_index_count / 6 * 4)) as (n' & Hn' & -> & Hsize').
  { assert (target_index_count / 6 <= target_index_count)
      by (apply Z.div_le_upper_bound; lia).
    change (2 ^ 63) with (2 ^ 32 * 2147483648). lia. }
  cbn [bind].
  set (vertex_positions := rescalePositions _ _ _).
  set (vertex_ids := sloppy_vertex_ids _ _).
  set (mask := sloppy_find_mask _ _ _ _).
  destruct (sloppy_fill_cells_ok vertex_ids vertex_count n mask Hvc ltac:(lia) Hsize)
    as (vertex_cells & cell_count & Hfill & Hlv & Hcc & Hcells).
  rewrite Hfill. cbn [bind].
  assert (Hzero : forall j, 0 <= j < vertex_count -> geti vertex_cells j = 0).
  { apply (sloppy_fill_cells_coincide vertex_ids vertex_count n mask Hvc ltac:(lia)
             (sloppy_find_mask_range _ _ _ _)) with (cell_count := cell_count); auto.
    intros i Hi. unfold vertex_ids.
    rewrite !sloppy_vertex_ids_at by lia.
    unfold vertex_positions.
    rewrite (rescalePositions_same vertex_positions_data vertex_count
               vertex_positions_stride ltac:(lia) i 0) by (auto; lia).
    reflexivity. }
  set (cell_quadrics := fillFaceQuadrics _ _ _ _ _).
  set (cell_remap := sloppy_cell_remap _ _ _ _ _).
  pose proof (sloppy_emit_spec vertex_count cell_remap vertex_cells destination indices
                index_count Hbuf Hroom) as Hemit.
  destruct (sloppy_emit destination indices index_count cell_remap vertex_cells)
    as [result write].
  destruct Hemit as (_ & _ & _ & _ & Hnone).
  { intros x Hx. apply sloppy_cell_remap_ok; auto; lia. }
  exists result. rewrite Hnone; [reflexivity|].
  intros t Ht Hin. unfold sloppy_dropped. left.
  destruct Hbuf as (_ & _ & Hval).
  rewrite !Hzero by (apply Hval; lia). reflexivity.
Qed.

(** ** The entry point of the exact simplifier *)

(** With enough fuel [meshopt_simplify] returns, and what it returns
    satisfies the loop invariant. *)
Lemma meshopt_simplify_returns indices index_count vertex_positions_data vertex_count
  vertex_positions_stride target_index_count target_error :
  valid_input indices index_count vertex_count ->
  exists final,
    simplify_inv vertex_count indices index_count target_error final
    /\ forall fuel, index_count < 3 * Z.of_nat fuel ->
         meshopt_simplify fuel indices index_count vertex_positions_data vertex_count
           vertex_positions_stride target_index_count target_error = Some final.
Proof.
  intros Hvalid.
  destruct (simplify_prepare_ok indices index_count vertex_positions_data vertex_count
              vertex_positions_stride target_error Hvalid)
    as (tables & st0 & Hprep & Hok & Hseam & Hres & Hcnt & Hpas & Hinv).
  pose proof Hvalid as (_ & _ & Hic & Hvc & _).
  set (fuel0 := S (Z.to_nat index_count)).
  destruct (simplify_loop_ends vertex_count target_index_count target_error tables indices
              index_count Hvc Hic Hok Hseam fuel0 st0 Hinv)
    as (final & Hrun & Hfinal & _).
  { destruct Hinv as ((Hrc & _) & _). unfold fuel0. lia. }
  exists final. split; [assumption|].
  intros fuel Hfuel. unfold meshopt_simplify. rewrite Hprep. cbn [bind].
  destruct (simplify_loop_ends vertex_count target_index_count target_error tables indices
              index_count Hvc Hic Hok Hseam fuel st0 Hinv)
    as (final' & Hrun' & _); [lia|].
  rewrite Hrun'. f_equal.
  destruct (Nat.le_ge_cases fuel fuel0) as [Hle|Hge].
  - pose proof (simplify_loop_fuel vertex_count target_index_count target_error tables
                  fuel fuel0 st0 final' Hrun' Hle) as E. congruence.
  - pose proof (simplify_loop_fuel vertex_count target_index_count target_error tables
                  fuel0 fuel st0 final Hrun Hge) as E. congruence.
Qed.

(** Whatever the fuel, a result satisfies the loop invariant. *)
Lemma meshopt_simplify_result_inv fuel indices index_count vertex_positions_data
  vertex_count vertex_positions_stride target_index_count target_error st :
  valid_input indices index_count vertex_count ->
  meshopt_simplify fuel indices index_count vertex_positions_data vertex_count
    vertex_positions_stride target_index_count target_error = Some st ->
  simplify_inv vertex_count indices index_count target_error st.
Proof.
  intros Hvalid Hrun.
  destruct (meshopt_simplify_returns indices index_count vertex_positions_data vertex_count
              vertex_positions_stride target_index_count target_error Hvalid)
    as (final & Hinv & Hall).
  set (fuel' := (fuel + S (Z.to_nat index_count))%nat).
  assert (Hbig : meshopt_simplify fuel' indices index_count vertex_positions_data
                   vertex_count vertex_positions_stride target_index_count target_error
                 = Some st).
  { unfold meshopt_simplify in *.
    destruct (simplify_prepare _ _ _ _ _) as [[tables st0]|]; [|discriminate].
    cbn [bind] in *.
    apply (simplify_loop_fuel vertex_count target_index_count target_error tables
             fuel fuel' st0 st Hrun). unfold fuel'. lia. }
  rewrite Hall in Hbig by (pose proof Hvalid as (Hl & _); unfold fuel'; lia).
  congruence.
Qed.

(** * The claims *)

Ltac valid_input_now :=
  unfold valid_input, in_range;
  repeat match goal with
         | |- _ /\ _ => split
         | |- Forall _ _ => repeat constructor
         end;
  try reflexivity; try lia.

Lemma quad_valid : valid_input quad_indices 6 4.
Proof. valid_input_now. Qed.

(** C1 (amended).  Every collapse [meshopt_simplify] carries out passed the
    test against the limit of its pass ([error > error_limit] was false),
    and the limit passed the test against [target_error].  Whenever the
    limit is not NaN, no collapse carried out has an error that exceeds
    [target_error]; when no NaN is involved the errors are ordered
    [error <= error_limit <= target_error]; with [target_error = 0] and a
    limit that is not NaN the errors are exactly zero (or NaN). *)
Theorem meshopt_simplify_error_limit fuel indices index_count vertex_positions_data
  vertex_count vertex_positions_stride target_index_count target_error st :
  valid_input indices index_count vertex_count ->
  meshopt_simplify fuel indices index_count vertex_positions_data vertex_count
    vertex_positions_stride target_index_count target_error = Some st ->
  Forall (fun p => Forall (collapse_within_limit target_error p) (pass_applied p))
    (SS.passes st).
Proof.
  intros Hvalid Hrun.
  pose proof (meshopt_simplify_result_inv _ _ _ _ _ _ _ _ _ Hvalid Hrun)
    as (_ & _ & _ & Hpasses & _).
  eapply Forall_impl; [|exact Hpasses].
  intros p (Hlimit & _ & Happlied).
  eapply Forall_impl; [|exact Happlied].
  intros c (Hgt & r & Hr). unfold collapse_within_limit.
  split; [assumption|]. split; [assumption|]. split; [|split].
  - intros Hnan. eapply F32_not_gtb_trans; eauto.
  - intros Hl He Ht. split; apply F32_not_gtb_leb; auto.
  - intros -> Hnan.
    assert (Hz : F32.gtb (Collapse.error c) F32.zero = false)
      by (eapply F32_not_gtb_trans; eauto).
    unfold Collapse.error in *. rewrite Hr in *. now apply F32_abs_not_gtb_zero.
Qed.

Lemma meshopt_simplify_error_limit_witness :
  exists st,
    meshopt_simplify 5 quad_indices 6 quad_positions 4 12 0 infinity = Some st
    /\ Forall (fun p => Forall (collapse_within_limit infinity p) (pass_applied p))
         (SS.passes st).
Proof.
  eexists. split; [vm_compute; reflexivity|].
  eapply (meshopt_simplify_error_limit 5 quad_indices 6 quad_positions 4 12 0 infinity).
  - exact quad_valid.
  - vm_compute. reflexivity.
Defined.

(** C1 as stated fails: on a mesh whose extent overflows the pass limit is
    NaN.  With [target_error = -1] a collapse of error [+0], which exceeds
    [-1], is carried out; with [target_error = 0] a collapse is carried out
    whose error is NaN, neither zero nor at most the limit. *)
Lemma meshopt_simplify_error_bound_counterexample :
  valid_input overflow_indices 18 7
  /\ (exists st p c,
        meshopt_simplify 10 overflow_indices 18 overflow_positions 7 12 0 minus_one = Some st
        /\ In p (SS.passes st) /\ In c (pass_applied p)
        /\ F32.gtb (Collapse.error c) minus_one = true
        /\ ~ collapse_within_bound minus_one p c)
  /\ (exists st p c,
        meshopt_simplify 10 overflow_indices 18 overflow_positions 7 12 0 F32.zero = Some st
        /\ In p (SS.passes st) /\ In c (pass_applied p)
        /\ Collapse.error c <> F32.zero
        /\ ~ collapse_within_bound F32.zero p c).
Proof.
  split; [valid_input_now|]. split.
  - eexists. eexists. eexists. split; [vm_compute; reflexivity|].
    split; [left; reflexivity|]. split; [left; reflexivity|].
    split; [reflexivity|].
    intros (H & _). vm_compute in H. discriminate.
  - eexists. eexists. eexists. split; [vm_compute; reflexivity|].
    split; [left; reflexivity|]. split; [right; left; reflexivity|].
    split; [vm_compute; discriminate|].
    intros (H & _). vm_compute in H. discriminate.
Qed.

(** C2.  For every valid input both entry points return, and the count
    returned is a multiple of three, at most [index_count], and every index
    of the destination below the count names a vertex of the input.  (The
    exact simplifier returns the same result for every fuel that exceeds
    the number of triangles.) *)
Theorem simplifiers_return_valid_indices destination indices index_count
  vertex_positions_data vertex_count vertex_positions_stride target_index_count
  target_error :
  valid_input indices index_count vertex_count ->
  index_count <= len destination ->
  0 <= target_index_count <= index_count ->
  (exists st,
     (forall fuel, index_count < 3 * Z.of_nat fuel ->
        meshopt_simplify fuel indices index_count vertex_positions_data vertex_count
          vertex_positions_stride target_index_count target_error = Some st)
     /\ returned_ok vertex_count index_count (SS.result st) (SS.result_count st))
  /\ (exists result write,
        meshopt_simplifySloppy destination indices index_count vertex_positions_data
          vertex_count vertex_positions_stride target_index_count target_error
        = Some (result, write)
        /\ returned_ok vertex_count index_count result write).
Proof.
  intros Hvalid Hroom Htarget. split.
  - destruct (meshopt_simplify_returns indices index_count vertex_positions_data
                vertex_count vertex_positions_stride target_index_count target_error
                Hvalid) as (st & Hinv & Hrun).
    exists st. split; [exact Hrun|].
    destruct Hinv as ((Hrc & Hmod & Hin) & Hle & _).
    unfold returned_ok. split; [assumption|]. split; [lia|assumption].
  - destruct (meshopt_simplifySloppy_ok destination indices index_count
                vertex_positions_data vertex_count vertex_positions_stride
                target_index_count target_error Hvalid Hroom Htarget)
      as (result & write & Hrun & _ & (Hrc & Hmod & Hin) & Hle & _).
    exists result, write. split; [exact Hrun|].
    unfold returned_ok. split; [assumption|]. split; [lia|assumption].
Qed.

Lemma simplifiers_return_valid_indices_witness :
  (exists st,
     (forall fuel, 6 < 3 * Z.of_nat fuel ->
        meshopt_simplify fuel quad_indices 6 quad_positions 4 12 3 infinity = Some st)
     /\ returned_ok 4 6 (SS.result st) (SS.result_count st))
  /\ (exists result write,
        meshopt_simplifySloppy (repeat 0 6%nat) quad_indices 6 quad_positions 4 12 3
          infinity = Some (result, write)
        /\ returned_ok 4 6 result write).
Proof.
  apply (simplifiers_return_valid_indices (repeat 0 6%nat) quad_indices 6 quad_positions
           4 12 3 infinity).
  - exact quad_valid.
  - vm_compute. discriminate.
  - lia.
Defined.

(** C3.  For every valid input the tables are built, every pass the outer
    loop of [meshopt_simplify] can reach either breaks, leaving the result
    as it is, or ends with a [result_count] strictly below the one it
    started with (and not negative), and the loop ends: with any fuel above
    the number of triangles [meshopt_simplify] returns. *)
Theorem meshopt_simplify_passes_decrease indices index_count vertex_positions_data
  vertex_count vertex_positions_stride target_index_count target_error :
  valid_input indices index_count vertex_count ->
  exists tables st0,
    simplify_prepare indices index_count vertex_positions_data vertex_count
      vertex_positions_stride = Some (tables, st0)
    /\ (forall st,
          simplify_reaches
            (simplify_pass_of tables vertex_count target_index_count target_error)
            target_index_count st0 st ->
          match simplify_pass_of tables vertex_count target_index_count target_error st with
          | inl st' =>
              SS.result st' = SS.result st /\ SS.result_count st' = SS.result_count st
          | inr st' =>
              0 <= SS.result_count st' < SS.result_count st
          end)
    /\ exists final,
         forall fuel, index_count < 3 * Z.of_nat fuel ->
           meshopt_simplify fuel indices index_count vertex_positions_data vertex_count
             vertex_positions_stride target_index_count target_error = Some final.
Proof.
  intros Hvalid.
  destruct (simplify_prepare_ok indices index_count vertex_positions_data vertex_count
              vertex_positions_stride target_error Hvalid)
    as (tables & st0 & Hprep & Hok & Hseam & _ & _ & _ & Hinv).
  pose proof Hvalid as (_ & _ & Hic & Hvc & _).
  exists tables, st0. split; [exact Hprep|]. split.
  - intros st Hreach.
    pose proof (simplify_reaches_inv vertex_count target_index_count target_error tables
                  indices index_count Hvc Hic Hok Hseam st0 st Hinv Hreach) as Hst.
    pose proof (simplify_pass_of_spec vertex_count target_index_count target_error tables
                  indices index_count Hvc Hic Hok Hseam st Hst) as Hspec.
    destruct (simplify_pass_of tables vertex_count target_index_count target_error st)
      as [st'|st'].
    + tauto.
    + destruct Hspec as ((((Hrc & _) & _) & _) & Hlt & _). lia.
  - destruct (meshopt_simplify_returns indices index_count vertex_positions_data
                vertex_count vertex_positions_stride target_index_count target_error
                Hvalid) as (final & _ & Hrun).
    exists final. exact Hrun.
Qed.

Lemma meshopt_simplify_passes_decrease_witness :
  exists tables st0,
    simplify_prepare quad_indices 6 quad_positions 4 12 = Some (tables, st0)
    /\ (forall st,
          simplify_reaches (simplify_pass_of tables 4 0 infinity) 0 st0 st ->
          match simplify_pass_of tables 4 0 infinity st with
          | inl st' =>
              SS.result st' = SS.result st /\ SS.result_count st' = SS.result_count st
          | inr st' =>
              0 <= SS.result_count st' < SS.result_count st
          end)
    /\ exists final,
         forall fuel, 6 < 3 * Z.of_nat fuel ->
           meshopt_simplify fuel quad_indices 6 quad_positions 4 12 0 infinity = Some final.
Proof.
  apply (meshopt_simplify_passes_decrease quad_indices 6 quad_positions 4 12 0 infinity).
  exact quad_valid.
Defined.

(** C4.  For every valid input, [meshopt_simplify] with
    [target_index_count = index_count] returns [index_count], the
    destination holds the input index buffer, degenerate triangles
    included, and no pass ran; this for every fuel. *)
Theorem meshopt_simplify_target_reached fuel indices index_count vertex_positions_data
  vertex_count vertex_positions_stride target_error :
  valid_input indices index_count vertex_count ->
  exists st,
    meshopt_simplify fuel indices index_count vertex_positions_data vertex_count
      vertex_positions_stride index_count target_error = Some st
    /\ SS.result_count st = index_count /\ SS.result st = indices /\ SS.passes st = [].
Proof.
  intros Hvalid.
  destruct (simplify_prepare_ok indices index_count vertex_positions_data vertex_count
              vertex_positions_stride target_error Hvalid)
    as (tables & st0 & Hprep & _ & _ & Hres & Hcnt & Hpas & _).
  exists st0. unfold meshopt_simplify. rewrite Hprep. cbn [bind].
  split; [|auto].
  destruct fuel; cbn [simplify_loop]; rewrite Hcnt;
    replace (index_count >? index_count) with false
      by (symmetry; rewrite Z.gtb_ltb; apply Z.ltb_irrefl); reflexivity.
Qed.

Lemma meshopt_simplify_target_reached_witness :
  exists st,
    meshopt_simplify 0 [0; 0; 0; 0; 1; 2] 6 quad_positions 4 12 6 F32.zero = Some st
    /\ SS.result_count st = 6 /\ SS.result st = [0; 0; 0; 0; 1; 2] /\ SS.passes st = [].
Proof.
  apply (meshopt_simplify_target_reached 0 [0; 0; 0; 0; 1; 2] 6 quad_positions 4 12 F32.zero).
  valid_input_now.
Defined.

(** C5 (amended).  [sortEdgeCollapses] fills the first [collapse_count]
    entries of [sort_order] with a permutation of [0, collapse_count),
    ascending in the 11-bit radix key of the error (bits 20 to 30 of its
    bit pattern); records whose keys are equal keep their input order. *)
Theorem sortEdgeCollapses_sorts_by_key sort_order collapses collapse_count :
  0 <= collapse_count < 2 ^ 32 ->
  collapse_count <= len sort_order ->
  Permutation
    (firstn (Z.to_nat collapse_count) (sortEdgeCollapses sort_order collapses collapse_count))
    (zrange collapse_count)
  /\ ascending_key collapses collapse_count
       (sortEdgeCollapses sort_order collapses collapse_count).
Proof.
  intros Hn Hso. split.
  - exact (sortEdgeCollapses_perm collapses collapse_count sort_order Hn Hso).
  - intros p q Hp Hq.
    exact (sortEdgeCollapses_ordered collapses collapse_count sort_order Hn Hso p q Hp Hq).
Qed.

Lemma sortEdgeCollapses_sorts_by_key_witness :
  Permutation (firstn (Z.to_nat 2) (sortEdgeCollapses [0; 0] close_errors 2)) (zrange 2)
  /\ ascending_key close_errors 2 (sortEdgeCollapses [0; 0] close_errors 2).
Proof.
  apply (sortEdgeCollapses_sorts_by_key [0; 0] close_errors 2).
  - lia.
  - vm_compute. discriminate.
Defined.

(** C5 as stated fails: errors [1.1] and [1.0] have one radix key, so the
    records stay in input order, the larger error first. *)
Lemma sortEdgeCollapses_not_ascending_error :
  Forall (fun c => F32.leb F32.zero (Collapse.error c) = true) close_errors
  /\ sortEdgeCollapses [0; 0] close_errors 2 = [0; 1]
  /\ ~ ascending_error close_errors 2 (sortEdgeCollapses [0; 0] close_errors 2).
Proof.
  split; [repeat constructor|]. split; [reflexivity|].
  intros H. specialize (H 0 1 ltac:(lia) ltac:(lia)). vm_compute in H. discriminate.
Qed.

(** C6 (amended).  For every valid input [meshopt_simplifySloppy] returns
    triangles with three different corners.  [meshopt_simplify] does so
    whenever a pass completed, hence whenever it returns less than
    [index_count]; when no pass completed it returns the input buffer as it
    is. *)
Theorem returned_triangles_distinct destination indices index_count
  vertex_positions_data vertex_count vertex_positions_stride target_index_count
  target_error :
  valid_input indices index_count vertex_count ->
  index_count <= len destination ->
  0 <= target_index_count <= index_count ->
  (exists st,
     (forall fuel, index_count < 3 * Z.of_nat fuel ->
        meshopt_simplify fuel indices index_count vertex_positions_data vertex_count
          vertex_positions_stride target_index_count target_error = Some st)
     /\ ((SS.passes st = [] /\ SS.result st = indices /\ SS.result_count st = index_count)
         \/ (SS.passes st <> []
             /\ corners_distinct (SS.result st) (SS.result_count st)))
     /\ (SS.result_count st < index_count ->
         corners_distinct (SS.result st) (SS.result_count st)))
  /\ (exists result write,
        meshopt_simplifySloppy destination indices index_count vertex_positions_data
          vertex_count vertex_positions_stride target_index_count target_error
        = Some (result, write)
        /\ corners_distinct result write).
Proof.
  intros Hvalid Hroom Htarget. split.
  - destruct (meshopt_simplify_returns indices index_count vertex_positions_data
                vertex_count vertex_positions_stride target_index_count target_error
                Hvalid) as (st & Hinv & Hrun).
    exists st. split; [exact Hrun|].
    destruct Hinv as (_ & _ & _ & _ & Hnone & Hsome).
    destruct (SS.passes st) as [|p ps] eqn:Hp.
    + destruct (Hnone eq_refl) as [Hres Hcnt]. split.
      * left. auto.
      * intros Hlt. lia.
    + assert (Hne : p :: ps <> []) by discriminate.
      split.
      * right. split; [assumption|]. exact (Hsome Hne).
      * intros _. exact (Hsome Hne).
  - destruct (meshopt_simplifySloppy_ok destination indices index_count
                vertex_positions_data vertex_count vertex_positions_stride
                target_index_count target_error Hvalid Hroom Htarget)
      as (result & write & Hrun & _ & _ & _ & Hdist).
    exists result, write. split; [exact Hrun|exact Hdist].
Qed.

Lemma returned_triangles_distinct_witness :
  (exists st,
     (forall fuel, 6 < 3 * Z.of_nat fuel ->
        meshopt_simplify fuel quad_indices 6 quad_positions 4 12 3 infinity = Some st)
     /\ ((SS.passes st = [] /\ SS.result st = quad_indices /\ SS.result_count st = 6)
         \/ (SS.passes st <> []
             /\ corners_distinct (SS.result st) (SS.result_count st)))
     /\ (SS.result_count st < 6 ->
         corners_distinct (SS.result st) (SS.result_count st)))
  /\ (exists result write,
        meshopt_simplifySloppy (repeat 0 6%nat) quad_indices 6 quad_positions 4 12 3
          infinity = Some (result, write)
        /\ corners_distinct result write).
Proof.
  apply (returned_triangles_distinct (repeat 0 6%nat) quad_indices 6 quad_positions
           4 12 3 infinity).
  - exact quad_valid.
  - vm_compute. discriminate.
  - lia.
Defined.

(** C6 as stated fails: a triangle with one vertex at all three corners
    offers no candidate collapse, the loop breaks before any pass, and the
    triangle is returned. *)
Lemma degenerate_triangle_returned :
  valid_input point_indices 3 1
  /\ exists st,
       meshopt_simplify 1 point_indices 3 point_positions 1 12 0 infinity = Some st
       /\ SS.result_count st = 3
       /\ SS.result st = [0; 0; 0]
       /\ ~ corners_distinct (SS.result st) (SS.result_count st).
Proof.
  split; [valid_input_now|].
  eexists. split; [vm_compute; reflexivity|].
  split; [reflexivity|]. split; [reflexivity|].
  intros H. destruct (H 0 ltac:(lia) ltac:(cbn; lia)) as (H01 & _).
  apply H01. reflexivity.
Qed.

Ltac index_cases i :=
  let H := fresh in
  match goal with
  | Hi : 0 <= i < 3 |- _ =>
      assert (H : i = 0 \/ i = 1 \/ i = 2) by lia;
      destruct H as [ -> | [ -> | -> ] ]
  end.

Lemma origin_coincide : positions_coincide origin_positions 3 12.
Proof. intros i j Hi Hj. index_cases i; index_cases j; reflexivity. Qed.

Lemma origin_finite : positions_finite origin_positions 3 12.
Proof. intros i j Hi Hj. index_cases i; index_cases j; reflexivity. Qed.

(** C7 (amended).  When the positions of a valid input all coincide and are
    finite, [rescalePositions] computes scale 0 and maps every position to
    the origin, and the scale of an empty mesh is 0 as well.  For any
    [target_index_count] below [index_count], [meshopt_simplifySloppy]
    then returns 0, while [meshopt_simplify] finds no edge to collapse and
    returns [index_count] with the input buffer unchanged. *)
Theorem zero_extent_mesh fuel destination indices index_count vertex_positions_data
  vertex_count vertex_positions_stride target_index_count target_error :
  valid_input indices index_count vertex_count ->
  index_count <= len destination ->
  0 <= target_index_count < index_count ->
  positions_coincide vertex_positions_data vertex_count vertex_positions_stride ->
  positions_finite vertex_positions_data vertex_count vertex_positions_stride ->
  (0 < fuel)%nat ->
  rescale_scale vertex_positions_data vertex_count vertex_positions_stride = F32.zero
  /\ (forall i, 0 <= i < vertex_count ->
        pos_at (rescalePositions vertex_positions_data vertex_count
                  vertex_positions_stride) i = Vector3_zero)
  /\ rescale_scale vertex_positions_data 0 vertex_positions_stride = F32.zero
  /\ (exists result,
        meshopt_simplifySloppy destination indices index_count vertex_positions_data
          vertex_count vertex_positions_stride target_index_count target_error
        = Some (result, 0))
  /\ (exists st,
        meshopt_simplify fuel indices index_count vertex_positions_data vertex_count
          vertex_positions_stride target_index_count target_error = Some st
        /\ SS.result_count st = index_count /\ SS.result st = indices).
Proof.
  intros Hvalid Hroom Htarget Hsame Hfin Hfuel.
  assert (Hvc : 0 < vertex_count).
  { destruct Hvalid as (Hlen & _ & _ & _ & Hall).
    destruct indices as [|x l]; [cbn in Hlen; lia|].
    pose proof (Forall_inv Hall) as Hx. unfold in_range in Hx. lia. }
  destruct (rescale_zero_extent vertex_positions_data vertex_count vertex_positions_stride
              Hvc Hsame Hfin) as [Hscale Hpos].
  split; [exact Hscale|]. split; [exact Hpos|].
  split; [apply rescale_empty|]. split.
  - apply meshopt_simplifySloppy_coincide; auto. lia.
  - destruct (meshopt_simplify_coincide fuel indices index_count vertex_positions_data
                vertex_count vertex_positions_stride target_index_count target_error
                Hvalid Hsame Hfuel) as (st & Hrun & Hcnt & Hres & _).
    exists st. auto.
Qed.

Lemma zero_extent_mesh_witness :
  rescale_scale origin_positions 3 12 = F32.zero
  /\ (forall i, 0 <= i < 3 ->
        pos_at (rescalePositions origin_positions 3 12) i = Vector3_zero)
  /\ rescale_scale origin_positions 0 12 = F32.zero
  /\ (exists result,
        meshopt_simplifySloppy [7; 7; 7] origin_indices 3 origin_positions 3 12 0 F32.zero
        = Some (result, 0))
  /\ (exists st,
        meshopt_simplify 1 origin_indices 3 origin_positions 3 12 0 F32.zero = Some st
        /\ SS.result_count st = 3 /\ SS.result st = origin_indices).
Proof.
  apply (zero_extent_mesh 1 [7; 7; 7] origin_indices 3 origin_positions 3 12 0 F32.zero).
  - valid_input_now.
  - vm_compute. discriminate.
  - lia.
  - exact origin_coincide.
  - exact origin_finite.
  - lia.
Defined.

(** C7 as stated fails: on a triangle whose vertices are all at the origin
    [meshopt_simplify] with target 0 returns 3, not 0. *)
Lemma zero_extent_simplify_returns_input :
  valid_input origin_indices 3 3
  /\ positions_coincide origin_positions 3 12
  /\ exists st,
       meshopt_simplify 2 origin_indices 3 origin_positions 3 12 0 F32.zero = Some st
       /\ SS.result_count st = 3
       /\ SS.result_count st <> 0.
Proof.
  split; [valid_input_now|]. split; [exact origin_coincide|].
  eexists. split; [vm_compute; reflexivity|].
  split; [reflexivity|]. cbn. discriminate.
Qed.

(** C8 (the code does not clamp).  The far corners of the unit tetrahedron
    rescale to components equal to 1, inside [0, 1], and their grid
    coordinate is 1024, outside the 10-bit field: in the packed id the z
    coordinate 1024 sets a bit of the y field, the y coordinate a bit of
    the x field, and the x coordinate bit 30. *)
Theorem grid_coordinate_exceeds_field :
  pos_at tetra_rescaled 1 = Vector3.mk F32.one F32.zero F32.zero
  /\ pos_at tetra_rescaled 2 = Vector3.mk F32.zero F32.one F32.zero
  /\ pos_at tetra_rescaled 3 = Vector3.mk F32.zero F32.zero F32.one
  /\ grid_coordinate F32.one = 1024
  /\ ~ fits_field (grid_coordinate F32.one)
  /\ sloppy_vertex_ids tetra_rescaled 4 = [0; 2 ^ 30; 2 ^ 20; 2 ^ 10]
  /\ pack_cell_id 0 0 (grid_coordinate F32.one) = pack_cell_id 0 1 0
  /\ pack_cell_id 0 (grid_coordinate F32.one) 0 = pack_cell_id 1 0 0.
Proof.
  split; [vm_compute; reflexivity|]. split; [vm_compute; reflexivity|].
  split; [vm_compute; reflexivity|]. split; [vm_compute; reflexivity|].
  split.
  - intros [_ H]. vm_compute in H. apply H. reflexivity.
  - split; [vm_compute; reflexivity|]. split; vm_compute; reflexivity.
Qed.

(** C10.  With a power-of-two number of buckets and a table that has, among
    them, an empty slot or a slot equal to the key, [hashLookup2] returns a
    slot (never the null of the full-table branch), found within
    [buckets] probes, and the slot is empty or equal to the key.  The probe
    sequence [bucket (k+1) = (bucket k + k + 1) mod buckets] visits every
    bucket in its first [buckets] steps. *)
Theorem hashLookup2_finds_slot {T : Type} (eqT : T -> T -> bool) (hasher : Hasher T)
  (dflt : T) (table : list T) (n : Z) (key empty : T) :
  0 <= n ->
  (exists j, 0 <= j < 2 ^ n /\ slot_accepts eqT hasher dflt table key empty j) ->
  (exists e k,
     hashLookup2 eqT hasher dflt table (2 ^ n) key empty = Some e
     /\ (k < Z.to_nat (2 ^ n))%nat
     /\ e = probe_bucket (2 ^ n - 1) (Z.land (hash hasher key) (2 ^ n - 1)) k
     /\ 0 <= e < 2 ^ n
     /\ slot_accepts eqT hasher dflt table key empty e)
  /\ (forall b0 k,
        probe_bucket (2 ^ n - 1) b0 (S k)
        = (probe_bucket (2 ^ n - 1) b0 k + Z.of_nat k + 1) mod 2 ^ n)
  /\ (forall b0 t, 0 <= b0 < 2 ^ n -> 0 <= t < 2 ^ n ->
        exists k, (k < Z.to_nat (2 ^ n))%nat /\ probe_bucket (2 ^ n - 1) b0 k = t).
Proof.
  intros Hn Hslot. split; [|split].
  - exact (hashLookup2_total eqT hasher dflt table n key empty Hn Hslot).
  - intros b0 k. cbn [probe_bucket]. now apply land_pow2_pred.
  - intros b0 t Hb Ht. now apply probe_bucket_surj.
Qed.

Lemma hashLookup2_finds_slot_witness :
  (exists e k,
     hashLookup2 Z.eqb quad_hasher 0 small_table (2 ^ 2) 0 NONE32 = Some e
     /\ (k < Z.to_nat (2 ^ 2))%nat
     /\ e = probe_bucket (2 ^ 2 - 1) (Z.land (hash quad_hasher 0) (2 ^ 2 - 1)) k
     /\ 0 <= e < 2 ^ 2
     /\ slot_accepts Z.eqb quad_hasher 0 small_table 0 NONE32 e)
  /\ (forall b0 k,
        probe_bucket (2 ^ 2 - 1) b0 (S k)
        = (probe_bucket (2 ^ 2 - 1) b0 k + Z.of_nat k + 1) mod 2 ^ 2)
  /\ (forall b0 t, 0 <= b0 < 2 ^ 2 -> 0 <= t < 2 ^ 2 ->
        exists k, (k < Z.to_nat (2 ^ 2))%nat /\ probe_bucket (2 ^ 2 - 1) b0 k = t).
Proof.
  apply (hashLookup2_finds_slot Z.eqb quad_hasher 0 small_table 2 0 NONE32).
  - lia.
  - exists 1. split; [lia|]. left. reflexivity.
Defined.

(** * Further properties of the code *)

(** ** [hashBuckets2] *)

Lemma pow2_succ j : 0 <= j -> 2 ^ (j + 1) = 2 ^ j * 2.
Proof. intros Hj. rewrite Z.pow_add_r by lia. reflexivity. Qed.

Lemma hashBuckets2_loop_least fuel j count :
  0 <= j <= 63 -> j + Z.of_nat fuel = 64 -> count <= 2 ^ 63 ->
  (j = 0 \/ 2 ^ (j - 1) < count) ->
  exists n, j <= n <= 63 /\ hashBuckets2_loop fuel (2 ^ j) count = Some (2 ^ n)
            /\ count <= 2 ^ n /\ (n = 0 \/ 2 ^ (n - 1) < count).
Proof.
  revert j. induction fuel as [|fuel IH]; intros j Hj Hfuel Hcount Hleast; [lia|].
  cbn [hashBuckets2_loop].
  destruct (2 ^ j <? count) eqn:E.
  - apply Z.ltb_lt in E.
    assert (Hj63 : j < 63).
    { destruct (Z.eq_dec j 63) as [->|]; [lia|lia]. }
    assert (Hpow : 2 ^ (j + 1) = 2 ^ j * 2) by (apply pow2_succ; lia).
    assert (Hlt : 2 ^ (j + 1) < 2 ^ 64) by (apply Z.pow_lt_mono_r; lia).
    assert (Hpos : 0 < 2 ^ (j + 1)) by (apply Z.pow_pos_nonneg; lia).
    rewrite <- Hpow, Z.mod_small by lia.
    destruct (IH (j + 1)) as (n & Hn & Hrun & Hle & Hmin); try lia.
    { right. replace (j + 1 - 1) with j by lia. exact E. }
    exists n. split; [lia|]. auto.
  - apply Z.ltb_ge in E. exists j. split; [lia|]. auto.
Qed.

Lemma hashBuckets2_loop_wraps fuel j count :
  0 <= j <= 64 -> j + Z.of_nat fuel = 64 -> 2 ^ 63 < count ->
  hashBuckets2_loop fuel (2 ^ j mod 2 ^ 64) count = None.
Proof.
  revert j. induction fuel as [|fuel IH]; intros j Hj Hfuel Hcount.
  - assert (j = 64) as -> by lia. rewrite Z.mod_same by lia.
    cbn [hashBuckets2_loop].
    replace (0 <? count) with true by (symmetry; apply Z.ltb_lt; lia). reflexivity.
  - assert (Hj63 : j <= 63) by lia.
    assert (Hle : 2 ^ j <= 2 ^ 63) by (apply Z.pow_le_mono_r; lia).
    assert (Hpos : 0 < 2 ^ j) by (apply Z.pow_pos_nonneg; lia).
    assert (H64 : 2 ^ 64 = 2 ^ 63 * 2) by reflexivity.
    rewrite (Z.mod_small (2 ^ j)) by lia.
    cbn [hashBuckets2_loop].
    replace (2 ^ j <? count) with true by (symmetry; apply Z.ltb_lt; lia).
    rewrite <- pow2_succ by lia.
    apply IH; lia.
Qed.

(** X1: for [count] up to [2^63], [hashBuckets2] returns the least power of
    two that is at least [count] (1 for [count <= 1]). *)
Theorem hashBuckets2_least_power count :
  count <= 2 ^ 63 ->
  exists n, 0 <= n <= 63 /\ hashBuckets2 count = Some (2 ^ n)
            /\ count <= 2 ^ n /\ (n = 0 \/ 2 ^ (n - 1) < count).
Proof.
  intros Hcount. unfold hashBuckets2.
  change 1 with (2 ^ 0) at 1.
  apply (hashBuckets2_loop_least 64 0 count); lia.
Qed.

Lemma hashBuckets2_least_power_witness :
  exists n, 0 <= n <= 63 /\ hashBuckets2 5 = Some (2 ^ n)
            /\ 5 <= 2 ^ n /\ (n = 0 \/ 2 ^ (n - 1) < 5).
Proof. apply (hashBuckets2_least_power 5). vm_compute. discriminate. Defined.

(** X2: above [2^63] no power of two fits a 64-bit [size_t]: [buckets]
    wraps to zero after 64 doublings and the loop of [hashBuckets2] does
    not end. *)
Theorem hashBuckets2_overflow count :
  2 ^ 63 < count -> hashBuckets2 count = None.
Proof.
  intros Hcount. unfold hashBuckets2.
  change 1 with (2 ^ 0 mod 2 ^ 64).
  apply (hashBuckets2_loop_wraps 64 0 count); lia.
Qed.

Lemma hashBuckets2_overflow_witness : hashBuckets2 (2 ^ 63 + 1) = None.
Proof. apply (hashBuckets2_overflow (2 ^ 63 + 1)). vm_compute. reflexivity. Defined.

(** ** [PositionHasher] *)

Lemma PositionHasher_equal_words data stride a b :
  PositionHasher_equal data stride a b = true <->
  forall j, 0 <= j < 3 -> position_word data stride a j = position_word data stride b j.
Proof.
  unfold PositionHasher_equal. rewrite !andb_true_iff, !Z.eqb_eq. split.
  - intros [[H0 H1] H2] j Hj.
    assert (Hc : j = 0 \/ j = 1 \/ j = 2) by lia.
    destruct Hc as [ -> | [ -> | -> ] ]; assumption.
  - intros H. repeat split; apply H; lia.
Qed.

Lemma PositionHasher_hash_words data stride a b :
  (forall j, 0 <= j < 3 -> position_word data stride a j = position_word data stride b j) ->
  PositionHasher_hash data stride a = PositionHasher_hash data stride b.
Proof.
  intros H. unfold PositionHasher_hash, for_loop.
  apply for_from_ext. intros i h Hi.
  rewrite (H i) by (cbn in Hi; lia). reflexivity.
Qed.

Lemma PositionHasher_cong data stride a b :
  equal (PositionHasher data stride) a b = true ->
  hash (PositionHasher data stride) a = hash (PositionHasher data stride) b.
Proof.
  cbn [PositionHasher equal hash]. intros Hab. apply PositionHasher_hash_words.
  now apply PositionHasher_equal_words.
Qed.

Lemma PositionHasher_refl data stride a : equal (PositionHasher data stride) a a = true.
Proof. cbn [PositionHasher equal]. apply PositionHasher_equal_words. reflexivity. Qed.

Lemma PositionHasher_sym data stride a b :
  equal (PositionHasher data stride) a b = equal (PositionHasher data stride) b a.
Proof.
  cbn [PositionHasher equal]. unfold PositionHasher_equal.
  rewrite (Z.eqb_sym (position_word data stride a 0)),
          (Z.eqb_sym (position_word data stride a 1)),
          (Z.eqb_sym (position_word data stride a 2)). reflexivity.
Qed.

Lemma PositionHasher_trans data stride a b c :
  equal (PositionHasher data stride) a b = true ->
  equal (PositionHasher data stride) b c = true ->
  equal (PositionHasher data stride) a c = true.
Proof.
  cbn [PositionHasher equal]. rewrite !PositionHasher_equal_words.
  intros Hab Hbc j Hj. rewrite Hab, Hbc by assumption. reflexivity.
Qed.

(** X3: [PositionHasher::equal] (a [memcmp] of three words) is an
    equivalence on vertex indices, and vertices it holds equal have the
    same [PositionHasher::hash]. *)
Theorem PositionHasher_equal_equivalence data stride :
  let hasher := PositionHasher data stride in
  (forall a, equal hasher a a = true)
  /\ (forall a b, equal hasher a b = equal hasher b a)
  /\ (forall a b c, equal hasher a b = true -> equal hasher b c = true ->
                    equal hasher a c = true)
  /\ (forall a b, equal hasher a b = true -> hash hasher a = hash hasher b).
Proof.
  cbv zeta. split; [|split; [|split]].
  - apply PositionHasher_refl.
  - apply PositionHasher_sym.
  - apply PositionHasher_trans.
  - apply PositionHasher_cong.
Qed.

(** ** Open addressing: what [hashLookup2] finds in a table filled through it *)

Section OpenAddressing.
Context {T : Type}.
Variable eqT : T -> T -> bool.
Variable hasher : Hasher T.
Variables dflt empty : T.
Variable n : Z.
Hypothesis Hn : 0 <= n.
Hypothesis Hcong : forall a b, equal hasher a b = true -> hash hasher a = hash hasher b.

Lemma hashLookup2_probe_first table hashmod b0 key fuel p e :
  hashLookup2_probe eqT hasher dflt fuel table hashmod
    (probe_bucket hashmod b0 p) (Z.of_nat p) key empty = Some e ->
  exists k, (p <= k < p + fuel)%nat
    /\ e = probe_bucket hashmod b0 k
    /\ slot_accepts eqT hasher dflt table key empty e
    /\ forall k', (p <= k' < k)%nat ->
         eqT (aget dflt table (probe_bucket hashmod b0 k')) empty = false
         /\ equal hasher (aget dflt table (probe_bucket hashmod b0 k')) key = false.
Proof.
  revert p. induction fuel as [|fuel IH]; intros p Hrun; [discriminate|].
  cbn [hashLookup2_probe] in Hrun.
  destruct (eqT (aget dflt table (probe_bucket hashmod b0 p)) empty) eqn:E1.
  { injection Hrun as <-. exists p. split; [lia|]. split; [reflexivity|].
    split; [left; exact E1|]. intros k' Hk'. lia. }
  destruct (equal hasher (aget dflt table (probe_bucket hashmod b0 p)) key) eqn:E2.
  { injection Hrun as <-. exists p. split; [lia|]. split; [reflexivity|].
    split; [right; exact E2|]. intros k' Hk'. lia. }
  replace (Z.of_nat p + 1) with (Z.of_nat (S p)) in Hrun by lia.
  change (Z.land (probe_bucket hashmod b0 p + Z.of_nat p + 1) hashmod)
    with (probe_bucket hashmod b0 (S p)) in Hrun.
  destruct (IH (S p) Hrun) as (k & Hk & He & Hacc & Hmin).
  exists k. split; [lia|]. split; [exact He|]. split; [exact Hacc|].
  intros k' Hk'. destruct (Nat.eq_dec k' p) as [->|Hne]; [auto|].
  apply Hmin. lia.
Qed.

(** The lookup stops at the first bucket of the key's path that is empty
    or holds an item equal to the key. *)
Lemma hashLookup2_stops table key e :
  hashLookup2 eqT hasher dflt table (2 ^ n) key empty = Some e ->
  exists k, (k < Z.to_nat (2 ^ n))%nat
    /\ e = probe_path hasher n key k
    /\ slot_accepts eqT hasher dflt table key empty e
    /\ forall k', (k' < k)%nat ->
         eqT (aget dflt table (probe_path hasher n key k')) empty = false
         /\ equal hasher (aget dflt table (probe_path hasher n key k')) key = false.
Proof.
  unfold hashLookup2. intros Hrun.
  destruct (hashLookup2_probe_first table (2 ^ n - 1)
              (Z.land (hash hasher key) (2 ^ n - 1)) key
              (Z.to_nat (2 ^ n - 1 + 1)) 0 e Hrun) as (k & Hk & He & Hacc & Hmin).
  exists k. replace (2 ^ n - 1 + 1) with (2 ^ n) in Hk by lia.
  split; [lia|]. split; [exact He|]. split; [exact Hacc|].
  intros k' Hk'. apply Hmin. lia.
Qed.

(** An empty slot is returned only when no item of the table equals the
    key. *)
Lemma hashLookup2_absent table key e :
  table_wf eqT hasher dflt empty n table ->
  hashLookup2 eqT hasher dflt table (2 ^ n) key empty = Some e ->
  eqT (aget dflt table e) empty = true ->
  forall e', 0 <= e' < 2 ^ n -> eqT (aget dflt table e') empty = false ->
    equal hasher (aget dflt table e') key = false.
Proof.
  intros Hwf Hrun Hempty e' He' Hused.
  destruct (equal hasher (aget dflt table e') key) eqn:Heq; [exfalso|reflexivity].
  destruct (hashLookup2_stops table key e Hrun) as (k & Hk & He & _ & Hmin).
  destruct (Hwf e' He' Hused) as (kx & Hkx & Hex & Hpath).
  assert (Hsame : forall j, probe_path hasher n (aget dflt table e') j
                            = probe_path hasher n key j).
  { intros j. unfold probe_path. now rewrite (Hcong _ _ Heq). }
  destruct (Nat.lt_trichotomy k kx) as [Hlt|[Heqk|Hgt]].
  - specialize (Hpath k Hlt). rewrite Hsame, <- He in Hpath. congruence.
  - subst kx. rewrite Hsame, <- He in Hex. subst e'. congruence.
  - destruct (Hmin kx Hgt) as [_ Hne]. rewrite <- Hsame, <- Hex in Hne. congruence.
Qed.

(** Storing the key in the empty slot the lookup returned keeps the
    table well formed. *)
Lemma hashLookup2_insert_wf table key e :
  len table = 2 ^ n ->
  table_wf eqT hasher dflt empty n table ->
  hashLookup2 eqT hasher dflt table (2 ^ n) key empty = Some e ->
  eqT (aget dflt table e) empty = true ->
  eqT key empty = false ->
  table_wf eqT hasher dflt empty n (aset table e key).
Proof.
  intros Hlen Hwf Hrun Hempty Hkey.
  destruct (hashLookup2_stops table key e Hrun) as (k & Hk & He & _ & Hmin).
  assert (Hrange : 0 <= e < len table).
  { rewrite Hlen, He. unfold probe_path. apply probe_bucket_range; auto.
    rewrite land_pow2_pred by assumption. apply Z.mod_pos_bound.
    apply Z.pow_pos_nonneg; lia. }
  assert (Hget : forall x, aget dflt (aset table e key) x
                           = if x =? e then key else aget dflt table x).
  { intros x. rewrite aget_aset.
    destruct (Z.eqb_spec e x), (Z.eqb_spec x e); try lia; cbn [andb]; auto.
    replace (0 <=? e) with true by lia. replace (e <? len table) with true by lia.
    reflexivity. }
  intros e' He'. rewrite Hget.
  destruct (Z.eqb_spec e' e) as [->|Hne]; intros Hused.
  - exists k. split; [exact Hk|]. split; [exact He|].
    intros k' Hk'. rewrite Hget.
    destruct (probe_path hasher n key k' =? e); [exact Hkey|].
    now apply Hmin.
  - destruct (Hwf e' He' Hused) as (kx & Hkx & Hex & Hpath).
    exists kx. split; [exact Hkx|]. split; [exact Hex|].
    intros k' Hk'. rewrite Hget.
    destruct (probe_path hasher n (aget dflt table e') k' =? e); [exact Hkey|].
    now apply Hpath.
Qed.
End OpenAddressing.

Lemma table_wf_empty {T : Type} (eqT : T -> T -> bool) hasher (dflt empty : T) n :
  eqT empty empty = true ->
  table_wf eqT hasher dflt empty n (repeat empty (Z.to_nat (2 ^ n))).
Proof.
  intros He e Hrange Hused. exfalso.
  rewrite aget_repeat in Hused by assumption. congruence.
Qed.

Lemma hashLookup2_slot_spec {T : Type} (eqT : T -> T -> bool) (hasher : Hasher T)
  (dflt empty : T) (n : Z) (table : list T) (key : T) (e : Z) :
  0 <= n ->
  (forall a b, equal hasher a b = true -> hash hasher a = hash hasher b) ->
  len table = 2 ^ n ->
  table_wf eqT hasher dflt empty n table ->
  hashLookup2 eqT hasher dflt table (2 ^ n) key empty = Some e ->
  0 <= e < 2 ^ n
  /\ (eqT (aget dflt table e) empty = false -> equal hasher (aget dflt table e) key = true)
  /\ (eqT (aget dflt table e) empty = true ->
      (forall e', 0 <= e' < 2 ^ n -> eqT (aget dflt table e') empty = false ->
                  equal hasher (aget dflt table e') key = false)
      /\ (eqT key empty = false ->
          table_wf eqT hasher dflt empty n (aset table e key))).
Proof.
  intros Hn Hcong Hlen Hwf Hrun.
  destruct (hashLookup2_stops eqT hasher dflt empty n table key e Hrun)
    as (k & Hk & He & Hacc & _).
  split; [|split].
  - rewrite He. unfold probe_path. apply probe_bucket_range; auto.
    rewrite land_pow2_pred by assumption. apply Z.mod_pos_bound.
    apply Z.pow_pos_nonneg; lia.
  - intros Hused. destruct Hacc as [Hacc|Hacc]; [congruence|exact Hacc].
  - intros Hempty. split.
    + eapply hashLookup2_absent; eauto.
    + intros Hkey. eapply hashLookup2_insert_wf; eauto.
Qed.

(** X4: in a table that was filled through [hashLookup2], a lookup ends at
    a slot of the key's probe sequence; the slot holds an item equal to the
    key whenever it is in use, and it is empty only when no item of the
    table equals the key.  Storing the key in that empty slot keeps the
    table in this state. *)
Theorem hashLookup2_finds_equal_item {T : Type} (eqT : T -> T -> bool) (hasher : Hasher T)
  (dflt empty : T) (n : Z) (table : list T) (key : T) (e : Z) :
  0 <= n ->
  (forall a b, equal hasher a b = true -> hash hasher a = hash hasher b) ->
  len table = 2 ^ n ->
  table_wf eqT hasher dflt empty n table ->
  hashLookup2 eqT hasher dflt table (2 ^ n) key empty = Some e ->
  0 <= e < 2 ^ n
  /\ (eqT (aget dflt table e) empty = false -> equal hasher (aget dflt table e) key = true)
  /\ (eqT (aget dflt table e) empty = true ->
      (forall e', 0 <= e' < 2 ^ n -> eqT (aget dflt table e') empty = false ->
                  equal hasher (aget dflt table e') key = false)
      /\ (eqT key empty = false ->
          table_wf eqT hasher dflt empty n (aset table e key))).
Proof.
  intros Hn Hcong Hlen Hwf Hrun.
  now apply hashLookup2_slot_spec.
Qed.

Lemma interned_table_wf : table_wf Z.eqb quad_hasher 0 NONE32 2 interned_table.
Proof.
  intros e He Hused.
  assert (Hc : e = 0 \/ e = 1 \/ e = 2 \/ e = 3) by lia.
  destruct Hc as [ -> | [ -> | [ -> | -> ] ] ].
  - exists 0%nat. split; [vm_compute; lia|]. split; [reflexivity|]. intros k' Hk'. lia.
  - exists 0%nat. split; [vm_compute; lia|]. split; [reflexivity|]. intros k' Hk'. lia.
  - discriminate Hused.
  - exists 2%nat. split; [vm_compute; lia|]. split; [reflexivity|]. intros k' Hk'.
    destruct k' as [|[|k']]; [reflexivity|reflexivity|lia].
Qed.

Lemma hashLookup2_finds_equal_item_witness :
  (0 <= 3 < 2 ^ 2
   /\ (Z.eqb (aget 0 interned_table 3) NONE32 = false ->
       equal quad_hasher (aget 0 interned_table 3) 2 = true)
   /\ (Z.eqb (aget 0 interned_table 3) NONE32 = true ->
       (forall e', 0 <= e' < 2 ^ 2 -> Z.eqb (aget 0 interned_table e') NONE32 = false ->
                   equal quad_hasher (aget 0 interned_table e') 2 = false)
       /\ (Z.eqb 2 NONE32 = false ->
           table_wf Z.eqb quad_hasher 0 NONE32 2 (aset interned_table 3 2))))
  /\ (0 <= 2 < 2 ^ 2
      /\ (Z.eqb (aget 0 interned_table 2) NONE32 = false ->
          equal quad_hasher (aget 0 interned_table 2) 3 = true)
      /\ (Z.eqb (aget 0 interned_table 2) NONE32 = true ->
          (forall e', 0 <= e' < 2 ^ 2 -> Z.eqb (aget 0 interned_table e') NONE32 = false ->
                      equal quad_hasher (aget 0 interned_table e') 3 = false)
          /\ (Z.eqb 3 NONE32 = false ->
              table_wf Z.eqb quad_hasher 0 NONE32 2 (aset interned_table 2 3)))).
Proof.
  split.
  - apply (hashLookup2_finds_equal_item Z.eqb quad_hasher 0 NONE32 2 interned_table 2 3).
    + lia.
    + intros a b. apply PositionHasher_cong.
    + reflexivity.
    + exact interned_table_wf.
    + vm_compute. reflexivity.
  - apply (hashLookup2_finds_equal_item Z.eqb quad_hasher 0 NONE32 2 interned_table 3 2).
    + lia.
    + intros a b. apply PositionHasher_cong.
    + reflexivity.
    + exact interned_table_wf.
    + vm_compute. reflexivity.
Defined.

(** ** [buildPositionRemap]: the classes of equal positions *)

Section PositionClasses.
Variable hasher : Hasher Z.
Variables vertex_count n : Z.
Hypothesis Hvc : 0 <= vertex_count < 2 ^ 32.
Hypothesis Hn : 0 <= n.
Hypothesis Hsize : vertex_count <= 2 ^ n.
Hypothesis Hrefl : forall a, equal hasher a a = true.
Hypothesis Hsym : forall a b, equal hasher a b = equal hasher b a.
Hypothesis Htrans : forall a b c,
  equal hasher a b = true -> equal hasher b c = true -> equal hasher a c = true.
Hypothesis Hcong : forall a b, equal hasher a b = true -> hash hasher a = hash hasher b.

Lemma intern_step i st :
  0 <= i < vertex_count -> intern_inv hasher vertex_count n i st ->
  exists st', buildPositionRemap_insert hasher (2 ^ n) i st = Some st'
              /\ intern_inv hasher vertex_count n (i + 1) st'.
Proof.
  intros Hi (Hins & Hwf & Huniq & Hrem).
  destruct (insert_step hasher vertex_count n Hvc Hn Hsize i st Hi Hins)
    as (st' & Hrun & Hins').
  exists st'. split; [exact Hrun|].
  split; [exact Hins'|].
  destruct st as [table remap]. cbn [fst snd] in *.
  destruct Hins as (Hlt & Hlr & _ & Htab & Hle).
  unfold buildPositionRemap_insert in Hrun. rewrite u32_small in Hrun by lia.
  destruct (hashLookup2 Z.eqb hasher 0 table (2 ^ n) i NONE32) as [e|] eqn:Hlook;
    [|discriminate].
  cbn [bind] in Hrun.
  destruct (hashLookup2_slot_spec Z.eqb hasher 0 NONE32 n table i e Hn Hcong Hlt Hwf Hlook)
    as (He & Hfull & Hempty).
  fold (geti table e) in Hfull, Hempty.
  assert (Hkey : (i =? NONE32) = false) by (apply Z.eqb_neq; unfold NONE32; lia).
  assert (Hold : forall j, 0 <= j < i -> geti remap j <> NONE32).
  { intros j Hj. destruct (Hle j Hj) as [Hr _]. unfold NONE32. lia. }
  destruct (Z.eqb_spec (geti table e) NONE32) as [Hnone|Hsome].
  - (* a position not seen before *)
    destruct (Hempty eq_refl) as [Habsent Hwf'].
    injection Hrun as <-. cbn [fst snd].
    rewrite geti_aset_eq by lia.
    assert (Hget : forall x, geti (aset table e i) x = if x =? e then i else geti table x).
    { intros x. apply geti_aset_in. lia. }
    split; [exact (Hwf' Hkey)|]. split.
    + intros e1 e2 He1 He2. rewrite !Hget.
      destruct (Z.eqb_spec e1 e) as [->|Hn1], (Z.eqb_spec e2 e) as [->|Hn2];
        intros H1 H2 Heq; auto; exfalso.
      * rewrite Hsym in Heq.
        specialize (Habsent e2 He2). fold (geti table e2) in Habsent.
        rewrite Habsent in Heq; [discriminate|]. now apply Z.eqb_neq.
      * specialize (Habsent e1 He1). fold (geti table e1) in Habsent.
        rewrite Habsent in Heq; [discriminate|]. now apply Z.eqb_neq.
    + intros j Hj. rewrite (geti_aset_in remap) by lia.
      destruct (Z.eqb_spec j i) as [->|Hne].
      * split; [apply Hrefl|]. exists e. split; [exact He|].
        rewrite Hget, Z.eqb_refl. reflexivity.
      * destruct (Hrem j) as (Heq & e' & He' & Hval); [lia|].
        split; [exact Heq|]. exists e'. split; [exact He'|].
        rewrite Hget. destruct (Z.eqb_spec e' e) as [->|_]; [|exact Hval].
        exfalso. apply (Hold j); [lia|]. congruence.
  - (* a position seen before *)
    injection Hrun as <-. cbn [fst snd].
    split; [exact Hwf|]. split; [exact Huniq|].
    intros j Hj. rewrite (geti_aset_in remap) by lia.
    destruct (Z.eqb_spec j i) as [->|Hne].
    + split; [apply Hfull; reflexivity|]. exists e. auto.
    + apply Hrem. lia.
Qed.

Lemma intern_classes table remap :
  intern_inv hasher vertex_count n vertex_count (table, remap) ->
  remap_classes hasher vertex_count remap.
Proof.
  intros ((_ & _ & _ & _ & Hle) & _ & Huniq & Hrem). cbn [fst snd] in *.
  assert (Hne : forall j, 0 <= j < vertex_count -> geti remap j <> NONE32).
  { intros j Hj. destruct (Hle j Hj) as [Hr _]. unfold NONE32. lia. }
  assert (Hiff : forall i j, 0 <= i < vertex_count -> 0 <= j < vertex_count ->
            (geti remap i = geti remap j <-> equal hasher i j = true)).
  { intros i j Hi Hj.
    destruct (Hrem i Hi) as (Hei & ei & Hri & Hvi).
    destruct (Hrem j Hj) as (Hej & ej & Hrj & Hvj).
    split.
    - intros Heq. apply Htrans with (geti remap i).
      + now rewrite Hsym.
      + now rewrite Heq.
    - intros Heq.
      assert (Hrr : equal hasher (geti remap i) (geti remap j) = true).
      { apply Htrans with i; [exact Hei|]. apply Htrans with j; [exact Heq|].
        now rewrite Hsym. }
      rewrite <- Hvi, <- Hvj in Hrr.
      assert (ei = ej).
      { apply Huniq; auto.
        - rewrite Hvi. now apply Hne.
        - rewrite Hvj. now apply Hne. }
      subst ej. congruence. }
  split; [|split].
  - intros i Hi. split; [now apply Hle|]. now apply Hrem.
  - exact Hiff.
  - intros i j Hi Hj Heq.
    assert (E : geti remap j = geti remap i) by (now apply Hiff).
    destruct (Hle j Hj) as [Hr _]. lia.
Qed.
End PositionClasses.

Section WedgeChain.
Variable vertex_count : Z.
Variable remap : list Z.
Hypothesis Hvc : 0 <= vertex_count < 2 ^ 32.
Hypothesis Hle : forall j, 0 <= j < vertex_count -> 0 <= geti remap j <= j.
Hypothesis Hidem : forall j, 0 <= j < vertex_count ->
  geti remap (geti remap j) = geti remap j.

Lemma wedge_chain_step i wedge :
  0 <= i < vertex_count -> wedge_chain vertex_count remap i wedge ->
  wedge_chain vertex_count remap (i + 1) (buildPositionRemap_splice remap i wedge).
Proof.
  intros Hi (Hlen & Hcanon & Hdone & Htodo).
  unfold buildPositionRemap_splice.
  destruct (Z.eqb_spec (geti remap i) i) as [Hfix|Hmove]; cbn [negb].
  - (* the first vertex of its class *)
    split; [exact Hlen|]. split; [|split].
    + intros r Hr Hrr. destruct (Hcanon r Hr Hrr) as (H1 & H2 & H3 & H4).
      split; [exact H1|]. split; [lia|]. split; [exact H3|].
      intros j Hj. destruct (Z.eq_dec j i) as [->|Hne]; [|apply H4; lia].
      destruct (Z.eq_dec r i) as [->|Hri]; [lia|]. lia.
    + intros x Hx Hxn. destruct (Z.eq_dec x i) as [->|Hne]; [contradiction|].
      apply Hdone; [lia|exact Hxn].
    + intros x Hx Hxn. apply Htodo; [lia|exact Hxn].
  - set (r := geti remap i) in *.
    assert (Hr : 0 <= r < i) by (pose proof (Hle i Hi); unfold r in *; lia).
    assert (Hrr : geti remap r = r) by (apply Hidem; lia).
    destruct (Hcanon r ltac:(lia) Hrr) as (Hr1 & Hr2 & Hr3 & Hr4).
    rewrite u32_small by lia.
    assert (Hget : forall x, geti (aset (aset wedge i (geti wedge r)) r i) x
                             = if x =? r then i else if x =? i then geti wedge r
                               else geti wedge x).
    { intros x. rewrite geti_aset_in by (rewrite len_aset; lia).
      destruct (Z.eqb_spec x r); auto. apply geti_aset_in. lia. }
    split; [now rewrite !len_aset|]. split; [|split].
    + intros r' Hr' Hrr'. rewrite Hget.
      destruct (Z.eqb_spec r' r) as [->|Hne].
      * split; [lia|]. split; [lia|]. split; [reflexivity|]. intros j Hj. lia.
      * destruct (Z.eqb_spec r' i) as [->|Hni]; [contradiction|].
        destruct (Hcanon r' Hr' Hrr') as (H1 & H2 & H3 & H4).
        split; [exact H1|]. split; [lia|]. split; [exact H3|].
        intros j Hj. destruct (Z.eq_dec j i) as [->|Hji]; [|apply H4; lia].
        fold r. congruence.
    + intros x Hx Hxn. rewrite Hget.
      destruct (Z.eqb_spec x r) as [->|Hne]; [contradiction|].
      destruct (Z.eqb_spec x i) as [->|Hni].
      * fold r. split; [lia|]. split; [exact Hr3|].
        intros j Hj. apply Hr4. lia.
      * apply Hdone; [lia|exact Hxn].
    + intros x Hx Hxn. rewrite Hget.
      destruct (Z.eqb_spec x r) as [->|Hne]; [contradiction|].
      destruct (Z.eqb_spec x i) as [->|Hni]; [lia|].
      apply Htodo; [lia|exact Hxn].
Qed.

Lemma wedge_chain_rings :
  wedge_rings vertex_count remap
    (for_loop vertex_count (buildPositionRemap_splice remap)
       (for_loop vertex_count (fun i w => aset w i (u32 i))
          (repeat 0 (Z.to_nat vertex_count)))).
Proof.
  destruct (identity_table_spec vertex_count Hvc) as [Hlw Hid].
  set (w0 := for_loop vertex_count (fun i w => aset w i (u32 i))
               (repeat 0 (Z.to_nat vertex_count))) in *.
  assert (Hs : wedge_chain vertex_count remap vertex_count
                 (for_loop vertex_count (buildPositionRemap_splice remap) w0)).
  { apply (for_loop_inv (wedge_chain vertex_count remap)); [lia| |].
    - split; [exact Hlw|]. split; [|split].
      + intros r Hr Hrr. rewrite Hid by assumption.
        split; [lia|]. split; [now right|]. split; [exact Hrr|]. intros j Hj. lia.
      + intros x Hx. lia.
      + intros x Hx _. apply Hid. lia.
    - intros i w Hi. now apply wedge_chain_step. }
  destruct Hs as (_ & Hcanon & Hdone & _). split.
  - intros r Hr Hrr. destruct (Hcanon r Hr Hrr) as (H1 & _ & H3 & H4). auto.
  - exact Hdone.
Qed.
End WedgeChain.

(** The result of [buildPositionRemap]. *)
Lemma buildPositionRemap_spec vertex_positions_data vertex_count vertex_positions_stride :
  0 <= vertex_count < 2 ^ 32 ->
  exists remap wedge,
    buildPositionRemap vertex_positions_data vertex_count vertex_positions_stride
    = Some (remap, wedge)
    /\ remap_ok vertex_count remap wedge
    /\ remap_classes (PositionHasher vertex_positions_data (vertex_positions_stride / 4))
         vertex_count remap
    /\ wedge_rings vertex_count remap wedge.
Proof.
  intros Hvc.
  destruct (buildPositionRemap_ok vertex_positions_data vertex_count
              vertex_positions_stride Hvc) as (remap & wedge & Hrun & Hok).
  exists remap, wedge. split; [exact Hrun|]. split; [exact Hok|].
  unfold buildPositionRemap in Hrun.
  destruct (hashBuckets2_pow2 vertex_count) as (n & Hn & Hb & Hsize).
  { assert (2 ^ 32 <= 2 ^ 63) by (apply Z.pow_le_mono_r; lia). lia. }
  rewrite Hb in Hrun. cbn [bind] in Hrun.
  set (hasher := PositionHasher vertex_positions_data (vertex_positions_stride / 4)) in *.
  destruct (for_loop_opt_inv (intern_inv hasher vertex_count n)
              (buildPositionRemap_insert hasher (2 ^ n)) vertex_count
              (repeat NONE32 (Z.to_nat (2 ^ n)), repeat 0 (Z.to_nat vertex_count)))
    as ([table remap'] & Hloop & Hinv).
  - lia.
  - split; [|split; [|split]]; cbn [fst snd].
    + unfold insert_inv. rewrite !len_repeat by lia. rewrite occupied_repeat_NONE32.
      repeat split; try lia.
      intros e He. left. unfold geti. apply aget_repeat. lia.
    + apply table_wf_empty. reflexivity.
    + intros e e' He He' Hne. exfalso. apply Hne. unfold geti. apply aget_repeat. lia.
    + intros j Hj. lia.
  - intros i st Hi. apply intern_step; try assumption; try lia;
      intros; subst hasher;
      first [ apply PositionHasher_refl | apply PositionHasher_sym
            | apply PositionHasher_cong; assumption ].
  - rewrite Hloop in Hrun. cbn [bind] in Hrun. injection Hrun as <- <-.
    split.
    + apply (intern_classes hasher vertex_count n) with (table := table);
        try assumption; try lia; intros; subst hasher;
        first [ apply PositionHasher_sym | eapply PositionHasher_trans; eassumption ].
    + apply wedge_chain_rings; auto.
      * intros j Hj. destruct Hinv as ((_ & _ & _ & _ & Hle) & _). now apply Hle.
      * intros j Hj. destruct Hinv as ((_ & _ & _ & _ & Hle) & _). now apply Hle.
Qed.

(** X5: [buildPositionRemap] succeeds for every vertex count below [2^32],
    and [remap] sends each vertex to the first vertex whose position has
    the same bits: [remap[i] <= i], the position of [remap[i]] equals that
    of [i], two vertices have one [remap] exactly when their positions are
    equal, and no earlier vertex has the position of [i]. *)
Theorem buildPositionRemap_classes vertex_positions_data vertex_count
  vertex_positions_stride :
  0 <= vertex_count < 2 ^ 32 ->
  exists remap wedge,
    buildPositionRemap vertex_positions_data vertex_count vertex_positions_stride
    = Some (remap, wedge)
    /\ len remap = vertex_count
    /\ remap_classes (PositionHasher vertex_positions_data (vertex_positions_stride / 4))
         vertex_count remap.
Proof.
  intros Hvc.
  destruct (buildPositionRemap_spec vertex_positions_data vertex_count
              vertex_positions_stride Hvc) as (remap & wedge & Hrun & Hok & Hcl & _).
  exists remap, wedge. split; [exact Hrun|]. split; [apply Hok|exact Hcl].
Qed.

Lemma buildPositionRemap_classes_witness :
  exists remap wedge,
    buildPositionRemap quad_positions 4 12 = Some (remap, wedge)
    /\ len remap = 4
    /\ remap_classes (PositionHasher quad_positions (12 / 4)) 4 remap.
Proof. apply (buildPositionRemap_classes quad_positions 4 12). lia. Defined.

(** X6: the wedge table [buildPositionRemap] returns links the vertices of
    each position class in a ring, in descending order: the first vertex of
    a class points to its last vertex, every other vertex to the nearest
    earlier vertex of its class. *)
Theorem buildPositionRemap_wedge_rings vertex_positions_data vertex_count
  vertex_positions_stride :
  0 <= vertex_count < 2 ^ 32 ->
  exists remap wedge,
    buildPositionRemap vertex_positions_data vertex_count vertex_positions_stride
    = Some (remap, wedge)
    /\ len wedge = vertex_count
    /\ wedge_rings vertex_count remap wedge.
Proof.
  intros Hvc.
  destruct (buildPositionRemap_spec vertex_positions_data vertex_count
              vertex_positions_stride Hvc) as (remap & wedge & Hrun & Hok & _ & Hw).
  exists remap, wedge. split; [exact Hrun|]. split; [apply Hok|exact Hw].
Qed.

Lemma buildPositionRemap_wedge_rings_witness :
  exists remap wedge,
    buildPositionRemap origin_positions 3 12 = Some (remap, wedge)
    /\ len wedge = 3
    /\ wedge_rings 3 remap wedge.
Proof. apply (buildPositionRemap_wedge_rings origin_positions 3 12). lia. Defined.

(** ** [buildEdgeAdjacency] *)

Lemma count_lt_eq_le (k : Z -> Z) key i :
  count_lt k key i + count_eq k key i <= Z.of_nat i.
Proof.
  induction i as [|i IH]; cbn [count_lt count_eq]; [lia|].
  destruct (Z.ltb_spec (k (Z.of_nat i)) key), (Z.eqb_spec (k (Z.of_nat i)) key); lia.
Qed.

Lemma count_lt_none (k : Z -> Z) key i :
  (forall j, 0 <= j < Z.of_nat i -> key <= k j) -> count_lt k key i = 0.
Proof.
  induction i as [|i IH]; intros H; cbn [count_lt]; [reflexivity|].
  rewrite IH by (intros j Hj; apply H; lia).
  destruct (Z.ltb_spec (k (Z.of_nat i)) key) as [Hlt|]; [|reflexivity].
  specialize (H (Z.of_nat i)). lia.
Qed.

Lemma sorted_position_bound (k : Z -> Z) n i :
  0 <= i < n -> 0 <= sorted_position k n i < n.
Proof.
  intros Hi. unfold sorted_position.
  pose proof (count_lt_bounds k (k i) (Z.to_nat n)).
  pose proof (count_eq_bounds k (k i) (Z.to_nat i)).
  pose proof (count_eq_hit k (Z.to_nat i) (Z.to_nat n) ltac:(lia)) as Hhit.
  rewrite Z2Nat.id in Hhit by lia.
  pose proof (count_lt_eq_le k (k i) (Z.to_nat n)). lia.
Qed.

(** A slot of the segment of [key] is the position of a record with that
    key. *)
Lemma sorted_position_onto (k : Z -> Z) n key s :
  0 <= n ->
  count_lt k key (Z.to_nat n) <= s
  < count_lt k key (Z.to_nat n) + count_eq k key (Z.to_nat n) ->
  exists p, 0 <= p < n /\ k p = key /\ sorted_position k n p = s.
Proof.
  intros Hn Hs.
  pose proof (count_lt_bounds k key (Z.to_nat n)).
  pose proof (count_lt_eq_le k key (Z.to_nat n)).
  destruct (range_injection_onto (sorted_position k n) n) with (t := s)
    as (p & Hp & Hps).
  - intros i Hi. now apply sorted_position_bound.
  - intros i j Hi Hj. now apply sorted_position_inj.
  - lia.
  - exists p. split; [exact Hp|]. split; [|exact Hps].
    unfold sorted_position in Hps.
    pose proof (count_eq_bounds k (k p) (Z.to_nat p)).
    pose proof (count_eq_hit k (Z.to_nat p) (Z.to_nat n) ltac:(lia)) as Hhit.
    rewrite Z2Nat.id in Hhit by lia.
    destruct (Z.lt_trichotomy (k p) key) as [Hlt|[Heq|Hgt]]; [exfalso|exact Heq|exfalso].
    + pose proof (count_lt_succ k (k p) (Z.to_nat n)).
      pose proof (count_lt_mono k (k p + 1) key (Z.to_nat n) ltac:(lia)). lia.
    + pose proof (count_lt_succ k key (Z.to_nat n)).
      pose proof (count_lt_mono k (key + 1) (k p) (Z.to_nat n) ltac:(lia)). lia.
Qed.

Lemma corner_next_0 indices i : 0 <= i -> corner_next indices (3 * i) = geti indices (3 * i + 1).
Proof.
  intros Hi. unfold corner_next.
  replace (3 * i / 3) with i by (apply Z.div_unique with 0; lia).
  replace ((3 * i) mod 3) with 0 by (apply Z.mod_unique with i; lia). reflexivity.
Qed.

Lemma corner_next_1 indices i :
  0 <= i -> corner_next indices (3 * i + 1) = geti indices (3 * i + 2).
Proof.
  intros Hi. unfold corner_next.
  replace ((3 * i + 1) / 3) with i by (apply Z.div_unique with 1; lia).
  replace ((3 * i + 1) mod 3) with 1 by (apply Z.mod_unique with i; lia). reflexivity.
Qed.

Lemma corner_next_2 indices i :
  0 <= i -> corner_next indices (3 * i + 2) = geti indices (3 * i).
Proof.
  intros Hi. unfold corner_next.
  replace ((3 * i + 2) / 3) with i by (apply Z.div_unique with 2; lia).
  replace ((3 * i + 2) mod 3) with 2 by (apply Z.mod_unique with i; lia).
  change (next3 2) with 0. f_equal. lia.
Qed.

Section EdgeAdjacencyFacts.
Variable indices : list Z.
Variables index_count vertex_count : Z.
Hypothesis Hvalid : valid_input indices index_count vertex_count.

Let k := geti indices.
Let n := Z.to_nat index_count.

Lemma valid_index p : 0 <= p < index_count -> 0 <= k p < vertex_count.
Proof.
  intros Hp. destruct Hvalid as (Hlen & _ & _ & _ & Hall).
  unfold k, geti. apply (proj1 (Forall_forall _ _) Hall).
  apply aget_In. lia.
Qed.

Lemma valid_count_nonneg : 0 <= index_count < 2 ^ 32.
Proof.
  destruct Hvalid as (Hlen & _ & Hlt & _). pose proof (len_nonneg indices). lia.
Qed.

Lemma buildEdgeAdjacency_counts :
  let c := for_loop index_count
             (fun i c => aset c (geti indices i) (u32 (geti c (geti indices i) + 1)))
             (repeat 0 (Z.to_nat vertex_count)) in
  len c = vertex_count
  /\ forall v, 0 <= v < vertex_count -> geti c v = count_eq k v n.
Proof.
  pose proof valid_count_nonneg as Hic.
  destruct Hvalid as (_ & _ & _ & Hvc & _).
  apply (for_loop_inv
           (fun i c => len c = vertex_count
                       /\ forall v, 0 <= v < vertex_count ->
                            geti c v = count_eq k v (Z.to_nat i))).
  - lia.
  - split; [apply len_repeat; lia|]. intros v Hv. unfold geti. now apply aget_repeat.
  - intros i c Hi [Hlen Hc]. pose proof (valid_index i Hi) as Hki. fold (k i).
    split; [now rewrite len_aset|].
    intros v Hv. replace (Z.to_nat (i + 1)) with (S (Z.to_nat i)) by lia.
    cbn [count_eq]. rewrite Z2Nat.id by lia. rewrite geti_aset_in by lia.
    destruct (Z.eqb_spec v (k i)) as [->|Hne].
    + rewrite Z.eqb_refl, Hc by assumption.
      pose proof (count_eq_bounds k (k i) (Z.to_nat i)).
      apply u32_small. lia.
    + destruct (Z.eqb_spec (k i) v); [lia|]. rewrite Hc by assumption. lia.
Qed.

Lemma buildEdgeAdjacency_offsets counts1 :
  (forall v, 0 <= v < vertex_count -> geti counts1 v = count_eq k v n) ->
  let st := for_loop vertex_count
              (fun i '(o, offset) => (aset o i offset, u32 (offset + geti counts1 i)))
              (repeat 0 (Z.to_nat vertex_count), 0) in
  len (fst st) = vertex_count
  /\ (forall v, 0 <= v < vertex_count -> geti (fst st) v = count_lt k v n)
  /\ snd st = index_count.
Proof.
  intros Hc. pose proof valid_count_nonneg as Hic.
  destruct Hvalid as (_ & _ & _ & Hvc & _).
  assert (H : let st := for_loop vertex_count
                (fun i '(o, offset) => (aset o i offset, u32 (offset + geti counts1 i)))
                (repeat 0 (Z.to_nat vertex_count), 0) in
              len (fst st) = vertex_count
              /\ (forall v, 0 <= v < vertex_count -> geti (fst st) v = count_lt k v n)
              /\ snd st = count_lt k vertex_count n).
  { apply (for_loop_inv
             (fun i (st : list Z * Z) =>
                len (fst st) = vertex_count
                /\ (forall v, 0 <= v < i -> geti (fst st) v = count_lt k v n)
                /\ snd st = count_lt k i n)).
    - lia.
    - cbn [fst snd]. split; [apply len_repeat; lia|]. split; [intros; lia|].
      symmetry. apply count_lt_none. intros j Hj. apply valid_index. unfold n in Hj. lia.
    - intros i [o offset] Hi (Hlen & Ho & Hoff). cbn [fst snd] in *.
      split; [now rewrite len_aset|]. split.
      + intros v Hv. rewrite geti_aset_in by lia.
        destruct (Z.eqb_spec v i) as [->|Hne]; [exact Hoff|]. apply Ho. lia.
      + rewrite Hc by assumption. rewrite count_lt_succ, Hoff.
        pose proof (count_lt_eq_le k i n). pose proof (count_lt_bounds k i n).
        pose proof (count_eq_bounds k i n).
        apply u32_small. unfold n in *. lia. }
  cbv zeta in H. destruct H as (H1 & H2 & H3).
  split; [exact H1|]. split; [exact H2|].
  rewrite H3. unfold n. rewrite count_lt_all; [lia|].
  intros j Hj. apply valid_index. lia.
Qed.

(** One write of the fill loop: [data[offsets[v]++] = next corner]. *)
Let scatter (p : Z) (st : list Z * list Z) : list Z * list Z :=
  let '(o, d) := st in
  (aset o (k p) (u32 (geti o (k p) + 1)), aset d (geti o (k p)) (corner_next indices p)).

Let fill_inv (p : Z) (st : list Z * list Z) : Prop :=
  len (fst st) = vertex_count /\ len (snd st) = index_count
  /\ (forall v, 0 <= v < vertex_count ->
        geti (fst st) v = count_lt k v n + count_eq k v (Z.to_nat p))
  /\ (forall q, 0 <= q < p ->
        geti (snd st) (sorted_position k index_count q) = corner_next indices q).

Lemma scatter_step p st :
  0 <= p < index_count -> fill_inv p st -> fill_inv (p + 1) (scatter p st).
Proof.
  intros Hp. destruct st as [o d]. intros (Hlo & Hld & Ho & Hd). cbn [fst snd] in *.
  pose proof valid_count_nonneg as Hic.
  pose proof (valid_index p Hp) as Hkp.
  assert (Hpos : geti o (k p) = sorted_position k index_count p).
  { rewrite Ho by assumption. reflexivity. }
  pose proof (sorted_position_bound k index_count p Hp) as Hpr.
  unfold scatter, fill_inv. cbn [fst snd]. rewrite !len_aset, Hpos.
  split; [assumption|]. split; [assumption|]. split.
  - intros v Hv. replace (Z.to_nat (p + 1)) with (S (Z.to_nat p)) by lia.
    cbn [count_eq]. rewrite Z2Nat.id by lia. rewrite geti_aset_in by lia.
    destruct (Z.eqb_spec v (k p)) as [->|Hne].
    + rewrite Z.eqb_refl. rewrite u32_small; [unfold sorted_position; fold n; lia|lia].
    + destruct (Z.eqb_spec (k p) v); [lia|]. rewrite Ho by assumption. lia.
  - intros q Hq. rewrite geti_aset_in by lia.
    destruct (Z.eqb_spec (sorted_position k index_count q)
                (sorted_position k index_count p)) as [E|E].
    + apply sorted_position_inj in E; try lia. now subst q.
    + apply Hd. assert (q <> p) by (intros ->; now apply E). lia.
Qed.

Lemma buildEdgeAdjacency_fill offsets1 :
  len offsets1 = vertex_count ->
  (forall v, 0 <= v < vertex_count -> geti offsets1 v = count_lt k v n) ->
  fill_inv index_count
    (for_loop (index_count / 3)
       (fun i '(o, d) =>
          let a := geti indices (i * 3 + 0) in
          let b := geti indices (i * 3 + 1) in
          let c := geti indices (i * 3 + 2) in
          let d := aset d (geti o a) b in
          let o := aset o a (u32 (geti o a + 1)) in
          let d := aset d (geti o b) c in
          let o := aset o b (u32 (geti o b + 1)) in
          let d := aset d (geti o c) a in
          let o := aset o c (u32 (geti o c + 1)) in
          (o, d))
       (offsets1, repeat 0 (Z.to_nat index_count))).
Proof.
  intros Hlen Hoff. pose proof valid_count_nonneg as Hic.
  assert (Hmod : index_count = 3 * (index_count / 3)).
  { destruct Hvalid as (_ & Hm & _). pose proof (Z.div_mod index_count 3). lia. }
  assert (Hf : 0 <= index_count / 3) by (apply Z.div_pos; lia).
  rewrite Hmod at 1.
  apply (for_loop_inv (fun i st => fill_inv (3 * i) st)).
  - exact Hf.
  - unfold fill_inv. cbn [fst snd]. split; [exact Hlen|].
    split; [apply len_repeat; lia|]. split; [|intros; lia].
    intros v Hv. rewrite Hoff by assumption. cbn [Z.to_nat Z.mul count_eq]. lia.
  - intros i [o d] Hi Hinv.
    replace (3 * (i + 1)) with (3 * i + 2 + 1) by lia.
    assert (Hbody : scatter (3 * i + 2) (scatter (3 * i + 1) (scatter (3 * i) (o, d)))
                    = (let a := geti indices (i * 3 + 0) in
                       let b := geti indices (i * 3 + 1) in
                       let c := geti indices (i * 3 + 2) in
                       let d := aset d (geti o a) b in
                       let o := aset o a (u32 (geti o a + 1)) in
                       let d := aset d (geti o b) c in
                       let o := aset o b (u32 (geti o b + 1)) in
                       let d := aset d (geti o c) a in
                       let o := aset o c (u32 (geti o c + 1)) in
                       (o, d))).
    { unfold scatter, k. cbv zeta.
      rewrite corner_next_0, corner_next_1, corner_next_2 by lia.
      replace (i * 3 + 0) with (3 * i) by lia.
      replace (i * 3 + 1) with (3 * i + 1) by lia.
      replace (i * 3 + 2) with (3 * i + 2) by lia. reflexivity. }
    rewrite <- Hbody.
    assert (H1 : fill_inv (3 * i + 1) (scatter (3 * i) (o, d)))
      by (apply scatter_step; [lia|exact Hinv]).
    assert (H2 : fill_inv (3 * i + 1 + 1) (scatter (3 * i + 1) (scatter (3 * i) (o, d))))
      by (apply scatter_step; [lia|exact H1]).
    replace (3 * i + 1 + 1) with (3 * i + 2) in H2 by lia.
    apply scatter_step; [lia|exact H2].
Qed.

Lemma buildEdgeAdjacency_spec :
  adjacency_ok indices index_count vertex_count
    (buildEdgeAdjacency indices index_count vertex_count).
Proof.
  pose proof valid_count_nonneg as Hic.
  pose proof Hvalid as (_ & _ & _ & Hvc & _).
  unfold buildEdgeAdjacency.
  destruct buildEdgeAdjacency_counts as [Hlc Hc].
  set (counts1 := for_loop index_count _ (repeat 0 (Z.to_nat vertex_count))) in *.
  pose proof (buildEdgeAdjacency_offsets counts1 Hc) as Hoffs. cbv zeta in Hoffs.
  destruct (for_loop vertex_count _ (repeat 0 (Z.to_nat vertex_count), 0))
    as [offsets1 total]. cbn [fst snd] in Hoffs. destruct Hoffs as (Hlo & Ho & _).
  pose proof (buildEdgeAdjacency_fill offsets1 Hlo Ho) as Hfill.
  destruct (for_loop (index_count / 3) _ (offsets1, repeat 0 (Z.to_nat index_count)))
    as [offsets2 data1].
  destruct Hfill as (Hl2 & Hld & Ho2 & Hd). cbn [fst snd] in *.
  assert (Hfix : let o := for_loop vertex_count
                   (fun i o => aset o i (u32 (geti o i - geti counts1 i))) offsets2 in
                 len o = vertex_count
                 /\ forall v, 0 <= v < vertex_count -> geti o v = count_lt k v n).
  { assert (H : let o := for_loop vertex_count
                   (fun i o => aset o i (u32 (geti o i - geti counts1 i))) offsets2 in
                 len o = vertex_count
                 /\ (forall v, 0 <= v < vertex_count -> geti o v = count_lt k v n)
                 /\ (forall v, vertex_count <= v < vertex_count ->
                       geti o v = count_lt k v n + count_eq k v n)).
    { apply (for_loop_inv
               (fun i o => len o = vertex_count
                  /\ (forall v, 0 <= v < i -> geti o v = count_lt k v n)
                  /\ (forall v, i <= v < vertex_count ->
                        geti o v = count_lt k v n + count_eq k v n))).
      - lia.
      - split; [exact Hl2|]. split; [intros; lia|].
        intros v Hv. rewrite Ho2 by lia. reflexivity.
      - intros i o Hi (Hl & Hdone & Htodo).
        split; [now rewrite len_aset|]. split.
        + intros v Hv. rewrite geti_aset_in by lia.
          destruct (Z.eqb_spec v i) as [->|Hne]; [|apply Hdone; lia].
          rewrite Htodo, Hc by lia.
          pose proof (count_lt_bounds k i n).
          replace (count_lt k i n + count_eq k i n - count_eq k i n)
            with (count_lt k i n) by lia.
          apply u32_small. unfold n in *. lia.
        + intros v Hv. rewrite geti_aset_in by lia.
          destruct (Z.eqb_spec v i) as [->|Hne]; [lia|]. apply Htodo. lia. }
    cbv zeta in H. destruct H as (H1 & H2 & _). cbv zeta. auto. }
  cbv zeta in Hfix. destruct Hfix as [Hlf Hof].
  unfold adjacency_ok. cbn [counts offsets data].
  split; [exact Hlc|]. split; [exact Hlf|]. split; [exact Hld|].
  split; [exact Hc|]. split; [exact Hof|].
  intros p Hp. rewrite Hof by (now apply valid_index).
  apply (Hd p Hp).
Qed.
End EdgeAdjacencyFacts.

(** X7: for a valid index buffer [buildEdgeAdjacency] leaves in
    [counts[v]] the number of corners at [v], in [offsets[v]] the number of
    corners at vertices below [v] (after the last loop has undone the
    increments of the fill loop), and in [data], from [offsets[v]] on, the
    targets of the half-edges that leave [v] in the order of the index
    buffer; the total asserted after the offset loop is [index_count]. *)
Theorem buildEdgeAdjacency_counting_sort indices index_count vertex_count :
  valid_input indices index_count vertex_count ->
  adjacency_ok indices index_count vertex_count
    (buildEdgeAdjacency indices index_count vertex_count)
  /\ snd (for_loop vertex_count
            (fun i '(o, offset) =>
               (aset o i offset,
                u32 (offset
                     + geti (counts (buildEdgeAdjacency indices index_count vertex_count)) i)))
            (repeat 0 (Z.to_nat vertex_count), 0))
     = index_count.
Proof.
  intros Hvalid.
  pose proof (buildEdgeAdjacency_spec indices index_count vertex_count Hvalid) as Hok.
  split; [exact Hok|].
  destruct Hok as (_ & _ & _ & Hc & _).
  apply (buildEdgeAdjacency_offsets indices index_count vertex_count Hvalid _ Hc).
Qed.

Lemma buildEdgeAdjacency_counting_sort_witness :
  adjacency_ok quad_indices 6 4 (buildEdgeAdjacency quad_indices 6 4)
  /\ snd (for_loop 4
            (fun i '(o, offset) =>
               (aset o i offset,
                u32 (offset + geti (counts (buildEdgeAdjacency quad_indices 6 4)) i)))
            (repeat 0 (Z.to_nat 4), 0))
     = 6.
Proof. apply (buildEdgeAdjacency_counting_sort quad_indices 6 4). exact quad_valid. Defined.

(** ** [hasEdge], [countOpenEdges] and [findWedgeEdge] *)

Lemma or_loop_spec (f : Z -> bool) cnt :
  for_loop cnt (fun i found => found || f i) false = true
  <-> exists i, 0 <= i < cnt /\ f i = true.
Proof.
  destruct (Z.le_gt_cases 0 cnt) as [Hc|Hc].
  - apply (for_loop_inv
             (fun j found => found = true <-> exists i, 0 <= i < j /\ f i = true)).
    + exact Hc.
    + split; [discriminate|]. intros (i & Hi & _). lia.
    + intros j found Hj IH. rewrite orb_true_iff, IH. split.
      * intros [(i & Hi & Hf)|Hf]; [exists i; split; [lia|exact Hf]|exists j; split; [lia|exact Hf]].
      * intros (i & Hi & Hf). destruct (Z.eq_dec i j) as [->|Hne]; [now right|].
        left. exists i. split; [lia|exact Hf].
  - unfold for_loop. replace (Z.to_nat cnt) with 0%nat by lia. cbn [for_from].
    split; [discriminate|]. intros (i & Hi & _). lia.
Qed.

Section AdjacencyQueries.
Variable indices : list Z.
Variables index_count vertex_count : Z.
Variable adjacency : EdgeAdjacency.
Hypothesis Hvalid : valid_input indices index_count vertex_count.
Hypothesis Hadj : adjacency_ok indices index_count vertex_count adjacency.

Lemma corner_next_valid p :
  0 <= p < index_count -> 0 <= corner_next indices p < vertex_count.
Proof.
  intros Hp. unfold corner_next.
  apply (valid_index indices index_count vertex_count Hvalid).
  destruct Hvalid as (_ & Hmod & _).
  pose proof (Z.div_mod p 3 ltac:(lia)). pose proof (Z.mod_pos_bound p 3 ltac:(lia)).
  pose proof (Z.div_mod index_count 3 ltac:(lia)).
  assert (p / 3 < index_count / 3) by (apply Z.div_lt_upper_bound; lia).
  unfold next3. destruct (p mod 3 =? 0), (p mod 3 =? 1); lia.
Qed.

Lemma hasEdge_slots a b :
  hasEdge adjacency a b = true
  <-> exists i, 0 <= i < geti (counts adjacency) a
                /\ geti (data adjacency) (geti (offsets adjacency) a + i) = b.
Proof.
  unfold hasEdge. rewrite or_loop_spec.
  split; intros (i & Hi & H); exists i; (split; [exact Hi|]).
  - now apply Z.eqb_eq.
  - now apply Z.eqb_eq.
Qed.

(** [hasEdge a b] holds exactly when [a -> b] is a half-edge of the
    buffer. *)
Lemma hasEdge_spec a b :
  0 <= a < vertex_count ->
  hasEdge adjacency a b = true <-> half_edge indices index_count a b.
Proof.
  intros Ha. destruct Hadj as (_ & _ & _ & Hc & Ho & Hd).
  pose proof (valid_count_nonneg indices index_count vertex_count Hvalid) as Hic.
  rewrite hasEdge_slots, Hc, Ho by assumption. split.
  - intros (i & Hi & Hb).
    destruct (sorted_position_onto (geti indices) index_count a
                (count_lt (geti indices) a (Z.to_nat index_count) + i)) as (p & Hp & Hkp & Hpos);
      [lia|lia|].
    exists p. split; [exact Hp|]. split; [exact Hkp|].
    rewrite <- (Hd p Hp). rewrite Hkp, Ho by assumption.
    unfold sorted_position in Hpos. rewrite Hkp in Hpos.
    rewrite <- Hb. f_equal. lia.
  - intros (p & Hp & Hkp & Hb).
    exists (count_eq (geti indices) a (Z.to_nat p)). split.
    + pose proof (count_eq_bounds (geti indices) a (Z.to_nat p)).
      pose proof (count_eq_hit (geti indices) (Z.to_nat p) (Z.to_nat index_count) ltac:(lia)) as Hhit.
      rewrite Z2Nat.id in Hhit by lia. rewrite Hkp in Hhit.
      lia.
    + rewrite <- Hb, <- (Hd p Hp). rewrite Hkp, Ho by assumption. reflexivity.
Qed.

Lemma data_slot_valid a i :
  0 <= a < vertex_count -> 0 <= i < geti (counts adjacency) a ->
  half_edge indices index_count a
    (geti (data adjacency) (geti (offsets adjacency) a + i))
  /\ 0 <= geti (data adjacency) (geti (offsets adjacency) a + i) < vertex_count.
Proof.
  intros Ha Hi.
  assert (Hh : half_edge indices index_count a
                 (geti (data adjacency) (geti (offsets adjacency) a + i))).
  { apply hasEdge_spec; [exact Ha|]. apply hasEdge_slots. exists i. auto. }
  split; [exact Hh|].
  destruct Hh as (p & Hp & _ & <-). now apply corner_next_valid.
Qed.

(** [countOpenEdges]: the count is zero exactly when every half-edge that
    leaves the vertex has its opposite; otherwise [*last] is the target
    of a half-edge without opposite; with a count of zero [*last] is
    untouched. *)
Lemma countOpenEdges_spec vertex last :
  0 <= vertex < vertex_count ->
  let '(result, last') := countOpenEdges adjacency vertex last in
  0 <= result <= geti (counts adjacency) vertex
  /\ (result = 0 <->
      forall w, half_edge indices index_count vertex w ->
                half_edge indices index_count w vertex)
  /\ (result = 0 -> last' = last)
  /\ (0 < result ->
      half_edge indices index_count vertex last'
      /\ ~ half_edge indices index_count last' vertex).
Proof.
  intros Hv. unfold countOpenEdges.
  set (cnt := geti (counts adjacency) vertex).
  set (base := geti (offsets adjacency) vertex).
  assert (Hcnt : 0 <= cnt).
  { unfold cnt. destruct Hadj as (_ & _ & _ & Hc & _). rewrite Hc by assumption.
    apply count_eq_bounds. }
  assert (Hloop :
    let st := for_loop cnt
                (fun i '(result, last) =>
                   if negb (hasEdge adjacency (geti (data adjacency) (base + i)) vertex)
                   then (result + 1, geti (data adjacency) (base + i))
                   else (result, last))
                (0, last) in
    0 <= fst st <= cnt
    /\ (fst st = 0 <->
        forall i, 0 <= i < cnt ->
          hasEdge adjacency (geti (data adjacency) (base + i)) vertex = true)
    /\ (fst st = 0 -> snd st = last)
    /\ (0 < fst st ->
        exists i, 0 <= i < cnt /\ snd st = geti (data adjacency) (base + i)
          /\ hasEdge adjacency (snd st) vertex = false)).
  { apply (for_loop_inv
             (fun j (st : Z * Z) =>
                0 <= fst st <= j
                /\ (fst st = 0 <->
                    forall i, 0 <= i < j ->
                      hasEdge adjacency (geti (data adjacency) (base + i)) vertex = true)
                /\ (fst st = 0 -> snd st = last)
                /\ (0 < fst st ->
                    exists i, 0 <= i < j /\ snd st = geti (data adjacency) (base + i)
                      /\ hasEdge adjacency (snd st) vertex = false))).
    - exact Hcnt.
    - cbn [fst snd]. split; [lia|]. split; [split; [intros; lia|auto]|].
      split; [auto|lia].
    - intros j [result l] Hj (Hr & Hzero & Hlast & Hopen). cbn [fst snd] in *.
      destruct (hasEdge adjacency (geti (data adjacency) (base + j)) vertex) eqn:E;
        cbn [negb fst snd].
      + split; [lia|]. split; [|split].
        * rewrite Hzero. split.
          -- intros H i Hi. destruct (Z.eq_dec i j) as [->|Hne]; [exact E|apply H; lia].
          -- intros H i Hi. apply H. lia.
        * exact Hlast.
        * intros Hpos. destruct (Hopen Hpos) as (i & Hi & H1 & H2).
          exists i. split; [lia|auto].
      + split; [lia|]. split; [|split].
        * split; [lia|]. intros H. specialize (H j ltac:(lia)). congruence.
        * lia.
        * intros _. exists j. split; [lia|]. auto. }
  cbv zeta in Hloop.
  destruct (for_loop cnt _ (0, last)) as [result last']. cbn [fst snd] in Hloop.
  destruct Hloop as (Hr & Hzero & Hlast & Hopen).
  split; [exact Hr|]. split; [|split; [exact Hlast|]].
  - rewrite Hzero. split.
    + intros H w Hw. apply hasEdge_spec in Hw; [|exact Hv].
      apply hasEdge_slots in Hw. destruct Hw as (i & Hi & <-).
      destruct (data_slot_valid vertex i Hv Hi) as [_ Hrange].
      apply hasEdge_spec; [exact Hrange|]. now apply H.
    + intros H i Hi.
      destruct (data_slot_valid vertex i Hv Hi) as [Hh Hrange].
      apply hasEdge_spec; [exact Hrange|]. now apply H.
  - intros Hpos. destruct (Hopen Hpos) as (i & Hi & H1 & H2).
    destruct (data_slot_valid vertex i Hv Hi) as [Hh Hrange].
    fold base in Hh, Hrange. rewrite <- H1 in Hh, Hrange.
    split; [exact Hh|]. intros Hback.
    apply hasEdge_spec in Hback; [congruence|exact Hrange].
Qed.
End AdjacencyQueries.

(** X8: on the adjacency of a valid index buffer [hasEdge a b] is true
    exactly when some triangle has the corners [a], [b] in succession. *)
Theorem hasEdge_half_edge indices index_count vertex_count a b :
  valid_input indices index_count vertex_count ->
  0 <= a < vertex_count ->
  hasEdge (buildEdgeAdjacency indices index_count vertex_count) a b = true
  <-> half_edge indices index_count a b.
Proof.
  intros Hvalid Ha.
  apply (hasEdge_spec indices index_count vertex_count _ Hvalid
           (buildEdgeAdjacency_spec indices index_count vertex_count Hvalid) a b Ha).
Qed.

Lemma hasEdge_half_edge_witness :
  hasEdge (buildEdgeAdjacency quad_indices 6 4) 2 3 = true
  <-> half_edge quad_indices 6 2 3.
Proof.
  apply (hasEdge_half_edge quad_indices 6 4 2 3); [exact quad_valid|lia].
Defined.

(** X9: on the adjacency of a valid index buffer [countOpenEdges] returns
    zero exactly when every half-edge that leaves the vertex has its
    opposite half-edge in the buffer; when it returns more, [*last] is the
    target of a half-edge of the vertex that has no opposite, and when it
    returns zero [*last] is left as it was. *)
Theorem countOpenEdges_open_edges indices index_count vertex_count vertex last :
  valid_input indices index_count vertex_count ->
  0 <= vertex < vertex_count ->
  let '(result, last') :=
    countOpenEdges (buildEdgeAdjacency indices index_count vertex_count) vertex last in
  0 <= result
  /\ (result = 0 <->
      forall w, half_edge indices index_count vertex w ->
                half_edge indices index_count w vertex)
  /\ (result = 0 -> last' = last)
  /\ (0 < result ->
      half_edge indices index_count vertex last'
      /\ ~ half_edge indices index_count last' vertex).
Proof.
  intros Hvalid Hv.
  pose proof (countOpenEdges_spec indices index_count vertex_count _ Hvalid
                (buildEdgeAdjacency_spec indices index_count vertex_count Hvalid)
                vertex last Hv) as H.
  destruct (countOpenEdges _ vertex last) as [result last'].
  destruct H as (H1 & H2 & H3 & H4). split; [lia|auto].
Qed.

Lemma countOpenEdges_open_edges_witness :
  let '(result, last') := countOpenEdges (buildEdgeAdjacency quad_indices 6 4) 1 0 in
  0 <= result
  /\ (result = 0 <->
      forall w, half_edge quad_indices 6 1 w -> half_edge quad_indices 6 w 1)
  /\ (result = 0 -> last' = 0)
  /\ (0 < result ->
      half_edge quad_indices 6 1 last' /\ ~ half_edge quad_indices 6 last' 1).
Proof.
  apply (countOpenEdges_open_edges quad_indices 6 4 1 0); [exact quad_valid|lia].
Defined.

Lemma findWedgeEdge_walk_spec fuel adjacency wedge a b j r :
  findWedgeEdge_walk fuel adjacency wedge a b (wedge_iter wedge j a) = Some r ->
  (forall k', (k' < j)%nat -> hasEdge adjacency (wedge_iter wedge k' a) b = false) ->
  (exists k, r = wedge_iter wedge k a /\ hasEdge adjacency r b = true
             /\ forall k', (k' < k)%nat ->
                  hasEdge adjacency (wedge_iter wedge k' a) b = false)
  \/ (r = NONE32
      /\ exists m, (1 <= m)%nat /\ wedge_iter wedge m a = a
           /\ forall k', (k' < m)%nat ->
                hasEdge adjacency (wedge_iter wedge k' a) b = false).
Proof.
  revert j. induction fuel as [|fuel IH]; intros j Hrun Hbefore; [discriminate|].
  cbn [findWedgeEdge_walk] in Hrun.
  destruct (hasEdge adjacency (wedge_iter wedge j a) b) eqn:E.
  - injection Hrun as <-. left. exists j. auto.
  - assert (Hnext : forall k', (k' < S j)%nat ->
                      hasEdge adjacency (wedge_iter wedge k' a) b = false).
    { intros k' Hk'. destruct (Nat.eq_dec k' j) as [->|Hne]; [exact E|].
      apply Hbefore. lia. }
    change (geti wedge (wedge_iter wedge j a)) with (wedge_iter wedge (S j) a) in Hrun.
    destruct (Z.eqb_spec (wedge_iter wedge (S j) a) a) as [Hback|Hon]; cbn [negb] in Hrun.
    + injection Hrun as <-. right. split; [reflexivity|].
      exists (S j). split; [lia|]. auto.
    + now apply (IH (S j)).
Qed.

(** X10: on the wedge table of [buildPositionRemap] the walk of
    [findWedgeEdge] ends within [vertex_count] steps.  It returns the first
    vertex of the ring of [a] that [hasEdge] connects to [b], or [~0u]
    after it has come back to [a] without finding one. *)
Theorem findWedgeEdge_first_on_ring vertex_positions_data vertex_count
  vertex_positions_stride remap wedge adjacency a b :
  0 <= vertex_count < 2 ^ 32 ->
  buildPositionRemap vertex_positions_data vertex_count vertex_positions_stride
  = Some (remap, wedge) ->
  0 <= a < vertex_count ->
  exists r,
    findWedgeEdge (Z.to_nat vertex_count) adjacency wedge a b = Some r
    /\ ((exists k, r = wedge_iter wedge k a /\ hasEdge adjacency r b = true
                   /\ forall k', (k' < k)%nat ->
                        hasEdge adjacency (wedge_iter wedge k' a) b = false)
        \/ (r = NONE32
            /\ exists m, (1 <= m)%nat /\ wedge_iter wedge m a = a
                 /\ forall k', (k' < m)%nat ->
                      hasEdge adjacency (wedge_iter wedge k' a) b = false)).
Proof.
  intros Hvc Hrun Ha.
  destruct (buildPositionRemap_ok vertex_positions_data vertex_count
              vertex_positions_stride Hvc) as (remap' & wedge' & Hrun' & Hok).
  rewrite Hrun in Hrun'. injection Hrun' as <- <-.
  destruct (findWedgeEdge_total vertex_count wedge (rk_wedge_range _ _ _ Hok)
              (rk_wedge_inj _ _ _ Hok) adjacency a b Ha) as (r & Hr).
  exists r. split; [exact Hr|].
  apply (findWedgeEdge_walk_spec (Z.to_nat vertex_count) adjacency wedge a b 0 r).
  - exact Hr.
  - intros k' Hk'. lia.
Qed.

Lemma findWedgeEdge_first_on_ring_witness :
  exists r,
    findWedgeEdge (Z.to_nat 3) (buildEdgeAdjacency origin_indices 3 3) [2; 0; 1] 0 1 = Some r
    /\ ((exists k, r = wedge_iter [2; 0; 1] k 0
                   /\ hasEdge (buildEdgeAdjacency origin_indices 3 3) r 1 = true
                   /\ forall k', (k' < k)%nat ->
                        hasEdge (buildEdgeAdjacency origin_indices 3 3)
                          (wedge_iter [2; 0; 1] k' 0) 1 = false)
        \/ (r = NONE32
            /\ exists m, (1 <= m)%nat /\ wedge_iter [2; 0; 1] m 0 = 0
                 /\ forall k', (k' < m)%nat ->
                      hasEdge (buildEdgeAdjacency origin_indices 3 3)
                        (wedge_iter [2; 0; 1] k' 0) 1 = false)).
Proof.
  apply (findWedgeEdge_first_on_ring origin_positions 3 12 [0; 0; 0] [2; 0; 1]
           (buildEdgeAdjacency origin_indices 3 3) 0 1).
  - lia.
  - vm_compute. reflexivity.
  - lia.
Defined.

(** ** [classifyVertices] *)

Section ClassifyKinds.
Variable vertex_count : Z.
Variables remap wedge : list Z.
Variable adjacency : EdgeAdjacency.
Hypothesis Hvc : 0 <= vertex_count < 2 ^ 32.
Hypothesis Hok : remap_ok vertex_count remap wedge.
Hypothesis Hdata : Forall (in_range vertex_count) (data adjacency).
Hypothesis Hcount : forall v, 0 <= fst (countOpenEdges adjacency v 0).

(** Iteration [i] writes [result[i]] and at most [loop[i]] and
    [loop[wedge[i]]]: what was decided before stays. *)
Lemma classified_frame i result loop k loop' x :
  0 <= i < vertex_count -> len result = vertex_count ->
  0 <= x < i ->
  (forall y, geti remap i <> i \/ (y <> i /\ y <> geti wedge i) ->
             geti loop' y = geti loop y) ->
  classified adjacency remap wedge result loop x ->
  classified adjacency remap wedge (aset result i k) loop' x.
Proof.
  intros Hi Hlen Hx Hloop [Hnon Hcan].
  assert (Hkx : kind_at (aset result i k) x = kind_at result x).
  { rewrite kind_at_aset by lia. destruct (Z.eqb_spec x i); [lia|reflexivity]. }
  pose proof (rk_remap_le _ _ _ Hok x ltac:(lia)) as Hrx.
  split.
  - intros Hne. rewrite Hkx, kind_at_aset by lia.
    destruct (Z.eqb_spec (geti remap x) i); [lia|]. now apply Hnon.
  - intros Hfix. specialize (Hcan Hfix). rewrite Hkx.
    assert (Hlx : geti loop' x = geti loop x).
    { apply Hloop.
      destruct (Z.eq_dec (geti remap i) i) as [Hci|Hci]; [right|now left].
      pose proof (rk_wedge_remap _ _ _ Hok i Hi) as Hwr.
      pose proof (rk_wedge_range _ _ _ Hok i Hi) as Hwi.
      pose proof (rk_remap_le _ _ _ Hok (geti wedge i) Hwi). lia. }
    destruct (kind_at result x); try rewrite Hlx; auto.
    destruct Hcan as (H1 & H2 & H3 & H4 & H5 & H6).
    repeat (split; [assumption|]).
    rewrite <- H6. apply Hloop.
    destruct (Z.eq_dec (geti remap i) i) as [Hci|Hci]; [right|now left].
    split.
    + intros E. pose proof (rk_wedge_remap _ _ _ Hok x ltac:(lia)) as Hwr.
      rewrite E in Hwr. lia.
    + intros E. apply (rk_wedge_inj _ _ _ Hok) in E; lia.
Qed.

Lemma classify_kinds_step i st :
  0 <= i < vertex_count ->
  classify_kinds_inv vertex_count adjacency remap wedge i st ->
  exists st',
    classifyVertices_step (Z.to_nat vertex_count) adjacency remap wedge i st = Some st'
    /\ classify_kinds_inv vertex_count adjacency remap wedge (i + 1) st'.
Proof.
  intros Hi [Hinv Hcls].
  destruct (classifyVertices_step_ok vertex_count remap wedge adjacency Hok Hdata
              i st Hi Hinv) as (st' & Hrun & Hinv').
  exists st'. split; [exact Hrun|]. split; [exact Hinv'|].
  destruct st as [result loop]. destruct Hinv as (Hlr & Hll & _). cbn [fst snd] in *.
  assert (Hnew : forall k loop',
            (forall y, geti remap i <> i \/ (y <> i /\ y <> geti wedge i) ->
                       geti loop' y = geti loop y) ->
            classified adjacency remap wedge (aset result i k) loop' i ->
            forall x, 0 <= x < i + 1 ->
              classified adjacency remap wedge (aset result i k) loop' x).
  { intros k loop' Hl Hci x Hx. destruct (Z.eq_dec x i) as [->|Hne]; [exact Hci|].
    apply classified_frame with (loop := loop); auto; try lia. apply Hcls. lia. }
  assert (Hki : forall k, kind_at (aset result i k) i = k).
  { intros k. rewrite kind_at_aset by lia. now rewrite Z.eqb_refl. }
  unfold classifyVertices_step in Hrun. rewrite u32_small in Hrun by lia.
  destruct (Z.eqb_spec (geti remap i) i) as [Hcanon|Hnon].
  - destruct (Z.eqb_spec (geti wedge i) i) as [Hwi|Hwi].
    + pose proof (Hcount i) as Hnn.
      destruct (countOpenEdges adjacency i 0) as [edges v] eqn:Ecount.
      cbn [fst] in Hnn.
      destruct (Z.eqb_spec edges 0) as [He0|He0];
        [|destruct (Z.eqb_spec edges 1) as [He1|He1]];
        injection Hrun as <-; cbn [fst snd]; apply Hnew; auto.
      * split; [congruence|]. intros _. rewrite Hki, Ecount. auto.
      * intros y [Hy|Hy]; [congruence|]. apply geti_aset_neq. lia.
      * split; [congruence|]. intros _. rewrite Hki, Ecount. cbn [fst snd].
        split; [assumption|]. split; [assumption|]. apply geti_aset_eq. lia.
      * split; [congruence|]. intros _. rewrite Hki, Ecount. cbn [fst]. lia.
    + destruct (Z.eqb_spec (geti wedge (geti wedge i)) i) as [Hww|Hww].
      * destruct (countOpenEdges adjacency i 0) as [a_count a] eqn:Ea.
        destruct (countOpenEdges adjacency (geti wedge i) 0) as [b_count b] eqn:Eb.
        destruct ((a_count =? 1) && (b_count =? 1)) eqn:E11.
        2:{ injection Hrun as <-. cbn [fst snd]. apply Hnew; auto.
            split; [congruence|]. intros _. rewrite Hki. congruence. }
        apply andb_true_iff in E11. destruct E11 as [Ha1 Hb1].
        apply Z.eqb_eq in Ha1, Hb1.
        destruct (findWedgeEdge (Z.to_nat vertex_count) adjacency wedge a (geti wedge i))
          as [ao|]; [|discriminate].
        destruct (findWedgeEdge (Z.to_nat vertex_count) adjacency wedge b i)
          as [bo|]; [|discriminate].
        cbn [bind] in Hrun.
        pose proof (rk_wedge_range _ _ _ Hok i Hi) as Hwr.
        destruct (negb (ao =? NONE32) && negb (bo =? NONE32));
          injection Hrun as <-; cbn [fst snd]; apply Hnew; auto.
        -- intros y [Hc|Hc]; [congruence|].
           rewrite geti_aset_neq by lia. apply geti_aset_neq. lia.
        -- split; [congruence|]. intros _. rewrite Hki, Ea, Eb. cbn [fst snd].
           split; [assumption|]. split; [assumption|]. split; [assumption|].
           split; [assumption|]. split.
           ++ rewrite geti_aset_neq by lia. apply geti_aset_eq. lia.
           ++ apply geti_aset_eq. rewrite len_aset. lia.
        -- split; [congruence|]. intros _. rewrite Hki. congruence.
      * injection Hrun as <-. cbn [fst snd]. apply Hnew; auto.
        split; [congruence|]. intros _. rewrite Hki. congruence.
  - injection Hrun as <-. cbn [fst snd]. apply Hnew; auto.
    split; [|congruence]. intros _. rewrite Hki.
    pose proof (rk_remap_le _ _ _ Hok i Hi).
    rewrite kind_at_aset by lia. destruct (Z.eqb_spec (geti remap i) i); [lia|reflexivity].
Qed.

Lemma classifyVertices_kinds :
  exists vertex_kind loop,
    classifyVertices (Z.to_nat vertex_count) vertex_count adjacency remap wedge
    = Some (vertex_kind, loop)
    /\ len vertex_kind = vertex_count /\ len loop = vertex_count
    /\ forall x, 0 <= x < vertex_count ->
         classified adjacency remap wedge vertex_kind loop x.
Proof.
  unfold classifyVertices.
  match goal with
  | |- context [for_loop_opt vertex_count ?body ?init] =>
      destruct (for_loop_opt_inv
                  (classify_kinds_inv vertex_count adjacency remap wedge)
                  body vertex_count init)
        as ([vertex_kind loop] & Hrun & Hinv)
  end.
  - lia.
  - split; [|intros; lia]. unfold classify_inv. rewrite len_repeat by lia.
    split; [reflexivity|]. split; [|intros; lia].
    apply (for_loop_inv (fun _ l => len l = vertex_count)); [lia| |].
    + apply len_repeat. lia.
    + intros i l _ Hl. now rewrite len_aset.
  - intros i st Hi. now apply classify_kinds_step.
  - exists vertex_kind, loop. split; [exact Hrun|].
    destruct Hinv as [(H1 & H2 & _) H3]. auto.
Qed.
End ClassifyKinds.

Lemma countOpenEdges_nonneg adjacency vertex last :
  0 <= fst (countOpenEdges adjacency vertex last).
Proof.
  unfold countOpenEdges, for_loop.
  apply (for_from_inv (fun _ (st : Z * Z) => 0 <= fst st)).
  - cbn [fst]. lia.
  - intros i [result l] _ H. cbn [fst] in *. destruct (negb _); cbn [fst]; lia.
Qed.

Lemma classified_meaning indices index_count vertex_count remap wedge vertex_kind loop x :
  valid_input indices index_count vertex_count ->
  remap_ok vertex_count remap wedge ->
  0 <= x < vertex_count ->
  classified (buildEdgeAdjacency indices index_count vertex_count) remap wedge
    vertex_kind loop x ->
  kind_meaning indices index_count remap wedge vertex_kind loop x.
Proof.
  intros Hvalid Hok Hx [Hnon Hcan].
  pose proof (buildEdgeAdjacency_spec indices index_count vertex_count Hvalid) as Hadj.
  set (adjacency := buildEdgeAdjacency indices index_count vertex_count) in *.
  pose proof (countOpenEdges_spec indices index_count vertex_count adjacency Hvalid Hadj
                x 0 Hx) as Hsx.
  pose proof (countOpenEdges_spec indices index_count vertex_count adjacency Hvalid Hadj
                (geti wedge x) 0 (rk_wedge_range _ _ _ Hok x Hx)) as Hsw.
  destruct (countOpenEdges adjacency x 0) as [cx lx].
  destruct (countOpenEdges adjacency (geti wedge x) 0) as [cw lw].
  destruct Hsx as (Hx1 & Hx2 & Hx3 & Hx4). destruct Hsw as (Hw1 & Hw2 & Hw3 & Hw4).
  cbn [fst snd] in *.
  split; [|split].
  - intros Hne. split; [|now apply Hnon].
    pose proof (rk_remap_le _ _ _ Hok x Hx). lia.
  - intros Hfix. specialize (Hcan Hfix). destruct (kind_at vertex_kind x); auto.
    + destruct Hcan as [Hw Hc]. split; [exact Hw|]. now apply Hx2.
    + destruct Hcan as (Hw & Hc & Hl). split; [exact Hw|].
      rewrite Hl. apply Hx4. lia.
    + destruct Hcan as (H1 & H2 & H3 & H4 & H5 & H6).
      split; [exact H1|]. split; [exact H2|]. split.
      * rewrite H5. apply Hx4. lia.
      * rewrite H6. apply Hw4. lia.
  - intros Hfix Hwx Hall. specialize (Hcan Hfix).
    apply Hx2 in Hall.
    destruct (kind_at vertex_kind x); auto; exfalso.
    + destruct Hcan as (_ & Hc & _). lia.
    + destruct Hcan as (Hne & _). contradiction.
    + specialize (Hcan Hwx). lia.
Qed.

(** X11: for a valid input [classifyVertices] returns, and its kinds mean:
    a vertex that is not the first of its position class has [remap[i] < i]
    (the assertion of the source) and the kind of [remap[i]]; the first
    vertex of a class is [Kind_Manifold] exactly when it is alone in its
    class and every half-edge leaving it has its opposite; [Kind_Border]
    only when it is alone and [loop[i]] is the target of a half-edge of [i]
    without opposite; [Kind_Seam] only when its class has two vertices and
    [loop] holds for both the target of a half-edge without opposite. *)
Theorem classifyVertices_kind_meaning indices index_count vertex_positions_data
  vertex_count vertex_positions_stride remap wedge :
  valid_input indices index_count vertex_count ->
  buildPositionRemap vertex_positions_data vertex_count vertex_positions_stride
  = Some (remap, wedge) ->
  exists vertex_kind loop,
    classifyVertices (Z.to_nat vertex_count) vertex_count
      (buildEdgeAdjacency indices index_count vertex_count) remap wedge
    = Some (vertex_kind, loop)
    /\ len vertex_kind = vertex_count /\ len loop = vertex_count
    /\ forall x, 0 <= x < vertex_count ->
         kind_meaning indices index_count remap wedge vertex_kind loop x.
Proof.
  intros Hvalid Hrun.
  pose proof Hvalid as (_ & _ & _ & Hvc & Hall).
  destruct (buildPositionRemap_ok vertex_positions_data vertex_count
              vertex_positions_stride Hvc) as (remap' & wedge' & Hrun' & Hok).
  rewrite Hrun in Hrun'. injection Hrun' as <- <-.
  destruct (Z.eq_dec vertex_count 0) as [->|Hpos].
  - eexists _, _. split; [reflexivity|]. split; [reflexivity|]. split; [reflexivity|].
    intros x Hx. lia.
  - destruct (classifyVertices_kinds vertex_count remap wedge
                (buildEdgeAdjacency indices index_count vertex_count) Hvc Hok)
      as (vertex_kind & loop & Hc & Hl1 & Hl2 & Hcls).
    + apply buildEdgeAdjacency_data_valid; [lia|exact Hall].
    + intros v. apply countOpenEdges_nonneg.
    + exists vertex_kind, loop. split; [exact Hc|]. split; [exact Hl1|].
      split; [exact Hl2|].
      intros x Hx. apply (classified_meaning indices index_count vertex_count); auto.
Qed.

Lemma classifyVertices_kind_meaning_witness :
  exists vertex_kind loop,
    classifyVertices (Z.to_nat 4) 4 (buildEdgeAdjacency quad_indices 6 4)
      [0; 1; 2; 3] [0; 1; 2; 3]
    = Some (vertex_kind, loop)
    /\ len vertex_kind = 4 /\ len loop = 4
    /\ forall x, 0 <= x < 4 ->
         kind_meaning quad_indices 6 [0; 1; 2; 3] [0; 1; 2; 3] vertex_kind loop x.
Proof.
  apply (classifyVertices_kind_meaning quad_indices 6 quad_positions 4 12
           [0; 1; 2; 3] [0; 1; 2; 3]).
  - exact quad_valid.
  - vm_compute. reflexivity.
Defined.

(** ** [pickEdgeCollapses] and [rankEdgeCollapses]: direction of the candidates *)

Lemma VertexKind_eqb_true a b : VertexKind_eqb a b = true <-> a = b.
Proof. destruct a, b; cbn; split; congruence. Qed.

Lemma pickEdgeCollapses_edge_spec remap vertex_kind loop i0 i1 c :
  pickEdgeCollapses_edge remap vertex_kind loop i0 i1 = Some c ->
  picked_from remap vertex_kind loop i0 i1 c.
Proof.
  unfold pickEdgeCollapses_edge, picked_from. cbv zeta.
  set (k0 := kind_at vertex_kind i0). set (k1 := kind_at vertex_kind i1).
  destruct (Z.eqb_spec (geti remap i0) (geti remap i1)) as [|Hr]; [discriminate|].
  destruct (kCanCollapse k0 k1 || kCanCollapse k1 k0) eqn:Eany; cbn [negb]; [|discriminate].
  destruct (kHasOpposite k0 k1 && (geti remap i1 >? geti remap i0)) eqn:Eopp; [discriminate|].
  destruct (VertexKind_eqb k0 k1
            && (VertexKind_eqb k0 Kind_Border || VertexKind_eqb k0 Kind_Seam)
            && negb (geti loop i0 =? i1)) eqn:Eloop; [discriminate|].
  intros Hc. split; [exact Hr|]. split; [|split].
  - intros Ho. rewrite Ho in Eopp. cbn [andb] in Eopp.
    apply Z.gtb_ltb in Eopp || idtac.
    destruct (Z.gtb_spec (geti remap i1) (geti remap i0)); [discriminate|lia].
  - intros Hk [Hb|Hs].
    + rewrite <- Hk in Eloop. rewrite Hb in Eloop. cbn in Eloop.
      destruct (Z.eqb_spec (geti loop i0) i1); [assumption|discriminate].
    + rewrite <- Hk in Eloop. rewrite Hs in Eloop. cbn in Eloop.
      destruct (Z.eqb_spec (geti loop i0) i1); [assumption|discriminate].
  - destruct (kCanCollapse k0 k1) eqn:E01, (kCanCollapse k1 k0) eqn:E10;
      cbn [andb orb] in *; try discriminate; injection Hc as <-; auto.
Qed.

Lemma picked_from_collapsible remap vertex_kind loop i0 i1 c :
  picked_from remap vertex_kind loop i0 i1 c -> collapsible vertex_kind c.
Proof.
  intros (_ & _ & _ & [(-> & H1 & H2)|[(-> & H1 & H2)|(-> & H1 & H2)]]);
    split; cbn [Collapse.v0 Collapse.v1 Collapse.u]; auto; discriminate.
Qed.

(** Every record of [pickEdgeCollapses] comes from a half-edge of the
    buffer. *)
Lemma pickEdgeCollapses_Forall (P : Collapse.t -> Prop) indices index_count remap
  vertex_kind loop :
  (forall t e c, 0 <= t < triangle_loops index_count -> 0 <= e < 3 ->
     pickEdgeCollapses_edge remap vertex_kind loop
       (geti indices (3 * t + e)) (geti indices (3 * t + next3 e)) = Some c -> P c) ->
  Forall P (pickEdgeCollapses indices index_count remap vertex_kind loop).
Proof.
  intros HP. unfold pickEdgeCollapses, for_loop.
  set (n := Z.to_nat (triangle_loops index_count)).
  assert (Hn : Z.of_nat n <= Z.max 0 (triangle_loops index_count)) by (unfold n; lia).
  replace (Forall P) with ((fun (_ : Z) => Forall P) (0 + Z.of_nat n)) by reflexivity.
  apply (for_from_inv (fun (_ : Z) cs => Forall P cs)).
  - constructor.
  - intros t cs Ht Hcs. cbv zeta.
    replace (Forall P) with ((fun (_ : Z) => Forall P) (0 + Z.of_nat 3)) by reflexivity.
    apply (for_from_inv (fun (_ : Z) cs' => Forall P cs')); [exact Hcs|].
    intros e cs' He Hcs'.
    destruct (pickEdgeCollapses_edge remap vertex_kind loop (geti indices (3 * t + e))
                (geti indices (3 * t + next3 e))) as [c|] eqn:Ec; [|exact Hcs'].
    apply Forall_app. split; [exact Hcs'|]. constructor; [|constructor].
    apply (HP t e c); [lia|cbn in He; lia|exact Ec].
Qed.

Lemma F32_abs_not_negative r : F32.ltb (F32.abs r) F32.zero = false.
Proof. destruct r as [[]|[]| |[] ? ?]; reflexivity. Qed.

Lemma rankEdgeCollapses_one_spec vertex_positions vertex_quadrics remap c :
  ranked_from vertex_positions vertex_quadrics remap c
    (rankEdgeCollapses_one vertex_positions vertex_quadrics remap c).
Proof.
  unfold rankEdgeCollapses_one, ranked_from. cbv zeta.
  destruct (Z.eqb_spec (Collapse.bidi c) 0) as [Hb|Hb]; cbn [negb];
    match goal with |- context [F32.leb ?a ?b] => destruct (F32.leb a b) end;
    cbn [Collapse.v0 Collapse.v1 Collapse.u Collapse.error];
    (split; [first [now left | right; auto]|]);
    (split; [reflexivity|]); unfold quadricError; cbv zeta; apply F32_abs_not_negative.
Qed.

Lemma ranked_from_collapsible vertex_positions vertex_quadrics remap vertex_kind c r :
  collapsible vertex_kind c ->
  (Collapse.bidi c <> 0 -> Collapse.u c = as_bidi 1) ->
  ranked_from vertex_positions vertex_quadrics remap c r ->
  kCanCollapse (kind_at vertex_kind (Collapse.v0 r)) (kind_at vertex_kind (Collapse.v1 r))
  = true.
Proof.
  intros [Hfwd Hbwd] Hb ([[-> ->]|(Hne & -> & ->)] & _); [exact Hfwd|].
  apply Hbwd. now apply Hb.
Qed.

(** X12: every record [pickEdgeCollapses] emits comes from a half-edge
    [i0 -> i1] of the buffer whose ends have different positions; the edge
    is taken from one side only when [kHasOpposite] promises the opposite
    half-edge; an edge between two border or two seam vertices follows
    [loop]; the record is tagged bidirectional exactly when [kCanCollapse]
    allows both directions and otherwise points in the one direction
    allowed.  There are at most [index_count] records, the size of the
    array allotted to them. *)
Theorem pickEdgeCollapses_candidates vertex_count indices index_count remap vertex_kind loop :
  buffer_ok vertex_count indices index_count ->
  Forall (fun c =>
            exists t e, 0 <= t /\ 3 * t + 2 < index_count /\ 0 <= e < 3
              /\ picked_from remap vertex_kind loop
                   (geti indices (3 * t + e)) (geti indices (3 * t + next3 e)) c)
    (pickEdgeCollapses indices index_count remap vertex_kind loop)
  /\ len (pickEdgeCollapses indices index_count remap vertex_kind loop) <= index_count.
Proof.
  intros Hbuf. split.
  - apply pickEdgeCollapses_Forall. intros t e c Ht He Hc.
    destruct Hbuf as (Hrc & Hmod & _).
    pose proof (triangle_in_buffer index_count t ltac:(lia) Hmod Ht) as Hin.
    exists t, e. split; [lia|]. split; [exact Hin|]. split; [exact He|].
    now apply pickEdgeCollapses_edge_spec.
  - apply (pickEdgeCollapses_ok vertex_count remap indices index_count vertex_kind loop Hbuf).
Qed.

Lemma pickEdgeCollapses_candidates_witness :
  Forall (fun c =>
            exists t e, 0 <= t /\ 3 * t + 2 < 6 /\ 0 <= e < 3
              /\ picked_from [0; 1; 2; 3] (repeat Kind_Manifold 4) (repeat NONE32 4)
                   (geti quad_indices (3 * t + e)) (geti quad_indices (3 * t + next3 e)) c)
    (pickEdgeCollapses quad_indices 6 [0; 1; 2; 3] (repeat Kind_Manifold 4)
       (repeat NONE32 4))
  /\ len (pickEdgeCollapses quad_indices 6 [0; 1; 2; 3] (repeat Kind_Manifold 4)
            (repeat NONE32 4)) <= 6.
Proof.
  apply (pickEdgeCollapses_candidates 4 quad_indices 6).
  apply valid_input_buffer. exact quad_valid.
Defined.

(** X13: [rankEdgeCollapses] keeps the number of records; each record
    keeps its edge, turned round only if it was tagged bidirectional, and
    its union then holds the error [quadricError] gives for the direction
    chosen, which is never negative. *)
Theorem rankEdgeCollapses_directions collapses vertex_positions vertex_quadrics remap :
  len (rankEdgeCollapses collapses (len collapses) vertex_positions vertex_quadrics remap)
  = len collapses
  /\ forall i, 0 <= i < len collapses ->
       ranked_from vertex_positions vertex_quadrics remap (collapse_at collapses i)
         (collapse_at
            (rankEdgeCollapses collapses (len collapses) vertex_positions
               vertex_quadrics remap) i).
Proof.
  destruct (rankEdgeCollapses_spec vertex_positions vertex_quadrics remap collapses)
    as [Hlen Hat].
  split; [exact Hlen|]. intros i Hi. rewrite Hat by assumption.
  apply rankEdgeCollapses_one_spec.
Qed.

(** ** [performEdgeCollapses]: which collapses are carried out *)

Lemma kCanCollapse_allowed vertex_kind c :
  kCanCollapse (kind_at vertex_kind (Collapse.v0 c)) (kind_at vertex_kind (Collapse.v1 c))
  = true ->
  collapse_allowed vertex_kind c.
Proof.
  unfold collapse_allowed. cbv zeta.
  destruct (kind_at vertex_kind (Collapse.v0 c)), (kind_at vertex_kind (Collapse.v1 c));
    cbn; intros H; repeat split; try congruence; try discriminate.
Qed.

(** The collapses carried out are records of the array, taken in the order
    of [collapse_order]. *)
Lemma performEdgeCollapses_applied_from collapse_remap collapse_locked vertex_quadrics
  collapses collapse_count collapse_order remap wedge vertex_kind triangle_collapse_goal
  error_limit :
  Forall (fun c => exists i, 0 <= i < collapse_count
                             /\ c = collapse_at collapses (geti collapse_order i))
    (CS.applied
       (performEdgeCollapses collapse_remap collapse_locked vertex_quadrics collapses
          collapse_count collapse_order remap wedge vertex_kind triangle_collapse_goal
          error_limit)).
Proof.
  unfold performEdgeCollapses.
  apply (for_break_inv
           (fun st => Forall (fun c => exists i, 0 <= i < collapse_count
                                /\ c = collapse_at collapses (geti collapse_order i))
                        (CS.applied st))).
  - constructor.
  - intros i st Hi Hst. unfold performEdgeCollapses_step.
    destruct (F32.gtb _ error_limit); [exact Hst|].
    destruct (CS.triangle_collapses st >=? triangle_collapse_goal); [exact Hst|].
    destruct (negb _); [exact Hst|]. cbn [fst CS.applied].
    apply Forall_app. split; [exact Hst|]. constructor; [|constructor].
    exists i. split; [exact Hi|reflexivity].
Qed.

Section PassAllowed.
Variable vertex_count target_index_count : Z.
Variable target_error : float.
Variable tables : SimplifyTables.
Variable indices : list Z.
Variable index_count : Z.

Hypothesis Hvc : 0 <= vertex_count < 2 ^ 32.
Hypothesis Hic : index_count < 2 ^ 32.
Hypothesis Hok : remap_ok vertex_count (remap tables) (wedge tables).
Hypothesis Hseam : forall x, 0 <= x < vertex_count ->
  kind_at (vertex_kind tables) x = Kind_Seam -> geti (wedge tables) x <> x.

Lemma simplify_pass_allowed st :
  simplify_inv vertex_count indices index_count target_error st ->
  passes_allowed (vertex_kind tables) st ->
  match simplify_pass_of tables vertex_count target_index_count target_error st with
  | inl st' | inr st' => passes_allowed (vertex_kind tables) st'
  end.
Proof.
  intros (Hbuf & Hle & Hord & _) Hlog.
  unfold simplify_pass_of, simplify_pass.
  set (picked := pickEdgeCollapses (SS.result st) (SS.result_count st) (remap tables)
                   (vertex_kind tables) (SS.loop st)).
  destruct (Z.eqb_spec (len picked) 0) as [Hnone|Hsome]; [exact Hlog|].
  destruct (pickEdgeCollapses_ok vertex_count (remap tables) (SS.result st)
              (SS.result_count st) (vertex_kind tables) (SS.loop st) Hbuf) as [_ Hcount].
  fold picked in Hcount.
  destruct (rankEdgeCollapses_spec (vertex_positions tables) (SS.vertex_quadrics st)
              (remap tables) picked) as [Hlr Hranked].
  set (ranked := rankEdgeCollapses picked (len picked) (vertex_positions tables)
                   (SS.vertex_quadrics st) (remap tables)) in *.
  assert (Hn : 0 <= len picked < 2 ^ 32) by (pose proof (len_nonneg picked); lia).
  assert (Hso : len picked <= len (SS.collapse_order st)) by lia.
  set (order := sortEdgeCollapses (SS.collapse_order st) ranked (len picked)).
  match goal with
  | |- context [performEdgeCollapses ?a ?b ?c ?d ?e ?f ?g ?h ?k ?l ?m] =>
      pose proof (performEdgeCollapses_applied_from a b c d e f g h k l m) as Happ;
      set (cs := performEdgeCollapses a b c d e f g h k l m) in *
  end.
  destruct (CS.edge_collapses cs =? 0); [exact Hlog|].
  destruct (remapIndexBuffer (SS.result st) (SS.result_count st) (CS.collapse_remap cs))
    as [result' new_count].
  unfold passes_allowed. cbn [SS.passes].
  apply Forall_app. split; [exact Hlog|]. constructor; [|constructor].
  cbn [pass_applied].
  eapply Forall_impl; [|exact Happ].
  intros c (i & Hi & ->).
  pose proof (sortEdgeCollapses_range ranked (len picked) (SS.collapse_order st) Hn Hso
                i Hi) as Hj.
  fold order in Hj. rewrite Hranked by assumption.
  apply kCanCollapse_allowed.
  assert (Hp : Forall (fun c => collapsible (vertex_kind tables) c
                                /\ (Collapse.bidi c <> 0 -> Collapse.u c = as_bidi 1))
                 picked).
  { apply pickEdgeCollapses_Forall. intros t e c _ _ Hc.
    apply pickEdgeCollapses_edge_spec in Hc.
    split; [eapply picked_from_collapsible; exact Hc|].
    destruct Hc as (_ & _ & _ & [(-> & _)|[(-> & _)|(-> & _)]]);
      cbn [Collapse.bidi Collapse.u]; intros H; congruence. }
  rewrite Forall_forall in Hp.
  destruct (Hp (collapse_at picked (geti order i))) as [Hc Hb].
  { apply collapse_at_In. exact Hj. }
  eapply ranked_from_collapsible; [exact Hc|exact Hb|].
  apply rankEdgeCollapses_one_spec.
Qed.

Lemma simplify_loop_allowed fuel st st' :
  simplify_inv vertex_count indices index_count target_error st ->
  passes_allowed (vertex_kind tables) st ->
  simplify_loop vertex_count target_index_count target_error (remap tables)
    (wedge tables) (vertex_kind tables) (vertex_positions tables) fuel st = Some st' ->
  passes_allowed (vertex_kind tables) st'.
Proof.
  revert st. induction fuel as [|fuel IH]; intros st Hinv Hlog Hrun;
    cbn [simplify_loop] in Hrun;
    destruct (SS.result_count st >? target_index_count); try discriminate;
    try (injection Hrun as <-; exact Hlog).
  pose proof (simplify_pass_of_spec vertex_count target_index_count target_error tables
                indices index_count Hvc Hic Hok Hseam st Hinv) as Hspec.
  pose proof (simplify_pass_allowed st Hinv Hlog) as Hallowed.
  unfold simplify_pass_of in Hspec, Hallowed.
  destruct (simplify_pass vertex_count target_index_count target_error (remap tables)
              (wedge tables) (vertex_kind tables) (vertex_positions tables) st)
    as [stb|stn].
  - injection Hrun as <-. exact Hallowed.
  - apply (IH stn); [tauto|exact Hallowed|exact Hrun].
Qed.
End PassAllowed.

(** X14: no collapse [meshopt_simplify] carries out moves a vertex that
    [classifyVertices] locked, and a border (seam) vertex is only ever
    moved onto a border (seam) vertex: every collapse in every pass is one
    [kCanCollapse] allows, for the kinds computed before the first pass. *)
Theorem meshopt_simplify_respects_kinds fuel indices index_count vertex_positions_data
  vertex_count vertex_positions_stride target_index_count target_error tables st0 st :
  valid_input indices index_count vertex_count ->
  simplify_prepare indices index_count vertex_positions_data vertex_count
    vertex_positions_stride = Some (tables, st0) ->
  meshopt_simplify fuel indices index_count vertex_positions_data vertex_count
    vertex_positions_stride target_index_count target_error = Some st ->
  passes_allowed (vertex_kind tables) st.
Proof.
  intros Hvalid Hprep Hrun.
  destruct (simplify_prepare_ok indices index_count vertex_positions_data vertex_count
              vertex_positions_stride target_error Hvalid)
    as (tables' & st0' & Hprep' & Hok & Hseam & _ & _ & Hpas & Hinv).
  rewrite Hprep in Hprep'. injection Hprep' as <- <-.
  pose proof Hvalid as (_ & _ & Hic & Hvc & _).
  unfold meshopt_simplify in Hrun. rewrite Hprep in Hrun. cbn [bind] in Hrun.
  apply (simplify_loop_allowed vertex_count target_index_count target_error tables indices
           index_count Hvc Hic Hok Hseam fuel st0 st Hinv); [|exact Hrun].
  unfold passes_allowed. rewrite Hpas. constructor.
Qed.

Lemma meshopt_simplify_respects_kinds_witness :
  exists tables st0 st,
    simplify_prepare quad_indices 6 quad_positions 4 12 = Some (tables, st0)
    /\ meshopt_simplify 5 quad_indices 6 quad_positions 4 12 0 infinity = Some st
    /\ passes_allowed (vertex_kind tables) st.
Proof.
  eexists. eexists. eexists.
  split; [vm_compute; reflexivity|]. split; [vm_compute; reflexivity|].
  eapply (meshopt_simplify_respects_kinds 5 quad_indices 6 quad_positions 4 12 0 infinity).
  - exact quad_valid.
  - vm_compute. reflexivity.
  - vm_compute. reflexivity.
Defined.

(** ** [performEdgeCollapses]: no vertex is moved twice *)

Section PerformOnce.
Variable vertex_count : Z.
Variables remap wedge : list Z.
Variable vertex_kind : list VertexKind.
Variable collapses : list Collapse.t.
Variable collapse_order : list Z.
Variables result : list Z.
Variable result_count : Z.
Variable triangle_collapse_goal : Z.
Variable error_limit : float.

Hypothesis Hok : remap_ok vertex_count remap wedge.
Hypothesis Hseam : forall x, 0 <= x < vertex_count ->
  kind_at vertex_kind x = Kind_Seam -> geti wedge x <> x.
Hypothesis Horder : forall p, 0 <= p < len collapses ->
  0 <= geti collapse_order p < len collapses.
Hypothesis Hcoll : forall i, 0 <= i < len collapses ->
  ranked_ok vertex_count remap result result_count (collapse_at collapses i).

Let inv := perform_inv vertex_count remap result result_count error_limit.
Let once := perform_once vertex_count remap triangle_collapse_goal.
Let step := performEdgeCollapses_step collapses collapse_order remap wedge vertex_kind
              triangle_collapse_goal error_limit.

(** The entries of [collapse_remap] a collapse [i0 -> i1] changes belong
    to the position of [i0], and their new values to the position of
    [i1]. *)
Lemma collapse_remap_update cr i0 i1 :
  len cr = vertex_count ->
  0 <= i0 < vertex_count -> 0 <= i1 < vertex_count ->
  (forall x, 0 <= x < vertex_count -> geti remap x = geti remap i0 -> geti cr x = x) ->
  let cr' := if VertexKind_eqb (kind_at vertex_kind i0) Kind_Seam
             then aset (aset cr i0 i1) (geti wedge i0) (geti wedge i1)
             else aset cr i0 i1 in
  (forall x, 0 <= x < vertex_count -> geti remap x <> geti remap i0 ->
     geti cr' x = geti cr x)
  /\ (forall x, 0 <= x < vertex_count -> geti remap x = geti remap i0 ->
        geti cr' x = x
        \/ (0 <= geti cr' x < vertex_count
            /\ geti remap (geti cr' x) = geti remap i1)).
Proof.
  intros Hlen H0 H1 Hfree cr'. unfold cr'.
  pose proof (rk_wedge_range _ _ _ Hok i0 H0) as Hw0.
  pose proof (rk_wedge_range _ _ _ Hok i1 H1) as Hw1.
  pose proof (rk_wedge_remap _ _ _ Hok i0 H0) as Hwr0.
  pose proof (rk_wedge_remap _ _ _ Hok i1 H1) as Hwr1.
  destruct (VertexKind_eqb (kind_at vertex_kind i0) Kind_Seam).
  - assert (Hget : forall x, geti (aset (aset cr i0 i1) (geti wedge i0) (geti wedge i1)) x
                             = if x =? geti wedge i0 then geti wedge i1
                               else if x =? i0 then i1 else geti cr x).
    { intros x. rewrite geti_aset_in by (rewrite len_aset; lia).
      destruct (x =? geti wedge i0); auto. apply geti_aset_in. lia. }
    split; intros x Hx Hr; rewrite Hget.
    + destruct (Z.eqb_spec x (geti wedge i0)) as [->|_]; [congruence|].
      destruct (Z.eqb_spec x i0) as [->|_]; [congruence|reflexivity].
    + destruct (Z.eqb_spec x (geti wedge i0)) as [->|_]; [right; split; [lia|exact Hwr1]|].
      destruct (Z.eqb_spec x i0) as [->|_]; [right; split; [lia|reflexivity]|].
      left. now apply Hfree.
  - split; intros x Hx Hr; rewrite geti_aset_in by lia.
    + destruct (Z.eqb_spec x i0) as [->|_]; [congruence|reflexivity].
    + destruct (Z.eqb_spec x i0) as [->|_]; [right; split; [lia|reflexivity]|].
      left. now apply Hfree.
Qed.

Lemma performEdgeCollapses_step_once i st :
  0 <= i < len collapses -> inv st -> once st -> once (fst (step i st)).
Proof.
  intros Hi Hinv Honce. unfold step, performEdgeCollapses_step.
  set (c := collapse_at collapses (geti collapse_order i)).
  destruct (F32.gtb (Collapse.error c) error_limit); [exact Honce|].
  destruct (Z.geb_spec (CS.triangle_collapses st) triangle_collapse_goal) as [|Hgoal];
    [exact Honce|].
  set (i0 := Collapse.v0 c). set (i1 := Collapse.v1 c).
  set (r0 := geti remap i0). set (r1 := geti remap i1).
  destruct (Z.eqb_spec (Z.lor (geti (CS.collapse_locked st) r0)
                          (geti (CS.collapse_locked st) r1)) 0) as [Hfree|Hbusy];
    cbn [negb]; [|exact Honce].
  apply Z.lor_eq_0_iff in Hfree. destruct Hfree as [Hf0 Hf1].
  destruct (Hcoll (geti collapse_order i) (Horder i Hi)) as [Hcand _].
  fold c in Hcand.
  destruct Hcand as (_ & H0 & H1 & Hr). fold i0 i1 in H0, H1, Hr. fold r0 r1 in Hr.
  destruct Hinv as (Hlcr & Hll & Hrng & Hfix & _ & _).
  destruct Honce as (Hidem & Htarget & Hnodup & Hlockd & Hcnt & Hgoalb).
  pose proof (rk_remap_le _ _ _ Hok i0 H0) as Hr0. fold r0 in Hr0.
  pose proof (rk_remap_le _ _ _ Hok i1 H1) as Hr1. fold r1 in Hr1.
  destruct (collapse_remap_update (CS.collapse_remap st) i0 i1 Hlcr H0 H1) as [Hsame Hmoved].
  { intros x Hx Hxr. apply Hfix; [exact Hx|]. rewrite Hxr. exact Hf0. }
  set (cr' := if VertexKind_eqb (kind_at vertex_kind i0) Kind_Seam
              then aset (aset (CS.collapse_remap st) i0 i1) (geti wedge i0) (geti wedge i1)
              else aset (CS.collapse_remap st) i0 i1) in *.
  fold r0 r1 in Hsame, Hmoved.
  set (locked' := aset (aset (CS.collapse_locked st) r0 1) r1 1).
  assert (Hlocked : forall x, geti locked' x
                      = if x =? r1 then 1 else if x =? r0 then 1
                        else geti (CS.collapse_locked st) x).
  { intros x. unfold locked'. rewrite geti_aset_in by (rewrite len_aset; lia).
    destruct (x =? r1); auto. apply geti_aset_in. lia. }
  assert (Hmono : forall x, geti (CS.collapse_locked st) x <> 0 -> geti locked' x <> 0).
  { intros x Hx. rewrite Hlocked. destruct (x =? r1); [lia|]. destruct (x =? r0); [lia|].
    exact Hx. }
  (* a vertex mapped into the position of [i0] would have been moved before *)
  assert (Hnot0 : forall x, 0 <= x < vertex_count -> geti remap x <> r0 ->
            geti remap (geti (CS.collapse_remap st) x) <> r0).
  { intros x Hx Hxr E.
    destruct (Z.eq_dec (geti (CS.collapse_remap st) x) x) as [Hsamex|Hmovedx].
    - rewrite Hsamex in E. contradiction.
    - apply (Htarget x Hx Hmovedx). rewrite E. exact Hf0. }
  cbn [fst]. unfold once, perform_once.
  cbn [CS.collapse_remap CS.collapse_locked CS.applied CS.edge_collapses
       CS.triangle_collapses].
  fold cr' locked'.
  split; [|split; [|split; [|split; [|split]]]].
  - intros x Hx. destruct (Z.eq_dec (geti remap x) r0) as [Hxr|Hxr].
    + destruct (Hmoved x Hx Hxr) as [Hstay|[Hin Hto]]; [now rewrite !Hstay|].
      rewrite (Hsame (geti cr' x)) by (auto; congruence).
      apply Hfix; [exact Hin|]. rewrite Hto. exact Hf1.
    + rewrite (Hsame x Hx Hxr).
      rewrite Hsame; [now apply Hidem|now apply Hrng|now apply Hnot0].
  - intros x Hx Hne. destruct (Z.eq_dec (geti remap x) r0) as [Hxr|Hxr].
    + destruct (Hmoved x Hx Hxr) as [Hstay|[Hin Hto]]; [contradiction|].
      rewrite Hto, Hlocked, Z.eqb_refl. lia.
    + rewrite (Hsame x Hx Hxr) in *. apply Hmono. now apply Htarget.
  - unfold applied_classes. rewrite flat_map_app. cbn [flat_map app].
    fold (applied_classes remap (CS.applied st)). fold i0 i1 r0 r1.
    apply NoDup_app_iff || idtac.
    assert (Hn0 : ~ In r0 (applied_classes remap (CS.applied st)))
      by (intros Hin; now apply (Hlockd r0 Hin)).
    assert (Hn1 : ~ In r1 (applied_classes remap (CS.applied st)))
      by (intros Hin; now apply (Hlockd r1 Hin)).
    clear - Hnodup Hn0 Hn1 Hr.
    induction (applied_classes remap (CS.applied st)) as [|a l IH]; cbn [app].
    + constructor; [cbn; intuition congruence|]. constructor; [cbn; tauto|constructor].
    + inversion Hnodup as [|? ? Ha Hl]; subst. constructor.
      * rewrite in_app_iff. cbn [In] in *. intuition congruence.
      * apply IH; auto; cbn [In] in *; tauto.
  - intros r Hin. unfold applied_classes in Hin. rewrite flat_map_app in Hin.
    apply in_app_iff in Hin. destruct Hin as [Hin|Hin].
    + apply Hmono. now apply Hlockd.
    + cbn [flat_map app In] in Hin. fold i0 i1 r0 r1 in Hin. rewrite Hlocked.
      destruct Hin as [<-|[<-|[]]].
      * destruct (r0 =? r1); [lia|]. rewrite Z.eqb_refl. lia.
      * rewrite Z.eqb_refl. lia.
  - destruct (VertexKind_eqb (kind_at vertex_kind i0) Kind_Border); lia.
  - destruct (VertexKind_eqb (kind_at vertex_kind i0) Kind_Border); lia.
Qed.

Lemma performEdgeCollapses_once vertex_quadrics :
  0 <= vertex_count < 2 ^ 32 ->
  let cs := performEdgeCollapses
              (for_loop vertex_count (fun i a => aset a i (u32 i))
                 (repeat 0 (Z.to_nat vertex_count)))
              (repeat 0 (Z.to_nat vertex_count)) vertex_quadrics
              collapses (len collapses) collapse_order remap wedge vertex_kind
              triangle_collapse_goal error_limit in
  inv cs /\ once cs.
Proof.
  intros Hvc. cbv zeta. unfold performEdgeCollapses.
  destruct (identity_table_spec vertex_count Hvc) as [Hl0 Hid].
  apply (for_break_inv (fun st => inv st /\ once st)).
  - split.
    + unfold inv, perform_inv.
      cbn [CS.collapse_remap CS.collapse_locked CS.applied CS.edge_collapses].
      split; [assumption|]. split; [apply len_repeat; lia|].
      split; [intros x Hx; rewrite Hid by assumption; lia|].
      split; [intros x Hx _; now apply Hid|]. split; [constructor|reflexivity].
    + unfold once, perform_once.
      cbn [CS.collapse_remap CS.collapse_locked CS.applied CS.edge_collapses
           CS.triangle_collapses applied_classes flat_map].
      split; [intros x Hx; rewrite !Hid; auto; rewrite Hid; auto|].
      split; [intros x Hx Hne; rewrite Hid in Hne by assumption; contradiction|].
      split; [constructor|]. split; [intros r []|]. lia.
  - intros i st Hi [Hinv Honce]. split.
    + apply (performEdgeCollapses_step_inv vertex_count remap wedge vertex_kind collapses
               collapse_order result result_count triangle_collapse_goal error_limit
               Hok Hseam Horder Hcoll i st Hi Hinv).
    + now apply performEdgeCollapses_step_once.
Qed.
End PerformOnce.

Lemma pass_collapses_inv vertex_count remap wedge vertex_kind loop vertex_positions
  vertex_quadrics result result_count sort_order triangle_collapse_goal error_limit :
  0 <= vertex_count < 2 ^ 32 ->
  remap_ok vertex_count remap wedge ->
  (forall x, 0 <= x < vertex_count ->
     kind_at vertex_kind x = Kind_Seam -> geti wedge x <> x) ->
  buffer_ok vertex_count result result_count ->
  result_count < 2 ^ 32 ->
  result_count <= len sort_order ->
  let cs := pass_collapses vertex_count remap wedge vertex_kind loop vertex_positions
              vertex_quadrics result result_count sort_order triangle_collapse_goal
              error_limit in
  perform_inv vertex_count remap result result_count error_limit cs
  /\ perform_once vertex_count remap triangle_collapse_goal cs.
Proof.
  intros Hvc Hok Hseam Hbuf Hrc Hso. cbv zeta. unfold pass_collapses.
  set (picked := pickEdgeCollapses result result_count remap vertex_kind loop).
  destruct (pickEdgeCollapses_ok vertex_count remap result result_count vertex_kind loop
              Hbuf) as [Hcand Hcount].
  fold picked in Hcand, Hcount.
  destruct (rankEdgeCollapses_spec vertex_positions vertex_quadrics remap picked)
    as [Hlr Hranked].
  set (ranked := rankEdgeCollapses picked (len picked) vertex_positions vertex_quadrics
                   remap) in *.
  assert (Hn : 0 <= len picked < 2 ^ 32) by (pose proof (len_nonneg picked); lia).
  assert (Hso' : len picked <= len sort_order) by lia.
  rewrite <- Hlr.
  apply (performEdgeCollapses_once vertex_count remap wedge vertex_kind ranked
           (sortEdgeCollapses sort_order ranked (len ranked)) result result_count
           triangle_collapse_goal error_limit Hok Hseam); auto.
  - intros p Hp. rewrite Hlr in *.
    apply (sortEdgeCollapses_range ranked (len picked) sort_order Hn Hso' p Hp).
  - intros i Hi. rewrite Hlr in Hi. rewrite Hranked by assumption.
    apply rankEdgeCollapses_one_ok.
    rewrite Forall_forall in Hcand. apply Hcand. now apply collapse_at_In.
Qed.

(** X15: in a pass of [meshopt_simplify], [performEdgeCollapses] moves no
    vertex twice: every vertex that is a value of [collapse_remap] is mapped
    to itself (what [remapIndexBuffer] asserts of the corners it writes),
    the values stay below [vertex_count], no position is the source or
    the target of two collapses, [edge_collapses] counts the collapses
    carried out, and [triangle_collapses] lies between once and twice that
    count and exceeds the goal by at most one. *)
Theorem performEdgeCollapses_moves_once vertex_count remap wedge vertex_kind loop
  vertex_positions vertex_quadrics result result_count sort_order triangle_collapse_goal
  error_limit :
  0 <= vertex_count < 2 ^ 32 ->
  remap_ok vertex_count remap wedge ->
  (forall x, 0 <= x < vertex_count ->
     kind_at vertex_kind x = Kind_Seam -> geti wedge x <> x) ->
  buffer_ok vertex_count result result_count ->
  result_count < 2 ^ 32 ->
  result_count <= len sort_order ->
  let cs := pass_collapses vertex_count remap wedge vertex_kind loop vertex_positions
              vertex_quadrics result result_count sort_order triangle_collapse_goal
              error_limit in
  (forall x, 0 <= x < vertex_count ->
     0 <= geti (CS.collapse_remap cs) x < vertex_count
     /\ geti (CS.collapse_remap cs) (geti (CS.collapse_remap cs) x)
        = geti (CS.collapse_remap cs) x)
  /\ NoDup (applied_classes remap (CS.applied cs))
  /\ CS.edge_collapses cs = len (CS.applied cs)
  /\ CS.edge_collapses cs <= CS.triangle_collapses cs <= 2 * CS.edge_collapses cs
  /\ CS.triangle_collapses cs <= Z.max 0 (triangle_collapse_goal + 1).
Proof.
  intros Hvc Hok Hseam Hbuf Hrc Hso.
  destruct (pass_collapses_inv vertex_count remap wedge vertex_kind loop vertex_positions
              vertex_quadrics result result_count sort_order triangle_collapse_goal
              error_limit Hvc Hok Hseam Hbuf Hrc Hso)
    as [(_ & _ & Hrng & _ & _ & Hcnt) (Hidem & _ & Hnodup & _ & Hc1 & Hc2)].
  cbv zeta. split; [|auto].
  intros x Hx. split; [now apply Hrng|now apply Hidem].
Qed.

Lemma identity_remap_ok :
  remap_ok 4 [0; 1; 2; 3] [0; 1; 2; 3].
Proof.
  destruct (buildPositionRemap_ok tetra_positions 4 12 ltac:(lia))
    as (remap & wedge & Hrun & Hok).
  vm_compute in Hrun. injection Hrun as <- <-. exact Hok.
Qed.

Lemma performEdgeCollapses_moves_once_witness :
  let cs := pass_collapses 4 [0; 1; 2; 3] [0; 1; 2; 3] (repeat Kind_Manifold 4)
              (repeat NONE32 4) tetra_rescaled (repeat Quadric_zero 4) tetra_indices 12
              (repeat 0 12) 2 infinity in
  (forall x, 0 <= x < 4 ->
     0 <= geti (CS.collapse_remap cs) x < 4
     /\ geti (CS.collapse_remap cs) (geti (CS.collapse_remap cs) x)
        = geti (CS.collapse_remap cs) x)
  /\ NoDup (applied_classes [0; 1; 2; 3] (CS.applied cs))
  /\ CS.edge_collapses cs = len (CS.applied cs)
  /\ CS.edge_collapses cs <= CS.triangle_collapses cs <= 2 * CS.edge_collapses cs
  /\ CS.triangle_collapses cs <= Z.max 0 (2 + 1).
Proof.
  apply (performEdgeCollapses_moves_once 4 [0; 1; 2; 3] [0; 1; 2; 3]
           (repeat Kind_Manifold 4) (repeat NONE32 4) tetra_rescaled
           (repeat Quadric_zero 4) tetra_indices 12 (repeat 0 12) 2 infinity).
  - lia.
  - exact identity_remap_ok.
  - intros x Hx Hk. exfalso.
    assert (Hc : x = 0 \/ x = 1 \/ x = 2 \/ x = 3) by lia.
    destruct Hc as [ -> | [ -> | [ -> | -> ] ] ]; discriminate Hk.
  - apply valid_input_buffer. unfold valid_input, in_range.
    split; [reflexivity|]. split; [reflexivity|]. split; [lia|]. split; [lia|].
    repeat constructor; lia.
  - lia.
  - vm_compute. discriminate.
Defined.

(** ** [remapIndexBuffer]: the buffer after compaction *)

Lemma zrange_succ t : 0 <= t -> zrange (t + 1) = zrange t ++ [t].
Proof.
  intros Ht. unfold zrange. replace (Z.to_nat (t + 1)) with (S (Z.to_nat t)) by lia.
  rewrite seq_S, map_app. cbn [map Nat.add]. now rewrite Z2Nat.id.
Qed.

Lemma geti_app_l a b j : 0 <= j < len a -> geti (a ++ b) j = geti a j.
Proof.
  intros Hj. unfold geti, aget. destruct (Z.ltb_spec j 0); [lia|].
  apply app_nth1. unfold len in Hj. lia.
Qed.

Lemma geti_app_last a x : geti (a ++ [x]) (len a) = x.
Proof.
  unfold geti, aget, len. destruct (Z.ltb_spec (Z.of_nat (length a)) 0); [lia|].
  rewrite Nat2Z.id, app_nth2 by lia. now rewrite Nat.sub_diag.
Qed.

Lemma len_app {A : Type} (a b : list A) : len (a ++ b) = len a + len b.
Proof. unfold len. rewrite length_app. lia. Qed.

Ltac eqb_decide :=
  repeat match goal with
         | |- context [?a =? ?b] =>
             first [ replace (a =? b) with false by (symmetry; apply Z.eqb_neq; lia)
                   | replace (a =? b) with true by (symmetry; apply Z.eqb_eq; lia) ]
         end.

Section CompactExact.
Variable collapse_remap : list Z.
Variable indices : list Z.
Variable index_count : Z.
Hypothesis Hcount : 0 <= index_count <= len indices.
Hypothesis Hmod : index_count mod 3 = 0.

Let keep := triangle_kept collapse_remap indices.

Let inv (t : Z) (st : list Z * Z) : Prop :=
  let kept := filter keep (zrange t) in
  len (fst st) = len indices
  /\ snd st = 3 * len kept
  /\ len kept <= t
  /\ (forall j e, 0 <= j < len kept -> 0 <= e < 3 ->
        geti (fst st) (3 * j + e) = mapped_corner collapse_remap indices (geti kept j) e)
  /\ (forall p, snd st <= p -> geti (fst st) p = geti indices p).

Lemma remapIndexBuffer_exact_inv :
  inv (triangle_loops index_count) (remapIndexBuffer indices index_count collapse_remap).
Proof.
  unfold remapIndexBuffer. apply (for_loop_inv inv).
  - unfold triangle_loops. apply Z.div_pos; lia.
  - unfold inv. cbn [fst snd zrange Z.to_nat seq map filter]. unfold len at 2. cbn [length].
    split; [reflexivity|]. split; [reflexivity|]. split; [unfold len; cbn; lia|].
    split; [intros j e Hj; unfold len in Hj; cbn in Hj; lia|auto].
  - intros t [buffer write] Ht (Hlen & Hw & Hle & Hkept & Hrest). cbn [fst snd] in *.
    pose proof (triangle_in_buffer index_count t ltac:(lia) Hmod Ht) as Hin.
    set (kept := filter keep (zrange t)) in *.
    pose proof (len_nonneg kept) as Hk0.
    rewrite !Hrest by lia.
    change (geti collapse_remap (geti indices (3 * t + 0)))
      with (mapped_corner collapse_remap indices t 0).
    change (geti collapse_remap (geti indices (3 * t + 1)))
      with (mapped_corner collapse_remap indices t 1).
    change (geti collapse_remap (geti indices (3 * t + 2)))
      with (mapped_corner collapse_remap indices t 2).
    fold (triangle_kept collapse_remap indices t). fold (keep t).
    unfold inv. rewrite zrange_succ, filter_app by lia. cbn [filter]. fold kept.
    destruct (keep t) eqn:Ek; cbn [fst snd].
    + rewrite !len_aset, len_app. change (len [t]) with 1.
      split; [exact Hlen|]. split; [lia|]. split; [lia|]. split.
      * intros j e Hj He. subst write. rewrite geti_aset3 by lia.
        destruct (Z.eq_dec j (len kept)) as [->|Hne].
        -- rewrite geti_app_last.
           assert (Hc : e = 0 \/ e = 1 \/ e = 2) by lia.
           destruct Hc as [ -> | [ -> | -> ] ]; eqb_decide; reflexivity.
        -- rewrite geti_app_l by lia. eqb_decide. apply Hkept; lia.
      * intros p Hp. subst write. rewrite geti_aset3 by lia. eqb_decide.
        apply Hrest. lia.
    + rewrite app_nil_r.
      split; [exact Hlen|]. split; [exact Hw|]. split; [lia|]. split; assumption.
Qed.
End CompactExact.

(** X16: [remapIndexBuffer] compacts in place: the triangles whose three
    corners stay different under [collapse_remap] are written to the front
    of the buffer in their order, with their corners mapped; the count
    returned is three times their number, and the buffer from that count on
    is as it was. *)
Theorem remapIndexBuffer_exact collapse_remap indices index_count :
  0 <= index_count <= len indices ->
  index_count mod 3 = 0 ->
  let '(result, new_count) := remapIndexBuffer indices index_count collapse_remap in
  let kept := kept_triangles collapse_remap indices index_count in
  len result = len indices
  /\ new_count = 3 * len kept
  /\ (forall j e, 0 <= j < len kept -> 0 <= e < 3 ->
        geti result (3 * j + e) = mapped_corner collapse_remap indices (geti kept j) e)
  /\ (forall p, new_count <= p -> geti result p = geti indices p).
Proof.
  intros Hcount Hmod.
  pose proof (remapIndexBuffer_exact_inv collapse_remap indices index_count Hcount Hmod) as H.
  destruct (remapIndexBuffer indices index_count collapse_remap) as [result new_count].
  destruct H as (H1 & H2 & _ & H3 & H4). cbn [fst snd] in *.
  cbv zeta. unfold kept_triangles. auto.
Qed.

Lemma remapIndexBuffer_exact_witness :
  let '(result, new_count) := remapIndexBuffer quad_indices 6 [0; 0; 2; 3] in
  let kept := kept_triangles [0; 0; 2; 3] quad_indices 6 in
  len result = len quad_indices
  /\ new_count = 3 * len kept
  /\ (forall j e, 0 <= j < len kept -> 0 <= e < 3 ->
        geti result (3 * j + e) = mapped_corner [0; 0; 2; 3] quad_indices (geti kept j) e)
  /\ (forall p, new_count <= p -> geti result p = geti quad_indices p).
Proof.
  apply (remapIndexBuffer_exact [0; 0; 2; 3] quad_indices 6).
  - vm_compute. split; discriminate.
  - reflexivity.
Defined.

(** ** The sloppy simplifier: cells *)

Lemma HashCellHasher_cong a b :
  equal HashCellHasher a b = true -> hash HashCellHasher a = hash HashCellHasher b.
Proof.
  cbn [HashCellHasher equal hash]. intros H. apply Z.eqb_eq in H.
  unfold HashCellHasher_hash. now rewrite H.
Qed.

(** Storing in the empty slot of a lookup any item with the hash of the
    key keeps the table well formed. *)
Lemma hashLookup2_insert_item_wf {T : Type} (eqT : T -> T -> bool) (hasher : Hasher T)
  (dflt empty : T) (n : Z) (table : list T) (key x : T) (e : Z) :
  0 <= n ->
  len table = 2 ^ n ->
  table_wf eqT hasher dflt empty n table ->
  hashLookup2 eqT hasher dflt table (2 ^ n) key empty = Some e ->
  hash hasher x = hash hasher key ->
  eqT x empty = false ->
  table_wf eqT hasher dflt empty n (aset table e x).
Proof.
  intros Hn Hlen Hwf Hrun Hhash Hx.
  destruct (hashLookup2_stops eqT hasher dflt empty n table key e Hrun)
    as (k & Hk & He & _ & Hmin).
  assert (Hrange : 0 <= e < len table).
  { rewrite Hlen, He. unfold probe_path. apply probe_bucket_range; auto.
    rewrite land_pow2_pred by assumption. apply Z.mod_pos_bound.
    apply Z.pow_pos_nonneg; lia. }
  assert (Hget : forall y, aget dflt (aset table e x) y
                           = if y =? e then x else aget dflt table y).
  { intros y. rewrite aget_aset.
    destruct (Z.eqb_spec e y), (Z.eqb_spec y e); try lia; cbn [andb]; auto.
    replace (0 <=? e) with true by lia. replace (e <? len table) with true by lia.
    reflexivity. }
  assert (Hpath : forall j, probe_path hasher n x j = probe_path hasher n key j).
  { intros j. unfold probe_path. now rewrite Hhash. }
  intros e' He'. rewrite Hget.
  destruct (Z.eqb_spec e' e) as [->|Hne]; intros Hused.
  - exists k. split; [exact Hk|]. split; [now rewrite Hpath|].
    intros k' Hk'. rewrite Hget, Hpath.
    destruct (probe_path hasher n key k' =? e); [exact Hx|]. now apply Hmin.
  - destruct (Hwf e' He' Hused) as (kx & Hkx & Hex & Hp).
    exists kx. split; [exact Hkx|]. split; [exact Hex|].
    intros k' Hk'. rewrite Hget.
    destruct (probe_path hasher n (aget dflt table e') k' =? e); [exact Hx|].
    now apply Hp.
Qed.

Section CellsOfIds.
Variable vertex_ids : list Z.
Variables vertex_count n mask : Z.
Hypothesis Hvc : 0 <= vertex_count < 2 ^ 32.
Hypothesis Hn : 0 <= n.
Hypothesis Hsize : vertex_count <= 2 ^ n.
Hypothesis Hmask : 0 <= mask < 2 ^ 30.

Lemma masked_id_range i : 0 <= masked_id vertex_ids mask i < 2 ^ 30.
Proof. unfold masked_id. apply land_below; lia. Qed.

Lemma cells_step i st :
  0 <= i < vertex_count -> cells_inv vertex_ids vertex_count n mask i st ->
  exists st', sloppy_fill_step vertex_ids (2 ^ n) mask i st = Some st'
              /\ cells_inv vertex_ids vertex_count n mask (i + 1) st'.
Proof.
  intros Hi. destruct st as [[table vertex_cells] cell_count].
  intros (Hfill & Hwf & Huniq & Hdense & Hslots).
  destruct (sloppy_fill_step_ok vertex_ids vertex_count n mask Hvc Hn Hsize i
              (table, vertex_cells, cell_count) Hi Hfill) as (st' & Hrun & Hfill').
  exists st'. split; [exact Hrun|].
  destruct Hfill as (Hlt & Hlv & _ & Hcc & Htab & Hcells).
  unfold sloppy_fill_step in Hrun. fold (masked_id vertex_ids mask i) in Hrun.
  pose proof (masked_id_range i) as Hid.
  set (id := masked_id vertex_ids mask i) in *.
  set (key := HashCell.mk id 0) in *.
  destruct (hashLookup2 HashCell_eqb HashCellHasher HashCell_ones table (2 ^ n) key
              HashCell_ones) as [e|] eqn:Hlook; [|discriminate].
  cbn [bind] in Hrun.
  destruct (hashLookup2_slot_spec HashCell_eqb HashCellHasher HashCell_ones HashCell_ones
              n table key e Hn HashCellHasher_cong Hlt Hwf Hlook)
    as (He & Hfull & Hempty).
  fold (cell_at table e) in Hfull, Hempty.
  unfold HashCell_eqb in Hfull, Hempty. cbn [HashCell.id HashCell_ones] in Hfull, Hempty.
  destruct (Z.eqb_spec (HashCell.id (cell_at table e)) NONE32) as [Hnone|Hsome].
  - (* a masked id not seen before *)
    destruct (Hempty eq_refl) as [Habsent _].
    injection Hrun as <-.
    rewrite cell_at_aset_in in Hfill' |- * by lia.
    rewrite Z.eqb_refl in Hfill' |- *. cbn [HashCell.cell] in Hfill' |- *.
    rewrite u32_small in Hfill' |- * by lia.
    assert (Hget : forall x, cell_at (aset table e (HashCell.mk id cell_count)) x
                             = if x =? e then HashCell.mk id cell_count
                               else cell_at table x).
    { intros x. apply cell_at_aset_in. lia. }
    assert (Hother : forall e', 0 <= e' < 2 ^ n ->
              HashCell.id (cell_at table e') <> NONE32 ->
              HashCell.id (cell_at table e') <> id
              /\ HashCell.cell (cell_at table e') <> cell_count).
    { intros e' He' Hused. split.
      - intros E. specialize (Habsent e' He'). fold (cell_at table e') in Habsent.
        cbn [HashCellHasher equal key HashCell.id] in Habsent.
        rewrite E, Z.eqb_refl in Habsent.
        assert (false = true -> False) by discriminate.
        apply H. symmetry. apply Habsent. apply Z.eqb_neq. unfold NONE32. lia.
      - specialize (Htab e' He' Hused). lia. }
    split; [exact Hfill'|]. split; [|split; [|split]].
    + apply (hashLookup2_insert_item_wf HashCell_eqb HashCellHasher HashCell_ones
               HashCell_ones n table key (HashCell.mk id cell_count) e); auto.
      unfold HashCell_eqb. cbn [HashCell.id HashCell_ones]. apply Z.eqb_neq.
      unfold NONE32. lia.
    + intros e1 e2 He1 He2. rewrite !Hget.
      destruct (Z.eqb_spec e1 e) as [->|Hn1], (Z.eqb_spec e2 e) as [->|Hn2];
        cbn [HashCell.id HashCell.cell]; intros H1 H2 Heq; auto.
      * destruct (Hother e2 He2 H2) as [Ha Hb]. destruct Heq; congruence.
      * destruct (Hother e1 He1 H1) as [Ha Hb]. destruct Heq; congruence.
    + intros c Hc. destruct (Z.eq_dec c cell_count) as [->|Hne].
      * exists i. split; [lia|]. apply geti_aset_eq. lia.
      * destruct (Hdense c ltac:(lia)) as (j & Hj & Hjc).
        exists j. split; [lia|]. rewrite geti_aset_neq by lia. exact Hjc.
    + intros j Hj. rewrite geti_aset_in by lia.
      destruct (Z.eqb_spec j i) as [->|Hne].
      * exists e. rewrite Hget, Z.eqb_refl. cbn [HashCell.id HashCell.cell].
        split; [exact He|]. split; [unfold NONE32; lia|]. auto.
      * destruct (Hslots j ltac:(lia)) as (e' & He' & Hused & Hid' & Hcell').
        exists e'. rewrite Hget.
        destruct (Z.eqb_spec e' e) as [->|_]; [contradiction|]. auto.
  - (* a masked id seen before *)
    injection Hrun as <-.
    assert (Hsame : HashCell.id (cell_at table e) = id).
    { specialize (Hfull eq_refl). cbn [HashCellHasher equal key HashCell.id] in Hfull.
      now apply Z.eqb_eq. }
    split; [exact Hfill'|]. split; [exact Hwf|]. split; [exact Huniq|]. split.
    + intros c Hc. destruct (Hdense c Hc) as (j & Hj & Hjc).
      exists j. split; [lia|]. rewrite geti_aset_neq by lia. exact Hjc.
    + intros j Hj. rewrite geti_aset_in by lia.
      destruct (Z.eqb_spec j i) as [->|Hne].
      * exists e. auto.
      * apply Hslots. lia.
Qed.

Lemma sloppy_fill_cells_spec :
  exists vertex_cells cell_count,
    sloppy_fill_cells vertex_ids vertex_count (2 ^ n) mask
    = Some (vertex_cells, cell_count)
    /\ cells_of_ids vertex_ids vertex_count mask vertex_cells cell_count.
Proof.
  unfold sloppy_fill_cells.
  destruct (for_loop_opt_inv (cells_inv vertex_ids vertex_count n mask)
              (sloppy_fill_step vertex_ids (2 ^ n) mask) vertex_count
              (repeat HashCell_ones (Z.to_nat (2 ^ n)),
               repeat 0 (Z.to_nat vertex_count), 0))
    as ([[table vertex_cells] cell_count] & -> & Hinv).
  - lia.
  - assert (Hempty : forall e, 0 <= e < 2 ^ n ->
              HashCell.id (cell_at (repeat HashCell_ones (Z.to_nat (2 ^ n))) e) = NONE32).
    { intros e He. unfold cell_at. now rewrite aget_repeat. }
    split; [|split; [|split; [|split]]].
    + unfold fill_inv. rewrite !len_repeat by lia. rewrite cells_occupied_repeat.
      split; [reflexivity|]. split; [reflexivity|]. split; [lia|]. split; [lia|].
      split; [|intros; lia].
      intros e He Hid. exfalso. apply Hid. now apply Hempty.
    + apply table_wf_empty. reflexivity.
    + intros e e' He He' Hu. exfalso. apply Hu. now apply Hempty.
    + intros c Hc. lia.
    + intros j Hj. lia.
  - intros i st Hi. now apply cells_step.
  - cbn [bind]. exists vertex_cells, cell_count. split; [reflexivity|].
    destruct Hinv as ((_ & Hlv & _ & Hcc & _ & Hcells) & _ & Huniq & Hdense & Hslots).
    split; [exact Hlv|]. split; [exact Hcc|]. split; [exact Hcells|]. split.
    + intros i j Hi Hj.
      destruct (Hslots i Hi) as (ei & Hei & Hui & Hidi & Hci).
      destruct (Hslots j Hj) as (ej & Hej & Huj & Hidj & Hcj).
      rewrite <- Hidi, <- Hidj, <- Hci, <- Hcj. split; intros E.
      * assert (ei = ej) by (apply Huniq; auto). now subst ej.
      * assert (ei = ej) by (apply Huniq; auto). now subst ej.
    + exact Hdense.
Qed.
End CellsOfIds.

(** X17: for a vertex count below 2^32, a table of 2^n >= vertex_count
    buckets and a mask of at most 30 bits, the loop of meshopt_simplifySloppy
    that fills [vertex_cells] returns, and the cells number the masked ids:
    every cell is below [cell_count], two vertices get the same cell exactly
    when their ids agree under the mask, and every cell below [cell_count]
    is the cell of some vertex. *)
Theorem sloppy_fill_cells_numbers_ids (vertex_ids : list Z) (vertex_count n mask : Z) :
  0 <= vertex_count < 2 ^ 32 ->
  0 <= n ->
  vertex_count <= 2 ^ n ->
  0 <= mask < 2 ^ 30 ->
  exists vertex_cells cell_count,
    sloppy_fill_cells vertex_ids vertex_count (2 ^ n) mask
    = Some (vertex_cells, cell_count)
    /\ cells_of_ids vertex_ids vertex_count mask vertex_cells cell_count.
Proof. intros Hvc Hn Hsize Hmask. now apply sloppy_fill_cells_spec. Qed.

Lemma sloppy_fill_cells_numbers_ids_witness :
  exists vertex_cells cell_count,
    sloppy_fill_cells [5; 16; 7; 5] 4 (2 ^ 2) (sloppy_mask 5)
    = Some (vertex_cells, cell_count)
    /\ cells_of_ids [5; 16; 7; 5] 4 (sloppy_mask 5) vertex_cells cell_count.
Proof.
  apply (sloppy_fill_cells_numbers_ids [5; 16; 7; 5] 4 2 (sloppy_mask 5)).
  - lia.
  - lia.
  - vm_compute. discriminate.
  - vm_compute. split; [discriminate|reflexivity].
Defined.

(** ** The sloppy simplifier: representatives *)

Lemma lex_lt_trans a b c : lex_lt a b -> lex_lt b c -> lex_lt a c.
Proof.
  destruct a as [[a1 a2] a3], b as [[b1 b2] b3], c as [[c1 c2] c3].
  unfold lex_lt. lia.
Qed.

Lemma F32_ltb_trans x y z :
  F32.ltb x y = true -> F32.ltb y z = true -> F32.ltb x z = true.
Proof.
  intros Hxy Hyz.
  destruct (F32.is_nan x) eqn:Hx; [rewrite F32_ltb_nan_l in Hxy by assumption; discriminate|].
  destruct (F32.is_nan y) eqn:Hy; [rewrite F32_ltb_nan_r in Hxy by assumption; discriminate|].
  destruct (F32.is_nan z) eqn:Hz; [rewrite F32_ltb_nan_r in Hyz by assumption; discriminate|].
  apply F32_ltb_key; [assumption|assumption|].
  apply (lex_lt_trans _ (float_key y)); now apply F32_ltb_key.
Qed.

(** Nothing that is not smaller than [y] is smaller than something smaller
    than [y]. *)
Lemma F32_not_ltb_below x y z :
  F32.ltb x y = false -> F32.ltb z y = true -> F32.ltb x z = false.
Proof.
  intros Hxy Hzy. destruct (F32.ltb x z) eqn:E; [|reflexivity].
  rewrite (F32_ltb_trans x z y E Hzy) in Hxy. discriminate.
Qed.

Section CellBest.
Variable vertex_positions : list Vector3.t.
Variable cell_quadrics : list Quadric.
Variable vertex_cells : list Z.
Variables vertex_count cell_count : Z.
Hypothesis Hvc : 0 <= vertex_count < 2 ^ 32.
Hypothesis Hcells : forall j, 0 <= j < vertex_count ->
  0 <= geti vertex_cells j < cell_count.

Let err := cell_error vertex_positions cell_quadrics vertex_cells.

Lemma cell_best_step i st :
  0 <= i < vertex_count ->
  cell_best_inv vertex_positions cell_quadrics vertex_cells cell_count i st ->
  cell_best_inv vertex_positions cell_quadrics vertex_cells cell_count (i + 1)
    (sloppy_cell_remap_step vertex_positions cell_quadrics vertex_cells i st).
Proof.
  intros Hi. destruct st as [cell_remap cell_errors].
  intros (Hlr & Hle & Hrep & Hbest).
  unfold sloppy_cell_remap_step.
  pose proof (Hcells i Hi) as Hc.
  fold (cell_error vertex_positions cell_quadrics vertex_cells i). fold err.
  fold err in Hrep, Hbest.
  assert (Hle' : @len F32.float cell_errors = cell_count) by exact Hle.
  (* taking [i] as the representative of its cell *)
  assert (Htake : (forall j, 0 <= j < i -> geti vertex_cells j = geti vertex_cells i ->
                     F32.ltb (err j) (err i) = false) ->
            cell_best_inv vertex_positions cell_quadrics vertex_cells cell_count (i + 1)
              (aset cell_remap (geti vertex_cells i) (u32 i),
               aset cell_errors (geti vertex_cells i) (err i))).
  { intros Hlow. unfold cell_best_inv. fold err. rewrite !len_aset.
    rewrite u32_small by lia.
    split; [assumption|]. split; [assumption|]. split.
    - intros c Hcr. rewrite geti_aset_in by lia. rewrite aget_aset, Hle'.
      destruct (Z.eqb_spec c (geti vertex_cells i)) as [->|Hne].
      + right. replace (0 <=? geti vertex_cells i) with true by (symmetry; apply Z.leb_le; lia).
        replace (geti vertex_cells i <? cell_count) with true
          by (symmetry; apply Z.ltb_lt; lia).
        rewrite !Z.eqb_refl. cbn [andb]. split; [lia|]. split; reflexivity.
      + destruct (Hrep c Hcr) as [E|(Hr & Hrc & Hre)]; [now left|right].
        replace (geti vertex_cells i =? c) with false by (symmetry; apply Z.eqb_neq; lia).
        cbn [andb]. split; [lia|]. split; assumption.
    - intros j Hj. pose proof (Hcells j ltac:(lia)) as Hcj.
      rewrite geti_aset_in by lia.
      destruct (Z.eqb_spec (geti vertex_cells j) (geti vertex_cells i)) as [E|Hne].
      + split; [unfold NONE32; lia|].
        destruct (Z.eq_dec j i) as [->|Hji]; [apply F32_ltb_irrefl|].
        apply Hlow; [lia|assumption].
      + apply Hbest. destruct (Z.eq_dec j i) as [->|]; [now contradiction Hne|lia]. }
  (* keeping the representative *)
  assert (Hkeep : geti cell_remap (geti vertex_cells i) <> NONE32 ->
            F32.ltb (err i) (aget F32.zero cell_errors (geti vertex_cells i)) = false ->
            cell_best_inv vertex_positions cell_quadrics vertex_cells cell_count (i + 1)
              (aset cell_remap (geti vertex_cells i) (geti cell_remap (geti vertex_cells i)),
               aset cell_errors (geti vertex_cells i)
                 (aget F32.zero cell_errors (geti vertex_cells i)))).
  { intros Hsome Hnot. unfold cell_best_inv. fold err. rewrite !len_aset.
    split; [assumption|]. split; [assumption|].
    destruct (Hrep _ Hc) as [E|(Hr & Hrc & Hre)]; [contradiction|].
    split.
    - intros c Hcr. rewrite geti_aset_in by lia. rewrite aget_aset, Hle'.
      destruct (Z.eqb_spec c (geti vertex_cells i)) as [->|Hne].
      + right. replace (0 <=? geti vertex_cells i) with true by (symmetry; apply Z.leb_le; lia).
        replace (geti vertex_cells i <? cell_count) with true
          by (symmetry; apply Z.ltb_lt; lia).
        rewrite !Z.eqb_refl. cbn [andb]. split; [lia|]. split; assumption.
      + destruct (Hrep c Hcr) as [E|(Hr' & Hrc' & Hre')]; [now left|right].
        replace (geti vertex_cells i =? c) with false by (symmetry; apply Z.eqb_neq; lia).
        cbn [andb]. split; [lia|]. split; assumption.
    - intros j Hj. pose proof (Hcells j ltac:(lia)) as Hcj.
      rewrite geti_aset_in by lia.
      destruct (Z.eqb_spec (geti vertex_cells j) (geti vertex_cells i)) as [E|Hne].
      + split; [assumption|].
        destruct (Z.eq_dec j i) as [->|Hji]; [now rewrite <- Hre|].
        rewrite <- E. apply Hbest. lia.
      + apply Hbest. destruct (Z.eq_dec j i) as [->|]; [now contradiction Hne|lia]. }
  destruct (Z.eqb_spec (geti cell_remap (geti vertex_cells i)) NONE32) as [Hnone|Hsome].
  - apply Htake. intros j Hj E. exfalso.
    destruct (Hbest j Hj) as [Hset _]. apply Hset. now rewrite E.
  - destruct (F32.ltb (err i) (aget F32.zero cell_errors (geti vertex_cells i))) eqn:Hlt.
    + apply Htake. intros j Hj E.
      destruct (Hrep _ Hc) as [E'|(Hr & Hrc & Hre)]; [contradiction|].
      destruct (Hbest j Hj) as [_ Hb]. rewrite E in Hb.
      apply (F32_not_ltb_below _ _ _ Hb). now rewrite <- Hre.
    + now apply Hkeep.
Qed.

Lemma sloppy_cell_remap_best j :
  0 <= j < vertex_count ->
  let r := geti (sloppy_cell_remap vertex_positions cell_quadrics vertex_cells
                   vertex_count cell_count) (geti vertex_cells j) in
  0 <= r < vertex_count
  /\ geti vertex_cells r = geti vertex_cells j
  /\ F32.ltb (err j) (err r) = false.
Proof.
  intros Hj. unfold sloppy_cell_remap.
  assert (Hcc : 0 <= cell_count) by (pose proof (Hcells j Hj); lia).
  assert (H : cell_best_inv vertex_positions cell_quadrics vertex_cells cell_count
                vertex_count
                (for_loop vertex_count
                   (sloppy_cell_remap_step vertex_positions cell_quadrics vertex_cells)
                   (repeat NONE32 (Z.to_nat cell_count),
                    repeat F32.zero (Z.to_nat cell_count)))).
  { apply (for_loop_inv (cell_best_inv vertex_positions cell_quadrics vertex_cells
                           cell_count)); [lia| |].
    - unfold cell_best_inv. rewrite !len_repeat by lia.
      split; [reflexivity|]. split; [reflexivity|].
      split; [|intros; lia]. intros c Hc. left. unfold geti. now rewrite aget_repeat.
    - intros i st Hi. now apply cell_best_step. }
  destruct (for_loop _ _ _) as [cell_remap cell_errors]. cbn [fst].
  destruct H as (_ & _ & Hrep & Hbest).
  destruct (Hbest j Hj) as [Hset Hb].
  destruct (Hrep _ (Hcells j Hj)) as [E|(Hr & Hrc & _)]; [contradiction|].
  cbv zeta. split; [assumption|]. split; assumption.
Qed.
End CellBest.

(** X18: the third pass of meshopt_simplifySloppy gives every cell a
    representative of its own: for a vertex [j], [cell_remap[vertex_cells[j]]]
    is a vertex of the cell of [j], and the error of [j] against the quadric
    of the cell is not smaller than the error of the representative. *)
Theorem sloppy_cell_remap_minimal_error (vertex_positions : list Vector3.t)
  (cell_quadrics : list Quadric) (vertex_cells : list Z) (vertex_count cell_count j : Z) :
  0 <= vertex_count < 2 ^ 32 ->
  (forall v, 0 <= v < vertex_count -> 0 <= geti vertex_cells v < cell_count) ->
  0 <= j < vertex_count ->
  0 <= geti (sloppy_cell_remap vertex_positions cell_quadrics vertex_cells
               vertex_count cell_count) (geti vertex_cells j) < vertex_count
  /\ geti vertex_cells
       (geti (sloppy_cell_remap vertex_positions cell_quadrics vertex_cells
                vertex_count cell_count) (geti vertex_cells j))
     = geti vertex_cells j
  /\ F32.ltb (cell_error vertex_positions cell_quadrics vertex_cells j)
       (cell_error vertex_positions cell_quadrics vertex_cells
          (geti (sloppy_cell_remap vertex_positions cell_quadrics vertex_cells
                   vertex_count cell_count) (geti vertex_cells j))) = false.
Proof.
  intros Hvc Hcells Hj.
  exact (sloppy_cell_remap_best vertex_positions cell_quadrics vertex_cells
           vertex_count cell_count Hvc Hcells j Hj).
Qed.

Lemma tetra_cells_range v : 0 <= v < 4 -> 0 <= geti tetra_cells v < 2.
Proof.
  intros Hv. assert (H : v = 0 \/ v = 1 \/ v = 2 \/ v = 3) by lia.
  destruct H as [ -> | [ -> | [ -> | -> ] ] ]; vm_compute; split; congruence.
Qed.

Lemma sloppy_cell_remap_minimal_error_witness :
  0 <= geti (sloppy_cell_remap tetra_rescaled tetra_cell_quadrics tetra_cells 4 2)
         (geti tetra_cells 2) < 4
  /\ geti tetra_cells
       (geti (sloppy_cell_remap tetra_rescaled tetra_cell_quadrics tetra_cells 4 2)
          (geti tetra_cells 2))
     = geti tetra_cells 2
  /\ F32.ltb (cell_error tetra_rescaled tetra_cell_quadrics tetra_cells 2)
       (cell_error tetra_rescaled tetra_cell_quadrics tetra_cells
          (geti (sloppy_cell_remap tetra_rescaled tetra_cell_quadrics tetra_cells 4 2)
             (geti tetra_cells 2))) = false.
Proof.
  apply (sloppy_cell_remap_minimal_error tetra_rescaled tetra_cell_quadrics tetra_cells 4 2 2).
  - lia.
  - exact tetra_cells_range.
  - lia.
Defined.

(** ** The sloppy simplifier: target and masks *)

(** X19: with a target below 6 indices meshopt_simplifySloppy returns 0
    before it reads anything, and leaves [destination] as it was. *)
Theorem meshopt_simplifySloppy_small_target (destination indices : list Z)
  (index_count : Z) (vertex_positions_data : list Z)
  (vertex_count vertex_positions_stride target_index_count : Z) (target_error : float) :
  0 <= target_index_count < 6 ->
  meshopt_simplifySloppy destination indices index_count vertex_positions_data
    vertex_count vertex_positions_stride target_index_count target_error
  = Some (destination, 0).
Proof.
  intros Ht. unfold meshopt_simplifySloppy.
  rewrite (Z.div_small target_index_count 6) by lia. reflexivity.
Qed.

Lemma meshopt_simplifySloppy_small_target_witness :
  meshopt_simplifySloppy [7; 7; 7; 7; 7; 7] quad_indices 6 quad_positions 4 12 5 F32.one
  = Some ([7; 7; 7; 7; 7; 7], 0).
Proof.
  apply (meshopt_simplifySloppy_small_target [7; 7; 7; 7; 7; 7] quad_indices 6
           quad_positions 4 12 5 F32.one).
  lia.
Defined.

Lemma pass_cases pass :
  0 <= pass <= 9 ->
  pass = 0 \/ pass = 1 \/ pass = 2 \/ pass = 3 \/ pass = 4 \/ pass = 5 \/ pass = 6
  \/ pass = 7 \/ pass = 8 \/ pass = 9.
Proof. lia. Qed.

Ltac each_pass H :=
  apply pass_cases in H;
  repeat (destruct H as [H|H]; [subst|]); [..|subst].

Lemma sloppy_mask_fields pass :
  0 <= pass <= 9 ->
  sloppy_mask pass = upper_bits (pass + 1) * (2 ^ 20 + 2 ^ 10 + 1).
Proof. intros H. each_pass H; reflexivity. Qed.

Lemma sloppy_mask_nested p q :
  0 <= p <= 9 -> 0 <= q <= 9 -> p <= q ->
  Z.land (sloppy_mask q) (sloppy_mask p) = sloppy_mask p.
Proof.
  intros Hp Hq Hpq. each_pass Hp; each_pass Hq; try lia; reflexivity.
Qed.

(** X20: the ten masks of the search of meshopt_simplifySloppy: the mask of
    pass [p] keeps the upper [p + 1] bits of each of the three 10-bit
    fields of an id, it is below 2^30, the mask of a later pass contains
    that of an earlier one, and the last one keeps all 30 bits. *)
Theorem sloppy_mask_refines (p q : Z) :
  0 <= p <= q -> q <= 9 ->
  sloppy_mask p = upper_bits (p + 1) * (2 ^ 20 + 2 ^ 10 + 1)
  /\ 0 <= sloppy_mask p < 2 ^ 30
  /\ Z.land (sloppy_mask q) (sloppy_mask p) = sloppy_mask p
  /\ sloppy_mask 9 = 2 ^ 30 - 1.
Proof.
  intros Hp Hq. split; [apply sloppy_mask_fields; lia|].
  split; [apply sloppy_mask_range; lia|].
  split; [apply sloppy_mask_nested; lia|reflexivity].
Qed.

Lemma sloppy_mask_refines_witness :
  sloppy_mask 3 = upper_bits (3 + 1) * (2 ^ 20 + 2 ^ 10 + 1)
  /\ 0 <= sloppy_mask 3 < 2 ^ 30
  /\ Z.land (sloppy_mask 7) (sloppy_mask 3) = sloppy_mask 3
  /\ sloppy_mask 9 = 2 ^ 30 - 1.
Proof. apply (sloppy_mask_refines 3 7); [lia|lia]. Defined.

(** A loop with [break] whose body ignores the state stops at the first
    index where the test holds, or at the last index. *)
Lemma for_from_break_search {St : Type} (f : Z -> St) (g : Z -> bool) k i s :
  exists p, i <= p <= i + Z.of_nat k
    /\ for_from_break (S k) i (fun q (_ : St) => (f q, g q)) s = f p
    /\ (forall q, i <= q < p -> g q = false)
    /\ (p < i + Z.of_nat k -> g p = true).
Proof.
  revert i s. induction k as [|k IH]; intros i s.
  - exists i. cbn [for_from_break]. split; [lia|]. split; [now destruct (g i)|].
    split; intros; lia.
  - remember (S k) as k' eqn:Ek. cbn [for_from_break]. subst k'.
    destruct (g i) eqn:Eg.
    + exists i. split; [lia|]. split; [reflexivity|]. split; [intros; lia|auto].
    + destruct (IH (i + 1) (f i)) as (p & Hp & Hres & Hbefore & Hat).
      exists p. split; [lia|]. split; [exact Hres|]. split.
      * intros q Hq. destruct (Z.eq_dec q i) as [->|]; [assumption|]. apply Hbefore. lia.
      * intros Hlt. apply Hat. lia.
Qed.

Lemma sloppy_find_mask_search (vertex_ids : list Z)
  (vertex_count count_table_size target_cell_count : Z) :
  exists pass, 0 <= pass <= 9
    /\ sloppy_find_mask vertex_ids vertex_count count_table_size target_cell_count
       = sloppy_mask pass
    /\ (forall p, 0 <= p < pass ->
          sloppy_pass_count vertex_ids vertex_count count_table_size p < target_cell_count)
    /\ (pass < 9 ->
          target_cell_count
          <= sloppy_pass_count vertex_ids vertex_count count_table_size pass).
Proof.
  unfold sloppy_find_mask, for_break. change (Z.to_nat 10) with 10%nat.
  destruct (for_from_break_search sloppy_mask
              (fun p => sloppy_pass_count vertex_ids vertex_count count_table_size p
                        >=? target_cell_count) 9 0 0)
    as (pass & Hp & Hres & Hbefore & Hat).
  exists pass. split; [lia|]. split; [exact Hres|]. split.
  - intros p Hq. specialize (Hbefore p Hq). cbv beta in Hbefore.
    rewrite Z.geb_leb in Hbefore. apply Z.leb_gt in Hbefore. exact Hbefore.
  - intros Hlt. specialize (Hat ltac:(lia)). cbv beta in Hat.
    rewrite Z.geb_leb in Hat. now apply Z.leb_le.
Qed.

(** X21: the mask search of meshopt_simplifySloppy returns the mask of the
    first pass whose approximate cell count reaches the target, and the
    mask of pass 9 when no earlier pass does. *)
Theorem sloppy_find_mask_first_pass (vertex_ids : list Z)
  (vertex_count count_table_size target_cell_count : Z) :
  exists pass, 0 <= pass <= 9
    /\ sloppy_find_mask vertex_ids vertex_count count_table_size target_cell_count
       = sloppy_mask pass
    /\ (forall p, 0 <= p < pass ->
          sloppy_pass_count vertex_ids vertex_count count_table_size p < target_cell_count)
    /\ (pass < 9 ->
          target_cell_count
          <= sloppy_pass_count vertex_ids vertex_count count_table_size pass).
Proof. apply sloppy_find_mask_search. Qed.

(** ** The sloppy simplifier: the triangles written *)

Section EmitExact.
Variables destination indices cell_remap vertex_cells : list Z.
Variable index_count : Z.
Hypothesis Hcount : 0 <= index_count <= len destination.
Hypothesis Hmod : index_count mod 3 = 0.

Let keep := cell_triangle_kept cell_remap vertex_cells indices.

Let inv (t : Z) (st : list Z * Z) : Prop :=
  let kept := filter keep (zrange t) in
  len (fst st) = len destination
  /\ snd st = 3 * len kept
  /\ len kept <= t
  /\ (forall j e, 0 <= j < len kept -> 0 <= e < 3 ->
        geti (fst st) (3 * j + e)
        = cell_corner cell_remap vertex_cells indices (geti kept j) e)
  /\ (forall p, snd st <= p -> geti (fst st) p = geti destination p).

Lemma sloppy_emit_exact_inv :
  inv (triangle_loops index_count)
    (sloppy_emit destination indices index_count cell_remap vertex_cells).
Proof.
  unfold sloppy_emit. apply (for_loop_inv inv).
  - unfold triangle_loops. apply Z.div_pos; lia.
  - unfold inv. cbn [fst snd zrange Z.to_nat seq map filter].
    change (len (@nil Z)) with 0.
    split; [reflexivity|]. split; [reflexivity|]. split; [lia|].
    split; [intros j e Hj; lia|auto].
  - intros t [buffer write] Ht (Hlen & Hw & Hle & Hkept & Hrest). cbn [fst snd] in *.
    pose proof (triangle_in_buffer index_count t ltac:(lia) Hmod Ht) as Hin.
    set (kept := filter keep (zrange t)) in *.
    pose proof (len_nonneg kept) as Hk0.
    change (geti cell_remap (geti vertex_cells (geti indices (3 * t + 0))))
      with (cell_corner cell_remap vertex_cells indices t 0).
    change (geti cell_remap (geti vertex_cells (geti indices (3 * t + 1))))
      with (cell_corner cell_remap vertex_cells indices t 1).
    change (geti cell_remap (geti vertex_cells (geti indices (3 * t + 2))))
      with (cell_corner cell_remap vertex_cells indices t 2).
    fold (cell_triangle_kept cell_remap vertex_cells indices t). fold (keep t).
    unfold inv. rewrite zrange_succ, filter_app by lia. cbn [filter]. fold kept.
    destruct (keep t) eqn:Ek; cbn [fst snd].
    + rewrite !len_aset, len_app. change (len [t]) with 1.
      split; [exact Hlen|]. split; [lia|]. split; [lia|]. split.
      * intros j e Hj He. subst write. rewrite geti_aset3 by lia.
        destruct (Z.eq_dec j (len kept)) as [->|Hne].
        -- rewrite geti_app_last.
           assert (Hc : e = 0 \/ e = 1 \/ e = 2) by lia.
           destruct Hc as [ -> | [ -> | -> ] ]; eqb_decide; reflexivity.
        -- rewrite geti_app_l by lia. eqb_decide. apply Hkept; lia.
      * intros p Hp. subst write. rewrite geti_aset3 by lia. eqb_decide.
        apply Hrest. lia.
    + rewrite app_nil_r.
      split; [exact Hlen|]. split; [exact Hw|]. split; [lia|]. split; assumption.
Qed.

Lemma sloppy_emit_exact_spec :
  len (fst (sloppy_emit destination indices index_count cell_remap vertex_cells))
  = len destination
  /\ snd (sloppy_emit destination indices index_count cell_remap vertex_cells)
     = 3 * len (cell_kept_triangles cell_remap vertex_cells indices index_count)
  /\ (forall j e,
        0 <= j < len (cell_kept_triangles cell_remap vertex_cells indices index_count) ->
        0 <= e < 3 ->
        geti (fst (sloppy_emit destination indices index_count cell_remap vertex_cells))
          (3 * j + e)
        = cell_corner cell_remap vertex_cells indices
            (geti (cell_kept_triangles cell_remap vertex_cells indices index_count) j) e)
  /\ (forall p,
        snd (sloppy_emit destination indices index_count cell_remap vertex_cells) <= p ->
        geti (fst (sloppy_emit destination indices index_count cell_remap vertex_cells)) p
        = geti destination p).
Proof.
  pose proof sloppy_emit_exact_inv as H. unfold inv in H.
  destruct H as (H1 & H2 & _ & H3 & H4). unfold cell_kept_triangles. fold keep. auto.
Qed.
End EmitExact.

(** X22: the fourth pass of meshopt_simplifySloppy writes to the front of
    [destination] exactly the triangles whose three corners have different
    representatives, in their order, each corner replaced by the
    representative of its cell; the count returned is three times their
    number and [destination] from that count on is as it was. *)
Theorem sloppy_emit_exact (destination indices cell_remap vertex_cells : list Z)
  (index_count : Z) :
  0 <= index_count <= len destination ->
  index_count mod 3 = 0 ->
  len (fst (sloppy_emit destination indices index_count cell_remap vertex_cells))
  = len destination
  /\ snd (sloppy_emit destination indices index_count cell_remap vertex_cells)
     = 3 * len (cell_kept_triangles cell_remap vertex_cells indices index_count)
  /\ (forall j e,
        0 <= j < len (cell_kept_triangles cell_remap vertex_cells indices index_count) ->
        0 <= e < 3 ->
        geti (fst (sloppy_emit destination indices index_count cell_remap vertex_cells))
          (3 * j + e)
        = cell_corner cell_remap vertex_cells indices
            (geti (cell_kept_triangles cell_remap vertex_cells indices index_count) j) e)
  /\ (forall p,
        snd (sloppy_emit destination indices index_count cell_remap vertex_cells) <= p ->
        geti (fst (sloppy_emit destination indices index_count cell_remap vertex_cells)) p
        = geti destination p).
Proof. intros Hcount Hmod. now apply sloppy_emit_exact_spec. Qed.

Lemma sloppy_emit_exact_witness :
  len (fst (sloppy_emit emit_destination tetra_indices 12 emit_remap emit_cells))
  = len emit_destination
  /\ snd (sloppy_emit emit_destination tetra_indices 12 emit_remap emit_cells)
     = 3 * len (cell_kept_triangles emit_remap emit_cells tetra_indices 12)
  /\ (forall j e,
        0 <= j < len (cell_kept_triangles emit_remap emit_cells tetra_indices 12) ->
        0 <= e < 3 ->
        geti (fst (sloppy_emit emit_destination tetra_indices 12 emit_remap emit_cells))
          (3 * j + e)
        = cell_corner emit_remap emit_cells tetra_indices
            (geti (cell_kept_triangles emit_remap emit_cells tetra_indices 12) j) e)
  /\ (forall p,
        snd (sloppy_emit emit_destination tetra_indices 12 emit_remap emit_cells) <= p ->
        geti (fst (sloppy_emit emit_destination tetra_indices 12 emit_remap emit_cells)) p
        = geti emit_destination p).
Proof.
  apply (sloppy_emit_exact emit_destination tetra_indices emit_remap emit_cells 12).
  - vm_compute. split; discriminate.
  - reflexivity.
Defined.

(** ** The sloppy simplifier: what is returned *)

Lemma geti_In a j : 0 <= j < len a -> In (geti a j) a.
Proof. intros Hj. unfold geti. now apply aget_In. Qed.

Lemma cell_triangle_kept_distinct cell_remap vertex_cells indices t e e' :
  cell_triangle_kept cell_remap vertex_cells indices t = true ->
  0 <= e < 3 -> 0 <= e' < 3 -> e <> e' ->
  cell_corner cell_remap vertex_cells indices t e
  <> cell_corner cell_remap vertex_cells indices t e'.
Proof.
  unfold cell_triangle_kept. intros H He He' Hne.
  apply andb_prop in H. destruct H as [H H12]. apply andb_prop in H. destruct H as [H01 H02].
  apply negb_true_iff, Z.eqb_neq in H01, H02, H12.
  assert (Hc : e = 0 \/ e = 1 \/ e = 2) by lia.
  assert (Hc' : e' = 0 \/ e' = 1 \/ e' = 2) by lia.
  destruct Hc as [ -> | [ -> | -> ] ], Hc' as [ -> | [ -> | -> ] ]; congruence.
Qed.

Lemma meshopt_simplifySloppy_spec destination indices index_count vertex_positions_data
  vertex_count vertex_positions_stride target_index_count target_error :
  valid_input indices index_count vertex_count ->
  index_count <= len destination ->
  6 <= target_index_count <= index_count ->
  exists result write pass,
    meshopt_simplifySloppy destination indices index_count vertex_positions_data
      vertex_count vertex_positions_stride target_index_count target_error
    = Some (result, write)
    /\ 0 <= pass <= 9
    /\ forall j, 0 <= j -> 3 * j + 2 < write ->
         exists t, 0 <= t /\ 3 * t + 2 < index_count
           /\ clustered_triangle
                (sloppy_ids vertex_positions_data vertex_count vertex_positions_stride)
                (sloppy_mask pass) vertex_count indices result t j.
Proof.
  intros Hvalid Hroom Htarget. pose proof (valid_input_buffer _ _ _ Hvalid) as Hbuf.
  destruct Hvalid as (Hlen & Hmod & Hic & Hvc & Hall).
  destruct Hbuf as (Hb & _ & Hidx).
  unfold meshopt_simplifySloppy, sloppy_ids.
  assert (Hdiv : 1 <= target_index_count / 6) by (apply Z.div_le_lower_bound; lia).
  destruct (Z.eqb_spec (target_index_count / 6) 0) as [Hz|_]; [lia|].
  assert (H263 : 2 ^ 32 <= 2 ^ 63) by (apply Z.pow_le_mono_r; lia).
  destruct (hashBuckets2_pow2 vertex_count) as (n & Hn & -> & Hsize); [lia|].
  cbn [bind].
  destruct (hashBuckets2_pow2 (target_index_count / 6 * 4)) as (n' & Hn' & -> & Hsize').
  { assert (target_index_count / 6 <= target_index_count)
      by (apply Z.div_le_upper_bound; lia).
    change (2 ^ 63) with (2 ^ 32 * 2147483648). lia. }
  cbn [bind].
  set (vertex_positions := rescalePositions _ _ _).
  set (vertex_ids := sloppy_vertex_ids _ _).
  destruct (sloppy_find_mask_search vertex_ids vertex_count (2 ^ n') (target_index_count / 6))
    as (pass & Hpass & -> & _).
  destruct (sloppy_fill_cells_spec vertex_ids vertex_count n (sloppy_mask pass) Hvc
              ltac:(lia) Hsize ltac:(apply sloppy_mask_range; lia))
    as (vertex_cells & cell_count & -> & Hlv & Hcc & Hcells & Hsame & _).
  cbn [bind].
  set (cell_quadrics := fillFaceQuadrics _ _ _ _ _).
  set (cell_remap := sloppy_cell_remap _ _ _ _ _).
  pose proof (sloppy_emit_exact_spec destination indices cell_remap vertex_cells index_count
                ltac:(lia) Hmod) as (_ & Hw & Hkept & _).
  destruct (sloppy_emit destination indices index_count cell_remap vertex_cells)
    as [result write]. cbn [fst snd] in *.
  exists result, write, pass. split; [reflexivity|]. split; [exact Hpass|].
  intros j Hj Hjw.
  set (kept := cell_kept_triangles cell_remap vertex_cells indices index_count) in *.
  assert (Hjk : 0 <= j < len kept) by lia.
  pose proof (geti_In kept j Hjk) as Hin. unfold kept, cell_kept_triangles in Hin.
  apply filter_In in Hin. destruct Hin as [Ht Hkeep].
  apply zrange_In in Ht.
  change (filter (cell_triangle_kept cell_remap vertex_cells indices)
            (zrange (triangle_loops index_count))) with kept in Ht, Hkeep.
  pose proof (triangle_in_buffer index_count (geti kept j) ltac:(lia) Hmod Ht) as Htin.
  exists (geti kept j). split; [lia|]. split; [exact Htin|].
  assert (Hrep : forall e, 0 <= e < 3 ->
            0 <= geti result (3 * j + e) < vertex_count
            /\ geti vertex_cells (geti result (3 * j + e))
               = geti vertex_cells (geti indices (3 * geti kept j + e))).
  { intros e He. rewrite (Hkept j e Hjk He). unfold cell_corner.
    pose proof (Hidx (3 * geti kept j + e) ltac:(lia)) as Hv.
    destruct (sloppy_cell_remap_best vertex_positions cell_quadrics vertex_cells
                vertex_count cell_count Hvc Hcells _ Hv) as (Hr & Hc & _).
    fold cell_remap in Hr, Hc. split; assumption. }
  split.
  - intros e He. destruct (Hrep e He) as [Hr Hc]. split; [exact Hr|].
    apply Hsame; [exact Hr|apply Hidx; lia|exact Hc].
  - intros e e' He He' Hne Heq.
    apply (cell_triangle_kept_distinct _ _ _ _ e e' Hkeep He He' Hne).
    unfold cell_corner. f_equal.
    apply Hsame; [apply Hidx; lia|apply Hidx; lia|exact Heq].
Qed.

(** X23: for a valid mesh, room for [index_count] indices and a target of
    at least 6, meshopt_simplifySloppy returns, and for the mask of one of
    the ten passes every triangle it returns is a triangle of the input
    whose corners lie in three different grid cells, each corner replaced
    by a vertex of the same grid cell. *)
Theorem meshopt_simplifySloppy_clusters (destination indices : list Z) (index_count : Z)
  (vertex_positions_data : list Z)
  (vertex_count vertex_positions_stride target_index_count : Z) (target_error : float) :
  valid_input indices index_count vertex_count ->
  index_count <= len destination ->
  6 <= target_index_count <= index_count ->
  exists result write pass,
    meshopt_simplifySloppy destination indices index_count vertex_positions_data
      vertex_count vertex_positions_stride target_index_count target_error
    = Some (result, write)
    /\ 0 <= pass <= 9
    /\ forall j, 0 <= j -> 3 * j + 2 < write ->
         exists t, 0 <= t /\ 3 * t + 2 < index_count
           /\ clustered_triangle
                (sloppy_ids vertex_positions_data vertex_count vertex_positions_stride)
                (sloppy_mask pass) vertex_count indices result t j.
Proof. intros Hvalid Hroom Htarget. now apply meshopt_simplifySloppy_spec. Qed.

Lemma tetra_valid : valid_input tetra_indices 12 4.
Proof. valid_input_now. Qed.

Lemma meshopt_simplifySloppy_clusters_witness :
  meshopt_simplifySloppy emit_destination tetra_indices 12 tetra_positions 4 12 12 F32.one
  = Some ([0; 3; 2; 0; 2; 3; 9; 9; 9; 9; 9; 9], 6)
  /\ exists result write pass,
       meshopt_simplifySloppy emit_destination tetra_indices 12 tetra_positions 4 12 12
         F32.one
       = Some (result, write)
       /\ 0 <= pass <= 9
       /\ forall j, 0 <= j -> 3 * j + 2 < write ->
            exists t, 0 <= t /\ 3 * t + 2 < 12
              /\ clustered_triangle (sloppy_ids tetra_positions 4 12)
                   (sloppy_mask pass) 4 tetra_indices result t j.
Proof.
  split; [vm_compute; reflexivity|].
  apply (meshopt_simplifySloppy_clusters emit_destination tetra_indices 12 tetra_positions
           4 12 12 F32.one).
  - exact tetra_valid.
  - vm_compute. discriminate.
  - lia.
Defined.

(** ** The sloppy simplifier: the approximate count *)

Lemma count_bucket_range vertex_ids mask m j :
  0 <= m -> 0 <= count_bucket vertex_ids mask (2 ^ m) j < 2 ^ m.
Proof.
  intros Hm. unfold count_bucket. rewrite land_pow2_pred by assumption.
  apply Z.mod_pos_bound. lia.
Qed.

Lemma len_cons {A : Type} (x : A) l : len (x :: l) = len l + 1.
Proof. unfold len. cbn [length]. lia. Qed.

Section CountCells.
Variable vertex_ids : list Z.
Variables vertex_count m mask : Z.
Hypothesis Hvc : 0 <= vertex_count.
Hypothesis Hm : 0 <= m.

Lemma sloppy_count_cells_inv :
  count_inv vertex_ids mask (2 ^ m) vertex_count
    (for_loop vertex_count
       (fun i '(cell_count, count_table) =>
          let id := Z.land (geti vertex_ids i) mask in
          let cell := HashCell.mk id 0 in
          let hash := Z.land (hash HashCellHasher cell) (2 ^ m - 1) in
          (cell_count + (1 - geti count_table hash), aset count_table hash 1))
       (0, repeat 0 (Z.to_nat (2 ^ m)))).
Proof.
  assert (Hpow : 0 < 2 ^ m) by (apply Z.pow_pos_nonneg; lia).
  apply (for_loop_inv (count_inv vertex_ids mask (2 ^ m))); [assumption| |].
  - unfold count_inv. rewrite len_repeat by lia. split; [reflexivity|].
    exists []. split; [constructor|]. split; [reflexivity|].
    split; [intros h []|]. split; [intros; lia|].
    intros h Hh. unfold geti. rewrite aget_repeat by lia. now destruct (in_dec _ _ _).
  - intros i [cell_count count_table] Hi (Hlen & marked & Hnd & Hcount & Hfrom & Hall & Htab).
    fold (masked_id vertex_ids mask i). fold (count_bucket vertex_ids mask (2 ^ m) i).
    pose proof (count_bucket_range vertex_ids mask m i Hm) as Hb.
    set (b := count_bucket vertex_ids mask (2 ^ m) i) in *.
    unfold count_inv.
    change (Z.land (hash HashCellHasher (HashCell.mk (masked_id vertex_ids mask i) 0))
              (2 ^ m - 1)) with b.
    rewrite len_aset. split; [exact Hlen|].
    pose proof (Htab b Hb) as Hgb. revert Hgb.
    destruct (in_dec Z.eq_dec b marked) as [Hin|Hnin]; intros Hgb.
    + exists marked. split; [exact Hnd|]. split; [lia|]. split; [|split].
      * intros h Hh. destruct (Hfrom h Hh) as (j & Hj & Ej). exists j. split; [lia|exact Ej].
      * intros j Hj. destruct (Z.eq_dec j i) as [->|Hne]; [exact Hin|]. apply Hall. lia.
      * intros h Hh. rewrite geti_aset_in by lia.
        destruct (Z.eqb_spec h b) as [->|Hne]; [|now apply Htab].
        destruct (in_dec Z.eq_dec b marked); [reflexivity|contradiction].
    + exists (b :: marked). split; [now constructor|]. split; [rewrite len_cons; lia|].
      split; [|split].
      * intros h [<-|Hh]; [exists i; split; [lia|reflexivity]|].
        destruct (Hfrom h Hh) as (j & Hj & Ej). exists j. split; [lia|exact Ej].
      * intros j Hj. destruct (Z.eq_dec j i) as [->|Hne]; [now left|].
        right. apply Hall. lia.
      * intros h Hh. rewrite geti_aset_in by lia.
        destruct (Z.eqb_spec h b) as [->|Hne].
        -- destruct (in_dec Z.eq_dec b (b :: marked)) as [_|Hc]; [reflexivity|].
           exfalso. apply Hc. now left.
        -- rewrite (Htab h Hh).
           destruct (in_dec Z.eq_dec h marked) as [H1|H1],
                    (in_dec Z.eq_dec h (b :: marked)) as [H2|H2]; try reflexivity.
           ++ exfalso. apply H2. now right.
           ++ exfalso. destruct H2 as [H2|H2]; [congruence|contradiction].
Qed.

(** The approximate count is the number of different bytes marked. *)
Lemma sloppy_count_cells_marked :
  exists marked,
    NoDup marked
    /\ sloppy_count_cells vertex_ids vertex_count (2 ^ m) mask = len marked
    /\ (forall h, In h marked <->
          exists j, 0 <= j < vertex_count /\ count_bucket vertex_ids mask (2 ^ m) j = h).
Proof.
  pose proof sloppy_count_cells_inv as H. unfold sloppy_count_cells.
  destruct (for_loop _ _ _) as [cell_count count_table].
  destruct H as (_ & marked & Hnd & Hcount & Hfrom & Hall & _).
  exists marked. split; [exact Hnd|]. split; [exact Hcount|].
  intros h. split; [apply Hfrom|]. intros (j & Hj & <-). now apply Hall.
Qed.

Lemma first_of_cell_spec vertex_cells j :
  0 <= j < vertex_count ->
  0 <= first_of_cell vertex_cells vertex_count (geti vertex_cells j) < vertex_count
  /\ geti vertex_cells (first_of_cell vertex_cells vertex_count (geti vertex_cells j))
     = geti vertex_cells j.
Proof.
  intros Hj. unfold first_of_cell.
  destruct (find _ _) as [j'|] eqn:E.
  - apply find_some in E. destruct E as [Hin E]. apply zrange_In in Hin.
    apply Z.eqb_eq in E. auto.
  - exfalso. pose proof (find_none _ _ E j) as H. cbv beta in H.
    rewrite Z.eqb_refl in H. specialize (H ltac:(apply zrange_In; lia)). discriminate.
Qed.

Lemma sloppy_count_cells_below vertex_cells cell_count :
  cells_of_ids vertex_ids vertex_count mask vertex_cells cell_count ->
  0 <= sloppy_count_cells vertex_ids vertex_count (2 ^ m) mask <= cell_count
  /\ sloppy_count_cells vertex_ids vertex_count (2 ^ m) mask <= 2 ^ m.
Proof.
  intros (Hlv & Hcc & Hcells & Hsame & _).
  destruct sloppy_count_cells_marked as (marked & Hnd & -> & Hmarked).
  split; [split; [apply len_nonneg|]|].
  - assert (Hincl : incl marked
              (map (fun c => count_bucket vertex_ids mask (2 ^ m)
                               (first_of_cell vertex_cells vertex_count c))
                 (zrange cell_count))).
    { intros h Hh. apply Hmarked in Hh. destruct Hh as (j & Hj & <-).
      apply in_map_iff. exists (geti vertex_cells j).
      destruct (first_of_cell_spec vertex_cells j Hj) as (Hr & Hc).
      split; [|apply zrange_In; now apply Hcells].
      unfold count_bucket. do 3 f_equal. now apply Hsame. }
    pose proof (NoDup_incl_length Hnd Hincl) as Hle.
    rewrite length_map, zrange_length in Hle by lia. unfold len. lia.
  - assert (Hincl : incl marked (zrange (2 ^ m))).
    { intros h Hh. apply Hmarked in Hh. destruct Hh as (j & Hj & <-).
      apply zrange_In. now apply count_bucket_range. }
    pose proof (NoDup_incl_length Hnd Hincl) as Hle.
    assert (0 < 2 ^ m) by (apply Z.pow_pos_nonneg; lia).
    rewrite zrange_length in Hle by lia. unfold len. lia.
Qed.
End CountCells.

(** X24: the count of the mask search is approximate from below: for a
    count table of 2^m bytes it is the number of different bytes that the
    vertices mark, each vertex marking the byte of the hash of its masked
    id; that number exceeds neither the number of cells that the fill loop
    finds for the same mask nor the size of the table. *)
Theorem sloppy_count_cells_lower_bound (vertex_ids : list Z) (vertex_count n m mask : Z)
  (vertex_cells : list Z) (cell_count : Z) :
  0 <= vertex_count < 2 ^ 32 ->
  0 <= n ->
  vertex_count <= 2 ^ n ->
  0 <= mask < 2 ^ 30 ->
  0 <= m ->
  sloppy_fill_cells vertex_ids vertex_count (2 ^ n) mask = Some (vertex_cells, cell_count) ->
  exists marked,
    NoDup marked
    /\ sloppy_count_cells vertex_ids vertex_count (2 ^ m) mask = len marked
    /\ (forall h, In h marked <->
          exists j, 0 <= j < vertex_count
                    /\ count_bucket vertex_ids mask (2 ^ m) j = h)
    /\ len marked <= cell_count
    /\ len marked <= 2 ^ m.
Proof.
  intros Hvc Hn Hsize Hmask Hm Hfill.
  destruct (sloppy_fill_cells_spec vertex_ids vertex_count n mask Hvc Hn Hsize Hmask)
    as (cells & count & E & Hcells).
  rewrite E in Hfill. injection Hfill as E1 E2. subst cells count.
  pose proof (sloppy_count_cells_below vertex_ids vertex_count m mask ltac:(lia) Hm
                vertex_cells cell_count Hcells) as [[_ Hle] Hsz].
  destruct (sloppy_count_cells_marked vertex_ids vertex_count m mask ltac:(lia) Hm)
    as (marked & Hnd & Hcount & Hmarked).
  exists marked. rewrite Hcount in Hle, Hsz. auto.
Qed.

Lemma sloppy_count_cells_lower_bound_witness :
  sloppy_count_cells [5; 16; 7; 5] 4 (2 ^ 1) (sloppy_mask 5) = 2
  /\ exists marked,
       NoDup marked
       /\ sloppy_count_cells [5; 16; 7; 5] 4 (2 ^ 1) (sloppy_mask 5) = len marked
       /\ (forall h, In h marked <->
             exists j, 0 <= j < 4
                       /\ count_bucket [5; 16; 7; 5] (sloppy_mask 5) (2 ^ 1) j = h)
       /\ len marked <= 2
       /\ len marked <= 2 ^ 1.
Proof.
  split; [vm_compute; reflexivity|].
  apply (sloppy_count_cells_lower_bound [5; 16; 7; 5] 4 2 1 (sloppy_mask 5) [0; 1; 0; 0] 2).
  - lia.
  - lia.
  - vm_compute. discriminate.
  - vm_compute. split; [discriminate|reflexivity].
  - lia.
  - reflexivity.
Defined.

(** ** The radix key and the order of the errors *)

Lemma sort_key_div w : 0 <= w < 2 ^ 31 -> sort_key w = w / 2 ^ 20.
Proof.
  intros Hw. unfold sort_key, u32, sort_bits. rewrite Z.shiftl_mul_pow2 by lia.
  rewrite Z.mod_small by lia. rewrite Z.shiftr_div_pow2 by lia.
  change (32 - 11) with (1 + 20). rewrite Z.pow_add_r by lia.
  rewrite Z.mul_comm. change (2 ^ 1) with 2.
  rewrite Z.div_mul_cancel_l by lia. reflexivity.
Qed.

Lemma sort_key_lt wx wy :
  0 <= wx < 2 ^ 31 -> 0 <= wy < 2 ^ 31 -> sort_key wx < sort_key wy -> wx < wy.
Proof.
  intros Hx Hy. rewrite !sort_key_div by assumption. intros H.
  destruct (Z.lt_ge_cases wx wy) as [|Hge]; [assumption|].
  pose proof (Z.div_le_mono wy wx (2 ^ 20) ltac:(lia) Hge). lia.
Qed.

Lemma testbit_31_clear w : 0 <= w < 2 ^ 31 -> Z.testbit w 31 = false.
Proof.
  intros Hw. destruct (Z.eq_dec w 0) as [->|Hne]; [reflexivity|].
  apply Z.bits_above_log2; [lia|]. apply Z.log2_lt_pow2; lia.
Qed.

Lemma of_bits_key w :
  0 <= w <= word_infinity ->
  F32.is_nan (F32.of_bits w) = false /\ float_key (F32.of_bits w) = word_key w.
Proof.
  unfold word_infinity. intros Hw. unfold F32.of_bits, word_key.
  rewrite testbit_31_clear by lia.
  rewrite Z.shiftr_div_pow2 by lia.
  change 255 with (Z.ones 8). change 8388607 with (Z.ones 23).
  rewrite !Z.land_ones by lia.
  pose proof (Z.div_mod w (2 ^ 23) ltac:(lia)) as Hdm.
  pose proof (Z.mod_pos_bound w (2 ^ 23) ltac:(lia)) as Hm.
  assert (He : 0 <= w / 2 ^ 23 <= 255).
  { split; [apply Z.div_pos; lia|]. apply Z.div_le_upper_bound; lia. }
  rewrite (Z.mod_small (w / 2 ^ 23)) by lia.
  change (Z.ones 8) with 255.
  destruct (Z.eqb_spec (w / 2 ^ 23) 0) as [E0|E0].
  - destruct (w mod 2 ^ 23) as [|p|p] eqn:Em; [split; reflexivity|split; reflexivity|lia].
  - destruct (Z.eqb_spec (w / 2 ^ 23) 255) as [E1|E1].
    + assert (Em : w mod 2 ^ 23 = 0) by lia. rewrite Em. split; reflexivity.
    + destruct (w mod 2 ^ 23 + 8388608) as [|p|p] eqn:Em; [lia| |lia].
      cbn [F32.is_nan float_key]. split; [reflexivity|].
      change (2 ^ 23) with 8388608 in *. now rewrite Em.
Qed.

Lemma word_key_lt wx wy :
  0 <= wx -> wx < wy -> wy <= word_infinity -> lex_lt (word_key wx) (word_key wy).
Proof.
  unfold word_infinity, word_key. intros Hx Hlt Hy.
  pose proof (Z.div_mod wx (2 ^ 23) ltac:(lia)) as Hdx.
  pose proof (Z.mod_pos_bound wx (2 ^ 23) ltac:(lia)) as Hmx.
  pose proof (Z.div_mod wy (2 ^ 23) ltac:(lia)) as Hdy.
  pose proof (Z.mod_pos_bound wy (2 ^ 23) ltac:(lia)) as Hmy.
  assert (Hex : 0 <= wx / 2 ^ 23) by (apply Z.div_pos; lia).
  assert (Hey : wy / 2 ^ 23 <= 255) by (apply Z.div_le_upper_bound; lia).
  assert (Hexy : wx / 2 ^ 23 <= wy / 2 ^ 23) by (apply Z.div_le_mono; lia).
  change (2 ^ 23) with 8388608 in *.
  destruct (Z.eqb_spec (wx / 8388608) 0), (Z.eqb_spec (wx mod 8388608) 0),
           (Z.eqb_spec (wx / 8388608) 255), (Z.eqb_spec (wy / 8388608) 0),
           (Z.eqb_spec (wy mod 8388608) 0), (Z.eqb_spec (wy / 8388608) 255);
    unfold lex_lt; lia.
Qed.

(** Among the words of the floats that are neither negative nor NaN, the
    order of the words is the order of the floats. *)
Lemma of_bits_ltb wx wy :
  0 <= wx -> wx < wy -> wy <= word_infinity ->
  F32.ltb (F32.of_bits wx) (F32.of_bits wy) = true.
Proof.
  intros Hx Hlt Hy.
  destruct (of_bits_key wx ltac:(lia)) as [Nx Kx].
  destruct (of_bits_key wy ltac:(lia)) as [Ny Ky].
  apply F32_ltb_key; [assumption|assumption|]. rewrite Kx, Ky. now apply word_key_lt.
Qed.

Lemma sortEdgeCollapses_error_order sort_order collapses collapse_count p q :
  0 <= collapse_count < 2 ^ 32 ->
  collapse_count <= len sort_order ->
  (forall i, 0 <= i < collapse_count -> word_error (collapse_at collapses i)) ->
  0 <= p < q -> q < collapse_count ->
  F32.ltb
    (Collapse.error (collapse_at collapses
       (geti (sortEdgeCollapses sort_order collapses collapse_count) p)))
    (Collapse.error (collapse_at collapses
       (geti (sortEdgeCollapses sort_order collapses collapse_count) q))) = true
  \/ collapse_key collapses (geti (sortEdgeCollapses sort_order collapses collapse_count) p)
     = collapse_key collapses (geti (sortEdgeCollapses sort_order collapses collapse_count) q).
Proof.
  intros Hn Hso Hwords Hp Hq.
  pose proof (sortEdgeCollapses_range collapses collapse_count sort_order Hn Hso p
                ltac:(lia)) as Hrp.
  pose proof (sortEdgeCollapses_range collapses collapse_count sort_order Hn Hso q
                ltac:(lia)) as Hrq.
  destruct (sortEdgeCollapses_ordered collapses collapse_count sort_order Hn Hso p q Hp Hq)
    as [Hlt|[Heq _]]; [left|now right].
  destruct (Hwords _ Hrp) as [Hwp ->]. destruct (Hwords _ Hrq) as [Hwq ->].
  unfold word_infinity in *. unfold collapse_key in Hlt.
  apply of_bits_ltb; unfold word_infinity; try lia.
  apply sort_key_lt; [lia|lia|exact Hlt].
Qed.

(** X25: when the errors are floats that are neither negative nor NaN,
    sortEdgeCollapses orders them up to the precision of the radix key:
    of two records of the order, the earlier has the smaller error unless
    the two have the same key. *)
Theorem sortEdgeCollapses_ascending_up_to_key (sort_order : list Z)
  (collapses : list Collapse.t) (collapse_count p q : Z) :
  0 <= collapse_count < 2 ^ 32 ->
  collapse_count <= len sort_order ->
  (forall i, 0 <= i < collapse_count -> word_error (collapse_at collapses i)) ->
  0 <= p < q -> q < collapse_count ->
  F32.ltb
    (Collapse.error (collapse_at collapses
       (geti (sortEdgeCollapses sort_order collapses collapse_count) p)))
    (Collapse.error (collapse_at collapses
       (geti (sortEdgeCollapses sort_order collapses collapse_count) q))) = true
  \/ collapse_key collapses (geti (sortEdgeCollapses sort_order collapses collapse_count) p)
     = collapse_key collapses (geti (sortEdgeCollapses sort_order collapses collapse_count) q).
Proof.
  intros Hn Hso Hwords Hp Hq. now apply sortEdgeCollapses_error_order.
Qed.

Lemma far_errors_words i : 0 <= i < 2 -> word_error (collapse_at far_errors i).
Proof.
  intros Hi. assert (H : i = 0 \/ i = 1) by lia.
  destruct H as [ -> | -> ]; (split; [vm_compute; split; discriminate|reflexivity]).
Qed.

Lemma sortEdgeCollapses_ascending_up_to_key_witness :
  F32.ltb
    (Collapse.error (collapse_at far_errors (geti (sortEdgeCollapses [0; 0] far_errors 2) 0)))
    (Collapse.error (collapse_at far_errors (geti (sortEdgeCollapses [0; 0] far_errors 2) 1)))
  = true
  \/ collapse_key far_errors (geti (sortEdgeCollapses [0; 0] far_errors 2) 0)
     = collapse_key far_errors (geti (sortEdgeCollapses [0; 0] far_errors 2) 1).
Proof.
  apply (sortEdgeCollapses_ascending_up_to_key [0; 0] far_errors 2 0 1).
  - lia.
  - vm_compute. discriminate.
  - exact far_errors_words.
  - lia.
  - lia.
Defined.

(** ** Remapping the edge loops in place *)

Section RemapEdgeLoops.
Variables loop collapse_remap : list Z.
Variable vertex_count : Z.
Hypothesis Hlen : len loop = vertex_count.

Let inv (i : Z) (cur : list Z) : Prop :=
  len cur = vertex_count
  /\ (forall j, i <= j -> geti cur j = geti loop j)
  /\ (forall j, 0 <= j < i -> loop_remapped loop collapse_remap cur j).

Lemma loop_remapped_frame cur i v j :
  0 <= j < i -> i < len cur ->
  loop_remapped loop collapse_remap cur j ->
  loop_remapped loop collapse_remap (aset cur i v) j.
Proof.
  intros Hj Hi. unfold loop_remapped.
  rewrite (geti_aset_in cur i v j) by lia.
  replace (j =? i) with false by (symmetry; apply Z.eqb_neq; lia).
  destruct (geti loop j =? NONE32); [auto|].
  destruct (j =? geti collapse_remap (geti loop j)); [|auto].
  destruct (Z.ltb_spec (geti loop j) j) as [Hl|Hl]; [|auto].
  rewrite (geti_aset_in cur i v (geti loop j)) by lia.
  replace (geti loop j =? i) with false by (symmetry; apply Z.eqb_neq; lia). auto.
Qed.

Lemma remapEdgeLoops_inv :
  inv vertex_count (remapEdgeLoops loop vertex_count collapse_remap).
Proof.
  pose proof (len_nonneg loop) as H0.
  unfold remapEdgeLoops. apply (for_loop_inv inv); [lia| |].
  - unfold inv. split; [assumption|]. split; [reflexivity|intros; lia].
  - intros i cur Hi (Hl & Hrest & Hdone).
    pose proof (Hrest i ltac:(lia)) as Ei. rewrite Ei.
    destruct (Z.eqb_spec (geti loop i) NONE32) as [Hnone|Hsome]; cbn [negb].
    + unfold inv. split; [assumption|]. split; [intros j Hj; apply Hrest; lia|].
      intros j Hj. destruct (Z.eq_dec j i) as [->|Hne]; [|apply Hdone; lia].
      unfold loop_remapped. rewrite Hnone, Z.eqb_refl. now rewrite Ei.
    + unfold inv. rewrite len_aset. split; [assumption|]. split.
      * intros j Hj. rewrite geti_aset_in by lia.
        replace (j =? i) with false by (symmetry; apply Z.eqb_neq; lia).
        apply Hrest. lia.
      * intros j Hj. destruct (Z.eq_dec j i) as [->|Hne];
          [|apply loop_remapped_frame; [lia|lia|apply Hdone; lia]].
        unfold loop_remapped.
        replace (geti loop i =? NONE32) with false by (symmetry; now apply Z.eqb_neq).
        rewrite (geti_aset_in cur i _ i) by lia. rewrite Z.eqb_refl.
        destruct (i =? geti collapse_remap (geti loop i)); [|reflexivity].
        destruct (Z.ltb_spec (geti loop i) i) as [Hlt|Hge].
        -- rewrite (geti_aset_in cur i _ (geti loop i)) by lia.
           replace (geti loop i =? i) with false by (symmetry; apply Z.eqb_neq; lia).
           reflexivity.
        -- apply Hrest. exact Hge.
Qed.

Lemma remapEdgeLoops_spec :
  len (remapEdgeLoops loop vertex_count collapse_remap) = vertex_count
  /\ (forall j, 0 <= j < vertex_count ->
        loop_remapped loop collapse_remap
          (remapEdgeLoops loop vertex_count collapse_remap) j)
  /\ ((forall v, 0 <= v < vertex_count -> geti collapse_remap v = v) ->
      (forall j, 0 <= j < vertex_count ->
         geti loop j = NONE32 \/ 0 <= geti loop j < vertex_count) ->
      forall j, 0 <= j < vertex_count ->
        geti (remapEdgeLoops loop vertex_count collapse_remap) j = geti loop j).
Proof.
  destruct remapEdgeLoops_inv as (Hl & _ & Hdone).
  split; [exact Hl|]. split; [exact Hdone|].
  intros Hid Hvalid j Hj. pose proof (Hdone j Hj) as H. unfold loop_remapped in H.
  destruct (Z.eqb_spec (geti loop j) NONE32) as [E|E]; [congruence|].
  destruct (Hvalid j Hj) as [|Hr]; [contradiction|].
  rewrite (Hid _ Hr) in H.
  destruct (Z.eqb_spec j (geti loop j)) as [E'|E']; [|exact H].
  rewrite <- E' in H. rewrite Z.ltb_irrefl in H. exact H.
Qed.
End RemapEdgeLoops.

(** X26: remapEdgeLoops works in place on an array of [vertex_count]
    entries: an entry ~0u stays, any other entry [l] becomes
    [collapse_remap[l]], except where that is the vertex itself: there the
    entry becomes [loop[l]], read after the update when [l] comes before
    the vertex and before it otherwise.  With a [collapse_remap] that is
    the identity nothing changes. *)
Theorem remapEdgeLoops_in_place (loop collapse_remap : list Z) (vertex_count : Z) :
  len loop = vertex_count ->
  len (remapEdgeLoops loop vertex_count collapse_remap) = vertex_count
  /\ (forall j, 0 <= j < vertex_count ->
        loop_remapped loop collapse_remap
          (remapEdgeLoops loop vertex_count collapse_remap) j)
  /\ ((forall v, 0 <= v < vertex_count -> geti collapse_remap v = v) ->
      (forall j, 0 <= j < vertex_count ->
         geti loop j = NONE32 \/ 0 <= geti loop j < vertex_count) ->
      forall j, 0 <= j < vertex_count ->
        geti (remapEdgeLoops loop vertex_count collapse_remap) j = geti loop j).
Proof. intros Hlen. now apply remapEdgeLoops_spec. Qed.

Lemma remapEdgeLoops_in_place_witness :
  len (remapEdgeLoops quad_loop 4 quad_collapse) = 4
  /\ (forall j, 0 <= j < 4 ->
        loop_remapped quad_loop quad_collapse (remapEdgeLoops quad_loop 4 quad_collapse) j)
  /\ ((forall v, 0 <= v < 4 -> geti quad_collapse v = v) ->
      (forall j, 0 <= j < 4 -> geti quad_loop j = NONE32 \/ 0 <= geti quad_loop j < 4) ->
      forall j, 0 <= j < 4 ->
        geti (remapEdgeLoops quad_loop 4 quad_collapse) j = geti quad_loop j).
Proof. apply (remapEdgeLoops_in_place quad_loop quad_collapse 4). reflexivity. Defined.

(** ** The bounding box of rescalePositions *)

Lemma F32_ltb_not_nan x y :
  F32.ltb x y = true -> F32.is_nan x = false /\ F32.is_nan y = false.
Proof.
  intros H. split.
  - destruct (F32.is_nan x) eqn:E; [|reflexivity].
    rewrite F32_ltb_nan_l in H by assumption. discriminate.
  - destruct (F32.is_nan y) eqn:E; [|reflexivity].
    rewrite F32_ltb_nan_r in H by assumption. discriminate.
Qed.

(** Nothing that [y] is not smaller than is larger than something larger
    than [y]. *)
Lemma F32_not_ltb_above x y z :
  F32.ltb y x = false -> F32.ltb y z = true -> F32.ltb z x = false.
Proof.
  intros Hyx Hyz. destruct (F32.ltb z x) eqn:E; [|reflexivity].
  rewrite (F32_ltb_trans y z x Hyz E) in Hyx. discriminate.
Qed.

Lemma lower_bound_start f start :
  F32.is_nan start = false -> lower_bound_of f start 0 start.
Proof. intros H. split; [exact H|]. split; [intros; lia|now left]. Qed.

Lemma upper_bound_start f start :
  F32.is_nan start = false -> upper_bound_of f start 0 start.
Proof. intros H. split; [exact H|]. split; [intros; lia|now left]. Qed.

Lemma lower_bound_step f start i m :
  0 <= i -> lower_bound_of f start i m ->
  lower_bound_of f start (i + 1) (track_min m (f i)).
Proof.
  intros Hi (Hnan & Hlow & Hat). unfold track_min.
  destruct (F32.gtb m (f i)) eqn:E.
  - unfold F32.gtb in E. fold (F32.ltb (f i) m) in E.
    split; [apply (F32_ltb_not_nan _ _ E)|]. split.
    + intros j Hj. unfold F32.gtb. fold (F32.ltb (f j) (f i)).
      destruct (Z.eq_dec j i) as [->|Hne]; [apply F32_ltb_irrefl|].
      apply (F32_not_ltb_below _ m); [|exact E].
      apply (Hlow j). lia.
    + right. exists i. split; [lia|reflexivity].
  - split; [exact Hnan|]. split.
    + intros j Hj. destruct (Z.eq_dec j i) as [->|Hne]; [exact E|]. apply Hlow. lia.
    + destruct Hat as [->|(j & Hj & ->)]; [now left|right]. exists j. split; [lia|reflexivity].
Qed.

Lemma upper_bound_step f start i m :
  0 <= i -> upper_bound_of f start i m ->
  upper_bound_of f start (i + 1) (track_max m (f i)).
Proof.
  intros Hi (Hnan & Hup & Hat). unfold track_max.
  destruct (F32.ltb m (f i)) eqn:E.
  - split; [apply (F32_ltb_not_nan _ _ E)|]. split.
    + intros j Hj.
      destruct (Z.eq_dec j i) as [->|Hne]; [apply F32_ltb_irrefl|].
      apply (F32_not_ltb_above _ m); [|exact E].
      apply (Hup j). lia.
    + right. exists i. split; [lia|reflexivity].
  - split; [exact Hnan|]. split.
    + intros j Hj. destruct (Z.eq_dec j i) as [->|Hne]; [exact E|]. apply Hup. lia.
    + destruct Hat as [->|(j & Hj & ->)]; [now left|right]. exists j. split; [lia|reflexivity].
Qed.

Lemma rescalePositions_bounds_box vertex_positions_data vertex_count vertex_stride_float :
  0 <= vertex_count ->
  bounding_box vertex_positions_data vertex_stride_float vertex_count
    (snd (fst (rescalePositions_bounds vertex_positions_data vertex_count
                 vertex_stride_float)))
    (snd (rescalePositions_bounds vertex_positions_data vertex_count vertex_stride_float)).
Proof.
  intros Hvc. unfold rescalePositions_bounds.
  apply (for_loop_inv
           (fun n (st : list Vector3.t * (float * float * float)
                        * (float * float * float)) =>
              bounding_box vertex_positions_data vertex_stride_float n
                (snd (fst st)) (snd st))).
  - exact Hvc.
  - cbn [fst snd bounding_box].
    repeat split; try (intros; lia); now left.
  - intros i [[r [[m0 m1] m2]] [[x0 x1] x2]] Hi (L0 & L1 & L2 & U0 & U1 & U2).
    cbn [fst snd] in *. unfold bounding_box. cbv zeta.
    fold (coordinate vertex_positions_data vertex_stride_float 0 i).
    fold (track_min m0 (coordinate vertex_positions_data vertex_stride_float 0 i)).
    fold (coordinate vertex_positions_data vertex_stride_float 1 i).
    fold (track_min m1 (coordinate vertex_positions_data vertex_stride_float 1 i)).
    fold (coordinate vertex_positions_data vertex_stride_float 2 i).
    fold (track_min m2 (coordinate vertex_positions_data vertex_stride_float 2 i)).
    fold (track_max x0 (coordinate vertex_positions_data vertex_stride_float 0 i)).
    fold (track_max x1 (coordinate vertex_positions_data vertex_stride_float 1 i)).
    fold (track_max x2 (coordinate vertex_positions_data vertex_stride_float 2 i)).
    split; [apply (lower_bound_step _ _ i m0); [lia|exact L0]|].
    split; [apply (lower_bound_step _ _ i m1); [lia|exact L1]|].
    split; [apply (lower_bound_step _ _ i m2); [lia|exact L2]|].
    split; [apply (upper_bound_step _ _ i x0); [lia|exact U0]|].
    split; [apply (upper_bound_step _ _ i x1); [lia|exact U1]|].
    apply (upper_bound_step _ _ i x2); [lia|exact U2].
Qed.

(** X27: the first loop of rescalePositions computes a bounding box: per
    coordinate, [minv] is not NaN, no position is smaller, and it is the
    coordinate of some vertex unless it still is FLT_MAX; likewise [maxv]
    with no position larger and -FLT_MAX. *)
Theorem rescalePositions_bounding_box (vertex_positions_data : list Z)
  (vertex_count vertex_positions_stride : Z) :
  0 <= vertex_count ->
  bounding_box vertex_positions_data (vertex_positions_stride / 4) vertex_count
    (rescale_minv vertex_positions_data vertex_count vertex_positions_stride)
    (rescale_maxv vertex_positions_data vertex_count vertex_positions_stride).
Proof.
  intros Hvc. unfold rescale_minv, rescale_maxv. now apply rescalePositions_bounds_box.
Qed.

Lemma rescalePositions_bounding_box_witness :
  bounding_box tetra_positions (12 / 4) 4
    (rescale_minv tetra_positions 4 12) (rescale_maxv tetra_positions 4 12).
Proof. apply (rescalePositions_bounding_box tetra_positions 4 12). lia. Defined.

(** ** What the quadric loops accumulate *)

Lemma quadric_at_accumulate cur u Q v :
  0 <= v < len cur ->
  quadric_at (quadric_accumulate cur u Q) v
  = if u =? v then quadricAdd (quadric_at cur v) Q else quadric_at cur v.
Proof.
  intros Hv. unfold quadric_accumulate, quadric_at. rewrite aget_aset.
  destruct (Z.eqb_spec u v) as [->|Hne]; [|reflexivity].
  replace (0 <=? v) with true by (symmetry; apply Z.leb_le; lia).
  replace (v <? len cur) with true by (symmetry; apply Z.ltb_lt; lia).
  reflexivity.
Qed.

Lemma len_accumulate cur u Q : len (quadric_accumulate cur u Q) = len cur.
Proof. unfold quadric_accumulate. apply len_aset. Qed.

Lemma zrange_triangle t :
  0 <= t -> zrange (3 * (t + 1)) = zrange (3 * t) ++ [3 * t + 0; 3 * t + 1; 3 * t + 2].
Proof.
  intros Ht. replace (3 * (t + 1)) with (3 * t + 1 + 1 + 1) by lia.
  rewrite !zrange_succ by lia. rewrite <- !app_assoc. cbn [app].
  now rewrite Z.add_0_r, <- !Z.add_assoc.
Qed.

Lemma corner_div t e : 0 <= e < 3 -> (3 * t + e) / 3 = t.
Proof.
  intros He. rewrite (Z.mul_comm 3 t), Z.add_comm, Z.div_add by lia.
  rewrite Z.div_small by lia. reflexivity.
Qed.

Lemma corner_mod t e : 0 <= e < 3 -> (3 * t + e) mod 3 = e.
Proof.
  intros He. rewrite (Z.mul_comm 3 t), Z.add_comm, Z.mod_add by lia.
  now apply Z.mod_small.
Qed.

Section FaceQuadrics.
Variable vertex_quadrics : list Quadric.
Variable indices : list Z.
Variable index_count : Z.
Variable vertex_positions : list Vector3.t.
Variable remap : list Z.
Hypothesis Hcount : 0 <= index_count.
Hypothesis Hmod : index_count mod 3 = 0.

Lemma fillFaceQuadrics_fold :
  len (fillFaceQuadrics vertex_quadrics indices index_count vertex_positions remap)
  = len vertex_quadrics
  /\ forall v, 0 <= v < len vertex_quadrics ->
       quadric_at
         (fillFaceQuadrics vertex_quadrics indices index_count vertex_positions remap) v
       = fold_left (face_contribution indices vertex_positions remap v)
           (zrange index_count) (quadric_at vertex_quadrics v).
Proof.
  assert (Hn : index_count = 3 * triangle_loops index_count).
  { rewrite triangle_loops_exact by assumption.
    pose proof (Z.div_mod index_count 3 ltac:(lia)) as H. lia. }
  unfold fillFaceQuadrics.
  match goal with
  | |- context [for_loop ?n ?body ?init] => set (result := for_loop n body init)
  end.
  rewrite Hn. subst result.
  apply (for_loop_inv
           (fun t cur =>
              len cur = len vertex_quadrics
              /\ forall v, 0 <= v < len vertex_quadrics ->
                   quadric_at cur v
                   = fold_left (face_contribution indices vertex_positions remap v)
                       (zrange (3 * t)) (quadric_at vertex_quadrics v))).
  - unfold triangle_loops. apply Z.div_pos; lia.
  - split; [reflexivity|]. intros v Hv. reflexivity.
  - intros t cur Ht (Hlen & Hfold).
    cbv zeta. set (Q := quadricFromTriangle _ _ _).
    assert (HQ : triangle_quadric indices vertex_positions t = Q)
      by (subst Q; unfold triangle_quadric; reflexivity).
    clearbody Q.
    rewrite !len_accumulate. split; [exact Hlen|].
    intros v Hv. rewrite zrange_triangle by lia. rewrite fold_left_app.
    rewrite <- (Hfold v Hv). cbn [fold_left]. unfold face_contribution.
    rewrite !corner_div by lia. rewrite HQ.
    rewrite !quadric_at_accumulate by (rewrite ?len_accumulate; lia).
    reflexivity.
Qed.
End FaceQuadrics.

(** X28: fillFaceQuadrics keeps the length of [vertex_quadrics] and adds
    to the quadric of [v], in the order of the index buffer, the quadric of
    the triangle of every corner that [remap] sends to [v]; other quadrics
    are not touched. *)
Theorem fillFaceQuadrics_accumulates (vertex_quadrics : list Quadric) (indices : list Z)
  (index_count : Z) (vertex_positions : list Vector3.t) (remap : list Z) (v : Z) :
  0 <= index_count ->
  index_count mod 3 = 0 ->
  0 <= v < len vertex_quadrics ->
  len (fillFaceQuadrics vertex_quadrics indices index_count vertex_positions remap)
  = len vertex_quadrics
  /\ quadric_at
       (fillFaceQuadrics vertex_quadrics indices index_count vertex_positions remap) v
     = fold_left (face_contribution indices vertex_positions remap v)
         (zrange index_count) (quadric_at vertex_quadrics v)
  /\ ((forall p, 0 <= p < index_count -> geti remap (geti indices p) <> v) ->
      quadric_at
        (fillFaceQuadrics vertex_quadrics indices index_count vertex_positions remap) v
      = quadric_at vertex_quadrics v).
Proof.
  intros Hcount Hmod Hv.
  destruct (fillFaceQuadrics_fold vertex_quadrics indices index_count vertex_positions
              remap Hcount Hmod) as [Hlen Hfold].
  split; [exact Hlen|]. split; [now apply Hfold|].
  intros Hnone. rewrite (Hfold v Hv).
  assert (H : forall l q, (forall p, In p l -> 0 <= p < index_count) ->
            fold_left (face_contribution indices vertex_positions remap v) l q = q).
  { induction l as [|p l IH]; intros q Hl; [reflexivity|]. cbn [fold_left].
    unfold face_contribution at 2.
    replace (geti remap (geti indices p) =? v) with false
      by (symmetry; apply Z.eqb_neq, Hnone, Hl; now left).
    apply IH. intros p' Hp'. apply Hl. now right. }
  apply H. intros p Hp. now apply zrange_In.
Qed.

Lemma fillFaceQuadrics_accumulates_witness :
  len (fillFaceQuadrics (repeat Quadric_zero 2) tetra_indices 12 tetra_rescaled tetra_cells)
  = len (repeat Quadric_zero 2)
  /\ quadric_at
       (fillFaceQuadrics (repeat Quadric_zero 2) tetra_indices 12 tetra_rescaled tetra_cells) 1
     = fold_left (face_contribution tetra_indices tetra_rescaled tetra_cells 1)
         (zrange 12) (quadric_at (repeat Quadric_zero 2) 1)
  /\ ((forall p, 0 <= p < 12 -> geti tetra_cells (geti tetra_indices p) <> 1) ->
      quadric_at
        (fillFaceQuadrics (repeat Quadric_zero 2) tetra_indices 12 tetra_rescaled tetra_cells) 1
      = quadric_at (repeat Quadric_zero 2) 1).
Proof.
  apply (fillFaceQuadrics_accumulates (repeat Quadric_zero 2) tetra_indices 12 tetra_rescaled
           tetra_cells 1).
  - lia.
  - reflexivity.
  - vm_compute. split; [discriminate|reflexivity].
Defined.

Lemma for_loop_3 {St : Type} (f : Z -> St -> St) s : for_loop 3 f s = f 2 (f 1 (f 0 s)).
Proof. reflexivity. Qed.

Lemma for_loop_ext {St : Type} (f g : Z -> St -> St) n s :
  (forall i s, 0 <= i < n -> f i s = g i s) -> for_loop n f s = for_loop n g s.
Proof.
  intros H. unfold for_loop. apply for_from_ext. intros i s' Hi. apply H. lia.
Qed.

Lemma fillEdgeQuadrics_edges vertex_quadrics indices index_count vertex_positions remap
  vertex_kind loop :
  fillEdgeQuadrics vertex_quadrics indices index_count vertex_positions remap vertex_kind loop
  = for_loop (triangle_loops index_count)
      (fun t cur =>
         fillEdgeQuadrics_edge indices vertex_positions remap vertex_kind loop t 2
           (fillEdgeQuadrics_edge indices vertex_positions remap vertex_kind loop t 1
              (fillEdgeQuadrics_edge indices vertex_positions remap vertex_kind loop t 0 cur)))
      vertex_quadrics.
Proof.
  unfold fillEdgeQuadrics. apply for_loop_ext. intros t cur _.
  cbv zeta. rewrite for_loop_3.
  unfold fillEdgeQuadrics_edge, edge_skipped, edge_quadric. reflexivity.
Qed.

Lemma fillEdgeQuadrics_edge_spec indices vertex_positions remap vertex_kind loop t e cur :
  len (fillEdgeQuadrics_edge indices vertex_positions remap vertex_kind loop t e cur)
  = len cur
  /\ forall v, 0 <= v < len cur ->
       quadric_at
         (fillEdgeQuadrics_edge indices vertex_positions remap vertex_kind loop t e cur) v
       = edge_contribution_at indices vertex_positions remap vertex_kind loop v
           (quadric_at cur v) t e.
Proof.
  unfold fillEdgeQuadrics_edge, edge_contribution_at. cbv zeta.
  destruct (edge_skipped vertex_kind loop _ _); [split; [reflexivity|auto]|].
  generalize (edge_quadric indices vertex_positions vertex_kind t e). intros Q.
  rewrite !len_accumulate. split; [reflexivity|].
  intros v Hv. rewrite !quadric_at_accumulate by (rewrite ?len_accumulate; lia).
  reflexivity.
Qed.

Section EdgeQuadrics.
Variable vertex_quadrics : list Quadric.
Variable indices : list Z.
Variable index_count : Z.
Variable vertex_positions : list Vector3.t.
Variable remap : list Z.
Variable vertex_kind : list VertexKind.
Variable loop : list Z.
Hypothesis Hcount : 0 <= index_count.
Hypothesis Hmod : index_count mod 3 = 0.

Lemma fillEdgeQuadrics_fold :
  len (fillEdgeQuadrics vertex_quadrics indices index_count vertex_positions remap
         vertex_kind loop)
  = len vertex_quadrics
  /\ forall v, 0 <= v < len vertex_quadrics ->
       quadric_at
         (fillEdgeQuadrics vertex_quadrics indices index_count vertex_positions remap
            vertex_kind loop) v
       = fold_left (edge_contribution indices vertex_positions remap vertex_kind loop v)
           (zrange index_count) (quadric_at vertex_quadrics v).
Proof.
  assert (Hn : index_count = 3 * triangle_loops index_count).
  { rewrite triangle_loops_exact by assumption.
    pose proof (Z.div_mod index_count 3 ltac:(lia)) as H. lia. }
  rewrite fillEdgeQuadrics_edges.
  match goal with
  | |- context [for_loop ?n ?body ?init] => set (result := for_loop n body init)
  end.
  rewrite Hn. subst result.
  apply (for_loop_inv
           (fun t cur =>
              len cur = len vertex_quadrics
              /\ forall v, 0 <= v < len vertex_quadrics ->
                   quadric_at cur v
                   = fold_left
                       (edge_contribution indices vertex_positions remap vertex_kind loop v)
                       (zrange (3 * t)) (quadric_at vertex_quadrics v))).
  - unfold triangle_loops. apply Z.div_pos; lia.
  - split; [reflexivity|]. intros v Hv. reflexivity.
  - intros t cur Ht (Hlen & Hfold).
    destruct (fillEdgeQuadrics_edge_spec indices vertex_positions remap vertex_kind loop
                t 0 cur) as [L0 S0].
    set (c0 := fillEdgeQuadrics_edge _ _ _ _ _ t 0 cur) in *.
    destruct (fillEdgeQuadrics_edge_spec indices vertex_positions remap vertex_kind loop
                t 1 c0) as [L1 S1].
    set (c1 := fillEdgeQuadrics_edge _ _ _ _ _ t 1 c0) in *.
    destruct (fillEdgeQuadrics_edge_spec indices vertex_positions remap vertex_kind loop
                t 2 c1) as [L2 S2].
    set (c2 := fillEdgeQuadrics_edge _ _ _ _ _ t 2 c1) in *.
    clearbody c0 c1 c2.
    split; [lia|]. intros v Hv.
    rewrite zrange_triangle by lia. rewrite fold_left_app.
    rewrite <- (Hfold v Hv). cbn [fold_left]. unfold edge_contribution.
    rewrite !corner_div, !corner_mod by lia.
    rewrite S2, S1, S0 by lia. reflexivity.
Qed.
End EdgeQuadrics.

(** X29: fillEdgeQuadrics keeps the length of [vertex_quadrics] and adds
    to the quadric of [v], in the order of the index buffer, the edge
    quadric of every half-edge that passes the test (both ends of one kind,
    Kind_Border or Kind_Seam, and [loop[i0] == i1]), once for each end that
    [remap] sends to [v]; when no half-edge passes the test nothing
    changes. *)
Theorem fillEdgeQuadrics_accumulates (vertex_quadrics : list Quadric) (indices : list Z)
  (index_count : Z) (vertex_positions : list Vector3.t) (remap : list Z)
  (vertex_kind : list VertexKind) (loop : list Z) (v : Z) :
  0 <= index_count ->
  index_count mod 3 = 0 ->
  0 <= v < len vertex_quadrics ->
  len (fillEdgeQuadrics vertex_quadrics indices index_count vertex_positions remap
         vertex_kind loop)
  = len vertex_quadrics
  /\ quadric_at
       (fillEdgeQuadrics vertex_quadrics indices index_count vertex_positions remap
          vertex_kind loop) v
     = fold_left (edge_contribution indices vertex_positions remap vertex_kind loop v)
         (zrange index_count) (quadric_at vertex_quadrics v)
  /\ ((forall t e, 0 <= t -> 3 * t + 2 < index_count -> 0 <= e < 3 ->
         edge_skipped vertex_kind loop (geti indices (3 * t + e))
           (geti indices (3 * t + next3 e)) = true) ->
      quadric_at
        (fillEdgeQuadrics vertex_quadrics indices index_count vertex_positions remap
           vertex_kind loop) v
      = quadric_at vertex_quadrics v).
Proof.
  intros Hcount Hmod Hv.
  destruct (fillEdgeQuadrics_fold vertex_quadrics indices index_count vertex_positions
              remap vertex_kind loop Hcount Hmod) as [Hlen Hfold].
  split; [exact Hlen|]. split; [now apply Hfold|].
  intros Hskip. rewrite (Hfold v Hv).
  assert (H : forall l q, (forall p, In p l -> 0 <= p < index_count) ->
            fold_left (edge_contribution indices vertex_positions remap vertex_kind loop v)
              l q = q).
  { induction l as [|p l IH]; intros q Hl; [reflexivity|]. cbn [fold_left].
    rewrite IH by (intros p' Hp'; apply Hl; now right).
    unfold edge_contribution, edge_contribution_at. cbv zeta.
    pose proof (Hl p ltac:(now left)) as Hp.
    pose proof (Z.div_mod p 3 ltac:(lia)) as Hdm.
    pose proof (Z.mod_pos_bound p 3 ltac:(lia)) as Hm.
    pose proof (Z.div_mod index_count 3 ltac:(lia)) as Hdn.
    rewrite Hskip; [reflexivity| | |lia].
    - apply Z.div_pos; lia.
    - assert (p / 3 < index_count / 3) by (apply Z.div_lt_upper_bound; lia). lia. }
  apply H. intros p Hp. now apply zrange_In.
Qed.

Lemma fillEdgeQuadrics_accumulates_witness :
  len (fillEdgeQuadrics (repeat Quadric_zero 4) quad_indices 6 quad_rescaled
         quad_identity quad_kinds quad_loop)
  = len (repeat Quadric_zero 4)
  /\ quadric_at
       (fillEdgeQuadrics (repeat Quadric_zero 4) quad_indices 6 quad_rescaled
          quad_identity quad_kinds quad_loop) 1
     = fold_left
         (edge_contribution quad_indices quad_rescaled quad_identity quad_kinds
            quad_loop 1)
         (zrange 6) (quadric_at (repeat Quadric_zero 4) 1)
  /\ ((forall t e, 0 <= t -> 3 * t + 2 < 6 -> 0 <= e < 3 ->
         edge_skipped quad_kinds quad_loop (geti quad_indices (3 * t + e))
           (geti quad_indices (3 * t + next3 e)) = true) ->
      quadric_at
        (fillEdgeQuadrics (repeat Quadric_zero 4) quad_indices 6 quad_rescaled
           quad_identity quad_kinds quad_loop) 1
      = quadric_at (repeat Quadric_zero 4) 1).
Proof.
  apply (fillEdgeQuadrics_accumulates (repeat Quadric_zero 4) quad_indices 6 quad_rescaled
           quad_identity quad_kinds quad_loop 1).
  - lia.
  - reflexivity.
  - vm_compute. split; [discriminate|reflexivity].
Defined.

(** ** What a run depends on *)

Lemma for_from_opt_ext_inv {St : Type} (P : St -> Prop) (f g : Z -> St -> option St) n i s :
  P s ->
  (forall j s, i <= j < i + Z.of_nat n -> P s ->
     f j s = g j s /\ forall s', f j s = Some s' -> P s') ->
  for_from_opt n i f s = for_from_opt n i g s.
Proof.
  revert i s. induction n as [|n IH]; intros i s Hs Hstep; [reflexivity|].
  cbn [for_from_opt]. destruct (Hstep i s ltac:(lia) Hs) as [E Hnext]. rewrite <- E.
  destruct (f i s) as [s'|]; [|reflexivity].
  apply IH; [now apply Hnext|]. intros j s0 Hj. apply Hstep. lia.
Qed.

Lemma for_loop_opt_ext_inv {St : Type} (P : St -> Prop) (f g : Z -> St -> option St) n s :
  P s ->
  (forall j s, 0 <= j < n -> P s ->
     f j s = g j s /\ forall s', f j s = Some s' -> P s') ->
  for_loop_opt n f s = for_loop_opt n g s.
Proof.
  intros Hs Hstep. unfold for_loop_opt. apply (for_from_opt_ext_inv P); [exact Hs|].
  intros j s0 Hj. apply Hstep. lia.
Qed.

Section PositionsAgree.
Variables data data' : list Z.
Variables vertex_count vertex_positions_stride : Z.
Hypothesis Hagree :
  positions_agree data data' (vertex_positions_stride / 4) vertex_count.

Lemma PositionHasher_hash_agree a :
  0 <= a < vertex_count ->
  PositionHasher_hash data (vertex_positions_stride / 4) a = PositionHasher_hash data' (vertex_positions_stride / 4) a.
Proof.
  intros Ha. unfold PositionHasher_hash, for_loop. apply for_from_ext.
  intros i h Hi. rewrite (Hagree a i Ha) by (cbn in Hi; lia). reflexivity.
Qed.

Lemma PositionHasher_equal_agree a b :
  0 <= a < vertex_count -> 0 <= b < vertex_count ->
  PositionHasher_equal data (vertex_positions_stride / 4) a b = PositionHasher_equal data' (vertex_positions_stride / 4) a b.
Proof.
  intros Ha Hb. unfold PositionHasher_equal.
  rewrite !(Hagree a) by lia. rewrite !(Hagree b) by lia. reflexivity.
Qed.

Lemma hashLookup2_probe_agree table key fuel hashmod bucket probe :
  table_items vertex_count table ->
  0 <= key < vertex_count ->
  hashLookup2_probe Z.eqb (PositionHasher data (vertex_positions_stride / 4)) 0 fuel table hashmod bucket probe
    key NONE32
  = hashLookup2_probe Z.eqb (PositionHasher data' (vertex_positions_stride / 4)) 0 fuel table hashmod bucket probe
      key NONE32.
Proof.
  intros Htab Hkey. revert bucket probe.
  induction fuel as [|fuel IH]; intros bucket probe; [reflexivity|].
  cbn [hashLookup2_probe].
  destruct (Z.eqb_spec (aget 0 table bucket) NONE32) as [E|E]; [reflexivity|].
  assert (Hitem : aget 0 table bucket = NONE32 \/ 0 <= aget 0 table bucket < vertex_count).
  { apply (Forall_aget (fun x => x = NONE32 \/ 0 <= x < vertex_count)); [exact Htab|].
    right. lia. }
  destruct Hitem as [|Hitem]; [contradiction|].
  cbn [PositionHasher equal].
  rewrite (PositionHasher_equal_agree _ _ Hitem Hkey).
  destruct (PositionHasher_equal data' (vertex_positions_stride / 4) (aget 0 table bucket) key); [reflexivity|].
  apply IH.
Qed.

Lemma hashLookup2_agree table buckets key :
  table_items vertex_count table ->
  0 <= key < vertex_count ->
  hashLookup2 Z.eqb (PositionHasher data (vertex_positions_stride / 4)) 0 table buckets key NONE32
  = hashLookup2 Z.eqb (PositionHasher data' (vertex_positions_stride / 4)) 0 table buckets key NONE32.
Proof.
  intros Htab Hkey. unfold hashLookup2. cbn [PositionHasher hash].
  rewrite (PositionHasher_hash_agree key Hkey).
  now apply hashLookup2_probe_agree.
Qed.

Lemma u32_vertex i : 0 <= i < vertex_count -> 0 <= u32 i < vertex_count.
Proof.
  intros Hi. unfold u32.
  pose proof (Z.mod_pos_bound i (2 ^ 32) ltac:(lia)).
  pose proof (Z.mod_le i (2 ^ 32) ltac:(lia) ltac:(lia)). lia.
Qed.

Lemma buildPositionRemap_insert_agree table_size i st :
  0 <= i < vertex_count ->
  table_items vertex_count (fst st) ->
  buildPositionRemap_insert (PositionHasher data (vertex_positions_stride / 4)) table_size i st
  = buildPositionRemap_insert (PositionHasher data' (vertex_positions_stride / 4)) table_size i st
  /\ forall st',
       buildPositionRemap_insert (PositionHasher data (vertex_positions_stride / 4)) table_size i st = Some st' ->
       table_items vertex_count (fst st').
Proof.
  intros Hi. destruct st as [table remap]. cbn [fst]. intros Htab.
  unfold buildPositionRemap_insert.
  rewrite (hashLookup2_agree table table_size (u32 i) Htab (u32_vertex i Hi)).
  split; [reflexivity|].
  destruct (hashLookup2 _ _ _ _ _ _ _) as [entry|]; cbn [bind]; [|discriminate].
  intros st' E. injection E as <-. cbn [fst].
  destruct (geti table entry =? NONE32); [|exact Htab].
  apply Forall_aset; [exact Htab|]. right. now apply u32_vertex.
Qed.

(** The position remap and the wedge table read the positions only. *)
Lemma buildPositionRemap_agree :
  buildPositionRemap data vertex_count vertex_positions_stride
  = buildPositionRemap data' vertex_count vertex_positions_stride.
Proof.
  unfold buildPositionRemap.
  destruct (hashBuckets2 vertex_count) as [table_size|]; [|reflexivity]. cbn [bind].
  rewrite (for_loop_opt_ext_inv (fun st => table_items vertex_count (fst st))
             (buildPositionRemap_insert (PositionHasher data (vertex_positions_stride / 4)) table_size)
             (buildPositionRemap_insert (PositionHasher data' (vertex_positions_stride / 4)) table_size)).
  - reflexivity.
  - cbn [fst]. unfold table_items. apply Forall_forall. intros x Hx.
    apply repeat_spec in Hx. now left.
  - intros j st Hj Hst. now apply buildPositionRemap_insert_agree.
Qed.

Lemma rescalePositions_bounds_agree :
  rescalePositions_bounds data vertex_count (vertex_positions_stride / 4)
  = rescalePositions_bounds data' vertex_count (vertex_positions_stride / 4).
Proof.
  unfold rescalePositions_bounds. apply for_loop_ext.
  intros i [[result [[min0 min1] min2]] [[max0 max1] max2]] Hi.
  unfold position_float. rewrite !(Hagree i) by lia. reflexivity.
Qed.

(** The rescaled positions read the positions only. *)
Lemma rescalePositions_agree :
  rescalePositions data vertex_count vertex_positions_stride
  = rescalePositions data' vertex_count vertex_positions_stride.
Proof.
  unfold rescalePositions. now rewrite rescalePositions_bounds_agree.
Qed.

Lemma simplify_prepare_agree indices index_count :
  simplify_prepare indices index_count data vertex_count vertex_positions_stride
  = simplify_prepare indices index_count data' vertex_count vertex_positions_stride.
Proof.
  unfold simplify_prepare. now rewrite buildPositionRemap_agree, rescalePositions_agree.
Qed.

Lemma meshopt_simplify_agree fuel indices index_count target_index_count target_error :
  meshopt_simplify fuel indices index_count data vertex_count vertex_positions_stride
    target_index_count target_error
  = meshopt_simplify fuel indices index_count data' vertex_count vertex_positions_stride
      target_index_count target_error.
Proof. unfold meshopt_simplify. now rewrite simplify_prepare_agree. Qed.
End PositionsAgree.

Lemma meshopt_simplifySloppy_agree destination destination' indices index_count data data'
  vertex_count vertex_positions_stride target_index_count target_error target_error' :
  valid_input indices index_count vertex_count ->
  0 <= target_index_count <= index_count ->
  positions_agree data data' (vertex_positions_stride / 4) vertex_count ->
  index_count <= len destination ->
  index_count <= len destination' ->
  exists result result' write,
    meshopt_simplifySloppy destination indices index_count data vertex_count
      vertex_positions_stride target_index_count target_error = Some (result, write)
    /\ meshopt_simplifySloppy destination' indices index_count data' vertex_count
         vertex_positions_stride target_index_count target_error' = Some (result', write)
    /\ (forall p, 0 <= p < write -> geti result p = geti result' p)
    /\ (forall p, write <= p ->
          geti result p = geti destination p /\ geti result' p = geti destination' p).
Proof.
  intros Hvalid Htarget Hagree Hroom Hroom'.
  pose proof (valid_input_buffer _ _ _ Hvalid) as (Hb & _ & _).
  destruct Hvalid as (Hlen & Hmod & Hic & Hvc & Hall).
  unfold meshopt_simplifySloppy.
  rewrite <- (rescalePositions_agree data data' vertex_count vertex_positions_stride Hagree).
  destruct (Z.eqb_spec (target_index_count / 6) 0) as [Hz|Hnz].
  { exists destination, destination', 0. split; [reflexivity|]. split; [reflexivity|].
    split; [intros; lia|auto]. }
  assert (H263 : 2 ^ 32 <= 2 ^ 63) by (apply Z.pow_le_mono_r; lia).
  destruct (hashBuckets2_pow2 vertex_count) as (n & Hn & -> & Hsize); [lia|].
  cbn [bind].
  destruct (hashBuckets2_pow2 (target_index_count / 6 * 4)) as (n' & Hn' & -> & Hsize').
  { assert (target_index_count / 6 <= target_index_count)
      by (apply Z.div_le_upper_bound; lia).
    change (2 ^ 63) with (2 ^ 32 * 2147483648). lia. }
  cbn [bind].
  set (vertex_positions := rescalePositions _ _ _).
  set (vertex_ids := sloppy_vertex_ids _ _).
  set (mask := sloppy_find_mask _ _ _ _).
  destruct (sloppy_fill_cells_ok vertex_ids vertex_count n mask Hvc ltac:(lia) Hsize)
    as (vertex_cells & cell_count & -> & _).
  cbn [bind].
  set (cell_quadrics := fillFaceQuadrics _ _ _ _ _).
  set (cell_remap := sloppy_cell_remap _ _ _ _ _).
  pose proof (sloppy_emit_exact_spec destination indices cell_remap vertex_cells index_count
                ltac:(lia) Hmod) as (_ & Hw & Hkept & Hrest).
  pose proof (sloppy_emit_exact_spec destination' indices cell_remap vertex_cells index_count
                ltac:(lia) Hmod) as (_ & Hw' & Hkept' & Hrest').
  destruct (sloppy_emit destination indices index_count cell_remap vertex_cells)
    as [result write].
  destruct (sloppy_emit destination' indices index_count cell_remap vertex_cells)
    as [result' write'].
  cbn [fst snd] in *.
  subst write write'.
  exists result, result',
    (3 * len (cell_kept_triangles cell_remap vertex_cells indices index_count)).
  split; [reflexivity|]. split; [reflexivity|]. split.
  - intros p Hp.
    pose proof (Z.div_mod p 3 ltac:(lia)) as Hdm.
    pose proof (Z.mod_pos_bound p 3 ltac:(lia)) as Hm.
    assert (Hj : 0 <= p / 3
                 < len (cell_kept_triangles cell_remap vertex_cells indices index_count)).
    { split; [apply Z.div_pos; lia|]. apply Z.div_lt_upper_bound; lia. }
    rewrite Hdm. rewrite (Hkept _ _ Hj Hm), (Hkept' _ _ Hj Hm). reflexivity.
  - intros p Hp. split; [now apply Hrest|now apply Hrest'].
Qed.

(** C9.  A run of either entry point is determined by what the entry point
    is specified to read: the index buffer, the counts, the stride, the
    target and the three position words of every vertex.  Two runs that
    agree on these return the same count and leave the same indices in the
    destination, whatever else differs between them: the words of the
    vertex buffer that are not positions, for meshopt_simplifySloppy the
    previous contents of the destination and [target_error] as well.
    meshopt_simplify returns, with enough fuel, one and the same final
    state in both runs; meshopt_simplifySloppy returns the same count and
    the same indices below it, and leaves each destination as it was from
    that count on. *)
Theorem simplifiers_deterministic (fuel : nat) (indices : list Z) (index_count : Z)
  (data data' : list Z) (vertex_count vertex_positions_stride : Z)
  (target_index_count sloppy_target : Z) (target_error sloppy_error sloppy_error' : float)
  (destination destination' : list Z) :
  valid_input indices index_count vertex_count ->
  index_count < 3 * Z.of_nat fuel ->
  0 <= sloppy_target <= index_count ->
  positions_agree data data' (vertex_positions_stride / 4) vertex_count ->
  index_count <= len destination ->
  index_count <= len destination' ->
  (exists final,
     meshopt_simplify fuel indices index_count data vertex_count vertex_positions_stride
       target_index_count target_error = Some final
     /\ meshopt_simplify fuel indices index_count data' vertex_count vertex_positions_stride
          target_index_count target_error = Some final)
  /\ (exists result result' write,
        meshopt_simplifySloppy destination indices index_count data vertex_count
          vertex_positions_stride sloppy_target sloppy_error = Some (result, write)
        /\ meshopt_simplifySloppy destination' indices index_count data' vertex_count
             vertex_positions_stride sloppy_target sloppy_error' = Some (result', write)
        /\ (forall p, 0 <= p < write -> geti result p = geti result' p)
        /\ (forall p, write <= p ->
              geti result p = geti destination p
              /\ geti result' p = geti destination' p)).
Proof.
  intros Hvalid Hfuel Htarget Hagree Hroom Hroom'. split.
  - destruct (meshopt_simplify_returns indices index_count data vertex_count
                vertex_positions_stride target_index_count target_error Hvalid)
      as (final & _ & Hrun).
    exists final. split; [now apply Hrun|].
    rewrite <- (meshopt_simplify_agree data data' vertex_count vertex_positions_stride
                  Hagree).
    now apply Hrun.
  - now apply meshopt_simplifySloppy_agree.
Qed.

Lemma tetra_vertices_agree : positions_agree tetra_vertices tetra_vertices' (16 / 4) 4.
Proof.
  intros i k Hi Hk.
  assert (Hci : i = 0 \/ i = 1 \/ i = 2 \/ i = 3) by lia.
  assert (Hck : k = 0 \/ k = 1 \/ k = 2) by lia.
  destruct Hci as [ -> | [ -> | [ -> | -> ] ] ], Hck as [ -> | [ -> | -> ] ]; reflexivity.
Qed.

Lemma simplifiers_deterministic_witness :
  meshopt_simplifySloppy emit_destination tetra_indices 12 tetra_vertices 4 16 12 F32.one
  = Some ([0; 3; 2; 0; 2; 3; 9; 9; 9; 9; 9; 9], 6)
  /\ meshopt_simplifySloppy zeros_destination tetra_indices 12 tetra_vertices' 4 16 12
       F32.zero
     = Some ([0; 3; 2; 0; 2; 3; 0; 0; 0; 0; 0; 0], 6)
  /\ (exists final,
        meshopt_simplify 5 tetra_indices 12 tetra_vertices 4 16 6 F32.one = Some final
        /\ meshopt_simplify 5 tetra_indices 12 tetra_vertices' 4 16 6 F32.one = Some final)
  /\ (exists result result' write,
        meshopt_simplifySloppy emit_destination tetra_indices 12 tetra_vertices 4 16 12
          F32.one = Some (result, write)
        /\ meshopt_simplifySloppy zeros_destination tetra_indices 12 tetra_vertices' 4 16 12
             F32.zero = Some (result', write)
        /\ (forall p, 0 <= p < write -> geti result p = geti result' p)
        /\ (forall p, write <= p ->
              geti result p = geti emit_destination p
              /\ geti result' p = geti zeros_destination p)).
Proof.
  split; [vm_compute; reflexivity|]. split; [vm_compute; reflexivity|].
  apply (simplifiers_deterministic 5 tetra_indices 12 tetra_vertices tetra_vertices' 4 16
           6 12 F32.one F32.one F32.zero emit_destination zeros_destination).
  - exact tetra_valid.
  - lia.
  - lia.
  - exact tetra_vertices_agree.
  - vm_compute. discriminate.
  - vm_compute. discriminate.
Defined.
